(* ===== verification/_CoqProject ===== *)
-Q . S2P
Prelude.v
RustStd.v
RustText.v
Errors.v
StunMessage.v
Ports.v
PortRace.v
Channels.v
Bandwidth.v
BandwidthRace.v
Auth.v
Alloc.v
Framing.v
Crypto.v
ShortTerm.v
Metrics.v
StatsDump.v
Serde.v
Config.v
Server.v
ServerSpec.v
Typing.v
System.v
TurnSpec.v
HandlerRace.v
Panics.v
RaceSafety.v
Listeners.v
Delivery.v
Admin.v
AdminSpec.v
OAuth.v
Sds.v
Tls.v
Startup.v
AdminRace.v
UnitTests.v
UnitTestsCore.v
UnitTestsServer.v
UnitTestsAdmin.v
