(* ===== verification/Prelude.v ===== *)
(** * miuturn: a verification library for the TURN/STUN relay server

    miuturn (src/src/, Rust) is a TURN server.  Clients reach it over UDP, TCP,
    TLS or DTLS; it answers STUN Binding, authenticates TURN requests with
    long-term credentials, hands each client a relay address backed by its own
    UDP socket and task, and relays datagrams between the client and the peers
    the client permits or binds to channels.  An optional HTTP interface shares
    the user and rule tables with the server and saves them to the
    configuration file; certificates come from files, ACME or an SDS server.

    ** The parts and the files that model them

    - Prelude (this file): [result] and [outcome] (a run that returns or
      panics), machine words as [Z] with their wrap-around written out, byte
      and slice access, clocks, [HashOrder] (a HashMap yields its entries in
      an unspecified order; theorems hold for each), tactics, hints and lemmas.
    - RustStd: what the code uses of Rust's standard library: strings as UTF-8
      bytes, [from_utf8_lossy], decimal printing and parsing, [split], socket
      addresses and their text, stable [sort_by].
    - RustText: more of it: searching and slicing of [str] (a slice inside a
      character panics), [trim], UTF-8 validation, the order of strings, and
      the address parsers of core::net.
    - Errors (errors.rs): the error type and its text.
    - StunMessage (message.rs): header, attributes, messages, XOR addresses,
      error and success responses, the Binding fast path.
    - Ports (allocation.rs, [PortAllocator]): the bitmap of relay ports with
      its compare-exchange loops; [PortPool] is the interface it offers, a
      finite set of ports, and [PortAllocator_pool] discharges it.
    - PortRace (allocation.rs, [PortAllocator]): the same two functions as
      threads of atomic operations that interleave in any order.
    - Channels (allocation.rs, [ChannelTable]): channel bindings.
    - Bandwidth (bandwidth.rs): token buckets, trackers, the manager.
    - BandwidthRace (bandwidth.rs, [BandwidthLimiter]): concurrent callers of a
      token bucket, step by step, with the clock running between the steps.
    - Auth (auth.rs): users, API keys, IP access rules.
    - Alloc (allocation.rs): allocations, statistics, client transports, the
      allocation table (proved against [PortPool]), the relay task.
    - Framing (server.rs): STUN and ChannelData frames on byte streams.
    - Crypto: HMAC-SHA1, MD5 and hex as parameters with their documented laws
      ([Crypto], [CryptoLaws]) and a toy instance the examples run with.
    - ShortTerm (short_term.rs): TURN REST credentials.
    - Metrics (metrics.rs): counters and the Prometheus text.
    - StatsDump (server.rs): the task that logs the statistics and its text;
      [TurnServerHandle].
    - Serde (config.rs): what the derived (de)serialisation of a struct does,
      between its fields and the value a document denotes.
    - Config (config.rs): the configuration's structures and defaults, their
      serialisation field by field, load and save; [Toml] is the parameter for
      the text of a document, [FileSystem] the files.
    - Server (server.rs): the server state, authentication, the request
      handlers, the transports' entry points and the background tasks.
    - ServerSpec: the properties of request handling.
    - Typing: what responses and datagrams are made of.
    - System (server.rs): atomic actions of the running server and what they
      can reach, connection loops, the UDP worker pool.
    - TurnSpec: the abstract TURN server (clients, sessions, permissions,
      channels), the abstraction from a server state to it, and the refinement.
    - HandlerRace (server.rs, allocation.rs): each request handler as the
      sequence of its atomic sections, what it does under one lock or in one
      call of the port allocator; a bind or send suspends between sections.
    - Panics: which requests unwind, and that they have changed nothing.
    - RaceSafety: any number of such requests interleaved with each other and
      the background; the ownership logic of what a request in flight holds.
    - Listeners (server.rs): what [run_udp], [run_tcp], [run_tls] and [run_dtls]
      start, the accept loops, the UDP workers with receive errors and panics.
    - Delivery (allocation.rs, server.rs): from a peer's datagram through the
      relay task and the stream sender to the frames the client reads.
    - Admin (health.rs): routes, address filter, sessions, user and rule
      administration, the REST credential endpoints, saving.  AdminSpec: its
      properties, with the TURN side's view of the shared tables.  AdminRace:
      concurrent changes, with the save in the steps it takes.
    - OAuth (oauth.rs): bearer token validation; [Jwt] is the parameter for
      base64 and HMAC-SHA256.
    - Sds (sds.rs): the certificate subscription over what a gRPC stream
      yields; [Protobuf] decodes secrets.
    - Tls (tls.rs): PEM and key handling, the certificate cache, SDS watchers,
      the ACME order and its HTTP-01 server; [Pki] is the parameter for the PKI
      crates.
    - Startup (main.rs): from the configuration file to the running parts, the
      composition of Config, Server, Auth, Tls and Admin.
    - UnitTests (allocation.rs), UnitTestsCore (auth.rs, bandwidth.rs,
      message.rs, metrics.rs, short_term.rs), UnitTestsServer (server.rs) and
      UnitTestsAdmin (config.rs, health.rs, oauth.rs, sds.rs, tls.rs): the
      crate's own unit tests, translated and run on the model.

    ** How code becomes definitions

    A struct is a Record, an enum an Inductive, a method a function that takes
    and returns the state; names are the source's, with the type in front
    where Rocq needs them apart ([ChannelTable_bind] is [ChannelTable::bind]).
    Server runs a handler in one step; HandlerRace splits it into its atomic
    sections and shows that a request alone is that step
    ([request_alone_is_handler]).  In the same way the lock-free port allocator
    is modelled operation by operation in PortRace, where a lone thread is
    shown to be the one-step function ([solo_is_sequential]), the token bucket
    in BandwidthRace ([alone_is_try_consume]) and saving in AdminRace
    ([change_alone_is_handler]).  Integer arithmetic wraps, as in the
    release profile; an index or slice out of range, a [Buf] read past the end
    and a division by zero are [Panic].  What comes from outside is an
    argument: clock readings ([now], [MsgEnv], [CreateEnv]), random draws, the
    results of binds, sends and writes, what a gRPC stream or a file yields, and, for [compare_exchange_weak], the
    schedule [weak] of spurious failures.  Datagrams handed to sockets are
    returned as [Packet]s.  Logging is left out.  A sweep over a table reads
    the clock once where the source reads it for every entry, and a file that
    cannot be read gives the error text of an absent one.

    ** Bounds and fuel

    The attribute loop of [Message_parse], [raw_attributes], [drain_frames]
    and [serve_buffer] recurse on fuel of one more than the length of their
    input; each turn consumes at least four bytes, and [parse_loop_terminates],
    [drain_fuel] and [serve_buffer_frames] show the fuel is never what stops
    them.  The bind loop recurses on the attempts left of the source's 100.
    [dec_string] prints with 20 digits, enough for any 64-bit word.
    [strip_ws] recurses on the length of its text and drops a byte per turn.
    A request has at most 212 sections ([request_ends_under_interference]).
    In the tests 2000 scheduling turns are enough for the four port threads.
    A lone call of the bucket needs four steps more than exchanges that fail.
    A lone port thread has fuel as an existential ([solo_gives]); the watch
    loops recurse on what the stream has yielded so far.

    ** What the theorems show

    - StunMessage: encode and parse are inverse, parsing terminates, XOR
      addresses round-trip, errors carry their code, the Binding fast path is
      the general encoder (for IPv4).
    - Ports: [allocate] and [release] refine the set of ports in use for every
      random draw and every schedule of spurious failures.
    - PortRace: under every interleaving no port is held twice, and at rest the
      bitmap and the counter agree with what callers hold.
    - Channels, Bandwidth, Auth: lookup after bind, the invariant of the
      table; the bytes a token bucket lets through are bounded by burst plus
      rate times time; subnets match by prefix and priority decides.
    - BandwidthRace: with [n] concurrent callers the bytes are bounded by burst
      plus [n * (n + 1) / 2] times rate times time, whatever the interleaving,
      and two callers reach the bound.
    - Config: a saved configuration is loaded as it was; what a document must
      have, and that every accepted number fits its field.
    - Alloc: no port, tracker or task is leaked or shared by any operation;
      creation, removal, sweep and permissions do exactly what they should.
    - Framing and System: streams reassemble whatever the segmentation, a
      connection's effect depends only on its bytes, the worker pool keeps
      each client's order, and every reachable server state is consistent
      (one allocation per client, no orphaned channel binding).
    - TurnSpec: the server refines the abstract one; a datagram touches only the
      session of its own client; in every run relay addresses are the external
      address with a port of the range, distinct clients have distinct ones,
      allocations are no more than the range has ports and the quota allows,
      and channels live ten minutes ([runs_stay_in_bounds]).
    - Panics: a request panics exactly if one of three attributes is too short
      ([panics_exactly]), without a trace in the server.
    - HandlerRace and RaceSafety: interleaved requests end, leak and share
      nothing; a request that acts on a relayed address it looked up before can
      hit another client's allocation.
    - Listeners: what the UDP listener does is the sequential handling of the
      datagrams its workers took, per client in the order of arrival, without
      loss below the size of a queue, each turn of a live worker handling the head
      of its queue ([udp_listener_runs_server]); a panic silences a worker for
      good, an accept error ends a stream listener.
    - Delivery: a client on a stream reads exactly what its peers sent, as long
      as its channel numbers are channel numbers, which the server does not check.
    - ServerSpec: a request is accepted exactly when authorised, an
      unauthorised one changes nothing, the 401 challenge leads to acceptance,
      Allocate, Refresh, CreatePermission with Send, and ChannelData do what
      the protocol asks.
    - Typing: responses are bytes, whole words long, with the id of the request.
    - AdminSpec: nothing happens without a session or from outside the ACL,
      changes reach TURN authentication at once, answers hide passwords.
    - AdminRace: overlapping saves can lose a change, mix two texts or replace
      the rest of the configuration by the defaults; while a user is updated it
      is unknown to TURN authentication.
    - OAuth: tokens are decided by their claims and the key; the field search
      is member access on flat JSON.
    - Sds and Tls: which certificate a fetch gives, updates are applied before
      they are acknowledged, the cache round-trips, the resolver keeps the last
      good certificate.
    - Startup: a server that comes up satisfies the invariant; a start ends in
      a certificate error, a panic on a listen address, or exactly the
      configured listeners, one each and in order, with their certificates
      ([startup_outcomes]); saved changes survive a restart.
    - The UnitTests files state no property of the program: their [_tests_pass]
      lemmas run the crate's unit tests on the model, as a regression check of
      the definitions against what the program's authors expect.
    - Some theorems state behaviour that departs from the documentation or the
      protocol (panics on short attributes, the lifetime clock on Refresh,
      unchecked peer traffic, the quota race, the constant session cookie, the
      fixed default password and others).

    ** Not modelled

    The sockets, the TLS and DTLS stacks, axum's routing and request decoding,
    the gRPC transport and generated protobuf code, logging and signals, which
    are I/O or third-party code (so [main] starts after the logging set-up,
    which can itself end the run when its file does not open); lib.rs, which only re-exports; Debug
    implementations; the console pages, the command line tool and the tests
    under tests/, which drive the server as a process.  Of the unit tests those
    of Debug output, of printed TOML text and of key generation are left out.  In HandlerRace
    authentication is one section, since the only thing it writes, a fresh
    nonce, does not depend on what it reads. *)

From Stdlib Require Export ZArith Lia.
From stdpp Require Export base tactics option list list_numbers gmap sets strings countable.

Global Open Scope Z_scope.
Global Set Default Goal Selector "!".

(** ** Outcomes of effectful code

    [result] is Rust's [Result]; [outcome] separates a run that returns from
    one that unwinds through a panic (an out-of-range index, a [Buf] read past
    the end, a division by zero).  Both are monads in stdpp's sense, so the
    handlers use the [x ← m; k] notation. *)

Inductive result (A E : Type) : Type :=
| Ok (a : A)
| Err (e : E).
Arguments Ok {A E} a.
Arguments Err {A E} e.

Definition is_ok {A E} (r : result A E) : bool :=
  match r with Ok _ => true | Err _ => false end.

Inductive outcome (A : Type) : Type :=
| Ret (a : A)
| Panic.
Arguments Ret {A} a.
Arguments Panic {A}.

#[global] Instance outcome_ret : MRet outcome := λ A a, Ret a.
#[global] Instance outcome_bind : MBind outcome := λ A B f m,
  match m with Ret a => f a | Panic => Panic end.
#[global] Instance outcome_fmap : FMap outcome := λ A B f m,
  match m with Ret a => Ret (f a) | Panic => Panic end.

Definition returns {A} (m : outcome A) : Prop := ∃ a, m = Ret a.

(** ** Machine integers

    A [w]-bit unsigned integer is a [Z] in [0, 2^w); every operation that can
    leave the range says what the compiled code does there.  Plain [+], [-]
    and [*] wrap (the release profile the Makefile and the Dockerfile build);
    [as] casts truncate; the [saturating_*] family clamps. *)

Abbreviation U8_MAX := 255.
Abbreviation U16_MAX := 65535.
Abbreviation U32_MAX := 4294967295.
Abbreviation U64_MAX := 18446744073709551615.

Definition wrap (w x : Z) : Z := x mod 2 ^ w.
Definition as_u8 : Z → Z := wrap 8.
Definition as_u16 : Z → Z := wrap 16.
Definition as_u32 : Z → Z := wrap 32.
Definition as_u64 : Z → Z := wrap 64.

Definition saturating_add (m x y : Z) : Z := Z.min m (x + y).
Definition saturating_mul (m x y : Z) : Z := Z.min m (x * y).
Definition saturating_sub (x y : Z) : Z := Z.max 0 (x - y).

Definition in_u8 (x : Z) : Prop := 0 ≤ x < 256.
Definition in_u16 (x : Z) : Prop := 0 ≤ x < 65536.
Definition in_u32 (x : Z) : Prop := 0 ≤ x < 4294967296.
Definition in_u64 (x : Z) : Prop := 0 ≤ x < 18446744073709551616.

Definition bytes_ok (l : list Z) : Prop := Forall in_u8 l.

#[global] Instance in_u8_dec x : Decision (in_u8 x).
Proof. unfold in_u8. apply _. Defined.
#[global] Instance in_u16_dec x : Decision (in_u16 x).
Proof. unfold in_u16. apply _. Defined.
#[global] Instance in_u32_dec x : Decision (in_u32 x).
Proof. unfold in_u32. apply _. Defined.
#[global] Instance in_u64_dec x : Decision (in_u64 x).
Proof. unfold in_u64. apply _. Defined.
#[global] Instance bytes_ok_dec l : Decision (bytes_ok l).
Proof. unfold bytes_ok. apply _. Defined.

(** Big-endian words, [u16::from_be_bytes] and [BufMut::put_u16] and their
    32-bit versions. *)
Definition be16 (a b : Z) : Z := a * 256 + b.
Definition be32 (a b c d : Z) : Z := ((a * 256 + b) * 256 + c) * 256 + d.
Definition put_u8 (x : Z) : list Z := [x].
Definition put_u16 (x : Z) : list Z := [x / 256 mod 256; x mod 256].
Definition put_u32 (x : Z) : list Z :=
  [x / 16777216 mod 256; x / 65536 mod 256; x / 256 mod 256; x mod 256].

(** A checked index: the accessor behind a length guard.  [byte_at] gives 0
    out of range, and every use of it in the models sits behind the guard the
    source has; an unguarded index goes through [index], which panics. *)
Definition byte_at (l : list Z) (i : nat) : Z := nth i l 0.
Definition index {A} (l : list A) (i : nat) : outcome A :=
  match l !! i with Some a => Ret a | None => Panic end.
(** [&l[a..b]] *)
Definition slice {A} (l : list A) (a b : nat) : list A := take (b - a) (drop a l).
#[global] Arguments slice : simpl never.
(** [l[..n]], which panics when [n] exceeds the length. *)
Definition slice_to {A} (l : list A) (n : nat) : outcome (list A) :=
  if decide (n ≤ length l)%nat then Ret (take n l) else Panic.

(** ** Time

    [Instant] is a number of nanoseconds on the monotonic clock and [Duration]
    a number of nanoseconds; [elapsed] saturates at zero. *)
Definition NANOS : Z := 1000000000.
Definition from_secs (s : Z) : Z := s * NANOS.
Definition as_secs (d : Z) : Z := d / NANOS.
Definition subsec_nanos (d : Z) : Z := d mod NANOS.
Definition elapsed (now t : Z) : Z := saturating_sub now t.

(** ** Iteration over a [HashMap]

    The order in which a [HashMap] yields its entries is unspecified.  Code
    that iterates is modelled against this interface and its theorems hold
    for every order. *)
Class HashOrder := {
  hash_iter : ∀ {K V : Type} `{Countable K}, gmap K V → list (K * V);
  hash_iter_perm : ∀ {K V : Type} `{Countable K} (m : gmap K V),
    hash_iter m ≡ₚ map_to_list m
}.

(** The order of stdpp's own enumeration, the instance the concrete examples
    run with. *)
Definition map_order : HashOrder := {|
  hash_iter K V _ _ m := map_to_list m;
  hash_iter_perm K V _ _ m := Permutation_refl (map_to_list m)
|}.

(** [iter().find(p)] on a list: the first element that satisfies [p]. *)
Fixpoint find_first {A} (p : A → bool) (l : list A) : option A :=
  match l with
  | [] => None
  | a :: l => if p a then Some a else find_first p l
  end.

(** ** Tactics *)

(** Splits a boolean condition of the code into its propositions. *)
Ltac bool_to_prop :=
  repeat match goal with
  | H : andb _ _ = true |- _ => apply andb_true_iff in H as [? ?]
  | H : orb _ _ = false |- _ => apply orb_false_iff in H as [? ?]
  | H : negb _ = true |- _ => apply negb_true_iff in H
  | H : negb _ = false |- _ => apply negb_false_iff in H
  | H : (_ =? _) = true |- _ => apply Z.eqb_eq in H
  | H : (_ =? _) = false |- _ => apply Z.eqb_neq in H
  | H : (_ <? _) = true |- _ => apply Z.ltb_lt in H
  | H : (_ <? _) = false |- _ => apply Z.ltb_ge in H
  | H : (_ <=? _) = true |- _ => apply Z.leb_le in H
  | H : (_ <=? _) = false |- _ => apply Z.leb_gt in H
  | H : bool_decide _ = true |- _ => apply bool_decide_eq_true_1 in H
  | H : bool_decide _ = false |- _ => apply bool_decide_eq_false_1 in H
  end.

(** Case analysis on the discriminee of the first [match] or [if]. *)
Ltac split_match :=
  match goal with
  | |- context [match ?x with _ => _ end] => destruct x eqn:?
  | H : context [match ?x with _ => _ end] |- _ => destruct x eqn:?
  end.

(** Runs the monadic binds that have become redexes, and nothing else. *)
Ltac simpl_bind := cbn [mbind mret fmap option_bind option_fmap option_map option_ret
  outcome_bind outcome_ret outcome_fmap] in *.

Ltac unfold_words :=
  unfold in_u8, in_u16, in_u32, in_u64, as_u8, as_u16, as_u32, as_u64, wrap in *.

(** Linear arithmetic over words, with divisions and remainders by constants
    turned into equations. *)
Ltac word_lia := unfold_words; Z.to_euclidean_division_equations; lia.

Create HintDb miu.
#[export] Hint Unfold bytes_ok : miu.

(** ** Generic lemmas *)

Lemma find_first_Some {A} (p : A → bool) l a :
  find_first p l = Some a → a ∈ l ∧ p a = true.
Proof.
  induction l as [|b l IH]; [done|]. cbn.
  destruct (p b) eqn:E; intros H; [simplify_eq; set_solver|].
  destruct (IH H). set_solver.
Qed.

Lemma find_first_None {A} (p : A → bool) l :
  find_first p l = None ↔ Forall (λ a, p a = false) l.
Proof.
  induction l as [|b l IH]; cbn; [done|].
  rewrite list.Forall_cons, <- IH. destruct (p b); naive_solver.
Qed.

(** An element that is the only one to satisfy [p] is what any order finds. *)
Lemma find_first_unique {A} (p : A → bool) l a :
  a ∈ l → p a = true → (∀ b, b ∈ l → p b = true → b = a) →
  find_first p l = Some a.
Proof.
  intros Hin Hp Hun. destruct (find_first p l) as [b|] eqn:E.
  - apply find_first_Some in E as [? ?]. f_equal. by apply Hun.
  - apply find_first_None in E. rewrite list.Forall_forall in E.
    rewrite (E a Hin) in Hp. done.
Qed.

Lemma find_first_app {A} (p : A → bool) l1 l2 :
  find_first p (l1 ++ l2) =
  match find_first p l1 with Some a => Some a | None => find_first p l2 end.
Proof. induction l1 as [|b l IH]; cbn; [done|]. by destruct (p b). Qed.

Lemma hash_iter_lookup `{HashOrder} {K V} `{Countable K} (m : gmap K V) k v :
  (k, v) ∈ hash_iter m ↔ m !! k = Some v.
Proof. rewrite hash_iter_perm. apply elem_of_map_to_list. Qed.

Lemma size_filter_le {K V} `{Countable K} (P : K * V → Prop) `{∀ x, Decision (P x)} (m : gmap K V) :
  (size (filter P m) ≤ size m)%nat.
Proof. rewrite <- !size_dom. apply subseteq_size, dom_filter_subseteq. Qed.

Lemma byte_at_app_l l1 l2 i : (i < length l1)%nat → byte_at (l1 ++ l2) i = byte_at l1 i.
Proof. intros. unfold byte_at. by apply app_nth1. Qed.

Lemma byte_at_app_r l1 l2 i :
  (length l1 ≤ i)%nat → byte_at (l1 ++ l2) i = byte_at l2 (i - length l1).
Proof. intros. unfold byte_at. apply app_nth2. lia. Qed.

Lemma byte_at_ok l i : bytes_ok l → in_u8 (byte_at l i).
Proof.
  unfold byte_at. intros Hl. destruct (nth_in_or_default i l 0) as [Hin| ->].
  - unfold bytes_ok in Hl. rewrite list.Forall_forall in Hl. apply Hl.
    by apply list_elem_of_In.
  - by unfold_words.
Qed.
#[export] Hint Resolve byte_at_ok : miu.

Lemma bytes_ok_app l1 l2 : bytes_ok (l1 ++ l2) ↔ bytes_ok l1 ∧ bytes_ok l2.
Proof. apply list.Forall_app. Qed.

Lemma bytes_ok_slice l a b : bytes_ok l → bytes_ok (slice l a b).
Proof. intros. unfold slice. by apply Forall_take, Forall_drop. Qed.
#[export] Hint Resolve bytes_ok_slice : miu.

Lemma slice_length {A} (l : list A) a b :
  (b ≤ length l)%nat → length (slice l a b) = (b - a)%nat.
Proof. intros. unfold slice. rewrite length_take, length_drop. lia. Qed.

Lemma slice_middle {A} (pre mid post : list A) a b :
  a = length pre → b = (length pre + length mid)%nat →
  slice (pre ++ mid ++ post) a b = mid.
Proof.
  intros -> ->. unfold slice. rewrite drop_app_length.
  replace (length pre + length mid - length pre)%nat with (length mid) by lia.
  apply take_app_length.
Qed.

Lemma be16_range a b : in_u8 a → in_u8 b → in_u16 (be16 a b).
Proof. unfold be16. word_lia. Qed.
#[export] Hint Resolve be16_range : miu.

Lemma be16_put x : in_u16 x → be16 (x / 256 mod 256) (x mod 256) = x.
Proof. unfold be16. word_lia. Qed.

Lemma put_u16_be a b : in_u8 a → in_u8 b → put_u16 (be16 a b) = [a; b].
Proof. unfold put_u16, be16. intros. repeat f_equal; word_lia. Qed.

Lemma be32_put x : in_u32 x →
  be32 (x / 16777216 mod 256) (x / 65536 mod 256) (x / 256 mod 256) (x mod 256) = x.
Proof. unfold be32. word_lia. Qed.

Lemma be32_range a b c d :
  in_u8 a → in_u8 b → in_u8 c → in_u8 d → in_u32 (be32 a b c d).
Proof. unfold be32. word_lia. Qed.

Lemma put_u16_ok x : bytes_ok (put_u16 x).
Proof. repeat constructor; word_lia. Qed.
Lemma put_u32_ok x : bytes_ok (put_u32 x).
Proof. repeat constructor; word_lia. Qed.
#[export] Hint Resolve put_u16_ok put_u32_ok : miu.

Lemma as_u16_id x : in_u16 x → as_u16 x = x.
Proof. word_lia. Qed.
Lemma as_u32_id x : in_u32 x → as_u32 x = x.
Proof. word_lia. Qed.
Lemma as_u64_id x : in_u64 x → as_u64 x = x.
Proof. word_lia. Qed.
Lemma as_u16_range x : in_u16 (as_u16 x).
Proof. word_lia. Qed.
Lemma as_u64_range x : in_u64 (as_u64 x).
Proof. word_lia. Qed.

(** Bitwise operations stay inside their width. *)
Lemma bits_bound n x : 0 ≤ n → 0 ≤ x → (∀ i, n ≤ i → Z.testbit x i = false) → x < 2 ^ n.
Proof.
  intros Hn Hx Hb. destruct (decide (x = 0)) as [->|]; [apply Z.pow_pos_nonneg; lia|].
  apply Z.log2_lt_pow2; [lia|]. apply Z.nle_gt. intros Hle.
  specialize (Hb _ Hle). rewrite Z.bit_log2 in Hb by lia. done.
Qed.

Lemma testbit_above n x i : 0 ≤ x < 2 ^ n → n ≤ i → Z.testbit x i = false.
Proof.
  intros Hx Hi. destruct (decide (x = 0)) as [->|]; [apply Z.bits_0|].
  apply Z.bits_above_log2; [lia|].
  apply Z.lt_le_trans with n; [|done]. apply Z.log2_lt_pow2; lia.
Qed.

Lemma lxor_range n x y :
  0 ≤ n → 0 ≤ x < 2 ^ n → 0 ≤ y < 2 ^ n → 0 ≤ Z.lxor x y < 2 ^ n.
Proof.
  intros. assert (0 ≤ Z.lxor x y) by (apply Z.lxor_nonneg; lia).
  split; [done|]. apply bits_bound; [done..|]. intros i Hi.
  by rewrite Z.lxor_spec, (testbit_above n x i), (testbit_above n y i).
Qed.

Lemma lor_range n x y :
  0 ≤ n → 0 ≤ x < 2 ^ n → 0 ≤ y < 2 ^ n → 0 ≤ Z.lor x y < 2 ^ n.
Proof.
  intros. assert (0 ≤ Z.lor x y) by (apply Z.lor_nonneg; lia).
  split; [done|]. apply bits_bound; [done..|]. intros i Hi.
  by rewrite Z.lor_spec, (testbit_above n x i), (testbit_above n y i).
Qed.

Lemma land_range_l n x y : 0 ≤ n → 0 ≤ x < 2 ^ n → 0 ≤ Z.land x y < 2 ^ n.
Proof.
  intros. assert (0 ≤ Z.land x y) by (apply Z.land_nonneg; lia).
  split; [done|]. apply bits_bound; [done..|]. intros i Hi.
  by rewrite Z.land_spec, (testbit_above n x i).
Qed.

Lemma lxor_cancel x y : Z.lxor (Z.lxor x y) y = x.
Proof. by rewrite Z.lxor_assoc, Z.lxor_nilpotent, Z.lxor_0_r. Qed.

(** A statement about every byte, checked by running it on all 256. *)
Lemma byte_forall (P : Z → bool) :
  forallb P (seqZ 0 256) = true → ∀ b, in_u8 b → P b = true.
Proof.
  intros H b Hb. rewrite forallb_forall in H. apply H.
  apply list_elem_of_In. apply elem_of_seqZ. unfold_words. lia.
Qed.

Lemma elapsed_nonneg now t : 0 ≤ elapsed now t.
Proof. unfold elapsed, saturating_sub. lia. Qed.
