(* ===== verification/RustStd.v ===== *)
(** * The parts of Rust's standard library the server leans on

    [String]s are byte strings in UTF-8 (Rocq's [string], one [ascii] per
    byte).  Modelled here: the byte view of a string, [String::from_utf8_lossy]
    with its maximal-subpart replacement, decimal [Display] and [FromStr] of
    unsigned integers, [str::split], the address types of [std::net] with
    their [Display] forms, and the stable [sort_by]. *)

From S2P Require Import Prelude.
From Stdlib Require Import Ascii String.
From Stdlib Require Export Sorted.
From stdpp Require Export sorting.
Local Open Scope string_scope.
Local Open Scope Z_scope.

(** ** Strings as bytes *)

Definition ascii_Z (c : ascii) : Z := Z.of_N (N_of_ascii c).
Definition Z_ascii (b : Z) : ascii := ascii_of_N (Z.to_N b).
Definition str_bytes (s : string) : list Z := map ascii_Z (list_ascii_of_string s).
Definition bytes_str (l : list Z) : string := string_of_list_ascii (map Z_ascii l).
Definition str_len (s : string) : nat := String.length s.
Definition str_eqb (s t : string) : bool := bool_decide (s = t).

(** [String::from_utf8_lossy]: every maximal invalid subsequence becomes one
    U+FFFD (bytes EF BF BD). *)
Definition utf8_cont (b : Z) : bool := Z.land b 192 =? 128.
Definition utf8_width (b : Z) : nat :=
  if b <? 128 then 1
  else if (0xC2 <=? b) && (b <=? 0xDF) then 2
  else if (0xE0 <=? b) && (b <=? 0xEF) then 3
  else if (0xF0 <=? b) && (b <=? 0xF4) then 4
  else 0.
(** The second byte a three- or four-byte sequence allows. *)
Definition utf8_second (b c : Z) : bool :=
  if b =? 0xE0 then (0xA0 <=? c) && (c <=? 0xBF)
  else if b =? 0xED then (0x80 <=? c) && (c <=? 0x9F)
  else if b =? 0xF0 then (0x90 <=? c) && (c <=? 0xBF)
  else if b =? 0xF4 then (0x80 <=? c) && (c <=? 0x8F)
  else (0x80 <=? c) && (c <=? 0xBF).
Definition replacement : list Z := [0xEF; 0xBF; 0xBD].

Fixpoint utf8_lossy (l : list Z) : list Z :=
  match l with
  | [] => []
  | b :: r =>
    match utf8_width b with
    | 1%nat => b :: utf8_lossy r
    | 2%nat =>
      match r with
      | c :: r2 => if utf8_cont c then b :: c :: utf8_lossy r2 else (replacement ++ utf8_lossy r)%list
      | [] => replacement
      end
    | 3%nat =>
      match r with
      | c :: r2 =>
        if utf8_second b c then
          match r2 with
          | d :: r3 => if utf8_cont d then b :: c :: d :: utf8_lossy r3 else (replacement ++ utf8_lossy r2)%list
          | [] => replacement
          end
        else (replacement ++ utf8_lossy r)%list
      | [] => replacement
      end
    | 4%nat =>
      match r with
      | c :: r2 =>
        if utf8_second b c then
          match r2 with
          | d :: r3 =>
            if utf8_cont d then
              match r3 with
              | e :: r4 => if utf8_cont e then b :: c :: d :: e :: utf8_lossy r4 else (replacement ++ utf8_lossy r3)%list
              | [] => replacement
              end
            else (replacement ++ utf8_lossy r2)%list
          | [] => replacement
          end
        else (replacement ++ utf8_lossy r)%list
      | [] => replacement
      end
    | _ => (replacement ++ utf8_lossy r)%list
    end
  end.

Definition from_utf8_lossy (l : list Z) : string := bytes_str (utf8_lossy l).

(** ** Decimal integers *)

Definition digit_char (d : Z) : ascii := Z_ascii (48 + d).
Definition digit_val (c : ascii) : option Z :=
  let b := ascii_Z c in
  if (48 <=? b) && (b <=? 57) then Some (b - 48) else None.

Fixpoint dec_digits (fuel : nat) (n : Z) (acc : string) : string :=
  match fuel with
  | O => acc
  | S f =>
    let acc' := String (digit_char (n mod 10)) acc in
    if n <? 10 then acc' else dec_digits f (n / 10) acc'
  end.
(** [Display] of an unsigned integer below [10^20], which covers [u64]. *)
Definition dec_string (n : Z) : string := dec_digits 20 n "".

Fixpoint parse_digits (max acc : Z) (s : string) : option Z :=
  match s with
  | EmptyString => Some acc
  | String c r =>
    match digit_val c with
    | Some d => let acc' := acc * 10 + d in
                if acc' <=? max then parse_digits max acc' r else None
    | None => None
    end
  end.
(** [FromStr] of an unsigned integer with maximum [max]: an optional plus
    sign, at least one digit, no overflow. *)
Definition parse_uint (max : Z) (s : string) : option Z :=
  match s with
  | EmptyString => None
  | String c r =>
    if ascii_Z c =? 43 then match r with EmptyString => None | _ => parse_digits max 0 r end
    else parse_digits max 0 s
  end.

(** ** [str::split] and [str::contains] on one ASCII character *)

Fixpoint split_on (c : ascii) (s : string) : list string :=
  match s with
  | EmptyString => [""]
  | String a r =>
    if ascii_dec a c then "" :: split_on c r
    else match split_on c r with
         | p :: ps => String a p :: ps
         | [] => [String a ""]
         end
  end.

Fixpoint str_contains (c : ascii) (s : string) : bool :=
  match s with
  | EmptyString => false
  | String a r => if ascii_dec a c then true else str_contains c r
  end.

(** ** Socket addresses *)

Record Ipv4Addr := mkIpv4 { oct0 : Z; oct1 : Z; oct2 : Z; oct3 : Z }.
Inductive IpAddr :=
| IpV4 (a : Ipv4Addr)
| IpV6 (segments : list Z).
Inductive SocketAddr :=
| SaV4 (ip : Ipv4Addr) (port : Z)
| SaV6 (segments : list Z) (port flowinfo scope_id : Z).

#[global] Instance Ipv4Addr_eq_dec : EqDecision Ipv4Addr.
Proof. solve_decision. Defined.
#[global] Instance IpAddr_eq_dec : EqDecision IpAddr.
Proof. solve_decision. Defined.
#[global] Instance SocketAddr_eq_dec : EqDecision SocketAddr.
Proof. solve_decision. Defined.

#[global] Instance Ipv4Addr_countable : Countable Ipv4Addr.
Proof.
  refine (inj_countable' (λ a, (oct0 a, oct1 a, oct2 a, oct3 a))
                         (λ '(a, b, c, d), mkIpv4 a b c d) _).
  by intros [].
Defined.
#[global] Instance IpAddr_countable : Countable IpAddr.
Proof.
  refine (inj_countable' (λ a, match a with IpV4 a => inl a | IpV6 s => inr s end)
                         (λ x, match x with inl a => IpV4 a | inr s => IpV6 s end) _).
  by intros [].
Defined.
#[global] Instance SocketAddr_countable : Countable SocketAddr.
Proof.
  refine (inj_countable'
    (λ a, match a with SaV4 a p => inl (a, p) | SaV6 s p f i => inr (s, p, f, i) end)
    (λ x, match x with inl (a, p) => SaV4 a p | inr (s, p, f, i) => SaV6 s p f i end) _).
  by intros [].
Defined.

Definition ipv4_ok (a : Ipv4Addr) : Prop :=
  in_u8 (oct0 a) ∧ in_u8 (oct1 a) ∧ in_u8 (oct2 a) ∧ in_u8 (oct3 a).
Definition addr_ok (a : SocketAddr) : Prop :=
  match a with
  | SaV4 ip p => ipv4_ok ip ∧ in_u16 p
  | SaV6 s p f i => length s = 8%nat ∧ Forall in_u16 s ∧ in_u16 p ∧ in_u32 f ∧ in_u32 i
  end.

Definition sa_ip (a : SocketAddr) : IpAddr :=
  match a with SaV4 ip _ => IpV4 ip | SaV6 s _ _ _ => IpV6 s end.
Definition sa_port (a : SocketAddr) : Z :=
  match a with SaV4 _ p => p | SaV6 _ p _ _ => p end.
(** [SocketAddr::new(ip, port)] *)
Definition sa_new (ip : IpAddr) (port : Z) : SocketAddr :=
  match ip with IpV4 a => SaV4 a port | IpV6 s => SaV6 s port 0 0 end.

(** ** [Display] of addresses *)

Definition ipv4_string (a : Ipv4Addr) : string :=
  dec_string (oct0 a) ++ "." ++ dec_string (oct1 a) ++ "." ++
  dec_string (oct2 a) ++ "." ++ dec_string (oct3 a).

Definition hex_digit (d : Z) : ascii := if d <? 10 then Z_ascii (48 + d) else Z_ascii (87 + d).
Fixpoint hex_digits (fuel : nat) (n : Z) (acc : string) : string :=
  match fuel with
  | O => acc
  | S f =>
    let acc' := String (hex_digit (n mod 16)) acc in
    if n <? 16 then acc' else hex_digits f (n / 16) acc'
  end.
Definition hex_string (n : Z) : string := hex_digits 4 n "".

Fixpoint join (sep : string) (l : list string) : string :=
  match l with
  | [] => ""
  | [s] => s
  | s :: l => s ++ sep ++ join sep l
  end.

(** The longest run of zero segments, the first one on a tie: (start, length). *)
Fixpoint zero_run (i : nat) (cur best : nat * nat) (l : list Z) : nat * nat :=
  match l with
  | [] => best
  | s :: l =>
    if s =? 0 then
      let cur' := ((if decide (cur.2 = 0)%nat then i else cur.1), S cur.2) in
      zero_run (S i) cur' (if decide (best.2 < cur'.2)%nat then cur' else best) l
    else zero_run (S i) (0, 0)%nat best l
  end.

Definition ipv6_string (segs : list Z) : string :=
  match segs with
  | [0; 0; 0; 0; 0; m; g; h] =>
    if m =? 65535 then
      "::ffff:" ++ ipv4_string (mkIpv4 (g / 256) (g mod 256) (h / 256) (h mod 256))
    else
      let '(st, len) := zero_run 0 (0, 0)%nat (0, 0)%nat segs in
      join ":" (map hex_string (take st segs)) ++ "::" ++
      join ":" (map hex_string (drop (st + len) segs))
  | _ =>
    let '(st, len) := zero_run 0 (0, 0)%nat (0, 0)%nat segs in
    if decide (1 < len)%nat then
      join ":" (map hex_string (take st segs)) ++ "::" ++
      join ":" (map hex_string (drop (st + len) segs))
    else join ":" (map hex_string segs)
  end.

Definition ip_string (a : IpAddr) : string :=
  match a with IpV4 a => ipv4_string a | IpV6 s => ipv6_string s end.

Definition sa_string (a : SocketAddr) : string :=
  match a with
  | SaV4 ip p => ipv4_string ip ++ ":" ++ dec_string p
  | SaV6 s p _ sc =>
    "[" ++ ipv6_string s ++ (if sc =? 0 then "" else "%" ++ dec_string sc) ++ "]:" ++ dec_string p
  end.

(** ** [slice::sort_by], a stable sort, for a comparison given as [leb] *)

Fixpoint insert_by {A} (leb : A → A → bool) (x : A) (l : list A) : list A :=
  match l with
  | [] => [x]
  | y :: l' => if leb x y then x :: l else y :: insert_by leb x l'
  end.
Fixpoint sort_by {A} (leb : A → A → bool) (l : list A) : list A :=
  match l with
  | [] => []
  | x :: l => insert_by leb x (sort_by leb l)
  end.

(** ** Lemmas *)

Lemma ascii_Z_range c : in_u8 (ascii_Z c).
Proof.
  unfold ascii_Z. pose proof (N_ascii_bounded c). unfold_words. lia.
Qed.
Lemma Z_ascii_Z c : Z_ascii (ascii_Z c) = c.
Proof. unfold Z_ascii, ascii_Z. rewrite N2Z.id. apply ascii_N_embedding. Qed.
Lemma ascii_Z_ascii b : in_u8 b → ascii_Z (Z_ascii b) = b.
Proof.
  intros Hb. unfold Z_ascii, ascii_Z.
  rewrite N_ascii_embedding; [|unfold_words; lia]. apply Z2N.id. unfold_words. lia.
Qed.

Lemma str_bytes_ok s : bytes_ok (str_bytes s).
Proof.
  unfold str_bytes, bytes_ok. induction (list_ascii_of_string s); cbn; [constructor|].
  constructor; [apply ascii_Z_range|done].
Qed.
#[export] Hint Resolve str_bytes_ok : miu.

Lemma str_bytes_length s : List.length (str_bytes s) = String.length s.
Proof. induction s as [|c s IH]; [done|]. unfold str_bytes in *. cbn in *. by rewrite IH. Qed.

Lemma bytes_str_bytes s : bytes_str (str_bytes s) = s.
Proof.
  unfold bytes_str, str_bytes. rewrite List.map_map.
  rewrite (List.map_ext _ id) by apply Z_ascii_Z. rewrite List.map_id.
  apply string_of_list_ascii_of_string.
Qed.
Lemma str_bytes_str l : bytes_ok l → str_bytes (bytes_str l) = l.
Proof.
  intros Hl. unfold bytes_str, str_bytes. rewrite list_ascii_of_string_of_list_ascii.
  induction Hl as [|b l Hb _ IH]; cbn; [done|]. by rewrite IH, ascii_Z_ascii.
Qed.
#[global] Instance str_bytes_inj : Inj (=) (=) str_bytes.
Proof. intros s t H. rewrite <- (bytes_str_bytes s), <- (bytes_str_bytes t). by rewrite H. Qed.

Lemma str_app_cons c s t : String c s ++ t = String c (s ++ t).
Proof. done. Qed.
Lemma str_app_nil s : "" ++ s = s.
Proof. done. Qed.

Lemma str_bytes_app s t : str_bytes (s ++ t) = (str_bytes s ++ str_bytes t)%list.
Proof.
  induction s as [|c s IH]; [done|]. rewrite str_app_cons. unfold str_bytes in *. cbn.
  by rewrite IH.
Qed.

Lemma str_eqb_eq s t : str_eqb s t = true ↔ s = t.
Proof. apply bool_decide_eq_true. Qed.

Lemma utf8_lossy_ascii l : Forall (λ b, 0 ≤ b < 128) l → utf8_lossy l = l.
Proof.
  induction 1 as [|b l Hb _ IH]; [done|]. cbn. unfold utf8_width.
  destruct (Z.ltb_spec b 128); [|lia]. by rewrite IH.
Qed.

(** ASCII text survives the lossy conversion unchanged. *)
Definition ascii_str (s : string) : Prop := Forall (λ b, 0 ≤ b < 128) (str_bytes s).
#[global] Instance ascii_str_dec s : Decision (ascii_str s).
Proof. unfold ascii_str. apply _. Defined.

Lemma from_utf8_lossy_ascii s : ascii_str s → from_utf8_lossy (str_bytes s) = s.
Proof.
  intros H. unfold from_utf8_lossy. rewrite utf8_lossy_ascii by done. apply bytes_str_bytes.
Qed.

Lemma str_app_inj_l s t u : s ++ t = s ++ u → t = u.
Proof. induction s as [|c s IH]; [done|]. rewrite !str_app_cons. intros [=]. auto. Qed.

Lemma str_app_assoc s t u : (s ++ t) ++ u = s ++ (t ++ u).
Proof. induction s as [|c s IH]; [done|]. by rewrite !str_app_cons, IH. Qed.

(** Decimal printing and parsing are inverse. *)
Lemma digit_val_char d : 0 ≤ d < 10 → digit_val (digit_char d) = Some d.
Proof.
  intros Hd. unfold digit_val, digit_char. rewrite ascii_Z_ascii by (unfold_words; lia).
  destruct (Z.leb_spec 48 (48 + d)), (Z.leb_spec (48 + d) 57); cbn; try lia.
  f_equal. lia.
Qed.

Lemma parse_digits_dec max fuel n s :
  (0 < fuel)%nat → 0 ≤ n < 10 ^ Z.of_nat fuel → n ≤ max →
  parse_digits max 0 (dec_digits fuel n s) = parse_digits max n s.
Proof.
  revert n s. induction fuel as [|f IH]; intros n s Hf Hn Hmax; [lia|].
  cbn [dec_digits]. destruct (Z.ltb_spec n 10) as [Hlt|Hge].
  - cbn [parse_digits]. rewrite digit_val_char by (apply Z.mod_pos_bound; lia).
    rewrite Z.mod_small, Z.mul_0_l, Z.add_0_l by lia. by destruct (Z.leb_spec n max); [|lia].
  - assert (0 < f)%nat. { destruct f; [cbn in Hn; lia|lia]. }
    rewrite Nat2Z.inj_succ, Z.pow_succ_r in Hn by lia.
    rewrite IH; [|done|word_lia|word_lia].
    cbn [parse_digits]. rewrite digit_val_char by (apply Z.mod_pos_bound; lia).
    replace (n / 10 * 10 + n mod 10) with n by word_lia.
    by destruct (Z.leb_spec n max); [|lia].
Qed.

Lemma dec_digits_head fuel n s :
  (0 < fuel)%nat → ∃ d r, 0 ≤ d < 10 ∧ dec_digits fuel n s = String (digit_char d) r.
Proof.
  revert n s. induction fuel as [|f IH]; intros n s Hf; [lia|].
  cbn [dec_digits]. assert (0 ≤ n mod 10 < 10) by (apply Z.mod_pos_bound; lia).
  destruct (Z.ltb_spec n 10); [eauto|]. destruct f; [cbn; eauto|]. apply IH. lia.
Qed.

Lemma parse_uint_dec max n :
  0 ≤ n ≤ max → n < 10 ^ 20 → parse_uint max (dec_string n) = Some n.
Proof.
  intros Hn Hb. unfold dec_string. pose proof (parse_digits_dec max 20 n "") as Hp.
  destruct (dec_digits_head 20 n "") as (d & r & Hd & E); [lia|].
  rewrite E in *. cbn [parse_uint]. unfold digit_char at 1. rewrite ascii_Z_ascii by (unfold_words; lia).
  destruct (Z.eqb_spec (48 + d) 43); [lia|]. rewrite Hp; [done|lia|cbn; lia|lia].
Qed.

Lemma dec_string_inj n m :
  0 ≤ n < 10 ^ 20 → 0 ≤ m < 10 ^ 20 → dec_string n = dec_string m → n = m.
Proof.
  intros Hn Hm E. pose proof (parse_uint_dec (10 ^ 20) n) as P1.
  pose proof (parse_uint_dec (10 ^ 20) m) as P2. rewrite E in P1.
  rewrite P1 in P2 by lia. assert (Some n = Some m) by (apply P2; lia). congruence.
Qed.

Definition is_digit (c : ascii) : bool := (48 <=? ascii_Z c) && (ascii_Z c <=? 57).

Lemma dec_digits_contains c fuel n s :
  is_digit c = false → str_contains c (dec_digits fuel n s) = str_contains c s.
Proof.
  intros Hc. revert n s. induction fuel as [|f IH]; intros n s; [done|].
  cbn [dec_digits]. assert (0 ≤ n mod 10 < 10) by (apply Z.mod_pos_bound; lia).
  assert (Hne : digit_char (n mod 10) ≠ c).
  { intros <-. revert Hc. unfold is_digit, digit_char.
    rewrite ascii_Z_ascii by (unfold_words; lia).
    destruct (Z.leb_spec 48 (48 + n mod 10)), (Z.leb_spec (48 + n mod 10) 57); cbn; lia. }
  destruct (n <? 10); [|rewrite IH]; cbn [str_contains]; by destruct (ascii_dec _ c).
Qed.

Lemma dec_string_contains c n : is_digit c = false → str_contains c (dec_string n) = false.
Proof. intros. unfold dec_string. by rewrite dec_digits_contains. Qed.

Lemma str_contains_app c s t : str_contains c (s ++ t) = str_contains c s || str_contains c t.
Proof.
  induction s as [|a s IH]; [done|]. rewrite str_app_cons. cbn.
  destruct (ascii_dec a c); [done|]. apply IH.
Qed.

(** Splitting. *)
Lemma split_on_none c s : str_contains c s = false → split_on c s = [s].
Proof.
  induction s as [|a s IH]; [done|]. cbn. destruct (ascii_dec a c); [done|].
  intros H. by rewrite IH.
Qed.

Lemma split_on_app c s t :
  str_contains c s = false → split_on c (s ++ String c t) = s :: split_on c t.
Proof.
  induction s as [|a s IH]; [rewrite str_app_nil; cbn; by destruct (ascii_dec c c)|].
  rewrite str_app_cons. cbn. destruct (ascii_dec a c); [done|]. intros H. by rewrite IH.
Qed.

Lemma split_on_nonempty c s : split_on c s ≠ [].
Proof.
  induction s as [|a s IH]; [done|]. cbn. destruct (ascii_dec a c); [done|].
  by destruct (split_on c s).
Qed.

(** Addresses on one interface are told apart by their printed form. *)
Lemma sa_string_port_inj ip p q :
  in_u16 p → in_u16 q → sa_string (SaV4 ip p) = sa_string (SaV4 ip q) → p = q.
Proof.
  cbn [sa_string]. intros Hp Hq E. apply str_app_inj_l, str_app_inj_l in E.
  apply dec_string_inj in E; unfold_words; lia.
Qed.

(** Stable sorting: a permutation, ordered, and equal elements keep their order. *)
Section sorting.
Context {A : Type} (leb : A → A → bool).

Lemma insert_by_perm x l : insert_by leb x l ≡ₚ x :: l.
Proof.
  induction l as [|y l IH]; cbn; [done|]. destruct (leb x y); [done|].
  rewrite IH. constructor.
Qed.
Lemma sort_by_perm l : sort_by leb l ≡ₚ l.
Proof. induction l as [|x l IH]; cbn; [done|]. by rewrite insert_by_perm, IH. Qed.

Hypothesis leb_trans : ∀ x y z, leb x y = true → leb y z = true → leb x z = true.
Hypothesis leb_total : ∀ x y, leb x y = true ∨ leb y x = true.

Lemma insert_by_sorted x l :
  StronglySorted (λ a b, leb a b = true) l →
  StronglySorted (λ a b, leb a b = true) (insert_by leb x l).
Proof.
  induction 1 as [|y l Hs IH Hf]; cbn; [repeat constructor|].
  destruct (leb x y) eqn:E; constructor.
  - by constructor.
  - constructor; [done|]. eapply Forall_impl; [exact Hf|]. cbn. eauto.
  - done.
  - rewrite insert_by_perm. constructor; [|done].
    destruct (leb_total x y); congruence.
Qed.
Lemma sort_by_sorted l : StronglySorted (λ a b, leb a b = true) (sort_by leb l).
Proof. induction l; cbn; [constructor|by apply insert_by_sorted]. Qed.
End sorting.
