(* ===== verification/RustText.v ===== *)
(** * Text handling of Rust's standard library

    Strings are UTF-8 byte strings, as in RustStd.  Modelled here: searching
    and slicing of [str] (a slice off a character boundary panics), [trim],
    [String::from_utf8], [eq_ignore_ascii_case], the order of [String] with
    [dedup], and the [FromStr] parsers of [Ipv4Addr] and [SocketAddr]
    (the recursive-descent parser of core::net). *)

From S2P Require Import Prelude RustStd.
From Stdlib Require Import Ascii String.
Local Open Scope string_scope.
Local Open Scope Z_scope.

(** ** Searching and slicing *)

(** [str::strip_prefix] and [str::starts_with] *)
Fixpoint strip_prefix (p s : string) : option string :=
  match p with
  | EmptyString => Some s
  | String a p =>
    match s with
    | String b s => if ascii_dec a b then strip_prefix p s else None
    | EmptyString => None
    end
  end.
Definition starts_with (s p : string) : bool :=
  match strip_prefix p s with Some _ => true | None => false end.

(** [str::find]: the byte index of the first match. *)
Fixpoint find_pred (f : string → bool) (s : string) : option nat :=
  if f s then Some 0%nat
  else match s with
       | EmptyString => None
       | String _ r => i ← find_pred f r; Some (S i)
       end.
Definition str_find (s pat : string) : option nat := find_pred (λ t, starts_with t pat) s.
(** [s.find(c)] and [s.find(&[c, d][..])] for ASCII characters. *)
Definition find_char (s : string) (cs : list ascii) : option nat :=
  find_pred (λ t, match t with String a _ => bool_decide (a ∈ cs) | EmptyString => false end) s.
(** [str::contains] of a string *)
Definition contains_str (s pat : string) : bool :=
  match str_find s pat with Some _ => true | None => false end.

Fixpoint str_drop (n : nat) (s : string) : string :=
  match n, s with
  | O, _ => s
  | S n, String _ r => str_drop n r
  | S _, EmptyString => ""
  end.
Fixpoint str_take (n : nat) (s : string) : string :=
  match n, s with
  | S n, String c r => String c (str_take n r)
  | _, _ => ""
  end.

(** A position is a character boundary unless it is past the end or the byte
    there continues a sequence. *)
Definition is_char_boundary (s : string) (n : nat) : bool :=
  match str_drop n s with
  | String c _ => negb (utf8_cont (ascii_Z c))
  | EmptyString => bool_decide (n ≤ String.length s)%nat
  end.
(** [s[..n]] and [s[n..]] *)
Definition str_to (s : string) (n : nat) : outcome string :=
  if is_char_boundary s n then Ret (str_take n s) else Panic.
Definition str_from (s : string) (n : nat) : outcome string :=
  if is_char_boundary s n then Ret (str_drop n s) else Panic.

(** [str::replace] of one ASCII character by another *)
Fixpoint replace_char (a b : ascii) (s : string) : string :=
  match s with
  | EmptyString => ""
  | String c r => String (if ascii_dec c a then b else c) (replace_char a b r)
  end.

Fixpoint repeat_char (n : nat) (c : ascii) : string :=
  match n with O => "" | S n => String c (repeat_char n c) end.

(** ** [String::from_utf8] *)

Fixpoint utf8_valid (l : list Z) : bool :=
  match l with
  | [] => true
  | b :: r =>
    match utf8_width b with
    | 1%nat => utf8_valid r
    | 2%nat => match r with c :: r => utf8_cont c && utf8_valid r | _ => false end
    | 3%nat => match r with c :: d :: r => utf8_second b c && utf8_cont d && utf8_valid r | _ => false end
    | 4%nat => match r with
               | c :: d :: e :: r => utf8_second b c && utf8_cont d && utf8_cont e && utf8_valid r
               | _ => false
               end
    | _ => false
    end
  end.
Definition from_utf8 (l : list Z) : option string :=
  if utf8_valid l then Some (bytes_str l) else None.

(** ** [str::trim]

    The characters with the Unicode property White_Space, as byte sequences. *)
Definition whitespace : list (list Z) :=
  [[9]; [10]; [11]; [12]; [13]; [32]; [0xC2; 0x85]; [0xC2; 0xA0]; [0xE1; 0x9A; 0x80];
   [0xE2; 0x80; 0x80]; [0xE2; 0x80; 0x81]; [0xE2; 0x80; 0x82]; [0xE2; 0x80; 0x83];
   [0xE2; 0x80; 0x84]; [0xE2; 0x80; 0x85]; [0xE2; 0x80; 0x86]; [0xE2; 0x80; 0x87];
   [0xE2; 0x80; 0x88]; [0xE2; 0x80; 0x89]; [0xE2; 0x80; 0x8A]; [0xE2; 0x80; 0xA8];
   [0xE2; 0x80; 0xA9]; [0xE2; 0x80; 0xAF]; [0xE2; 0x81; 0x9F]; [0xE3; 0x80; 0x80]].

Fixpoint list_strip (p l : list Z) : option (list Z) :=
  match p, l with
  | [], _ => Some l
  | a :: p, b :: l => if a =? b then list_strip p l else None
  | _ :: _, [] => None
  end.
(** Drops leading members of [ws]; the fuel is the length of the text, of which
    every turn drops at least one byte. *)
Fixpoint strip_ws (fuel : nat) (ws : list (list Z)) (l : list Z) : list Z :=
  match fuel with
  | O => l
  | S f =>
    match find_first (λ w, bool_decide (is_Some (list_strip w l))) ws with
    | Some w => strip_ws f ws (drop (List.length w) l)
    | None => l
    end
  end.
Definition trim (s : string) : string :=
  let l := strip_ws (String.length s) whitespace (str_bytes s) in
  bytes_str (rev (strip_ws (List.length l) (map (@rev Z) whitespace) (rev l))).

(** ** ASCII case and the order of strings *)

Definition to_ascii_lowercase (c : ascii) : ascii :=
  let b := ascii_Z c in if (65 <=? b) && (b <=? 90) then Z_ascii (b + 32) else c.
(** [str::to_ascii_lowercase] *)
Fixpoint str_to_ascii_lowercase (s : string) : string :=
  match s with
  | EmptyString => EmptyString
  | String a r => String (to_ascii_lowercase a) (str_to_ascii_lowercase r)
  end.
Fixpoint eq_ignore_ascii_case (s t : string) : bool :=
  match s, t with
  | EmptyString, EmptyString => true
  | String a s, String b t =>
    bool_decide (to_ascii_lowercase a = to_ascii_lowercase b) && eq_ignore_ascii_case s t
  | _, _ => false
  end.

(** [Ord] of [String]: bytes, lexicographically. *)
Fixpoint str_leb (s t : string) : bool :=
  match s, t with
  | EmptyString, _ => true
  | String _ _, EmptyString => false
  | String a s, String b t =>
    (ascii_Z a <? ascii_Z b) || ((ascii_Z a =? ascii_Z b) && str_leb s t)
  end.

(** [Vec::dedup]: of consecutive equal elements the first stays. *)
Fixpoint dedup (l : list string) : list string :=
  match l with
  | s :: ((t :: _) as r) => if str_eqb s t then dedup r else s :: dedup r
  | _ => l
  end.

(** ** The address parsers of core::net

    A parser takes the text and gives a value with the rest of the text. *)

Definition to_digit (radix : Z) (c : ascii) : option Z :=
  let b := ascii_Z c in
  let d := if (48 <=? b) && (b <=? 57) then b - 48
           else if (97 <=? b) && (b <=? 122) then b - 87
           else if (65 <=? b) && (b <=? 90) then b - 55 else 36 in
  if d <? radix then Some d else None.

(** All leading digits: value, count and rest. *)
Fixpoint read_digits (radix : Z) (acc : Z) (count : nat) (s : string) : Z * nat * string :=
  match s with
  | String c r =>
    match to_digit radix c with
    | Some d => read_digits radix (acc * radix + d) (S count) r
    | None => (acc, count, s)
    end
  | EmptyString => (acc, count, s)
  end.

(** [Parser::read_number]: fails on no digit, on more than [max_digits], on a
    leading zero where that is not allowed, and on overflow of the type. *)
Definition read_number (radix : Z) (max_digits : option nat) (max : Z) (allow_zero_prefix : bool)
    (s : string) : option (Z * string) :=
  let '(v, count, rest) := read_digits radix 0 0 s in
  let has_leading_zero := starts_with s "0" in
  if match max_digits with Some n => bool_decide (n < count)%nat | None => false end then None else
  if bool_decide (count = 0%nat) then None else
  if negb allow_zero_prefix && has_leading_zero && bool_decide (1 < count)%nat then None else
  if max <? v then None else Some (v, rest).

Definition read_separator {A} (sep : string) (index : nat) (inner : string → option (A * string))
    (s : string) : option (A * string) :=
  match index with O => inner s | S _ => s' ← strip_prefix sep s; inner s' end.

Definition read_ipv4_addr (s : string) : option (Ipv4Addr * string) :=
  let octet i := read_separator "." i (read_number 10 (Some 3%nat) U8_MAX false) in
  '(a, s) ← octet 0%nat s;
  '(b, s) ← octet 1%nat s;
  '(c, s) ← octet 2%nat s;
  '(d, s) ← octet 3%nat s;
  Some (mkIpv4 a b c d, s).

(** Up to [left] groups of an IPv6 address, [i] already read; a dotted quad may
    stand for the last two.  Gives the groups, whether a quad ended them, and
    the rest. *)
Fixpoint read_groups (left i : nat) (s : string) : list Z * bool * string :=
  match left with
  | O => ([], false, s)
  | S left' =>
    match (if decide (1 < left)%nat then read_separator ":" i read_ipv4_addr s else None) with
    | Some (v4, s') => ([be16 (oct0 v4) (oct1 v4); be16 (oct2 v4) (oct3 v4)], true, s')
    | None =>
      match read_separator ":" i (read_number 16 (Some 4%nat) U16_MAX true) s with
      | Some (g, s') => let '(gs, q, s'') := read_groups left' (S i) s' in (g :: gs, q, s'')
      | None => ([], false, s)
      end
    end
  end.

Definition read_ipv6_addr (s : string) : option (list Z * string) :=
  let '(head, head_ipv4, s) := read_groups 8 0 s in
  if decide (List.length head = 8%nat) then Some (head, s) else
  if head_ipv4 then None else
  s ← strip_prefix "::" s;
  let '(tail, _, s) := read_groups (8 - (List.length head + 1)) 0 s in
  Some ((head ++ replicate (8 - List.length head - List.length tail) 0 ++ tail)%list, s).

Definition read_port (s : string) : option (Z * string) :=
  s ← strip_prefix ":" s; read_number 10 None U16_MAX true s.
Definition read_scope_id (s : string) : option (Z * string) :=
  s ← strip_prefix "%" s; read_number 10 None U32_MAX true s.

Definition read_socket_addr_v4 (s : string) : option (SocketAddr * string) :=
  '(ip, s) ← read_ipv4_addr s; '(port, s) ← read_port s; Some (SaV4 ip port, s).
Definition read_socket_addr_v6 (s : string) : option (SocketAddr * string) :=
  s ← strip_prefix "[" s;
  '(ip, s) ← read_ipv6_addr s;
  let '(scope, s) := match read_scope_id s with Some x => x | None => (0, s) end in
  s ← strip_prefix "]" s;
  '(port, s) ← read_port s;
  Some (SaV6 ip port 0 scope, s).

(** [parse_with]: the whole text must be consumed. *)
Definition parse_all {A} (r : option (A * string)) : option A :=
  match r with Some (a, EmptyString) => Some a | _ => None end.

(** [str::parse::<Ipv4Addr>] and [str::parse::<SocketAddr>] *)
Definition parse_ipv4 (s : string) : option Ipv4Addr :=
  if decide (15 < String.length s)%nat then None else parse_all (read_ipv4_addr s).
Definition parse_socket_addr (s : string) : option SocketAddr :=
  parse_all (match read_socket_addr_v4 s with Some r => Some r | None => read_socket_addr_v6 s end).

(** ** Examples *)

Example parse_v4 : parse_socket_addr "192.168.1.1:3478" = Some (SaV4 (mkIpv4 192 168 1 1) 3478).
Proof. reflexivity. Qed.
Example parse_v6 : parse_socket_addr "[2001:db8::1%3]:3478" = Some (SaV6 [0x2001; 0xdb8; 0; 0; 0; 0; 0; 1] 3478 0 3).
Proof. reflexivity. Qed.
Example parse_v6_quad : parse_socket_addr "[::ffff:10.0.0.1]:1" = Some (SaV6 [0; 0; 0; 0; 0; 0xffff; 0xa00; 1] 1 0 0).
Proof. reflexivity. Qed.
Example parse_bad : map parse_socket_addr ["1.2.3.4"; "01.2.3.4:5"; "1.2.3.4:65536"; "localhost:80"; "[::1:80"] = [None; None; None; None; None].
Proof. reflexivity. Qed.
Example trim_both : trim " 	node-b  " = "node-b".
Proof. reflexivity. Qed.

(** ** Lemmas *)

Lemma strip_prefix_app p s : strip_prefix p (p ++ s) = Some s.
Proof. induction p as [|a p IH]; [done|]. rewrite str_app_cons. cbn. by destruct (ascii_dec a a). Qed.

Lemma starts_with_app p s : starts_with (p ++ s) p = true.
Proof. unfold starts_with. by rewrite strip_prefix_app. Qed.

Lemma strip_prefix_Some p s r : strip_prefix p s = Some r → s = p ++ r.
Proof.
  revert s. induction p as [|a p IH]; intros s; cbn; [by intros [= ->]|].
  destruct s as [|b s]; [done|]. destruct (ascii_dec a b) as [->|]; [|done].
  rewrite str_app_cons. intros H. f_equal. auto.
Qed.

Lemma str_drop_app s t : str_drop (String.length s) (s ++ t) = t.
Proof. induction s as [|c s IH]; [done|]. by rewrite str_app_cons. Qed.
Lemma str_take_app s t : str_take (String.length s) (s ++ t) = s.
Proof. induction s as [|c s IH]; [by destruct t|]. rewrite str_app_cons. cbn. by rewrite IH. Qed.
Lemma str_take_all s : str_take (String.length s) s = s.
Proof. induction s as [|c s IH]; [done|]. cbn. by rewrite IH. Qed.
Lemma str_app_nil_r s : s ++ "" = s.
Proof. induction s as [|c s IH]; [done|]. by rewrite str_app_cons, IH. Qed.
Lemma str_length_app s t : String.length (s ++ t) = (String.length s + String.length t)%nat.
Proof. induction s as [|c s IH]; [done|]. rewrite str_app_cons. cbn. by rewrite IH. Qed.

(** A character that the text before it does not contain is found where it stands. *)
Lemma find_char_app s c t cs :
  Forall (λ d, str_contains d s = false) cs → c ∈ cs →
  find_char (s ++ String c t) cs = Some (String.length s).
Proof.
  intros Hs Hc. unfold find_char. induction s as [|a s IH].
  - rewrite str_app_nil. cbn [find_pred]. by rewrite bool_decide_eq_true_2.
  - rewrite str_app_cons. cbn [find_pred]. rewrite bool_decide_eq_false_2.
    + rewrite IH; [done|]. eapply Forall_impl; [exact Hs|]. cbn. intros d. by destruct (ascii_dec a d).
    + intros Ha. rewrite list.Forall_forall in Hs. specialize (Hs a Ha). cbn in Hs.
      by destruct (ascii_dec a a).
Qed.

(** Decimal numbers in address syntax. *)
Lemma to_digit_val c d : digit_val c = Some d → to_digit 10 c = Some d.
Proof.
  unfold digit_val, to_digit. destruct (Z.leb_spec 48 (ascii_Z c)), (Z.leb_spec (ascii_Z c) 57); cbn; try done.
  intros [= <-]. destruct (Z.ltb_spec (ascii_Z c - 48) 10); [done|lia].
Qed.

Lemma read_digits_parse max acc n s v rest :
  parse_digits max acc s = Some v →
  read_digits 10 acc n (s ++ rest) = read_digits 10 v (n + String.length s) rest.
Proof.
  revert acc n. induction s as [|c s IH]; intros acc n; cbn [parse_digits].
  - intros [= ->]. cbn. by rewrite Nat.add_0_r.
  - destruct (digit_val c) as [d|] eqn:E; [|done]. destruct (_ <=? max); [|done]. intros H.
    rewrite str_app_cons. cbn [read_digits String.length]. rewrite (to_digit_val _ _ E).
    rewrite IH by done. f_equal. lia.
Qed.

(** The rest of the text starts with no digit. *)
Definition no_digit (s : string) : Prop :=
  match s with String c _ => to_digit 10 c = None | EmptyString => True end.

Lemma read_digits_dec n rest :
  0 ≤ n < 10 ^ 20 → no_digit rest →
  read_digits 10 0 0 (dec_string n ++ rest) = (n, String.length (dec_string n), rest).
Proof.
  intros Hn Hr. rewrite (read_digits_parse (10 ^ 20) 0 0 (dec_string n) n rest).
  - rewrite Nat.add_0_l. destruct rest as [|c r]; [done|]. cbn in *. by rewrite Hr.
  - unfold dec_string. rewrite parse_digits_dec; [done|lia|cbn; lia|lia].
Qed.

Lemma dec_string_nonempty n : (0 < String.length (dec_string n))%nat.
Proof.
  unfold dec_string. destruct (dec_digits_head 20 n "") as (d & r & _ & ->); [lia|]. cbn. lia.
Qed.

Lemma read_octet n rest :
  in_u8 n → no_digit rest →
  read_number 10 (Some 3%nat) U8_MAX false (dec_string n ++ rest) = Some (n, rest).
Proof.
  intros Hn Hr. unfold read_number. rewrite read_digits_dec by (done || (unfold_words; lia)).
  assert (Hl : (String.length (dec_string n) <=? 3)%nat &&
    negb (starts_with (dec_string n) "0" && (1 <? String.length (dec_string n))%nat) &&
    (0 <? String.length (dec_string n))%nat = true).
  { clear Hr. revert n Hn. refine (byte_forall _ _). vm_compute. reflexivity. }
  apply andb_true_iff in Hl as [Hl H0]. apply andb_true_iff in Hl as [H3 Hz].
  apply Nat.leb_le in H3. apply Nat.ltb_lt in H0. apply negb_true_iff in Hz.
  rewrite bool_decide_eq_false_2 by lia. rewrite bool_decide_eq_false_2 by lia.
  assert (Hs : starts_with (dec_string n ++ rest) "0" = starts_with (dec_string n) "0").
  { destruct (dec_string n) as [|c s]; [cbn in H0; lia|]. rewrite str_app_cons. unfold starts_with. cbn [strip_prefix].
    by destruct (ascii_dec "0"%char c). }
  rewrite Hs. cbn [negb andb]. destruct (starts_with (dec_string n) "0"); cbn [andb] in *.
  - apply Nat.ltb_ge in Hz. rewrite bool_decide_eq_false_2 by lia.
    destruct (Z.ltb_spec U8_MAX n); [unfold_words; lia|done].
  - destruct (Z.ltb_spec U8_MAX n); [unfold_words; lia|done].
Qed.

Lemma read_ipv4_string a rest :
  ipv4_ok a → no_digit rest → read_ipv4_addr (ipv4_string a ++ rest) = Some (a, rest).
Proof.
  intros (H0 & H1 & H2 & H3) Hr. unfold read_ipv4_addr, ipv4_string, read_separator.
  rewrite !str_app_assoc. rewrite read_octet by done. simpl_bind. rewrite strip_prefix_app. simpl_bind.
  rewrite read_octet by done. simpl_bind. rewrite strip_prefix_app. simpl_bind.
  rewrite read_octet by done. simpl_bind. rewrite strip_prefix_app. simpl_bind.
  rewrite read_octet by done. simpl_bind. by destruct a.
Qed.

Lemma read_port_dec p rest :
  in_u16 p → no_digit rest → read_port (":" ++ dec_string p ++ rest) = Some (p, rest).
Proof.
  intros Hp Hr. unfold read_port. rewrite strip_prefix_app. simpl_bind. unfold read_number.
  rewrite read_digits_dec by (done || (unfold_words; lia)). cbn [negb andb].
  rewrite bool_decide_eq_false_2 by (pose proof (dec_string_nonempty p); lia).
  destruct (Z.ltb_spec U16_MAX p); [unfold_words; lia|done].
Qed.

Lemma parse_socket_addr_v4 ip p :
  ipv4_ok ip → in_u16 p → parse_socket_addr (sa_string (SaV4 ip p)) = Some (SaV4 ip p).
Proof.
  intros Hi Hp. unfold parse_socket_addr, read_socket_addr_v4. cbn [sa_string].
  rewrite read_ipv4_string by done. simpl_bind.
  rewrite <- (str_app_nil_r (dec_string p)). rewrite read_port_dec by done. done.
Qed.

Lemma octet_length n : in_u8 n → (String.length (dec_string n) ≤ 3)%nat.
Proof.
  intros Hn. apply Nat.leb_le. revert n Hn. refine (byte_forall _ _). vm_compute. reflexivity.
Qed.

Lemma parse_ipv4_display a : ipv4_ok a → parse_ipv4 (ipv4_string a) = Some a.
Proof.
  intros Ha. unfold parse_ipv4. rewrite decide_False.
  - pose proof (read_ipv4_string a "" Ha I) as H. rewrite str_app_nil_r in H. by rewrite H.
  - destruct Ha as (H0 & H1 & H2 & H3). unfold ipv4_string. rewrite !str_length_app. cbn [String.length].
    pose proof (octet_length _ H0). pose proof (octet_length _ H1).
    pose proof (octet_length _ H2). pose proof (octet_length _ H3). lia.
Qed.

(** The order of strings is total, and sorting with [dedup] lists a set. *)
Lemma str_leb_refl s : str_leb s s = true.
Proof. induction s as [|c s IH]; [done|]. cbn. by rewrite Z.ltb_irrefl, Z.eqb_refl. Qed.
Lemma str_leb_trans s t u : str_leb s t = true → str_leb t u = true → str_leb s u = true.
Proof.
  revert t u. induction s as [|a s IH]; intros [|b t] [|c u]; cbn; try done.
  intros H1 H2. apply orb_true_iff in H1, H2. apply orb_true_iff.
  destruct H1 as [?%Z.ltb_lt|[?%Z.eqb_eq H1]%andb_true_iff], H2 as [?%Z.ltb_lt|[?%Z.eqb_eq H2]%andb_true_iff];
    try (left; apply Z.ltb_lt; lia).
  right. apply andb_true_iff. split; [apply Z.eqb_eq; lia|eauto].
Qed.
Lemma str_leb_total s t : str_leb s t = true ∨ str_leb t s = true.
Proof.
  revert t. induction s as [|a s IH]; intros [|b t]; cbn; auto.
  destruct (Z.ltb_spec (ascii_Z a) (ascii_Z b)), (Z.ltb_spec (ascii_Z b) (ascii_Z a)); auto.
  replace (ascii_Z b) with (ascii_Z a) by lia. rewrite Z.eqb_refl. cbn. apply IH.
Qed.
Lemma str_leb_antisym s t : str_leb s t = true → str_leb t s = true → s = t.
Proof.
  revert t. induction s as [|a s IH]; intros [|b t]; cbn; try done. intros H1 H2.
  apply orb_true_iff in H1, H2.
  destruct H1 as [?%Z.ltb_lt|[E%Z.eqb_eq H1]%andb_true_iff], H2 as [?%Z.ltb_lt|[?%Z.eqb_eq H2]%andb_true_iff]; try lia.
  rewrite <- (Z_ascii_Z a), <- (Z_ascii_Z b), E. f_equal. auto.
Qed.

Lemma dedup_elem s l : s ∈ dedup l ↔ s ∈ l.
Proof.
  induction l as [|a l IH]; [done|]. destruct l as [|b l]; [done|]. cbn [dedup].
  destruct (str_eqb a b) eqn:E.
  - apply str_eqb_eq in E as ->. rewrite IH. set_solver.
  - rewrite !elem_of_cons, IH, elem_of_cons. done.
Qed.

Lemma dedup_sorted l :
  StronglySorted (λ a b, str_leb a b = true) l →
  StronglySorted (λ a b, str_leb a b = true ∧ a ≠ b) (dedup l).
Proof.
  induction 1 as [|a l Hs IH Ha]; [constructor|]. destruct l as [|b l]; [repeat constructor|].
  cbn [dedup]. destruct (str_eqb a b) eqn:E; [done|]. constructor; [done|].
  assert (Hne : a ≠ b) by (intros ->; by rewrite (proj2 (str_eqb_eq b b) eq_refl) in E).
  apply list.Forall_forall. intros x Hx. apply (proj1 (dedup_elem x (b :: l))) in Hx.
  rewrite list.Forall_forall in Ha. split; [by apply Ha|]. intros <-.
  apply Hne, str_leb_antisym; [by apply Ha; set_solver|].
  apply StronglySorted_inv in Hs as [_ Hb]. rewrite list.Forall_forall in Hb.
  apply elem_of_cons in Hx as [->|Hx]; [apply str_leb_refl|by apply Hb].
Qed.

Lemma str_app_cancel_r s t u : s ++ u = t ++ u → s = t.
Proof.
  intros H. assert (E : str_bytes s = str_bytes t); [|by apply (inj str_bytes)].
  apply (f_equal str_bytes) in H. rewrite !str_bytes_app in H. by apply app_inv_tail in H.
Qed.

(** Printed numbers and separators survive [trim]. *)
Lemma trim_digits n : 0 ≤ n < 10 ^ 20 → trim (dec_string n) = dec_string n.
Proof.
  intros Hn. unfold trim.
  assert (Hd : Forall (λ b, 48 ≤ b ≤ 57) (str_bytes (dec_string n))).
  { unfold dec_string. assert (H0 : Forall (λ b, 48 ≤ b ≤ 57) (str_bytes "")) by constructor.
    revert H0. generalize "" as s. revert n Hn. generalize 20%nat. intros f. induction f as [|f IH]; intros n Hn s Hs; [done|].
    cbn [dec_digits]. assert (Hm : 0 ≤ n mod 10 < 10) by (apply Z.mod_pos_bound; lia).
    assert (Hc : Forall (λ b, 48 ≤ b ≤ 57) (str_bytes (String (digit_char (n mod 10)) s))).
    { unfold str_bytes. cbn. constructor; [|done]. unfold digit_char. rewrite ascii_Z_ascii by (unfold_words; lia). lia. }
    destruct (n <? 10); [done|]. apply IH; [word_lia|done]. }
  assert (Hstop : ∀ f ws l, Forall (λ b, 48 ≤ b ≤ 57) l →
    Forall (λ w, match w with b :: _ => ¬ (48 ≤ b ≤ 57) | [] => False end) ws → strip_ws f ws l = l).
  { intros [|f] ws l Hl Hws; [done|]. cbn [strip_ws].
    replace (find_first _ ws) with (@None (list Z)); [done|]. symmetry. apply find_first_None.
    eapply Forall_impl; [exact Hws|]. cbn. intros [|b w] Hb; [done|]. apply bool_decide_eq_false_2.
    destruct Hl as [|x l Hx _]; cbn; [by intros []|]. destruct (Z.eqb_spec b x); [lia|by intros []]. }
  rewrite (Hstop _ whitespace) by (done || (repeat constructor; lia)).
  rewrite Hstop by ((by apply Forall_rev) || (repeat constructor; cbn; lia)).
  rewrite rev_involutive. apply bytes_str_bytes.
Qed.
