(* ===== verification/Errors.v ===== *)
(** * The error type (src/errors.rs)

    [Error] with its [Display] form, which reaches the client as the reason
    phrase of a failed Allocate.  An [io::Error] is carried as its message. *)

From S2P Require Import Prelude RustStd.
Local Open Scope string_scope.

Inductive Error :=
| Io (e : string)
| Protocol (s : string)
| NotFound
| AlreadyExists
| InvalidChannel
| NoAllocation
| AllocationFailed
| AllocationQuotaReached
| RelayPortExhausted
| RelayBindFailed (addr : SocketAddr) (source : string)
| BandwidthLimitExceeded
| Encode (s : string)
| Decode (s : string).

#[global] Instance Error_eq_dec : EqDecision Error.
Proof. solve_decision. Defined.

Definition Error_fmt (e : Error) : string :=
  match e with
  | Io e => "IO error: " ++ e
  | Protocol s => "Protocol error: " ++ s
  | NotFound => "Not found"
  | AlreadyExists => "Already exists"
  | InvalidChannel => "Invalid channel"
  | NoAllocation => "No allocation"
  | AllocationFailed => "Allocation failed"
  | AllocationQuotaReached => "Allocation quota reached"
  | RelayPortExhausted => "No relay ports available"
  | RelayBindFailed addr source =>
    "Failed to bind relay socket on " ++ sa_string addr ++ ": " ++ source
  | BandwidthLimitExceeded => "Bandwidth limit exceeded"
  | Encode s => "Encode error: " ++ s
  | Decode s => "Decode error: " ++ s
  end.

Definition Error_from_io (e : string) : Error := Io e.
