(* ===== verification/StunMessage.v ===== *)
(** * STUN/TURN messages (src/message.rs)

    The wire format: header, attributes, the attribute walk of
    [Message::parse], the XOR address codec, and the response builders.
    Bytes are [Z]s in [0, 256); a transaction id is a list of twelve of them. *)

From S2P Require Import Prelude RustStd.
Local Open Scope Z_scope.

(** ** Data *)

Inductive Method :=
| Binding | Allocate | Refresh | Send | Data | CreatePermission | ChannelBind.

Inductive EventType := Request | Indication | Success | Error.

Inductive ErrorCode :=
| TryAlternate | BadRequest | Unauthorized | Forbidden | NotFound
| AllocationMismatch | StaleCredentials | UnsupportedTransport
| AllocationQuotaReached | RoleConflict | ServerError | InsufficientCapacity.

#[global] Instance Method_eq_dec : EqDecision Method.
Proof. solve_decision. Defined.
#[global] Instance EventType_eq_dec : EqDecision EventType.
Proof. solve_decision. Defined.
#[global] Instance ErrorCode_eq_dec : EqDecision ErrorCode.
Proof. solve_decision. Defined.

Record MessageHeader := mkHeader {
  method : Method;
  event_type : EventType;
  message_length : Z;
  magic_cookie : Z;
  transaction_id : list Z
}.

Record Attribute := mkAttr { attr_type : Z; value : list Z }.

Record Message := mkMsg { header : MessageHeader; attributes : list Attribute }.

#[global] Instance Attribute_eq_dec : EqDecision Attribute.
Proof. solve_decision. Defined.
#[global] Instance MessageHeader_eq_dec : EqDecision MessageHeader.
Proof. solve_decision. Defined.
#[global] Instance Message_eq_dec : EqDecision Message.
Proof. solve_decision. Defined.

(** The discriminants of the [repr(u16)] enums. *)
Definition method_u16 (m : Method) : Z :=
  match m with
  | Binding => 0x0001 | Allocate => 0x0003 | Refresh => 0x0004 | Send => 0x0006
  | Data => 0x0007 | CreatePermission => 0x0008 | ChannelBind => 0x0009
  end.

Definition ErrorCode_code (c : ErrorCode) : Z :=
  match c with
  | TryAlternate => 300 | BadRequest => 400 | Unauthorized => 401 | Forbidden => 403
  | NotFound => 404 | AllocationMismatch => 437 | StaleCredentials => 438
  | UnsupportedTransport => 442 | AllocationQuotaReached => 486 | RoleConflict => 487
  | ServerError => 500 | InsufficientCapacity => 508
  end.

(** [format!("{:?}", code)] *)
Definition ErrorCode_debug (c : ErrorCode) : string :=
  match c with
  | TryAlternate => "TryAlternate" | BadRequest => "BadRequest"
  | Unauthorized => "Unauthorized" | Forbidden => "Forbidden" | NotFound => "NotFound"
  | AllocationMismatch => "AllocationMismatch" | StaleCredentials => "StaleCredentials"
  | UnsupportedTransport => "UnsupportedTransport"
  | AllocationQuotaReached => "AllocationQuotaReached" | RoleConflict => "RoleConflict"
  | ServerError => "ServerError" | InsufficientCapacity => "InsufficientCapacity"
  end%string.

Definition MAGIC : Z := 0x2112A442.

Definition MAPPED_ADDRESS : Z := 0x0001.
Definition XOR_MAPPED_ADDRESS : Z := 0x0020.
Definition XOR_RELAYED_ADDRESS : Z := 0x0016.
Definition REALM : Z := 0x0014.
Definition NONCE : Z := 0x0015.
Definition USERNAME : Z := 0x0006.
Definition MESSAGE_INTEGRITY : Z := 0x0008.
Definition LIFETIME : Z := 0x000D.
Definition BANDWIDTH : Z := 0x0010.
Definition DATA : Z := 0x0013.
Definition CHANNEL_NUMBER : Z := 0x000C.
Definition PEER_ADDRESS : Z := 0x0012.
Definition REQUESTED_TRANSPORT : Z := 0x0019.
Definition ERROR_CODE : Z := 0x0009.
Definition SOFTWARE : Z := 0x8022.
Definition FINGERPRINT : Z := 0x8028.
Definition ICE_CONTROLLING : Z := 0x8029.
Definition ICE_CONTROLLED : Z := 0x802A.

(** ** The header *)

(** The two [match] tables both branches of [MessageHeader::parse] share. *)
Definition method_of_u16 (v : Z) : option Method :=
  match v with
  | 0x0001 => Some Binding
  | 0x0003 => Some Allocate
  | 0x0004 => Some Refresh
  | 0x0006 => Some Send
  | 0x0007 => Some Data
  | 0x0008 => Some CreatePermission
  | 0x0009 => Some ChannelBind
  | _ => None
  end.

Definition class_of_u16 (v : Z) : option EventType :=
  match v with
  | 0 => Some Request
  | 1 => Some Indication
  | 2 => Some Success
  | 3 => Some Error
  | _ => None
  end.

(** The RFC 5389 type word. *)
Definition rfc5389_method (v : Z) : Z :=
  let a := Z.land v 0x000F in
  let b := Z.land (Z.shiftr v 1) 0x0070 in
  let d := Z.land (Z.shiftr v 2) 0x0F80 in
  Z.lor (Z.lor a b) d.
Definition rfc5389_class (v : Z) : Z :=
  let c0 := Z.land (Z.shiftr v 4) 1 in
  let c1 := Z.land (Z.shiftr v 7) 2 in
  Z.lor c0 c1.

(** The RFC 3489 fallback's reading of the same word. *)
Definition rfc3489_class (v : Z) : Z :=
  let first_byte := as_u8 (Z.shiftr v 8) in
  let second_byte := as_u8 (Z.land v 0xFF) in
  Z.lor (Z.land first_byte 0x01) (Z.shiftr (Z.land second_byte 0x10) 3).
Definition rfc3489_method (v : Z) : Z :=
  let first_byte := as_u8 (Z.shiftr v 8) in
  let second_byte := as_u8 (Z.land v 0xFF) in
  Z.lor (as_u16 (Z.shiftl (Z.land first_byte 0x3E) 7)) (Z.land second_byte 0x0F).

Definition MessageHeader_parse (data : list Z) : option MessageHeader :=
  if decide (length data < 20)%nat then None else
  if (byte_at data 4 =? 0x21) && (byte_at data 5 =? 0x12)
     && (byte_at data 6 =? 0xA4) && (byte_at data 7 =? 0x42)
  then
    let v := be16 (byte_at data 0) (byte_at data 1) in
    m ← method_of_u16 (rfc5389_method v);
    e ← class_of_u16 (rfc5389_class v);
    Some (mkHeader m e (be16 (byte_at data 2) (byte_at data 3)) MAGIC (slice data 8 20))
  else
  if decide (length data < 16)%nat then None else
    let msg_type := be16 (byte_at data 0) (byte_at data 1) in
    m ← method_of_u16 (rfc3489_method msg_type);
    e ← class_of_u16 (rfc3489_class msg_type);
    Some (mkHeader m e (be16 (byte_at data 2) (byte_at data 3)) MAGIC (slice data 4 16)).

Definition class_u16 (e : EventType) : Z :=
  match e with Request => 0 | Indication => 1 | Success => 2 | Error => 3 end.

Definition msg_type (m : Method) (e : EventType) : Z :=
  let method_val := method_u16 m in
  let class_val := class_u16 e in
  let a := Z.land method_val 0x000F in
  let b := Z.land method_val 0x0070 in
  let d := Z.land method_val 0x0F80 in
  let method_enc := as_u16 (a + as_u16 (Z.shiftl b 1) + as_u16 (Z.shiftl d 2)) in
  let c0 := as_u16 (Z.shiftl (Z.land class_val 1) 4) in
  let c1 := as_u16 (Z.shiftl (Z.land class_val 2) 7) in
  as_u16 (method_enc + c0 + c1).

(** [MessageHeader::encode]: the bytes appended to the buffer. *)
Definition MessageHeader_encode (h : MessageHeader) : list Z :=
  put_u16 (msg_type (method h) (event_type h)) ++ put_u16 (message_length h)
  ++ put_u32 (magic_cookie h) ++ transaction_id h.

(** ** Attributes *)

Definition Attribute_decode (data : list Z) : option Attribute :=
  if decide (length data < 4)%nat then None else
  let attr_type := be16 (byte_at data 0) (byte_at data 1) in
  let len := Z.to_nat (be16 (byte_at data 2) (byte_at data 3)) in
  if decide (length data - 4 < len)%nat then None else
  if decide (65535 < Z.of_nat len) then None else
  Some (mkAttr attr_type (slice data 4 (4 + len))).

Definition Attribute_encode (a : Attribute) : list Z :=
  let len := as_u16 (Z.of_nat (length (value a))) in
  let padding := as_u16 (4 - len mod 4) mod 4 in
  put_u16 (attr_type a) ++ put_u16 len ++ value a
  ++ (if 0 <? padding then take (Z.to_nat padding) [0; 0; 0; 0] else []).

(** ** Addresses *)

Definition encode_xor_address (addr : SocketAddr) (cookie : Z) (_tid : list Z) : list Z :=
  match addr with
  | SaV4 ip port =>
    put_u8 0 ++ put_u8 0x01
    ++ put_u16 (Z.lxor port (as_u16 (Z.shiftr cookie 16)))
    ++ [Z.lxor (oct0 ip) (as_u8 (Z.shiftr cookie 24));
        Z.lxor (oct1 ip) (as_u8 (Z.shiftr cookie 16));
        Z.lxor (oct2 ip) (as_u8 (Z.shiftr cookie 8));
        Z.lxor (oct3 ip) (as_u8 cookie)]
  | SaV6 _ port _ _ =>
    put_u8 0 ++ put_u8 0x02
    ++ put_u16 (Z.lxor port (as_u16 (Z.shiftr cookie 16))) ++ put_u32 0
  end.

Definition decode_xor_address (data : list Z) (cookie : Z) (_tid : list Z) : option SocketAddr :=
  if decide (length data < 8)%nat then None else
  let family := byte_at data 1 in
  let port := Z.lxor (be16 (byte_at data 2) (byte_at data 3)) (as_u16 (Z.shiftr cookie 16)) in
  if family =? 0x01 then
    Some (SaV4 (mkIpv4 (Z.lxor (byte_at data 4) (as_u8 (Z.shiftr cookie 24)))
                       (Z.lxor (byte_at data 5) (as_u8 (Z.shiftr cookie 16)))
                       (Z.lxor (byte_at data 6) (as_u8 (Z.shiftr cookie 8)))
                       (Z.lxor (byte_at data 7) (as_u8 cookie))) port)
  else None.

(** The hot-path Binding response. *)
Definition create_binding_response_fast (tid : list Z) (client_addr : SocketAddr) : list Z :=
  put_u16 0x0101 ++ put_u16 12 ++ put_u32 0x2112A442 ++ tid
  ++ put_u16 0x0020 ++ put_u16 8
  ++ match client_addr with
     | SaV4 ip port =>
       put_u8 0 ++ put_u8 0x01 ++ put_u16 (Z.lxor port 0x2112)
       ++ put_u8 (Z.lxor (oct0 ip) 0x21) ++ put_u8 (Z.lxor (oct1 ip) 0x12)
       ++ put_u8 (Z.lxor (oct2 ip) 0xa4) ++ put_u8 (Z.lxor (oct3 ip) 0x42)
     | SaV6 _ _ _ _ => put_u8 0 ++ put_u8 0x02 ++ put_u16 0
     end.

(** ** Messages *)

(** The [while offset < end_offset] loop: [None] when the fuel runs out,
    [Some None] for the early [return None], [Some (Some l)] otherwise. *)
Fixpoint parse_attributes (fuel : nat) (data : list Z) (offset end_offset : nat)
    (acc : list Attribute) : option (option (list Attribute)) :=
  match fuel with
  | O => None
  | S fuel =>
    if decide (offset < end_offset)%nat then
      if decide (end_offset < offset + 4)%nat then Some None else
      match Attribute_decode (slice data offset end_offset) with
      | Some attr =>
        let attr_len := (length (value attr) + 4)%nat in
        let padding := ((4 - attr_len mod 4) mod 4)%nat in
        let total_attr_size := (attr_len + padding)%nat in
        if decide (total_attr_size = 0%nat ∨ (end_offset < offset + total_attr_size)%nat)
        then Some None
        else parse_attributes fuel data (offset + total_attr_size) end_offset (acc ++ [attr])
      | None => Some (Some acc)
      end
    else Some (Some acc)
  end.

Definition Message_parse (data : list Z) : option Message :=
  if decide (length data < 20)%nat then None else
  h ← MessageHeader_parse data;
  let total_length := (20 + Z.to_nat (message_length h))%nat in
  if decide (length data < total_length)%nat then None else
  match parse_attributes (S total_length) data 20 total_length [] with
  | Some (Some attrs) => Some (mkMsg h attrs)
  | _ => None
  end.

Definition encode_attributes (l : list Attribute) : list Z := concat (map Attribute_encode l).

Definition set_length (h : MessageHeader) (n : Z) : MessageHeader :=
  mkHeader (method h) (event_type h) n MAGIC (transaction_id h).

Definition Message_encode (m : Message) : list Z :=
  let attr_buf := encode_attributes (attributes m) in
  MessageHeader_encode (set_length (header m) (as_u16 (Z.of_nat (length attr_buf)))) ++ attr_buf.

Definition add_attribute (m : Message) (a : Attribute) : Message :=
  mkMsg (header m) (attributes m ++ [a]).

Definition get_attribute (m : Message) (ty : Z) : option Attribute :=
  find_first (λ a, attr_type a =? ty) (attributes m).

Definition create_error_response_with_reason (h : MessageHeader) (code : ErrorCode)
    (reason : option string) : Message :=
  let msg := mkMsg (mkHeader (method h) Error 0 0x2112A442 (transaction_id h)) [] in
  let class := ErrorCode_code code / 100 in
  let number := ErrorCode_code code mod 100 in
  let err_buf := put_u32 (Z.lor (as_u32 (Z.shiftl class 8)) number) in
  let reason := match reason with Some r => r | None => ErrorCode_debug code end in
  add_attribute msg (mkAttr ERROR_CODE (err_buf ++ str_bytes reason)).

Definition create_error_response (h : MessageHeader) (code : ErrorCode) : Message :=
  create_error_response_with_reason h code None.

Definition create_success_response (h : MessageHeader) : Message :=
  mkMsg (mkHeader (method h) Success 0 0x2112A442 (transaction_id h)) [].

#[global] Arguments Attribute_encode : simpl never.
#[global] Arguments MessageHeader_encode : simpl never.
#[global] Arguments Message_encode : simpl never.
#[global] Arguments encode_attributes : simpl never.

(** ** Well-formedness *)

Definition tid_ok (t : list Z) : Prop := length t = 12%nat ∧ bytes_ok t.
Definition header_ok (h : MessageHeader) : Prop :=
  in_u16 (message_length h) ∧ magic_cookie h = MAGIC ∧ tid_ok (transaction_id h).
Definition attr_ok (a : Attribute) : Prop :=
  in_u16 (attr_type a) ∧ bytes_ok (value a) ∧ Z.of_nat (length (value a)) ≤ 65535.
Definition msg_ok (m : Message) : Prop :=
  tid_ok (transaction_id (header m)) ∧ Forall attr_ok (attributes m) ∧
  Z.of_nat (length (encode_attributes (attributes m))) ≤ 65535.

#[global] Instance tid_ok_dec t : Decision (tid_ok t).
Proof. unfold tid_ok. apply _. Defined.
#[global] Instance attr_ok_dec a : Decision (attr_ok a).
Proof. unfold attr_ok. apply _. Defined.
#[global] Instance msg_ok_dec m : Decision (msg_ok m).
Proof. unfold msg_ok. apply _. Defined.

(** The message [Message::parse] gives back: the sender's attributes under a
    header whose length field is the one on the wire. *)
Definition wire_form (m : Message) : Message :=
  mkMsg (set_length (header m) (Z.of_nat (length (encode_attributes (attributes m)))))
        (attributes m).

(** RFC 5389 section 15.6: the code an ERROR-CODE value carries. *)
Definition error_code_of (v : list Z) : Z := Z.land (byte_at v 2) 7 * 100 + byte_at v 3.

(** The size of one attribute on the wire as [Message::parse] computes it. *)
Definition attr_wire_size (a : Attribute) : nat :=
  let n := (length (value a) + 4)%nat in (n + (4 - n mod 4) mod 4)%nat.

(** ** The type word *)

Lemma msg_type_method m e : rfc5389_method (msg_type m e) = method_u16 m.
Proof. by destruct m, e. Qed.
Lemma msg_type_class m e : rfc5389_class (msg_type m e) = class_u16 e.
Proof. by destruct m, e. Qed.
Lemma method_of_u16_of m : method_of_u16 (method_u16 m) = Some m.
Proof. by destruct m. Qed.
Lemma class_of_u16_of e : class_of_u16 (class_u16 e) = Some e.
Proof. by destruct e. Qed.
Lemma msg_type_range m e : in_u16 (msg_type m e).
Proof. by destruct m, e. Qed.

Definition type_word_check (v : Z) : bool :=
  match method_of_u16 (rfc5389_method v), class_of_u16 (rfc5389_class v) with
  | Some m, Some e => msg_type m e =? v
  | _, _ => true
  end.

Lemma type_word_checked : forallb type_word_check (seqZ 0 16384) = true.
Proof. vm_compute. reflexivity. Qed.

Lemma type_word_unique v m e :
  0 ≤ v < 16384 →
  method_of_u16 (rfc5389_method v) = Some m → class_of_u16 (rfc5389_class v) = Some e →
  msg_type m e = v.
Proof.
  intros Hv Hm He. pose proof type_word_checked as H. rewrite forallb_forall in H.
  specialize (H v). unfold type_word_check in H. rewrite Hm, He in H.
  apply Z.eqb_eq, H, list_elem_of_In, elem_of_seqZ. lia.
Qed.

(** ** Header round trip *)

Lemma MessageHeader_encode_length h :
  length (transaction_id h) = 12%nat → length (MessageHeader_encode h) = 20%nat.
Proof. intros H. unfold MessageHeader_encode. rewrite !length_app, H. done. Qed.

Lemma MessageHeader_parse_encode h rest :
  header_ok h → MessageHeader_parse (MessageHeader_encode h ++ rest) = Some h.
Proof.
  intros (Hl & Hc & Ht & _). destruct h as [m e len cookie tid].
  cbn in Hl, Hc, Ht. subst cookie.
  unfold MessageHeader_parse. rewrite decide_False; last first.
  { rewrite length_app, MessageHeader_encode_length by done. lia. }
  assert (Hs : slice (MessageHeader_encode (mkHeader m e len MAGIC tid) ++ rest) 8 20 = tid).
  { unfold MessageHeader_encode. rewrite <- !app_assoc. rewrite !(app_assoc (put_u16 _)).
    cbn [transaction_id]. rewrite (app_assoc _ (put_u32 _)). apply slice_middle; [done|].
    rewrite Ht. done. }
  rewrite Hs. unfold MessageHeader_encode. cbn -[MAGIC msg_type Z.div Z.modulo slice].
  change (MAGIC / 16777216 mod 256) with 0x21. change (MAGIC / 65536 mod 256) with 0x12.
  change (MAGIC / 256 mod 256) with 0xA4. change (MAGIC mod 256) with 0x42.
  cbn -[MAGIC msg_type Z.div Z.modulo slice].
  rewrite !be16_put by (done || apply msg_type_range).
  by rewrite msg_type_method, msg_type_class, method_of_u16_of, class_of_u16_of.
Qed.

(** ** Attribute round trip *)

Lemma padding_nat n : Z.of_nat n ≤ 65535 →
  Z.to_nat (as_u16 (4 - Z.of_nat n mod 4) mod 4) = ((4 - (n + 4) mod 4) mod 4)%nat.
Proof.
  intros. rewrite as_u16_id by word_lia. apply Nat2Z.inj.
  rewrite Z2Nat.id by word_lia.
  assert ((n + 4) mod 4 < 4)%nat by (apply Nat.mod_upper_bound; lia).
  rewrite Nat2Z.inj_mod, Nat2Z.inj_sub, Nat2Z.inj_mod, Nat2Z.inj_add by lia.
  f_equal. cbn. word_lia.
Qed.

Lemma Attribute_encode_length a :
  Z.of_nat (length (value a)) ≤ 65535 → length (Attribute_encode a) = attr_wire_size a.
Proof.
  intros Hl. unfold Attribute_encode, attr_wire_size.
  rewrite as_u16_id by (unfold_words; lia). pose proof (padding_nat (length (value a))) as Hp.
  set (p := as_u16 _ mod 4) in *. assert (0 ≤ p < 4) by (apply Z.mod_pos_bound; lia).
  rewrite !length_app. rewrite <- Hp by lia. cbn [length put_u16].
  destruct (Z.ltb_spec 0 p); [rewrite length_take; cbn; lia|cbn; lia].
Qed.

Lemma attr_wire_size_ge a : (4 ≤ length (value a) + 4 ≤ attr_wire_size a)%nat.
Proof. unfold attr_wire_size. lia. Qed.

Lemma Attribute_decode_encode a rest :
  attr_ok a → Attribute_decode (Attribute_encode a ++ rest) = Some a.
Proof.
  intros (Ht & Hv & Hl). destruct a as [ty v]; cbn in Ht, Hv, Hl.
  assert (Hlen : Attribute_encode (mkAttr ty v) ++ rest =
    (ty / 256 mod 256) :: (ty mod 256) :: (Z.of_nat (length v) / 256 mod 256)
      :: (Z.of_nat (length v) mod 256) :: v
      ++ drop (4 + length v) (Attribute_encode (mkAttr ty v) ++ rest)).
  { unfold Attribute_encode. cbn [value attr_type put_u16 app].
    rewrite as_u16_id by (unfold_words; lia). cbn. rewrite <- app_assoc. f_equal.
    by rewrite drop_app_length. }
  rewrite Hlen. set (t := drop _ _). unfold Attribute_decode, byte_at. cbn [length nth].
  rewrite !be16_put by (unfold_words; lia). rewrite length_app.
  rewrite !decide_False by lia. rewrite Nat2Z.id. do 2 f_equal.
  apply (slice_middle [_; _; _; _]); done.
Qed.

(** ** The attribute walk *)

Lemma slice_app_r {A} (pre l : list A) :
  slice (pre ++ l) (length pre) (length pre + length l) = l.
Proof.
  unfold slice. rewrite drop_app_length. rewrite take_ge; [done|lia].
Qed.

Lemma encode_attributes_length l :
  Forall attr_ok l →
  length (encode_attributes l) = sum_list_with attr_wire_size l.
Proof.
  induction 1 as [|a l (? & ? & ?) _ IH]; [done|]. unfold encode_attributes in *. cbn [map concat sum_list_with].
  by rewrite length_app, IH, Attribute_encode_length.
Qed.

Lemma parse_attributes_encode fuel pre l acc :
  Forall attr_ok l → (length (encode_attributes l) < fuel)%nat →
  parse_attributes fuel (pre ++ encode_attributes l) (length pre)
    (length pre + length (encode_attributes l)) acc = Some (Some (acc ++ l)).
Proof.
  intros Hl. revert fuel pre acc.
  induction Hl as [|a l Ha Hl IH]; intros [|fuel] pre acc Hf; [lia| |lia|].
  - cbn [parse_attributes]. rewrite decide_False by (unfold encode_attributes; cbn; lia).
    by rewrite app_nil_r.
  - assert (Hsz : length (Attribute_encode a) = attr_wire_size a)
      by (apply Attribute_encode_length; apply Ha).
    pose proof (attr_wire_size_ge a) as Hge.
    cbn [parse_attributes]. rewrite slice_app_r.
    change (encode_attributes (a :: l)) with (Attribute_encode a ++ encode_attributes l) in *.
    rewrite length_app in *. rewrite decide_True by lia. rewrite decide_False by lia.
    rewrite Attribute_decode_encode by done. fold (attr_wire_size a).
    rewrite decide_False by lia. rewrite <- Hsz. 
    rewrite app_assoc, Nat.add_assoc, <- (length_app pre).
    rewrite IH by lia. by rewrite <- app_assoc.
Qed.

(** A message is within the length field when its values are, with seven
    bytes of framing each. *)
Lemma attr_wire_size_le a : (attr_wire_size a ≤ length (value a) + 7)%nat.
Proof.
  unfold attr_wire_size. set (n := (length (value a) + 4)%nat).
  pose proof (Nat.mod_upper_bound (4 - n mod 4) 4). lia.
Qed.

Lemma msg_ok_intro h l :
  tid_ok (transaction_id h) → Forall attr_ok l →
  Z.of_nat (sum_list_with (λ a, length (value a) + 7)%nat l) ≤ 65535 → msg_ok (mkMsg h l).
Proof.
  intros Ht Hl Hs. split; [done|]. split; [done|]. cbn [attributes].
  rewrite encode_attributes_length by done.
  assert (sum_list_with attr_wire_size l ≤ sum_list_with (λ a, length (value a) + 7) l)%nat; [|lia].
  clear. induction l as [|a l IH]; cbn; [lia|]. pose proof (attr_wire_size_le a). lia.
Qed.

(** Each turn of the loop moves the offset by at least four bytes, so a fuel
    of one more than the distance to the end is enough. *)
Lemma parse_attributes_total fuel data offset end_offset acc :
  (end_offset - offset < fuel)%nat →
  parse_attributes fuel data offset end_offset acc ≠ None.
Proof.
  revert offset acc. induction fuel as [|f IH]; intros offset acc Hf; [lia|].
  cbn [parse_attributes]. destruct (decide (offset < end_offset)%nat); [|done].
  destruct (decide _); [done|]. destruct (Attribute_decode _) as [a|]; [|done].
  destruct (decide _); [done|]. apply IH. lia.
Qed.

Lemma parse_attributes_fuel fuel fuel' data offset end_offset acc :
  (end_offset - offset < fuel)%nat → (fuel ≤ fuel')%nat →
  parse_attributes fuel' data offset end_offset acc =
  parse_attributes fuel data offset end_offset acc.
Proof.
  revert fuel' offset acc. induction fuel as [|f IH]; intros [|f'] offset acc Hf Hle; try lia.
  cbn [parse_attributes]. destruct (decide (offset < end_offset)%nat); [|done].
  destruct (decide _); [done|]. destruct (Attribute_decode _) as [a|]; [|done].
  destruct (decide _); [done|]. apply IH; lia.
Qed.

(** What the walk collects is well formed and fits between the two offsets. *)
Lemma Attribute_decode_ok data a :
  bytes_ok data → Attribute_decode data = Some a →
  attr_ok a ∧ (length (value a) + 4 ≤ length data)%nat.
Proof.
  unfold Attribute_decode. intros Hd H. repeat case_decide; simplify_eq. cbn [value attr_type].
  assert (in_u16 (be16 (byte_at data 2) (byte_at data 3))) by auto with miu.
  assert (in_u16 (be16 (byte_at data 0) (byte_at data 1))) by auto with miu.
  rewrite slice_length by lia. repeat split; cbn [value attr_type]; auto with miu;
    [unfold_words; lia..| |lia]. rewrite slice_length; unfold_words; lia.
Qed.

Lemma parse_attributes_ok fuel data offset end_offset acc l :
  bytes_ok data → (end_offset ≤ length data)%nat → (offset ≤ end_offset)%nat →
  parse_attributes fuel data offset end_offset acc = Some (Some l) →
  ∃ l', l = acc ++ l' ∧ Forall attr_ok l' ∧
        (offset + sum_list_with attr_wire_size l' ≤ end_offset)%nat.
Proof.
  intros Hd He. revert offset acc.
  induction fuel as [|f IH]; intros offset acc Ho; [done|]. cbn [parse_attributes].
  case_decide; [|intros; simplify_eq; exists []; rewrite app_nil_r; split_and!; [done|constructor|cbn; lia]].
  case_decide; [done|]. destruct (Attribute_decode _) as [a|] eqn:Ea;
    [|intros; simplify_eq; exists []; rewrite app_nil_r; split_and!; [done|constructor|cbn; lia]].
  fold (attr_wire_size a). case_decide; [done|]. intros Hrec.
  apply Attribute_decode_ok in Ea as [Ha _]; [|auto with miu].
  apply IH in Hrec as (l' & -> & Hl & Hs); [|lia].
  exists (a :: l'). rewrite <- app_assoc. split_and!; [done|by constructor|cbn; lia].
Qed.

Lemma MessageHeader_parse_ok data h :
  bytes_ok data → MessageHeader_parse data = Some h → header_ok h.
Proof.
  unfold MessageHeader_parse. intros Hd H. case_decide; [done|].
  assert (in_u16 (be16 (byte_at data 2) (byte_at data 3))) by auto with miu.
  assert (Ht : ∀ a b, (b - a = 12)%nat → (b ≤ 20)%nat → tid_ok (slice data a b)).
  { intros. split; [rewrite slice_length; lia|auto with miu]. }
  destruct (_ && _); [|case_decide; [done|]];
    destruct (method_of_u16 _) as [m|]; cbn in H; simplify_eq;
    destruct (class_of_u16 _) as [e|]; cbn in H; simplify_eq;
    (split; [done|split; [done|apply Ht; lia]]).
Qed.

Lemma Message_parse_ok data m : bytes_ok data → Message_parse data = Some m → msg_ok m.
Proof.
  unfold Message_parse. intros Hd H. case_decide; [done|].
  destruct (MessageHeader_parse data) as [h|] eqn:Eh; [|done]. simpl_bind.
  apply MessageHeader_parse_ok in Eh as (Hl & _ & Ht); [|done].
  case_decide; [done|]. destruct (parse_attributes _ _ _ _ _) as [[l|]|] eqn:E; simplify_eq.
  apply parse_attributes_ok in E as (l' & -> & Hf & Hs); [|done|lia|lia].
  split_and!; [done|done|]. cbn [attributes app].
  rewrite encode_attributes_length by done. unfold_words. lia.
Qed.

Lemma Message_parse_encode m : msg_ok m → Message_parse (Message_encode m) = Some (wire_form m).
Proof.
  intros (Ht & Ha & Hl). unfold Message_parse, Message_encode.
  rewrite as_u16_id by (unfold_words; lia).
  set (h := set_length _ _). set (buf := encode_attributes _) in *.
  assert (Hh : header_ok h) by (split_and!; [unfold_words; cbn; lia|done|done]).
  assert (Hlen : length (MessageHeader_encode h) = 20%nat)
    by (apply MessageHeader_encode_length, Hh).
  rewrite length_app, Hlen, decide_False, MessageHeader_parse_encode by (done || lia).
  cbn [mbind option_bind]. change (message_length h) with (Z.of_nat (length buf)).
  rewrite Nat2Z.id, decide_False by lia.
  pose proof (parse_attributes_encode (S (20 + length buf)) (MessageHeader_encode h)
    (attributes m) []) as Hp. fold buf in Hp. rewrite Hlen in Hp.
  rewrite Hp by (done || lia). done.
Qed.

Lemma get_attribute_wire_form m ty : get_attribute (wire_form m) ty = get_attribute m ty.
Proof. done. Qed.

(** ** Addresses *)

Lemma as_u8_xor a c : in_u8 a → in_u8 (Z.lxor a (as_u8 c)).
Proof. intros. apply (lxor_range 8); [lia|done|]. apply Z.mod_pos_bound. lia. Qed.
Lemma as_u16_xor a c : in_u16 a → in_u16 (Z.lxor a (as_u16 c)).
Proof. intros. apply (lxor_range 16); [lia|done|]. apply Z.mod_pos_bound. lia. Qed.

Lemma encode_xor_address_length addr c tid : length (encode_xor_address addr c tid) = 8%nat.
Proof. by destruct addr. Qed.

Lemma encode_xor_address_ok addr c tid :
  addr_ok addr → bytes_ok (encode_xor_address addr c tid).
Proof.
  destruct addr as [[a b d e] p|]; intros H; [|repeat constructor; word_lia].
  destruct H as [(Ha & Hb & Hd & He) Hp]. cbn in *.
  repeat (apply bytes_ok_app; split);
    try apply put_u16_ok; repeat constructor; try apply as_u8_xor; try done; word_lia.
Qed.

Lemma decode_encode_xor ip port c tid :
  in_u16 port →
  decode_xor_address (encode_xor_address (SaV4 ip port) c tid) c tid = Some (SaV4 ip port).
Proof.
  intros Hp. unfold decode_xor_address, encode_xor_address. cbn -[as_u16 as_u8 Z.div Z.modulo].
  rewrite be16_put by (by apply as_u16_xor). rewrite !lxor_cancel. by destruct ip.
Qed.

(** ** Properties of the message layer *)

(** C10. Round trip of the wire format: parsing what [Message::encode] writes
    gives back the same method, class, transaction id and attribute list, with
    the length field set to the size of the attributes.  The hypothesis bounds
    the message by what the 16-bit length field can describe. *)
Theorem message_roundtrip (m : Message) :
  msg_ok m → Message_parse (Message_encode m) = Some (wire_form m).
Proof. apply Message_parse_encode. Qed.

Definition sample_msg : Message :=
  mkMsg (mkHeader Allocate Success 0 MAGIC (seqZ 0 12))
        [mkAttr REALM (str_bytes "test"); mkAttr SOFTWARE (str_bytes "miuturn/0.1.4");
         mkAttr LIFETIME (put_u32 600)].

Lemma message_roundtrip_witness :
  msg_ok sample_msg ∧ Message_parse (Message_encode sample_msg) = Some (wire_form sample_msg).
Proof.
  assert (H : msg_ok sample_msg).
  { apply (bool_decide_unpack _). vm_compute. exact I. }
  split; [exact H|]. apply (message_roundtrip sample_msg). exact H.
Defined.

(** Every message the parser accepts is in a form the encoder keeps:
    encoding it and parsing again gives the same header fields and attributes,
    so relaying a parsed message loses nothing. *)
Theorem message_reencode (data : list Z) (m : Message) :
  bytes_ok data → Message_parse data = Some m →
  Message_parse (Message_encode m) = Some (wire_form m).
Proof. intros Hd H. by eapply Message_parse_encode, Message_parse_ok. Qed.

Lemma message_reencode_witness :
  let d := Message_encode sample_msg in
  Message_parse (Message_encode (wire_form sample_msg)) = Some (wire_form (wire_form sample_msg)).
Proof.
  cbv zeta. apply (message_reencode (Message_encode sample_msg) (wire_form sample_msg)).
  - apply (bool_decide_unpack _). vm_compute. exact I.
  - vm_compute. reflexivity.
Defined.

(** The attribute walk of [Message::parse] terminates: with one unit of
    fuel more than the bytes left it always returns, and more fuel never
    changes the answer. *)
Theorem parse_loop_terminates (data : list Z) (offset end_offset fuel : nat) (acc : list Attribute) :
  (end_offset - offset < fuel)%nat →
  ∃ r, parse_attributes fuel data offset end_offset acc = Some r ∧
       ∀ fuel', (fuel ≤ fuel')%nat →
         parse_attributes fuel' data offset end_offset acc = Some r.
Proof.
  intros Hf. pose proof (parse_attributes_total fuel data offset end_offset acc Hf) as Ht.
  destruct (parse_attributes fuel _ _ _ _) as [r|] eqn:E; [|done].
  exists r. split; [done|]. intros f' Hle. by rewrite (parse_attributes_fuel fuel).
Qed.

Lemma parse_loop_terminates_witness :
  ∃ r, parse_attributes 9 [0; 6; 0; 3; 97; 98; 99; 0] 0 8 [] = Some r ∧
       ∀ fuel', (9 ≤ fuel')%nat →
         parse_attributes fuel' [0; 6; 0; 3; 97; 98; 99; 0] 0 8 [] = Some r.
Proof. apply (parse_loop_terminates _ 0 8 9 []). lia. Defined.

(** XOR addresses: an IPv4 socket address survives the encoding with any
    cookie and transaction id; an IPv6 one is written as a family-2 placeholder
    the decoder rejects. *)
Theorem xor_address_roundtrip (addr : SocketAddr) (cookie : Z) (tid : list Z) :
  addr_ok addr →
  decode_xor_address (encode_xor_address addr cookie tid) cookie tid =
  match addr with SaV4 _ _ => Some addr | SaV6 _ _ _ _ => None end.
Proof.
  destruct addr as [ip p|s p f i]; [|done]. intros [_ Hp]. by apply decode_encode_xor.
Qed.

Lemma xor_address_roundtrip_witness :
  decode_xor_address (encode_xor_address (SaV4 (mkIpv4 192 168 1 1) 12345) MAGIC []) MAGIC [] =
  Some (SaV4 (mkIpv4 192 168 1 1) 12345).
Proof.
  apply (xor_address_roundtrip (SaV4 (mkIpv4 192 168 1 1) 12345)).
  repeat split; vm_compute; congruence.
Defined.

(** The hand-written Binding response is the generic encoder's output for
    a success response with one XOR-MAPPED-ADDRESS, for every IPv4 client. *)
Theorem binding_fast_equiv (tid : list Z) (ip : Ipv4Addr) (port : Z) :
  create_binding_response_fast tid (SaV4 ip port) =
  Message_encode
    (mkMsg (mkHeader Binding Success 0 MAGIC tid)
           [mkAttr XOR_MAPPED_ADDRESS (encode_xor_address (SaV4 ip port) MAGIC tid)]).
Proof.
  unfold create_binding_response_fast, Message_encode, MessageHeader_encode, encode_attributes,
    Attribute_encode. cbn -[Z.lxor Z.div Z.modulo]. reflexivity.
Qed.

(** For an IPv6 client the same function announces twelve attribute bytes
    and writes eight, so no receiver using this parser can read the response:
    STUN Binding does not work over IPv6. *)
Theorem binding_fast_ipv6_malformed (tid segs : list Z) (port flow scope : Z) :
  length tid = 12%nat →
  length (create_binding_response_fast tid (SaV6 segs port flow scope)) = 28%nat ∧
  Message_parse (create_binding_response_fast tid (SaV6 segs port flow scope)) = None.
Proof.
  intros Ht. unfold create_binding_response_fast.
  do 12 (destruct tid as [|? tid]; [done|]). destruct tid; [|done]. done.
Qed.

Lemma binding_fast_ipv6_malformed_witness :
  length (seqZ 0 12) = 12%nat ∧
  Message_parse (create_binding_response_fast (seqZ 0 12) (SaV6 [1;0;0;0;0;0;0;1] 3478 0 0)) = None.
Proof.
  split; [reflexivity|].
  apply (binding_fast_ipv6_malformed (seqZ 0 12) [1;0;0;0;0;0;0;1] 3478 0 0). reflexivity.
Defined.

Lemma error_value_ok code reason :
  error_code_of (put_u32 (Z.lor (as_u32 (Z.shiftl (ErrorCode_code code / 100) 8))
                                (ErrorCode_code code mod 100)) ++ reason) = ErrorCode_code code.
Proof. by destruct code. Qed.

Definition reason_text (code : ErrorCode) (reason : option string) : string :=
  match reason with Some r => r | None => ErrorCode_debug code end.

Lemma error_response_msg_ok h code reason :
  tid_ok (transaction_id h) →
  Z.of_nat (String.length (reason_text code reason)) ≤ 65000 →
  msg_ok (create_error_response_with_reason h code reason).
Proof.
  intros Ht Hr. unfold create_error_response_with_reason. fold (reason_text code reason).
  set (v := put_u32 _).
  assert (Hv : length (v ++ str_bytes (reason_text code reason)) =
               (4 + String.length (reason_text code reason))%nat).
  { by rewrite length_app, str_bytes_length. }
  assert (Ha : attr_ok (mkAttr ERROR_CODE (v ++ str_bytes (reason_text code reason)))).
  { split_and!; cbn [attr_type value]; [done| |rewrite Hv; lia].
    apply bytes_ok_app. split; [apply put_u32_ok|auto with miu]. }
  split; [done|]. cbn [attributes add_attribute app]. split; [by apply Forall_singleton|].
  rewrite encode_attributes_length by (by apply Forall_singleton). cbn [sum_list_with].
  unfold attr_wire_size. cbn [value]. rewrite Hv.
  pose proof (Nat.mod_upper_bound (4 - (4 + String.length (reason_text code reason) + 4) mod 4) 4).
  lia.
Qed.

(** An error response tells the client what happened: after the wire it
    is an Error for the request's method and transaction, its ERROR-CODE
    attribute decodes (RFC 5389, 15.6) to the numeric code, and the reason
    phrase is the caller's, or the code's name when none was given. *)
Theorem error_response_carries_code (h : MessageHeader) (code : ErrorCode) (reason : option string) :
  tid_ok (transaction_id h) →
  Z.of_nat (String.length (reason_text code reason)) ≤ 65000 →
  ∃ m a, Message_parse (Message_encode (create_error_response_with_reason h code reason)) = Some m ∧
    method (header m) = method h ∧ event_type (header m) = Error ∧
    transaction_id (header m) = transaction_id h ∧
    get_attribute m ERROR_CODE = Some a ∧
    error_code_of (value a) = ErrorCode_code code ∧
    drop 4 (value a) = str_bytes (reason_text code reason).
Proof.
  intros Ht Hr. eexists _, _. rewrite Message_parse_encode by (by apply error_response_msg_ok).
  split_and!; try reflexivity. apply error_value_ok.
Qed.

Lemma error_response_carries_code_witness :
  let h := mkHeader Allocate Request 0 MAGIC (seqZ 0 12) in
  ∃ m a, Message_parse (Message_encode
      (create_error_response_with_reason h InsufficientCapacity (Some "relay bind failed"%string))) = Some m ∧
    method (header m) = Allocate ∧ event_type (header m) = Error ∧
    transaction_id (header m) = seqZ 0 12 ∧
    get_attribute m ERROR_CODE = Some a ∧ error_code_of (value a) = 508 ∧
    drop 4 (value a) = str_bytes "relay bind failed".
Proof.
  cbv zeta.
  apply (error_response_carries_code (mkHeader Allocate Request 0 MAGIC (seqZ 0 12))
           InsufficientCapacity (Some "relay bind failed"%string)).
  - apply (bool_decide_unpack _). vm_compute. exact I.
  - vm_compute. congruence.
Defined.

(** The cookie-less (RFC 3489) fallback reads the two class bits in the
    opposite order from the RFC 5389 branch: every Success response is taken
    for an Indication and every Indication for a Success response, while
    Requests and Errors agree. *)
Theorem rfc3489_class_bits_swapped (m : Method) (e : EventType) :
  method_of_u16 (rfc3489_method (msg_type m e)) = Some m ∧
  class_of_u16 (rfc3489_class (msg_type m e)) =
  Some (match e with
        | Request => Request | Indication => Success
        | Success => Indication | Error => Error
        end).
Proof. by destruct m, e. Qed.
