(* ===== verification/Ports.v ===== *)
(** * Relay port allocation (src/allocation.rs, [port_rand] and [PortAllocator])

    A bitmap of [u64] words over the port range.  One call runs without
    interference here: [compare_exchange_weak] succeeds, except for the
    spurious failures the weak form is allowed, which come from the argument
    [weak] (one boolean per attempt, [true] for a spurious failure; attempts
    past the end of the list succeed).  The interleaving of several callers is
    the subject of the file PortRace.  The two random draws of [allocate] are
    arguments. *)

From S2P Require Import Prelude RustStd.
Local Open Scope Z_scope.

(** ** The thread-local xorshift generator *)

Definition shl64 (x n : Z) : Z := as_u64 (Z.shiftl x n).
Definition shr64 (x n : Z) : Z := Z.shiftr x n.

(** One call: the old seed, and the clock and stack address a zero seed is
    replaced by; returns the new seed, which is also the value drawn. *)
Definition port_rand (seed time addr : Z) : Z :=
  let seed := if seed =? 0 then as_u64 (as_u64 time + addr) else seed in
  let seed := Z.lxor seed (shl64 seed 13) in
  let seed := Z.lxor seed (shr64 seed 7) in
  Z.lxor seed (shl64 seed 17).

(** ** The allocator *)

Record PortAllocator := mkPorts {
  allocated : list Z;
  allocated_count : Z;
  min_port : Z;
  max_port : Z;
  port_count : Z
}.

Definition not64 (x : Z) : Z := Z.lxor x U64_MAX.
Definition bit64 (n : Z) : Z := shl64 1 n.
Definition trailing_zeros (x : Z) : Z :=
  match find_first (λ i, Z.testbit x i) (seqZ 0 64) with Some i => i | None => 64 end.
Definition div_ceil (a b : Z) : Z := (a + b - 1) / b.

Definition PortAllocator_new (min_port max_port : Z) : PortAllocator :=
  let port_count := as_u16 (as_u16 (max_port - min_port) + 1) in
  let num_u64s := Z.to_nat (div_ceil port_count 64) in
  mkPorts (replicate num_u64s 0) 0 min_port max_port port_count.

Definition word (pa : PortAllocator) (i : nat) : Z := nth i (allocated pa) 0.

(** A successful compare-exchange on word [i] followed by the counter update. *)
Definition store (pa : PortAllocator) (i : nat) (w dcount : Z) : PortAllocator :=
  mkPorts (<[i := w]> (allocated pa)) (as_u64 (allocated_count pa + dcount))
          (min_port pa) (max_port pa) (port_count pa).

(** Pops one compare-exchange attempt: did it fail spuriously, and what is
    left of the schedule. *)
Definition weak_fails (weak : list bool) : bool * list bool :=
  match weak with b :: rest => (b, rest) | [] => (false, []) end.

(** The fallback loop: the lowest free bit of the word, retried on a spurious
    failure.  Gives the port index and the new word. *)
Fixpoint lowest_free (count : Z) (idx : nat) (current : Z) (weak : list bool)
    : option (Z * Z) * list bool :=
  let free_mask := not64 current in
  if free_mask =? 0 then (None, weak) else
  let free_bit := trailing_zeros free_mask in
  let mask := bit64 free_bit in
  let port_index := as_u16 (Z.of_nat idx * 64 + free_bit) in
  if count <=? port_index then (None, weak) else
  match weak with
  | true :: rest => lowest_free count idx current rest
  | false :: rest => (Some (port_index, Z.lor current mask), rest)
  | [] => (Some (port_index, Z.lor current mask), [])
  end.

(** One turn of [for bitmap_idx in 0..num_u64s]. *)
Definition probe (pa : PortAllocator) (start_idx bit_offset : Z) (bitmap_idx : nat)
    (weak : list bool) : option (Z * PortAllocator) * list bool :=
  let num_u64s := Z.of_nat (length (allocated pa)) in
  let idx := Z.to_nat ((start_idx + Z.of_nat bitmap_idx) mod num_u64s) in
  let current := word pa idx in
  if current =? U64_MAX then (None, weak) else
  let free_mask := not64 current in
  if free_mask =? 0 then (None, weak) else
  let take_index port_index w := (as_u16 (min_port pa + port_index), store pa idx w 1) in
  let fallback weak :=
    let '(r, weak) := lowest_free (port_count pa) idx current weak in
    (match r with Some (port_index, w) => Some (take_index port_index w) | None => None end, weak) in
  let random_bit := (bit_offset + Z.of_nat bitmap_idx) mod 64 in
  if negb (Z.land free_mask (bit64 random_bit) =? 0) then
    let mask := bit64 random_bit in
    let port_index := as_u16 (Z.of_nat idx * 64 + random_bit) in
    if port_index <? port_count pa then
      let '(failed, weak) := weak_fails weak in
      if failed then fallback weak
      else (Some (take_index port_index (Z.lor current mask)), weak)
    else fallback weak
  else fallback weak.

Fixpoint probe_from (pa : PortAllocator) (start_idx bit_offset : Z) (idxs : list nat)
    (weak : list bool) : option Z * PortAllocator :=
  match idxs with
  | [] => (None, pa)
  | i :: idxs =>
    match probe pa start_idx bit_offset i weak with
    | (Some (port, pa'), _) => (Some port, pa')
    | (None, weak) => probe_from pa start_idx bit_offset idxs weak
    end
  end.

(** [allocate]: [r1] and [r2] are the two draws of [port_rand]; the remainder
    by the number of words panics when the bitmap is empty. *)
Definition PortAllocator_allocate (r1 r2 : Z) (weak : list bool) (pa : PortAllocator)
    : outcome (option Z * PortAllocator) :=
  let num_u64s := Z.of_nat (length (allocated pa)) in
  if num_u64s =? 0 then Panic else
  let start_idx := r1 mod num_u64s in
  let bit_offset := as_u32 r2 mod 64 in
  Ret (probe_from pa start_idx bit_offset (seq 0 (length (allocated pa))) weak).

Fixpoint release_word (current mask : Z) (weak : list bool) : option Z :=
  if Z.land current mask =? 0 then None else
  match weak with
  | true :: rest => release_word current mask rest
  | _ => Some (Z.land current (not64 mask))
  end.

Definition PortAllocator_release (weak : list bool) (port : Z) (pa : PortAllocator)
    : bool * PortAllocator :=
  if (port <? min_port pa) || (max_port pa <? port) then (false, pa) else
  let port_index := port - min_port pa in
  let bitmap_index := Z.to_nat (port_index / 64) in
  let mask := bit64 (port_index mod 64) in
  if decide (length (allocated pa) ≤ bitmap_index)%nat then (false, pa) else
  match release_word (word pa bitmap_index) mask weak with
  | Some w => (true, store pa bitmap_index w (-1))
  | None => (false, pa)
  end.

Definition PortAllocator_allocated_count (pa : PortAllocator) : Z := allocated_count pa.

Definition PortAllocator_available_count (pa : PortAllocator) : Z :=
  as_u64 (port_count pa - allocated_count pa).

Definition PortAllocator_is_allocated (pa : PortAllocator) (port : Z) : bool :=
  if (port <? min_port pa) || (max_port pa <? port) then false else
  let port_index := port - min_port pa in
  let bitmap_index := Z.to_nat (port_index / 64) in
  let mask := bit64 (port_index mod 64) in
  if decide (length (allocated pa) ≤ bitmap_index)%nat then false else
  negb (Z.land (word pa bitmap_index) mask =? 0).

(** ** The abstract view: the set of ports in use *)

Definition ports (pa : PortAllocator) : gset Z :=
  list_to_set (filter (λ p, PortAllocator_is_allocated pa p = true)
                      (seqZ (min_port pa) (port_count pa))).

(** Bit [i] of the bitmap. *)
Definition bit (pa : PortAllocator) (i : Z) : bool :=
  Z.testbit (word pa (Z.to_nat (i / 64))) (i mod 64).

Record ports_ok (pa : PortAllocator) : Prop := {
  ok_range : 0 ≤ min_port pa ≤ max_port pa ∧ max_port pa ≤ 65535;
  ok_count : port_count pa = max_port pa - min_port pa + 1;
  ok_fits : port_count pa ≤ 65535;
  ok_words : length (allocated pa) = Z.to_nat (div_ceil (port_count pa) 64);
  ok_word : Forall in_u64 (allocated pa);
  ok_tail : ∀ i, 0 ≤ i → bit pa i = true → i < port_count pa;
  ok_size : allocated_count pa = Z.of_nat (size (ports pa))
}.

(** ** Bits *)

Lemma testbit_max i : 0 ≤ i → Z.testbit U64_MAX i = (i <? 64).
Proof.
  intros. change U64_MAX with (Z.ones 64). destruct (Z.ltb_spec i 64).
  - by apply Z.ones_spec_low.
  - by apply Z.ones_spec_high.
Qed.

Lemma bit64_eq n : 0 ≤ n < 64 → bit64 n = 2 ^ n.
Proof.
  intros. unfold bit64, shl64. rewrite Z.shiftl_1_l. apply as_u64_id.
  unfold in_u64. change 18446744073709551616 with (2 ^ 64).
  split; [apply Z.pow_nonneg; lia|]. apply Z.pow_lt_mono_r; lia.
Qed.

Lemma testbit_not64 x i : 0 ≤ i < 64 → Z.testbit (not64 x) i = negb (Z.testbit x i).
Proof.
  intros. unfold not64. rewrite Z.lxor_spec, testbit_max by lia.
  destruct (Z.ltb_spec i 64); [|lia]. by destruct (Z.testbit x i).
Qed.

Lemma not64_range x : in_u64 x → in_u64 (not64 x).
Proof. intros. by apply (lxor_range 64). Qed.

Lemma land_bit64 x n : 0 ≤ n < 64 → (Z.land x (bit64 n) =? 0) = negb (Z.testbit x n).
Proof.
  intros. rewrite bit64_eq by done. destruct (Z.testbit x n) eqn:E; cbn.
  - apply Z.eqb_neq. intros H0. apply (f_equal (λ y, Z.testbit y n)) in H0.
    rewrite Z.land_spec, Z.pow2_bits_true, E, Z.bits_0 in H0 by lia. done.
  - apply Z.eqb_eq. apply Z.bits_inj'. intros i Hi.
    rewrite Z.land_spec, Z.pow2_bits_eqb, Z.bits_0 by lia.
    destruct (Z.eqb_spec n i) as [->|]; [by rewrite E|by rewrite andb_false_r].
Qed.

Lemma testbit_lor_bit x n i :
  0 ≤ n < 64 → Z.testbit (Z.lor x (bit64 n)) i = (n =? i) || Z.testbit x i.
Proof.
  intros. rewrite bit64_eq, Z.lor_spec, Z.pow2_bits_eqb by lia. apply orb_comm.
Qed.

Lemma testbit_clear_bit x n i :
  0 ≤ n < 64 → 0 ≤ i < 64 →
  Z.testbit (Z.land x (not64 (bit64 n))) i = negb (n =? i) && Z.testbit x i.
Proof.
  intros. rewrite Z.land_spec, testbit_not64, bit64_eq, Z.pow2_bits_eqb by lia. apply andb_comm.
Qed.

Lemma bit64_range n : 0 ≤ n < 64 → in_u64 (bit64 n).
Proof.
  intros. rewrite bit64_eq by done. unfold in_u64. change 18446744073709551616 with (2 ^ 64).
  split; [apply Z.pow_nonneg; lia|]. apply Z.pow_lt_mono_r; lia.
Qed.

Lemma u64_zero x : in_u64 x → (∀ i, 0 ≤ i < 64 → Z.testbit x i = false) → x = 0.
Proof.
  intros Hx Hb. apply Z.bits_inj'. intros i Hi. rewrite Z.bits_0.
  destruct (decide (i < 64)); [by apply Hb|]. apply (testbit_above 64); [done|lia].
Qed.

Lemma find_first_split {A} (p : A → bool) l a :
  find_first p l = Some a →
  ∃ l1 l2, l = l1 ++ a :: l2 ∧ p a = true ∧ Forall (λ b, p b = false) l1.
Proof.
  induction l as [|b l IH]; [done|]. cbn. destruct (p b) eqn:E; intros H; simplify_eq.
  - by exists [], l.
  - destruct (IH H) as (l1 & l2 & -> & Ha & Hf). exists (b :: l1), l2. by repeat constructor.
Qed.

Lemma trailing_zeros_spec x :
  in_u64 x → x ≠ 0 →
  0 ≤ trailing_zeros x < 64 ∧ Z.testbit x (trailing_zeros x) = true ∧
  ∀ j, 0 ≤ j < trailing_zeros x → Z.testbit x j = false.
Proof.
  intros Hx Hne. unfold trailing_zeros.
  destruct (find_first _ _) as [i|] eqn:E; last first.
  { destruct Hne. apply u64_zero; [done|]. intros i Hi. apply find_first_None in E.
    rewrite list.Forall_forall in E. apply (E i), elem_of_seqZ. lia. }
  apply find_first_split in E as (l1 & l2 & El & Hi & Hf).
  assert (Hl : seqZ 0 64 !! length l1 = Some i) by (rewrite El; by apply list_lookup_middle).
  apply lookup_seqZ in Hl as [-> Hlt]. split_and!; [lia..|done|].
  intros j Hj. rewrite list.Forall_forall in Hf. apply Hf.
  apply list_elem_of_lookup. exists (Z.to_nat j).
  assert (Hjl : seqZ 0 64 !! Z.to_nat j = Some j) by (apply lookup_seqZ; lia).
  rewrite El, lookup_app_l in Hjl; [done|lia].
Qed.

(** ** The bitmap *)

Lemma word_store pa i w d j :
  (i < length (allocated pa))%nat → word (store pa i w d) j = if decide (j = i) then w else word pa j.
Proof.
  intros Hi. unfold word, store. cbn [allocated]. rewrite !nth_lookup.
  case_decide as E; [subst; by rewrite list_lookup_insert_eq|by rewrite list_lookup_insert_ne].
Qed.

Lemma index_split i idx b : 0 ≤ b < 64 → i = Z.of_nat idx * 64 + b →
  Z.to_nat (i / 64) = idx ∧ i mod 64 = b.
Proof. intros. split; word_lia. Qed.

Lemma bit_store pa idx w d i :
  (idx < length (allocated pa))%nat → 0 ≤ i →
  bit (store pa idx w d) i =
  if decide (Z.to_nat (i / 64) = idx) then Z.testbit w (i mod 64) else bit pa i.
Proof. intros. unfold bit. rewrite word_store by done. by case_decide. Qed.

Lemma bit_in_word pa idx b :
  0 ≤ b < 64 → bit pa (Z.of_nat idx * 64 + b) = Z.testbit (word pa idx) b.
Proof.
  intros Hb. unfold bit. by destruct (index_split _ idx b Hb eq_refl) as [-> ->].
Qed.

Lemma bit_set pa idx b d i :
  (idx < length (allocated pa))%nat → 0 ≤ b < 64 → 0 ≤ i →
  bit (store pa idx (Z.lor (word pa idx) (bit64 b)) d) i = (i =? Z.of_nat idx * 64 + b) || bit pa i.
Proof.
  intros Hi Hb H0. rewrite bit_store by done. case_decide as E.
  - rewrite testbit_lor_bit by done. unfold bit. rewrite E. f_equal.
    destruct (Z.eqb_spec b (i mod 64)), (Z.eqb_spec i (Z.of_nat idx * 64 + b)); [done|word_lia..|done].
  - destruct (Z.eqb_spec i (Z.of_nat idx * 64 + b)) as [->|]; [|done].
    by destruct (index_split _ idx b Hb eq_refl).
Qed.

Lemma bit_clear pa idx b d i :
  (idx < length (allocated pa))%nat → 0 ≤ b < 64 → 0 ≤ i →
  bit (store pa idx (Z.land (word pa idx) (not64 (bit64 b))) d) i =
  negb (i =? Z.of_nat idx * 64 + b) && bit pa i.
Proof.
  intros Hi Hb H0. rewrite bit_store by done. case_decide as E.
  - rewrite testbit_clear_bit by (done || word_lia). unfold bit. rewrite E. do 2 f_equal.
    destruct (Z.eqb_spec b (i mod 64)), (Z.eqb_spec i (Z.of_nat idx * 64 + b)); [done|word_lia..|done].
  - destruct (Z.eqb_spec i (Z.of_nat idx * 64 + b)) as [->|]; [|done].
    by destruct (index_split _ idx b Hb eq_refl).
Qed.

(** ** Ports in use *)

Section inv.
Context (pa : PortAllocator) (Hok : ports_ok pa).

Lemma word_range i : in_u64 (word pa i).
Proof.
  unfold word. destruct (nth_in_or_default i (allocated pa) 0) as [Hin| ->]; [|done].
  pose proof (ok_word _ Hok) as Hw. rewrite list.Forall_forall in Hw. by apply Hw, list_elem_of_In.
Qed.

Lemma num_words_bound : Z.of_nat (length (allocated pa)) ≤ 1024.
Proof.
  rewrite (ok_words _ Hok). pose proof (ok_fits _ Hok). unfold div_ceil.
  pose proof (ok_range _ Hok). pose proof (ok_count _ Hok). word_lia.
Qed.

Lemma index_in_words i : 0 ≤ i < port_count pa → (Z.to_nat (i / 64) < length (allocated pa))%nat.
Proof. rewrite (ok_words _ Hok). unfold div_ceil. intros. word_lia. Qed.

Lemma num_words_pos : (0 < length (allocated pa))%nat.
Proof.
  pose proof (index_in_words 0). pose proof (ok_range _ Hok). pose proof (ok_count _ Hok). lia.
Qed.

Lemma is_allocated_bit p :
  PortAllocator_is_allocated pa p = true ↔
  min_port pa ≤ p ≤ max_port pa ∧ bit pa (p - min_port pa) = true.
Proof.
  unfold PortAllocator_is_allocated.
  destruct (Z.ltb_spec p (min_port pa)), (Z.ltb_spec (max_port pa) p); cbn; try (split; [done|lia]).
  pose proof (index_in_words (p - min_port pa)). pose proof (ok_count _ Hok).
  rewrite decide_False by lia. rewrite land_bit64 by word_lia. rewrite negb_involutive.
  unfold bit. intuition lia.
Qed.

Lemma elem_of_ports p :
  p ∈ ports pa ↔ min_port pa ≤ p ≤ max_port pa ∧ bit pa (p - min_port pa) = true.
Proof.
  unfold ports. rewrite elem_of_list_to_set, list_elem_of_filter, elem_of_seqZ, is_allocated_bit.
  pose proof (ok_count _ Hok). intuition lia.
Qed.

Lemma ports_size_bound : Z.of_nat (size (ports pa)) ≤ port_count pa.
Proof.
  unfold ports. pose proof (ok_range _ Hok). pose proof (ok_count _ Hok).
  rewrite size_list_to_set by (apply NoDup_filter, NoDup_seqZ).
  etrans; [apply inj_le, length_filter|]. rewrite length_seqZ. lia.
Qed.
End inv.

(** What a store must satisfy to leave the allocator well formed with the
    given new set of ports. *)
Lemma store_ok pa idx w d (X : gset Z) :
  ports_ok pa → (idx < length (allocated pa))%nat → in_u64 w →
  (∀ i, 0 ≤ i → bit (store pa idx w d) i = true → i < port_count pa) →
  (∀ p, p ∈ X ↔ min_port pa ≤ p ≤ max_port pa ∧
                bit (store pa idx w d) (p - min_port pa) = true) →
  allocated_count pa + d = Z.of_nat (size X) →
  ports_ok (store pa idx w d) ∧ ports (store pa idx w d) = X.
Proof.
  intros Hok Hidx Hw Htail HX Hd.
  assert (Hports : ports (store pa idx w d) = X).
  { apply set_eq. intros p. unfold ports. rewrite elem_of_list_to_set, list_elem_of_filter, elem_of_seqZ.
    rewrite HX. cbn [min_port port_count max_port store].
    pose proof (ok_count _ Hok). pose proof (index_in_words pa Hok (p - min_port pa)).
    unfold PortAllocator_is_allocated. cbn [min_port max_port store].
    destruct (Z.ltb_spec p (min_port pa)), (Z.ltb_spec (max_port pa) p); cbn [orb];
      try (split; [intros [[=] _]|lia]).
    cbn [allocated store]. rewrite length_insert, decide_False, land_bit64, negb_involutive by (lia || word_lia).
    unfold bit. cbn [word allocated store]. split; [intros [? _]; split; [lia|done]|intros [_ ?]; split; [done|lia]]. }
  split; [|done]. split; cbn [min_port max_port port_count store];
    try apply Hok; [cbn; rewrite length_insert; apply Hok| |done|].
  - cbn. apply Forall_insert; [apply Hok|done].
  - rewrite Hports. cbn [allocated_count store]. rewrite Hd. apply as_u64_id.
    pose proof (ok_fits _ Hok). pose proof (ok_range _ Hok). pose proof (ok_count _ Hok).
    assert (Z.of_nat (size X) ≤ 65536); [|unfold_words; lia].
    transitivity (Z.of_nat (size (list_to_set (seqZ 0 65536) : gset Z))).
    + apply inj_le, subseteq_size. intros p Hp%HX. apply elem_of_list_to_set, elem_of_seqZ. lia.
    + rewrite size_list_to_set by apply NoDup_seqZ. rewrite length_seqZ. lia.
Qed.

Lemma store_set pa idx b :
  ports_ok pa → (idx < length (allocated pa))%nat → 0 ≤ b < 64 →
  Z.of_nat idx * 64 + b < port_count pa → bit pa (Z.of_nat idx * 64 + b) = false →
  let p := min_port pa + (Z.of_nat idx * 64 + b) in
  let pa' := store pa idx (Z.lor (word pa idx) (bit64 b)) 1 in
  (p ∉ ports pa) ∧ ports_ok pa' ∧ ports pa' = {[p]} ∪ ports pa.
Proof.
  intros Hok Hi Hb Hq Hfree p pa'. pose proof (ok_count _ Hok).
  assert (Hp : p ∉ ports pa).
  { rewrite elem_of_ports by done. intros [_ Hbit]. subst p.
    replace (min_port pa + _ - min_port pa) with (Z.of_nat idx * 64 + b) in Hbit by lia. congruence. }
  split; [done|]. apply store_ok; [done|done| | | |].
  - apply (lor_range 64); [lia|by apply word_range|by apply bit64_range].
  - intros i H0. rewrite bit_set by done. intros [->%Z.eqb_eq|Hbit]%orb_true_iff; [lia|].
    by apply (ok_tail _ Hok).
  - intros q. rewrite elem_of_union, elem_of_singleton, elem_of_ports by done. subst p. split.
    + intros [->|[Hr Hbit]]; (split; [lia|]); rewrite bit_set by (done || lia).
      * apply orb_true_iff. left. apply Z.eqb_eq. lia.
      * by rewrite Hbit, orb_true_r.
    + intros [Hr Hbit]. rewrite bit_set in Hbit by (done || lia).
      apply orb_true_iff in Hbit as [Hbit%Z.eqb_eq|Hbit]; [left; lia|right; auto].
  - rewrite size_union by set_solver. rewrite size_singleton, (ok_size _ Hok). lia.
Qed.

Lemma store_clear pa idx b :
  ports_ok pa → (idx < length (allocated pa))%nat → 0 ≤ b < 64 →
  bit pa (Z.of_nat idx * 64 + b) = true →
  let p := min_port pa + (Z.of_nat idx * 64 + b) in
  let pa' := store pa idx (Z.land (word pa idx) (not64 (bit64 b))) (-1) in
  p ∈ ports pa ∧ ports_ok pa' ∧ ports pa' = ports pa ∖ {[p]}.
Proof.
  intros Hok Hi Hb Hset p pa'. pose proof (ok_count _ Hok).
  assert (Hlt : Z.of_nat idx * 64 + b < port_count pa) by (apply (ok_tail _ Hok); [lia|done]).
  assert (Hp : p ∈ ports pa).
  { rewrite elem_of_ports by done. subst p. split; [lia|].
    by replace (min_port pa + _ - min_port pa) with (Z.of_nat idx * 64 + b) by lia. }
  split; [done|]. apply store_ok; [done|done| | | |].
  - apply (land_range_l 64); [lia|by apply word_range].
  - intros i H0. rewrite bit_clear by done. intros [_ Hbit]%andb_true_iff.
    by apply (ok_tail _ Hok).
  - intros q. rewrite elem_of_difference, elem_of_singleton, elem_of_ports by done. subst p. split.
    + intros [[Hr Hbit] Hne]. split; [done|]. rewrite bit_clear by (done || lia).
      rewrite Hbit, andb_true_r. apply negb_true_iff, Z.eqb_neq. lia.
    + intros [Hr Hbit]. rewrite bit_clear in Hbit by (done || lia).
      apply andb_true_iff in Hbit as [Hne%negb_true_iff%Z.eqb_neq Hbit]. split; [done|lia].
  - rewrite size_difference by set_solver. rewrite size_singleton, (ok_size _ Hok).
    assert (size (ports pa) ≠ 0)%nat; [|lia]. rewrite size_non_empty_iff. set_solver.
Qed.

(** ** One word *)

Lemma lowest_free_spec count idx current weak :
  in_u64 current → Z.of_nat idx < 1024 →
  match (lowest_free count idx current weak).1 with
  | Some (q, w) => ∃ b, 0 ≤ b < 64 ∧ q = Z.of_nat idx * 64 + b ∧ q < count ∧
                        Z.testbit current b = false ∧ w = Z.lor current (bit64 b)
  | None => ∀ b, 0 ≤ b < 64 → Z.of_nat idx * 64 + b < count → Z.testbit current b = true
  end.
Proof.
  intros Hc Hi. induction weak as [|w weak IH]; cbn [lowest_free];
    (destruct (Z.eqb_spec (not64 current) 0) as [H0|H0];
     [cbn; intros b Hb _; pose proof (testbit_not64 current b Hb) as Ht;
      rewrite H0, Z.bits_0 in Ht; by destruct (Z.testbit current b)|]);
    destruct (trailing_zeros_spec (not64 current)) as (Hr & Ht & Hlow);
      [by apply not64_range|done| |by apply not64_range|done|];
    set (b := trailing_zeros _) in *;
    rewrite testbit_not64 in Ht by done; apply negb_true_iff in Ht;
    rewrite as_u16_id by (unfold_words; lia);
    (destruct (Z.leb_spec count (Z.of_nat idx * 64 + b));
     [cbn; intros b' Hb' Hlt; specialize (Hlow b'); rewrite testbit_not64 in Hlow by done;
      apply negb_false_iff, Hlow; lia|]).
  - cbn. by exists b.
  - destruct w; [done|]. cbn. by exists b.
Qed.

Lemma probe_spec pa start off i weak :
  ports_ok pa →
  let idx := Z.to_nat ((start + Z.of_nat i) mod Z.of_nat (length (allocated pa))) in
  match (probe pa start off i weak).1 with
  | Some (p, pa') => min_port pa ≤ p ≤ max_port pa ∧ (p ∉ ports pa) ∧
                     ports_ok pa' ∧ ports pa' = {[p]} ∪ ports pa
  | None => ∀ b, 0 ≤ b < 64 → Z.of_nat idx * 64 + b < port_count pa →
                 bit pa (Z.of_nat idx * 64 + b) = true
  end.
Proof.
  intros Hok idx. pose proof (num_words_pos pa Hok) as Hpos.
  pose proof (num_words_bound pa Hok) as Hmax. pose proof (ok_count _ Hok) as Hcount.
  pose proof (ok_range _ Hok) as Hrange.
  assert (Hidx : (idx < length (allocated pa))%nat).
  { subst idx. pose proof (Z.mod_pos_bound (start + Z.of_nat i) (Z.of_nat (length (allocated pa)))). lia. }
  pose proof (word_range pa Hok idx) as Hw.
  unfold probe. fold idx.
  assert (Hfull : not64 (word pa idx) = 0 → ∀ b, 0 ≤ b < 64 →
    Z.of_nat idx * 64 + b < port_count pa → bit pa (Z.of_nat idx * 64 + b) = true).
  { intros H0 b Hb _. rewrite bit_in_word by done. pose proof (testbit_not64 (word pa idx) b Hb) as Ht.
    rewrite H0, Z.bits_0 in Ht. by destruct (Z.testbit _ b). }
  destruct (Z.eqb_spec (word pa idx) U64_MAX) as [E|_];
    [cbn; apply Hfull; rewrite E; reflexivity|].
  destruct (Z.eqb_spec (not64 (word pa idx)) 0) as [E|_]; [cbn; by apply Hfull|].
  assert (Htake : ∀ b, 0 ≤ b < 64 → Z.of_nat idx * 64 + b < port_count pa →
    Z.testbit (word pa idx) b = false →
    let p := as_u16 (min_port pa + (Z.of_nat idx * 64 + b)) in
    let pa' := store pa idx (Z.lor (word pa idx) (bit64 b)) 1 in
    min_port pa ≤ p ≤ max_port pa ∧ (p ∉ ports pa) ∧ ports_ok pa' ∧ ports pa' = {[p]} ∪ ports pa).
  { intros b Hb Hq Hbit. cbv zeta. rewrite as_u16_id by (unfold_words; lia).
    split; [lia|]. apply store_set; [done..|]. by rewrite bit_in_word. }
  assert (Hfall : ∀ wk, match ((let '(r, weak0) := lowest_free (port_count pa) idx (word pa idx) wk in
      (match r with Some (port_index, w) =>
         Some (as_u16 (min_port pa + port_index), store pa idx w 1) | None => None end, weak0))).1 with
    | Some (p, pa') => min_port pa ≤ p ≤ max_port pa ∧ (p ∉ ports pa) ∧
                       ports_ok pa' ∧ ports pa' = {[p]} ∪ ports pa
    | None => ∀ b, 0 ≤ b < 64 → Z.of_nat idx * 64 + b < port_count pa →
                   bit pa (Z.of_nat idx * 64 + b) = true
    end).
  { intros wk. pose proof (lowest_free_spec (port_count pa) idx (word pa idx) wk Hw) as Hl.
    destruct (lowest_free _ _ _ _) as [[[q w]|] wk']; cbn in *.
    - destruct Hl as (b & Hb & -> & Hq & Hbit & ->); [lia|]. by apply Htake.
    - intros b Hb Hq. rewrite bit_in_word by done. apply Hl; [lia|done|done]. }
  set (rb := (off + Z.of_nat i) mod 64). assert (Hrb : 0 ≤ rb < 64) by (apply Z.mod_pos_bound; lia).
  rewrite land_bit64 by done. rewrite negb_involutive, testbit_not64 by done.
  destruct (Z.testbit (word pa idx) rb) eqn:Hbit; cbn [negb]; [apply Hfall|].
  rewrite as_u16_id by (unfold_words; lia).
  destruct (Z.ltb_spec (Z.of_nat idx * 64 + rb) (port_count pa)); [|apply Hfall].
  destruct (weak_fails weak) as [[] wk]; [apply Hfall|]. cbn. by apply Htake.
Qed.

(** ** The operations against the set of ports *)

(** What the allocation table relies on: an allocator is a finite set of the
    ports of a range, [allocate] adds some free port or reports that none is
    left, [release] removes one. *)
Class PortPool (P : Type) := {
  pool_ok : P → Prop;
  pool_range : P → Z * Z;
  pool_ports : P → gset Z;
  pool_allocate : Z → Z → list bool → P → outcome (option Z * P);
  pool_release : list bool → Z → P → bool * P;
  pool_allocate_spec : ∀ r1 r2 weak p, pool_ok p →
    ∃ r p', pool_allocate r1 r2 weak p = Ret (r, p') ∧ pool_ok p' ∧ pool_range p' = pool_range p ∧
    match r with
    | Some port => (pool_range p).1 ≤ port ≤ (pool_range p).2 ∧ (port ∉ pool_ports p) ∧
                   pool_ports p' = {[port]} ∪ pool_ports p
    | None => p' = p ∧ ∀ port, (pool_range p).1 ≤ port ≤ (pool_range p).2 → port ∈ pool_ports p
    end;
  pool_release_spec : ∀ weak port p, pool_ok p →
    let '(b, p') := pool_release weak port p in
    pool_ok p' ∧ pool_range p' = pool_range p ∧ b = bool_decide (port ∈ pool_ports p) ∧
    pool_ports p' = pool_ports p ∖ {[port]};
  pool_allocate_range : ∀ r1 r2 weak p r p',
    pool_allocate r1 r2 weak p = Ret (r, p') → pool_range p' = pool_range p;
  pool_release_range : ∀ weak port p, pool_range (pool_release weak port p).2 = pool_range p
}.

Definition range (pa : PortAllocator) : Z * Z := (min_port pa, max_port pa).

Lemma probe_range pa start off i weak p pa' wk :
  probe pa start off i weak = (Some (p, pa'), wk) → range pa' = range pa.
Proof.
  unfold probe. intros H. repeat (split_match; simplify_eq; try done).
Qed.

(** The range is fixed, whatever the state of the bitmap. *)
Lemma allocate_range r1 r2 weak pa r pa' :
  PortAllocator_allocate r1 r2 weak pa = Ret (r, pa') → range pa' = range pa.
Proof.
  unfold PortAllocator_allocate. split_match; [done|]. set (idxs := seq _ _). clearbody idxs.
  generalize weak. clear weak. induction idxs as [|i idxs IH]; intros weak; cbn [probe_from]; [by intros [= _ <-]|].
  destruct (probe _ _ _ i weak) as [[[port pa1]|] wk] eqn:E; [|apply IH].
  intros [= _ <-]. by eapply probe_range.
Qed.
Lemma release_range weak port pa : range (PortAllocator_release weak port pa).2 = range pa.
Proof. unfold PortAllocator_release. repeat (split_match; try done). Qed.

Lemma probe_from_spec pa start off idxs weak :
  ports_ok pa →
  match probe_from pa start off idxs weak with
  | (Some p, pa') => min_port pa ≤ p ≤ max_port pa ∧ (p ∉ ports pa) ∧
                     ports_ok pa' ∧ ports pa' = {[p]} ∪ ports pa ∧ range pa' = range pa
  | (None, pa') => pa' = pa ∧ ∀ i b, i ∈ idxs →
      let idx := Z.to_nat ((start + Z.of_nat i) mod Z.of_nat (length (allocated pa))) in
      0 ≤ b < 64 → Z.of_nat idx * 64 + b < port_count pa → bit pa (Z.of_nat idx * 64 + b) = true
  end.
Proof.
  intros Hok. revert weak. induction idxs as [|i idxs IH]; intros weak; cbn [probe_from].
  { split; [done|]. set_solver. }
  pose proof (probe_spec pa start off i weak Hok) as Hp.
  destruct (probe pa start off i weak) as [[[p pa']|] wk] eqn:E; cbn in Hp.
  - apply probe_range in E. destruct Hp as ([? ?] & ? & ? & ?). by split_and!.
  - specialize (IH wk). destruct (probe_from pa start off idxs wk) as [[p|] pa']; [done|].
    destruct IH as [-> IH]. split; [done|]. intros j b [->|Hj]%elem_of_cons; [apply Hp|by apply IH].
Qed.

Lemma residue_covered n start k :
  0 ≤ start → 0 ≤ k < n →
  ∃ i, 0 ≤ i < n ∧ (start + i) mod n = k.
Proof.
  intros Hs Hk. exists ((k - start) mod n). split; [apply Z.mod_pos_bound; lia|].
  rewrite Zplus_mod_idemp_r. replace (start + (k - start)) with k by lia. by apply Z.mod_small.
Qed.

Lemma allocate_spec r1 r2 weak pa :
  ports_ok pa →
  ∃ r pa', PortAllocator_allocate r1 r2 weak pa = Ret (r, pa') ∧ ports_ok pa' ∧ range pa' = range pa ∧
  match r with
  | Some p => min_port pa ≤ p ≤ max_port pa ∧ (p ∉ ports pa) ∧ ports pa' = {[p]} ∪ ports pa
  | None => pa' = pa ∧ ∀ p, min_port pa ≤ p ≤ max_port pa → p ∈ ports pa
  end.
Proof.
  intros Hok. unfold PortAllocator_allocate. pose proof (num_words_pos pa Hok) as Hpos.
  destruct (Z.eqb_spec (Z.of_nat (length (allocated pa))) 0) as [|_]; [lia|].
  set (start := r1 mod _). set (n := length (allocated pa)) in *.
  assert (Hst : 0 ≤ start) by (apply Z.mod_pos_bound; lia).
  pose proof (probe_from_spec pa start (as_u32 r2 mod 64) (seq 0 n) weak Hok) as H.
  destruct (probe_from _ _ _ _ _) as [[p|] pa'].
  { destruct H as ([? ?] & ? & ? & ? & ?). exists (Some p), pa'. by split_and!. }
  exists None, pa'. destruct H as [-> H]. split_and!; [done..|]. intros p Hp.
  apply elem_of_ports; [done|]. split; [done|]. pose proof (ok_count _ Hok).
  set (q := p - min_port pa). pose proof (index_in_words pa Hok q) as Hq. fold n in Hq.
  destruct (residue_covered (Z.of_nat n) start (q / 64)) as (i & Hi & Hr); [lia|word_lia|].
  specialize (H (Z.to_nat i) (q mod 64)). fold n in H. rewrite Z2Nat.id, Hr in H by lia.
  replace q with (Z.of_nat (Z.to_nat (q / 64)) * 64 + q mod 64) by word_lia.
  apply H; [apply elem_of_seq; lia|word_lia..].
Qed.

Lemma release_word_spec current mask weak :
  release_word current mask weak =
  if Z.land current mask =? 0 then None else Some (Z.land current (not64 mask)).
Proof.
  induction weak as [|[] weak IH]; cbn; destruct (Z.land current mask =? 0) eqn:E; try done.
Qed.

Lemma release_spec weak port pa :
  ports_ok pa →
  let '(b, pa') := PortAllocator_release weak port pa in
  ports_ok pa' ∧ range pa' = range pa ∧ b = bool_decide (port ∈ ports pa) ∧
  ports pa' = ports pa ∖ {[port]}.
Proof.
  intros Hok. unfold PortAllocator_release. pose proof (ok_count _ Hok).
  assert (Hout : port ∉ ports pa → ports_ok pa ∧ range pa = range pa ∧
    false = bool_decide (port ∈ ports pa) ∧ ports pa = ports pa ∖ {[port]}).
  { intros Hn. rewrite bool_decide_eq_false_2 by done. split_and!; [done..|]. set_solver. }
  destruct (Z.ltb_spec port (min_port pa)), (Z.ltb_spec (max_port pa) port); cbn [orb];
    try (apply Hout; rewrite elem_of_ports by done; lia).
  set (q := port - min_port pa). pose proof (index_in_words pa Hok q).
  assert (Hq : Z.of_nat (Z.to_nat (q / 64)) * 64 + q mod 64 = q) by word_lia.
  rewrite decide_False by lia. rewrite release_word_spec, land_bit64 by word_lia.
  rewrite <- bit_in_word, Hq by word_lia. destruct (bit pa q) eqn:Hbit; cbn [negb];
    [|apply Hout; rewrite elem_of_ports by done; fold q; intros [_ ?]; congruence].
  destruct (store_clear pa (Z.to_nat (q / 64)) (q mod 64)) as (Hin & Hok' & Hp);
    [done|lia|word_lia|by rewrite Hq|].
  rewrite Hq in Hin, Hp. replace (min_port pa + q) with port in Hin, Hp by lia.
  by rewrite bool_decide_eq_true_2.
Qed.

#[global] Instance PortAllocator_pool : PortPool PortAllocator := {|
  pool_ok := ports_ok;
  pool_range := range;
  pool_ports := ports;
  pool_allocate := PortAllocator_allocate;
  pool_release := PortAllocator_release;
  pool_allocate_spec := allocate_spec;
  pool_release_spec := release_spec;
  pool_allocate_range := allocate_range;
  pool_release_range := release_range
|}.

Lemma PortAllocator_new_ok lo hi :
  0 ≤ lo ≤ hi → hi ≤ 65535 → hi - lo < 65535 →
  ports_ok (PortAllocator_new lo hi) ∧ ports (PortAllocator_new lo hi) = ∅.
Proof.
  intros Hlo Hhi Hfit. unfold PortAllocator_new.
  rewrite (as_u16_id (hi - lo)), as_u16_id by (unfold_words; lia).
  set (pa := mkPorts _ _ _ _ _).
  assert (Hw : ∀ i, word pa i = 0).
  { intros i. unfold word, pa; cbn [allocated]. rewrite nth_lookup.
    destruct (replicate _ 0 !! i) as [x|] eqn:E; [|done].
    apply lookup_replicate in E as [-> _]. done. }
  assert (Hb : ∀ i, bit pa i = false) by (intros i; unfold bit; rewrite Hw; apply Z.bits_0).
  assert (Hp : ports pa = ∅).
  { apply set_eq. intros p. unfold ports. rewrite elem_of_list_to_set, list_elem_of_filter.
    split; [intros [H _]|set_solver]. unfold PortAllocator_is_allocated in H.
    rewrite Hw, Z.land_0_l in H. repeat split_match; done. }
  split; [|done]. split; cbn [min_port max_port port_count allocated allocated_count pa];
    [lia|lia|lia|by rewrite length_replicate|by apply Forall_replicate| |by rewrite Hp].
  intros i _. rewrite Hb. done.
Qed.

(** Clearing the bit just set restores the bitmap word for word. *)
Lemma set_clear_id w b :
  in_u64 w → 0 ≤ b < 64 → Z.testbit w b = false →
  Z.land (Z.lor w (bit64 b)) (not64 (bit64 b)) = w.
Proof.
  intros Hw Hb Hf. apply Z.bits_inj'. intros i Hi.
  destruct (decide (i < 64)).
  - rewrite testbit_clear_bit, testbit_lor_bit by lia.
    destruct (Z.eqb_spec b i) as [->|]; [by rewrite Hf|done].
  - rewrite Z.land_spec, (testbit_above 64 w i) by (done || lia).
    rewrite (testbit_above 64 (not64 _) i); [apply andb_false_r|by apply not64_range, bit64_range|lia].
Qed.

(** ** Properties *)

(** C11. Allocation refines the set view: from a well-formed allocator, and for
    every pair of random draws and every schedule of spurious compare-exchange
    failures, [allocate] returns normally.  Either it hands out a port of the
    range that was free and adds exactly that port, keeping the counter equal
    to the number of ports in use, or it reports exhaustion, changes nothing,
    and every port of the range is in use. *)
Theorem allocate_refines_set (r1 r2 : Z) (weak : list bool) (pa : PortAllocator) :
  ports_ok pa →
  ∃ r pa', PortAllocator_allocate r1 r2 weak pa = Ret (r, pa') ∧ ports_ok pa' ∧ range pa' = range pa ∧
  match r with
  | Some p => min_port pa ≤ p ≤ max_port pa ∧ (p ∉ ports pa) ∧ ports pa' = {[p]} ∪ ports pa
  | None => pa' = pa ∧ ∀ p, min_port pa ≤ p ≤ max_port pa → p ∈ ports pa
  end.
Proof. apply allocate_spec. Qed.

Lemma allocate_refines_set_witness :
  ∃ r pa', PortAllocator_allocate 7 200 [true] (PortAllocator_new 49152 49155) = Ret (r, pa') ∧
    ports_ok pa' ∧ range pa' = (49152, 49155) ∧
    match r with
    | Some p => 49152 ≤ p ≤ 49155 ∧ (p ∉ ports (PortAllocator_new 49152 49155)) ∧
                ports pa' = {[p]} ∪ ports (PortAllocator_new 49152 49155)
    | None => pa' = PortAllocator_new 49152 49155 ∧
              ∀ p, 49152 ≤ p ≤ 49155 → p ∈ ports (PortAllocator_new 49152 49155)
    end.
Proof.
  apply (allocate_refines_set 7 200 [true] (PortAllocator_new 49152 49155)).
  apply (PortAllocator_new_ok 49152 49155); lia.
Defined.

(** Release refines set removal: it answers whether the port was in use,
    removes exactly that port and nothing else, and a port outside the range
    or not in use changes nothing. *)
Theorem release_refines_set (weak : list bool) (port : Z) (pa : PortAllocator) :
  ports_ok pa →
  (PortAllocator_release weak port pa).1 = bool_decide (port ∈ ports pa) ∧
  ports_ok (PortAllocator_release weak port pa).2 ∧
  ports (PortAllocator_release weak port pa).2 = ports pa ∖ {[port]} ∧
  (port ∉ ports pa → (PortAllocator_release weak port pa).2 = pa).
Proof.
  intros Hok. pose proof (release_spec weak port pa Hok) as H.
  destruct (PortAllocator_release weak port pa) as [b pa'] eqn:E.
  destruct H as (? & _ & Hb & ?). split_and!; [done..|]. intros Hn. cbn.
  rewrite bool_decide_eq_false_2 in Hb by done. subst b. unfold PortAllocator_release in E.
  repeat split_match; simplify_eq; done.
Qed.

Lemma release_refines_set_witness :
  (PortAllocator_release [] 49153 (PortAllocator_new 49152 49155)).1 =
    bool_decide (49153 ∈ ports (PortAllocator_new 49152 49155)) ∧
  ports_ok (PortAllocator_release [] 49153 (PortAllocator_new 49152 49155)).2 ∧
  ports (PortAllocator_release [] 49153 (PortAllocator_new 49152 49155)).2 =
    ports (PortAllocator_new 49152 49155) ∖ {[49153]} ∧
  (49153 ∉ ports (PortAllocator_new 49152 49155) →
   (PortAllocator_release [] 49153 (PortAllocator_new 49152 49155)).2 = PortAllocator_new 49152 49155).
Proof.
  apply (release_refines_set [] 49153 (PortAllocator_new 49152 49155)).
  apply (PortAllocator_new_ok 49152 49155); lia.
Defined.

(** The port range is not validated: a range that covers all 65536 ports
    wraps the 16-bit count to zero, the bitmap is empty, and the first
    [allocate] divides by zero. *)
Theorem full_range_panics (r1 r2 : Z) (weak : list bool) :
  port_count (PortAllocator_new 0 65535) = 0 ∧
  PortAllocator_allocate r1 r2 weak (PortAllocator_new 0 65535) = Panic.
Proof. done. Qed.

(** The free-port count never wraps: in a well-formed allocator it is the
    number of ports of the range that are not in use. *)
Theorem available_count_exact (pa : PortAllocator) :
  ports_ok pa →
  PortAllocator_available_count pa =
  Z.of_nat (size (list_to_set (seqZ (min_port pa) (port_count pa)) ∖ ports pa : gset Z)).
Proof.
  intros Hok. unfold PortAllocator_available_count. rewrite (ok_size _ Hok).
  pose proof (ports_size_bound pa Hok). pose proof (ok_fits _ Hok).
  rewrite as_u64_id by (unfold_words; lia).
  assert (Hsub : ports pa ⊆ list_to_set (seqZ (min_port pa) (port_count pa))).
  { intros p. unfold ports. rewrite !elem_of_list_to_set, list_elem_of_filter. tauto. }
  rewrite size_difference by done. rewrite size_list_to_set by apply NoDup_seqZ.
  rewrite length_seqZ. apply subseteq_size in Hsub. lia.
Qed.

Lemma available_count_exact_witness :
  PortAllocator_available_count (PortAllocator_new 49152 49155) =
  Z.of_nat (size (list_to_set (seqZ (min_port (PortAllocator_new 49152 49155))
    (port_count (PortAllocator_new 49152 49155))) ∖ ports (PortAllocator_new 49152 49155) : gset Z)).
Proof.
  apply (available_count_exact (PortAllocator_new 49152 49155)).
  apply (PortAllocator_new_ok 49152 49155); lia.
Defined.
