(* ===== verification/PortRace.v ===== *)
(** * Concurrent callers of the port allocator (src/allocation.rs, [PortAllocator])

    [PortAllocator] is shared by every task that creates or removes an
    allocation.  Here a call of [allocate] or [release] is a thread whose
    steps are the atomic operations of the code (one load, one
    [compare_exchange_weak], one update of the counter), and the threads
    interleave in any order.  [solo] runs one thread undisturbed and is shown
    to be the call modelled in Ports, so the two views agree. *)

From S2P Require Import Prelude RustStd Ports.
Local Open Scope Z_scope.

(** ** One thread *)

(** Where a thread stands: before the load that opens turn [turn] of the word
    loop, before the exchange of the random bit, before the exchange of the
    lowest free bit, before the counter update; the same for [release]. *)
Inductive pc :=
| Idle
| Load (start_idx bit_offset : Z) (turn : nat)
| CasRandom (start_idx bit_offset : Z) (turn : nat) (current : Z)
| CasLowest (start_idx bit_offset : Z) (turn : nat) (current : Z)
| CountUp (port : Z)
| RelLoad (port : Z)
| RelCas (port current : Z)
| CountDown.

(** What a call returns to its caller. *)
Inductive answer := Allocated (port : option Z) | Released (was_allocated : bool).

Section steps.
Context (pa : PortAllocator).

Definition actual_idx (start_idx : Z) (turn : nat) : nat :=
  Z.to_nat ((start_idx + Z.of_nat turn) mod Z.of_nat (length (allocated pa))).
Definition random_bit (bit_offset : Z) (turn : nat) : Z := (bit_offset + Z.of_nat turn) mod 64.
Definition port_index (start_idx : Z) (turn : nat) (b : Z) : Z :=
  as_u16 (Z.of_nat (actual_idx start_idx turn) * 64 + b).

(** [for] loop: on to the next word, or the end of the loop and [None]. *)
Definition next_word (start_idx bit_offset : Z) (turn : nat) : pc * option answer :=
  if decide (S turn < length (allocated pa))%nat then (Load start_idx bit_offset (S turn), None)
  else (Idle, Some (Allocated None)).

(** The head of the fallback loop up to its exchange. *)
Definition fallback (start_idx bit_offset : Z) (turn : nat) (current : Z) : pc * option answer :=
  let free_mask := not64 current in
  if free_mask =? 0 then next_word start_idx bit_offset turn else
  if port_count pa <=? port_index start_idx turn (trailing_zeros free_mask)
  then next_word start_idx bit_offset turn
  else (CasLowest start_idx bit_offset turn current, None).

(** From the load of a word to the first exchange. *)
Definition after_load (start_idx bit_offset : Z) (turn : nat) (current : Z) : pc * option answer :=
  if current =? U64_MAX then next_word start_idx bit_offset turn else
  let free_mask := not64 current in
  if free_mask =? 0 then next_word start_idx bit_offset turn else
  let rb := random_bit bit_offset turn in
  if negb (Z.land free_mask (bit64 rb) =? 0) && (port_index start_idx turn rb <? port_count pa)
  then (CasRandom start_idx bit_offset turn current, None)
  else fallback start_idx bit_offset turn current.

(** The head of the release loop. *)
Definition release_head (port current : Z) : pc * option answer :=
  if Z.land current (bit64 ((port - min_port pa) mod 64)) =? 0 then (Idle, Some (Released false))
  else (RelCas port current, None).

(** [compare_exchange_weak] on word [i]: it fails when the word is no longer
    [current], and may fail anyway ([spurious]). *)
Definition cas (spurious : bool) (i : nat) (current new : Z) : option PortAllocator :=
  if negb spurious && (word pa i =? current) then Some (store pa i new 0) else None.

(** [fetch_add] and [fetch_sub] on the counter. *)
Definition add_count (d : Z) : PortAllocator :=
  mkPorts (allocated pa) (as_u64 (allocated_count pa + d)) (min_port pa) (max_port pa) (port_count pa).

(** One atomic operation and the code up to the next one. *)
Definition thread_step (spurious : bool) (c : pc) : option (pc * option answer * PortAllocator) :=
  match c with
  | Idle => None
  | Load s o t => Some (after_load s o t (word pa (actual_idx s t)), pa)
  | CasRandom s o t current =>
    let i := actual_idx s t in
    let rb := random_bit o t in
    match cas spurious i current (Z.lor current (bit64 rb)) with
    | Some pa' => Some (CountUp (as_u16 (min_port pa + port_index s t rb)), None, pa')
    | None => Some (fallback s o t (word pa i), pa)
    end
  | CasLowest s o t current =>
    let i := actual_idx s t in
    let b := trailing_zeros (not64 current) in
    match cas spurious i current (Z.lor current (bit64 b)) with
    | Some pa' => Some (CountUp (as_u16 (min_port pa + port_index s t b)), None, pa')
    | None => Some (fallback s o t (word pa i), pa)
    end
  | CountUp port => Some (Idle, Some (Allocated (Some port)), add_count 1)
  | RelLoad port => Some (release_head port (word pa (Z.to_nat ((port - min_port pa) / 64))), pa)
  | RelCas port current =>
    let i := Z.to_nat ((port - min_port pa) / 64) in
    match cas spurious i current (Z.land current (not64 (bit64 ((port - min_port pa) mod 64)))) with
    | Some pa' => Some (CountDown, None, pa')
    | None => Some (release_head port (word pa i), pa)
    end
  | CountDown => Some (Idle, Some (Released true), add_count (-1))
  end.

(** The entry of the two functions, up to their first load. *)
Definition enter_allocate (r1 r2 : Z) : outcome (pc * option answer) :=
  let num_u64s := Z.of_nat (length (allocated pa)) in
  if num_u64s =? 0 then Panic else Ret (Load (r1 mod num_u64s) (as_u32 r2 mod 64) 0, None).

Definition enter_release (port : Z) : pc * option answer :=
  if (port <? min_port pa) || (max_port pa <? port) then (Idle, Some (Released false)) else
  if decide (length (allocated pa) ≤ Z.to_nat ((port - min_port pa) / 64))%nat
  then (Idle, Some (Released false)) else (RelLoad port, None).
End steps.

(** One thread alone, with the spurious failures of its exchanges; the fuel
    bounds the atomic operations. *)
Definition is_cas (c : pc) : bool :=
  match c with CasRandom _ _ _ _ | CasLowest _ _ _ _ | RelCas _ _ => true | _ => false end.

Fixpoint solo (fuel : nat) (weak : list bool) (pa : PortAllocator) (st : pc * option answer)
    : option (answer * PortAllocator) :=
  match st with
  | (_, Some a) => Some (a, pa)
  | (c, None) =>
    match fuel with
    | O => None
    | S fuel =>
      let '(spurious, weak) := if is_cas c then weak_fails weak else (false, weak) in
      match thread_step pa spurious c with
      | Some (st, pa) => solo fuel weak pa st
      | None => None
      end
    end
  end.

(** ** Many threads *)

(** The shared allocator, the ports callers hold, and the threads. *)
Record Race := mkRace { shared : PortAllocator; held : gset Z; threads : list pc }.

Definition deliver (a : option answer) (h : gset Z) : gset Z :=
  match a with Some (Allocated (Some p)) => {[p]} ∪ h | _ => h end.

(** A caller may start [allocate] at any time and [release] a port it holds,
    giving it up; any thread may take its next step. *)
Inductive race_step : Race → option answer → Race → Prop :=
| race_spawn s :
    race_step s None (mkRace (shared s) (held s) (threads s ++ [Idle]))
| race_allocate s i r1 r2 c a :
    threads s !! i = Some Idle → enter_allocate (shared s) r1 r2 = Ret (c, a) →
    race_step s a (mkRace (shared s) (held s) (<[i := c]> (threads s)))
| race_release s i p c a :
    threads s !! i = Some Idle → p ∈ held s → enter_release (shared s) p = (c, a) →
    race_step s a (mkRace (shared s) (held s ∖ {[p]}) (<[i := c]> (threads s)))
| race_run s i c spurious c' a pa' :
    threads s !! i = Some c → thread_step (shared s) spurious c = Some (c', a, pa') →
    race_step s a (mkRace pa' (deliver a (held s)) (<[i := c']> (threads s))).

Inductive race_reach (s0 : Race) : list answer → Race → Prop :=
| reach_start : race_reach s0 [] s0
| reach_step l s a s' :
    race_reach s0 l s → race_step s a s' → race_reach s0 (l ++ option_list a) s'.

(** ** The invariant *)

(** The bitmap with the counter it will have once every thread has updated it. *)
Definition settled (pa : PortAllocator) : PortAllocator :=
  mkPorts (allocated pa) (Z.of_nat (size (ports pa))) (min_port pa) (max_port pa) (port_count pa).

(** The port a thread has in hand and what it still owes the counter. *)
Definition owned (c : pc) : list Z :=
  match c with CountUp p | RelLoad p | RelCas p _ => [p] | _ => [] end.
Definition pending (c : pc) : Z :=
  match c with CountUp _ => -1 | CountDown => 1 | _ => 0 end.

Definition tokens (h : gset Z) (ts : list pc) : list Z := elements h ++ concat (map owned ts).
Definition owed (ts : list pc) : Z := foldr (λ c n, pending c + n) 0 ts.

(** What a thread knows: the bit it is about to set was free in the word it
    saw and belongs to the range, the bit it is about to clear was set. *)
Definition thread_ok (pa : PortAllocator) (c : pc) : Prop :=
  match c with
  | Load s o t => (t < length (allocated pa))%nat
  | CasRandom s o t current =>
    (t < length (allocated pa))%nat ∧ Z.testbit current (random_bit o t) = false ∧
    port_index pa s t (random_bit o t) < port_count pa
  | CasLowest s o t current =>
    (t < length (allocated pa))%nat ∧ not64 current ≠ 0 ∧
    port_index pa s t (trailing_zeros (not64 current)) < port_count pa
  | RelCas p current => Z.testbit current ((p - min_port pa) mod 64) = true
  | _ => True
  end.

Record race_inv (s : Race) : Prop := {
  inv_bitmap : ports_ok (settled (shared s));
  inv_nodup : NoDup (tokens (held s) (threads s));
  inv_tokens : list_to_set (tokens (held s) (threads s)) = ports (shared s);
  inv_count : allocated_count (shared s) =
              as_u64 (Z.of_nat (size (ports (shared s))) + owed (threads s));
  inv_threads : Forall (thread_ok (shared s)) (threads s)
}.

Lemma lookup_split {A} (l : list A) i c :
  l !! i = Some c → ∃ l1 l2, l = l1 ++ c :: l2 ∧ ∀ c', <[i := c']> l = l1 ++ c' :: l2.
Proof.
  intros H. exists (take i l), (drop (S i) l). pose proof (lookup_lt_Some _ _ _ H).
  split; [symmetry; by apply take_drop_middle|]. intros c'.
  rewrite <- (take_drop_middle (<[i:=c']> l) i c') by (by apply list_lookup_insert_eq).
  by rewrite take_insert_ge, drop_insert_lt by lia.
Qed.

Lemma tokens_middle h l1 c l2 :
  tokens h (l1 ++ c :: l2) ≡ₚ (elements h ++ owned c) ++ (concat (map owned l1) ++ concat (map owned l2)).
Proof. unfold tokens. rewrite map_app, concat_app. cbn. solve_Permutation. Qed.

Lemma owed_middle l1 c l2 : owed (l1 ++ c :: l2) = pending c + owed (l1 ++ l2).
Proof. unfold owed. induction l1 as [|d l1 IH]; cbn; [done|]. rewrite IH. lia. Qed.

(** Two allocators over the same range. *)
Definition same_shape (pa pa' : PortAllocator) : Prop :=
  length (allocated pa') = length (allocated pa) ∧ min_port pa' = min_port pa ∧
  port_count pa' = port_count pa.

Lemma thread_ok_shape pa pa' c : same_shape pa pa' → thread_ok pa c → thread_ok pa' c.
Proof.
  unfold same_shape. intros (Hl & Hm & Hc).
  destruct c; unfold thread_ok, port_index, actual_idx; by rewrite ?Hl, ?Hm, ?Hc.
Qed.

(** The one shape of every step: thread [i] moves from [c] to [c'], the other
    threads and what they own stay. *)
Lemma move_inv s i c c' pa' h' :
  race_inv s → threads s !! i = Some c → same_shape (shared s) pa' →
  ports_ok (settled pa') → thread_ok pa' c' →
  (∀ R, NoDup ((elements (held s) ++ owned c) ++ R) →
        list_to_set ((elements (held s) ++ owned c) ++ R) = ports (shared s) →
        NoDup ((elements h' ++ owned c') ++ R) ∧
        list_to_set ((elements h' ++ owned c') ++ R) = ports pa') →
  (∀ n, allocated_count (shared s) = as_u64 (Z.of_nat (size (ports (shared s))) + (pending c + n)) →
        allocated_count pa' = as_u64 (Z.of_nat (size (ports pa')) + (pending c' + n))) →
  race_inv (mkRace pa' h' (<[i := c']> (threads s))).
Proof.
  intros Hinv Hi Hshape Hok Hc' Htok Hcnt. destruct (lookup_split _ _ _ Hi) as (l1 & l2 & El & ->).
  destruct Hinv as [_ Hnd Hset Hc Hth]. rewrite El in *.
  rewrite tokens_middle in Hnd. rewrite (list_to_set_perm_L _ _ (tokens_middle _ _ _ _)) in Hset.
  destruct (Htok _ Hnd Hset) as [Hnd' Hset']. rewrite owed_middle in Hc.
  split; cbn [shared held threads]; [done| | | |].
  - by rewrite tokens_middle.
  - by rewrite (list_to_set_perm_L _ _ (tokens_middle _ _ _ _)).
  - rewrite owed_middle. by apply Hcnt.
  - rewrite list.Forall_app, list.Forall_cons in *. destruct Hth as (H1 & _ & H2).
    split_and!; [|done|]; (eapply Forall_impl; [eassumption|]); intros d; by apply thread_ok_shape.
Qed.

(** A step that changes neither the bitmap nor who owns what. *)
Lemma quiet_inv s i c c' :
  race_inv s → threads s !! i = Some c → thread_ok (shared s) c' →
  owned c' = owned c → pending c' = pending c →
  race_inv (mkRace (shared s) (held s) (<[i := c']> (threads s))).
Proof.
  intros Hinv Hi Hc' Ho Hp. eapply move_inv; [done|done|done|apply Hinv|done| |].
  - intros R. rewrite Ho. done.
  - intros n. rewrite Hp. done.
Qed.

(** ** Steps of [allocate] *)

Definition at_rest (c : pc) : Prop := owned c = [] ∧ pending c = 0.

Lemma next_word_ok pa s o t c a :
  next_word pa s o t = (c, a) → thread_ok pa c ∧ at_rest c ∧ (a = None ∨ a = Some (Allocated None)).
Proof. unfold next_word, at_rest. case_decide; intros [= <- <-]; cbn; auto. Qed.

Lemma fallback_ok pa s o t current c a :
  (t < length (allocated pa))%nat → fallback pa s o t current = (c, a) →
  thread_ok pa c ∧ at_rest c ∧ (a = None ∨ a = Some (Allocated None)).
Proof.
  unfold fallback. intros Ht. destruct (Z.eqb_spec (not64 current) 0); [apply next_word_ok|].
  destruct (Z.leb_spec (port_count pa) (port_index pa s t (trailing_zeros (not64 current))));
    [apply next_word_ok|]. intros [= <- <-]. unfold at_rest. cbn. auto.
Qed.

Lemma random_bit_range o t : 0 ≤ random_bit o t < 64.
Proof. apply Z.mod_pos_bound. lia. Qed.

Lemma after_load_ok pa s o t current c a :
  (t < length (allocated pa))%nat → after_load pa s o t current = (c, a) →
  thread_ok pa c ∧ at_rest c ∧ (a = None ∨ a = Some (Allocated None)).
Proof.
  unfold after_load. intros Ht. destruct (current =? U64_MAX); [apply next_word_ok|].
  destruct (not64 current =? 0); [apply next_word_ok|].
  pose proof (random_bit_range o t). rewrite land_bit64, negb_involutive, testbit_not64 by done.
  destruct (Z.testbit current (random_bit o t)) eqn:E; cbn [negb andb]; [by apply fallback_ok|].
  destruct (Z.ltb_spec (port_index pa s t (random_bit o t)) (port_count pa)); [|by apply fallback_ok].
  intros [= <- <-]. unfold at_rest. cbn. auto.
Qed.

Lemma settle pa pa1 :
  ports_ok pa1 → allocated pa1 = allocated pa → min_port pa1 = min_port pa →
  max_port pa1 = max_port pa → port_count pa1 = port_count pa →
  settled pa = pa1 ∧ ports pa = ports pa1.
Proof.
  intros Hok E1 E2 E3 E4. pose proof (ok_size _ Hok) as Hs. unfold settled.
  assert (Ep : ports pa = ports pa1).
  { unfold ports, PortAllocator_is_allocated, word. by rewrite E1, E2, E3, E4. }
  split; [|done]. rewrite Ep, <- Hs. destruct pa1; cbn in *. by subst.
Qed.

Lemma set_step pa idx b :
  ports_ok (settled pa) → (idx < length (allocated pa))%nat → 0 ≤ b < 64 →
  Z.of_nat idx * 64 + b < port_count pa → Z.testbit (word pa idx) b = false →
  let p := min_port pa + (Z.of_nat idx * 64 + b) in
  let pa' := store pa idx (Z.lor (word pa idx) (bit64 b)) 0 in
  (p ∉ ports pa) ∧ ports_ok (settled pa') ∧ ports pa' = {[p]} ∪ ports pa.
Proof.
  intros Hok Hi Hb Hq Hf p pa'.
  destruct (store_set (settled pa) idx b Hok Hi Hb Hq) as (Hp & Hok' & Hs); [by rewrite bit_in_word|].
  destruct (settle pa' _ Hok') as [-> ->]; [done..|]. done.
Qed.

Lemma clear_step pa idx b :
  ports_ok (settled pa) → (idx < length (allocated pa))%nat → 0 ≤ b < 64 →
  Z.testbit (word pa idx) b = true →
  let p := min_port pa + (Z.of_nat idx * 64 + b) in
  let pa' := store pa idx (Z.land (word pa idx) (not64 (bit64 b))) 0 in
  p ∈ ports pa ∧ ports_ok (settled pa') ∧ ports pa' = ports pa ∖ {[p]}.
Proof.
  intros Hok Hi Hb Ht p pa'.
  destruct (store_clear (settled pa) idx b Hok Hi Hb) as (Hp & Hok' & Hs); [by rewrite bit_in_word|].
  destruct (settle pa' _ Hok') as [-> ->]; [done..|]. done.
Qed.

Lemma store_shape pa i w d : same_shape pa (store pa i w d).
Proof. unfold same_shape, store. cbn. by rewrite length_insert. Qed.

Lemma store_count pa i w n m :
  allocated_count pa = as_u64 n → n = m → allocated_count (store pa i w 0) = as_u64 m.
Proof. intros H <-. cbn. rewrite H, Z.add_0_r. word_lia. Qed.

(** A successful exchange in [allocate]: the thread now owns a fresh port. *)
Lemma take_inv s i c st t b :
  race_inv s → threads s !! i = Some c → at_rest c → 0 ≤ b < 64 →
  port_index (shared s) st t b < port_count (shared s) →
  let pa := shared s in
  let idx := actual_idx pa st t in
  Z.testbit (word pa idx) b = false →
  race_inv (mkRace (store pa idx (Z.lor (word pa idx) (bit64 b)) 0) (held s)
                   (<[i := CountUp (as_u16 (min_port pa + port_index pa st t b))]> (threads s))).
Proof.
  intros Hinv Hi [Ho Hp] Hb Hidx pa idx Hf. pose proof (inv_bitmap _ Hinv) as Hok. fold pa in Hok, Hidx.
  pose proof (num_words_pos _ Hok) as Hpos. pose proof (num_words_bound _ Hok) as Hmax.
  pose proof (ok_count _ Hok) as Hcount. pose proof (ok_range _ Hok) as Hrange. cbn in Hpos, Hmax, Hcount, Hrange.
  assert (Hi' : (idx < length (allocated pa))%nat).
  { subst idx. unfold actual_idx.
    pose proof (Z.mod_pos_bound (st + Z.of_nat t) (Z.of_nat (length (allocated pa)))). lia. }
  assert (Eq : port_index pa st t b = Z.of_nat idx * 64 + b).
  { unfold port_index. fold idx. apply as_u16_id. unfold_words. lia. }
  rewrite Eq in *. destruct (set_step pa idx b Hok Hi' Hb Hidx Hf) as (Hn & Hok' & Hports).
  rewrite as_u16_id by (unfold_words; lia). set (p := min_port pa + _) in *.
  eapply move_inv; [done|done|apply store_shape|done|done| |].
  - intros R. rewrite Ho, app_nil_r. cbn [owned]. intros Hnd Hset.
    assert (E : (elements (held s) ++ [p]) ++ R ≡ₚ p :: elements (held s) ++ R) by solve_Permutation.
    split; [rewrite E; constructor; [|done]|].
    + rewrite <- (elem_of_list_to_set (C := gset Z)), Hset. done.
    + rewrite (list_to_set_perm_L _ _ E). cbn [list_to_set]. rewrite Hports. by f_equal.
  - intros n Hc. rewrite Hp in Hc. eapply store_count; [exact Hc|]. rewrite Hports.
    rewrite size_union by set_solver. rewrite size_singleton. cbn [pending]. fold pa. lia.
Qed.

Lemma cas_Some pa sp i current new pa' :
  cas pa sp i current new = Some pa' → word pa i = current ∧ pa' = store pa i new 0.
Proof.
  unfold cas. destruct sp; [done|]. cbn. destruct (Z.eqb_spec (word pa i) current); [|done].
  by intros [= <-].
Qed.

(** ** Steps of [release] *)

Lemma owned_in_ports s i c p :
  race_inv s → threads s !! i = Some c → p ∈ owned c → p ∈ ports (shared s).
Proof.
  intros Hinv Hi Hp. destruct (lookup_split _ _ _ Hi) as (l1 & l2 & El & _).
  rewrite <- (inv_tokens _ Hinv), elem_of_list_to_set, El, tokens_middle. set_solver.
Qed.

Lemma held_in_ports s p : race_inv s → p ∈ held s → p ∈ ports (shared s).
Proof. intros Hinv Hp. rewrite <- (inv_tokens _ Hinv). unfold tokens. set_solver. Qed.

(** Where the bit of a port in use sits. *)
Lemma port_bit pa p :
  ports_ok (settled pa) → p ∈ ports pa →
  let q := p - min_port pa in
  min_port pa ≤ p ≤ max_port pa ∧ (Z.to_nat (q / 64) < length (allocated pa))%nat ∧ 0 ≤ q mod 64 < 64 ∧
  Z.testbit (word pa (Z.to_nat (q / 64))) (q mod 64) = true ∧
  p = min_port pa + (Z.of_nat (Z.to_nat (q / 64)) * 64 + q mod 64).
Proof.
  intros Hok Hp q. change (ports pa) with (ports (settled pa)) in Hp.
  apply elem_of_ports in Hp as [Hr Hb]; [|done]. pose proof (ok_count _ Hok) as Hc. cbn in Hr, Hb, Hc.
  pose proof (index_in_words _ Hok q) as Hi. cbn in Hi.
  split_and!; [lia|lia|apply Hi; lia|word_lia|word_lia|exact Hb|word_lia].
Qed.

Lemma release_head_ok pa p c a :
  ports_ok (settled pa) → p ∈ ports pa →
  release_head pa p (word pa (Z.to_nat ((p - min_port pa) / 64))) = (c, a) →
  thread_ok pa c ∧ owned c = [p] ∧ pending c = 0 ∧ a = None.
Proof.
  intros Hok Hp. destruct (port_bit pa p Hok Hp) as (_ & _ & Hb & Ht & _).
  unfold release_head. rewrite land_bit64, Ht by done. by intros [= <- <-].
Qed.

Lemma give_back_inv s i p current :
  race_inv s → threads s !! i = Some (RelCas p current) →
  let pa := shared s in
  let idx := Z.to_nat ((p - min_port pa) / 64) in
  race_inv (mkRace (store pa idx (Z.land (word pa idx) (not64 (bit64 ((p - min_port pa) mod 64)))) 0)
                   (held s) (<[i := CountDown]> (threads s))).
Proof.
  intros Hinv Hi pa idx. pose proof (inv_bitmap _ Hinv) as Hok. fold pa in Hok.
  assert (Hp : p ∈ ports pa) by (eapply owned_in_ports; [done|done|cbn; set_solver]).
  destruct (port_bit pa p Hok Hp) as (_ & Hidx & Hb & Ht & E). fold idx in Hidx, Ht, E.
  destruct (clear_step pa idx _ Hok Hidx Hb Ht) as (_ & Hok' & Hports). rewrite <- E in Hports.
  eapply move_inv; [done|done|apply store_shape|done|done| |].
  - intros R. cbn [owned]. rewrite app_nil_r. intros Hnd Hset.
    assert (EP : (elements (held s) ++ [p]) ++ R ≡ₚ p :: elements (held s) ++ R) by solve_Permutation.
    rewrite EP in Hnd. apply NoDup_cons in Hnd as [Hn Hnd]. split; [done|].
    rewrite Hports. fold pa in Hset. rewrite <- Hset, (list_to_set_perm_L _ _ EP). cbn [list_to_set].
    apply set_eq. intros x. rewrite elem_of_difference, elem_of_union, elem_of_singleton, !elem_of_list_to_set.
    split; [intros Hx; split; [auto|intros ->; done]|tauto].
  - intros n Hc. eapply store_count; [exact Hc|]. fold pa. rewrite Hports.
    rewrite size_difference by set_solver. rewrite size_singleton. cbn [pending].
    assert (size (ports pa) ≠ 0)%nat; [|lia]. rewrite size_non_empty_iff. set_solver.
Qed.

Lemma enter_release_inv s i p c a :
  race_inv s → threads s !! i = Some Idle → p ∈ held s → enter_release (shared s) p = (c, a) →
  race_inv (mkRace (shared s) (held s ∖ {[p]}) (<[i := c]> (threads s))) ∧ a = None.
Proof.
  intros Hinv Hi Hp. pose proof (held_in_ports s p Hinv Hp) as Hin.
  destruct (port_bit _ p (inv_bitmap _ Hinv) Hin) as (Hr & Hidx & _).
  unfold enter_release. destruct (Z.ltb_spec p (min_port (shared s))); [lia|].
  destruct (Z.ltb_spec (max_port (shared s)) p); [lia|]. cbn [orb].
  rewrite decide_False by lia. intros [= <- <-]. split; [|done].
  eapply move_inv; [done|done|done|apply Hinv|done| |done].
  intros R. cbn [owned]. rewrite app_nil_r. intros Hnd Hset.
  assert (E : (elements (held s ∖ {[p]}) ++ [p]) ++ R ≡ₚ elements (held s) ++ R).
  { assert (E0 : held s = {[p]} ∪ held s ∖ {[p]}) by (by apply union_difference_singleton_L).
    rewrite E0 at 2. rewrite elements_union_singleton by set_solver. solve_Permutation. }
  split; [by rewrite E|]. by rewrite (list_to_set_perm_L _ _ E).
Qed.

(** The counter update: the port goes to the caller. *)
Lemma count_inv s i c p d :
  race_inv s → threads s !! i = Some c →
  (c = CountUp p ∧ d = 1 ∨ c = CountDown ∧ d = -1) →
  let a := if d =? 1 then Allocated (Some p) else Released true in
  race_inv (mkRace (add_count (shared s) d) (deliver (Some a) (held s)) (<[i := Idle]> (threads s))) ∧
  (d = 1 → p ∉ held s).
Proof.
  intros Hinv Hi Hc a.
  assert (Hfresh : c = CountUp p → ∀ R, NoDup ((elements (held s) ++ [p]) ++ R) → p ∉ held s).
  { intros _ R Hnd Hp. apply NoDup_app in Hnd as [Hnd _]. apply NoDup_app in Hnd as (_ & Hx & _).
    apply (Hx p); set_solver. }
  split.
  - eapply move_inv; [done|done|done|apply Hinv|done| |].
    + intros R. change (ports (add_count (shared s) d)) with (ports (shared s)). cbn [owned]. rewrite app_nil_r.
      destruct Hc as [[-> ->]|[-> ->]]; subst a; cbn [Z.eqb deliver owned]; [|by rewrite app_nil_r].
      intros Hnd Hset. pose proof (Hfresh eq_refl R Hnd) as Hn.
      assert (E : elements ({[p]} ∪ held s) ++ R ≡ₚ (elements (held s) ++ [p]) ++ R).
      { rewrite elements_union_singleton by done. solve_Permutation. }
      split; [by rewrite E|]. by rewrite (list_to_set_perm_L _ _ E).
    + intros n Hn. change (ports (add_count (shared s) d)) with (ports (shared s)). cbn.
      rewrite Hn. destruct Hc as [[-> ->]|[-> ->]]; cbn [pending]; word_lia.
  - intros ->. destruct Hc as [[-> _]|[_ ?]]; [|done].
    destruct (lookup_split _ _ _ Hi) as (l1 & l2 & El & _). pose proof (inv_nodup _ Hinv) as Hnd.
    rewrite El, tokens_middle in Hnd. by eapply Hfresh.
Qed.

(** ** Every step keeps the invariant and answers rightly *)

Definition answer_ok (s : Race) (a : option answer) : Prop :=
  match a with
  | Some (Allocated (Some p)) =>
    min_port (shared s) ≤ p ≤ max_port (shared s) ∧ (p ∉ held s) ∧ p ∈ ports (shared s)
  | Some (Released b) => b = true
  | _ => True
  end.

Lemma run_inv s i c sp c' a pa' :
  race_inv s → threads s !! i = Some c → thread_step (shared s) sp c = Some (c', a, pa') →
  race_inv (mkRace pa' (deliver a (held s)) (<[i := c']> (threads s))) ∧ answer_ok s a.
Proof.
  intros Hinv Hi Hstep. pose proof (inv_threads _ Hinv) as Hth. rewrite Forall_lookup in Hth.
  pose proof (Hth _ _ Hi) as Hc. pose proof (inv_bitmap _ Hinv) as Hok.
  assert (Hquiet : ∀ x y, (x, y) = (c', a) → pa' = shared s → owned c = [] → pending c = 0 →
    thread_ok (shared s) x ∧ at_rest x ∧ (y = None ∨ y = Some (Allocated None)) →
    race_inv (mkRace pa' (deliver a (held s)) (<[i := c']> (threads s))) ∧ answer_ok s a).
  { intros x y [= -> ->] -> Ho Hp (H1 & [H2 H3] & H4).
    destruct H4 as [-> | ->]; (split; [|done]); (eapply quiet_inv; [done|done|done|congruence|congruence]). }
  destruct c; cbn [thread_step] in Hstep; [done|..].
  - destruct (after_load _ _ _ _ _) as [x y] eqn:E. simplify_eq.
    eapply Hquiet; [done..|]. by eapply after_load_ok.
  - destruct Hc as (Ht & Hf & Hb). destruct (cas _ _ _ _ _) as [pa1|] eqn:E.
    + apply cas_Some in E as [Ew ->]. simplify_eq. split; [|done]. cbn [deliver].
      apply (take_inv _ _ _ _ _ _ Hinv Hi); [done|apply random_bit_range|done|done].
    + destruct (fallback _ _ _ _ _) as [x y] eqn:E'. simplify_eq.
      eapply Hquiet; [done..|]. by eapply fallback_ok.
  - destruct Hc as (Ht & Hf & Hb). destruct (cas _ _ _ _ _) as [pa1|] eqn:E.
    + apply cas_Some in E as [Ew ->]. simplify_eq. split; [|done]. cbn [deliver].
      destruct (trailing_zeros_spec (not64 (word (shared s) (actual_idx (shared s) start_idx turn))))
        as (Hr & Hz & _); [apply not64_range; by apply (word_range (settled (shared s)))|done|].
      apply (take_inv _ _ _ _ _ _ Hinv Hi); [done|done|done|].
      rewrite testbit_not64 in Hz by done. by apply negb_true_iff in Hz.
    + destruct (fallback _ _ _ _ _) as [x y] eqn:E'. simplify_eq.
      eapply Hquiet; [done..|]. by eapply fallback_ok.
  - simplify_eq. destruct (count_inv s i _ port 1 Hinv Hi) as [H1 H2]; [auto|].
    split; [exact H1|]. pose proof (owned_in_ports s i _ port Hinv Hi) as Hin. cbn.
    assert (port ∈ ports (shared s)) as Hp by (apply Hin; cbn; set_solver).
    destruct (port_bit _ _ Hok Hp). split_and!; [lia..|auto|done].
  - assert (Hp : port ∈ ports (shared s)) by (eapply owned_in_ports; [done|done|cbn; set_solver]).
    destruct (release_head _ _ _) as [x y] eqn:E. apply release_head_ok in E as (H1 & H2 & H3 & ->); [|done..].
    simplify_eq. split; [|done]. eapply quiet_inv; [done|done|done|done|done].
  - assert (Hp : port ∈ ports (shared s)) by (eapply owned_in_ports; [done|done|cbn; set_solver]).
    destruct (cas _ _ _ _ _) as [pa1|] eqn:E.
    + apply cas_Some in E as [Ew ->]. simplify_eq. split; [|done]. cbn [deliver].
      exact (give_back_inv s i port _ Hinv Hi).
    + destruct (release_head _ _ _) as [x y] eqn:E'. apply release_head_ok in E' as (H1 & H2 & H3 & ->); [|done..].
      simplify_eq. split; [|done]. eapply quiet_inv; [done|done|done|done|done].
  - simplify_eq. split; [|done]. destruct (count_inv s i _ 0 (-1) Hinv Hi) as [H1 _]; [auto|exact H1].
Qed.

Lemma tokens_spawn h ts : tokens h (ts ++ [Idle]) = tokens h ts.
Proof.
  unfold tokens. rewrite map_app, concat_app. change (concat (map owned [Idle])) with (@nil Z).
  by rewrite app_nil_r.
Qed.

Lemma race_step_inv s a s' : race_inv s → race_step s a s' → race_inv s' ∧ answer_ok s a.
Proof.
  intros Hinv Hst. destruct Hst as [s0|s0 i r1 r2 c a0 Hi He|s0 i p c a0 Hi Hp He|s0 i c sp c' a0 pa' Hi He].
  - split; [|done]. destruct Hinv as [H1 H2 H3 H4 H5]. split; cbn [shared held threads]; [done| | | |].
    + by rewrite tokens_spawn.
    + by rewrite tokens_spawn.
    + rewrite owed_middle, app_nil_r. by rewrite H4.
    + apply list.Forall_app. split; [done|by repeat constructor].
  - unfold enter_allocate in He. pose proof (num_words_pos _ (inv_bitmap _ Hinv)) as Hpos. cbn in Hpos.
    destruct (Z.eqb_spec (Z.of_nat (length (allocated (shared s0)))) 0); [lia|]. injection He as <- <-.
    split; [|done]. by eapply quiet_inv.
  - destruct (enter_release_inv _ _ _ _ _ Hinv Hi Hp He) as [H ->]. done.
  - by eapply run_inv.
Qed.

Lemma race_reach_inv s0 l s : race_inv s0 → race_reach s0 l s → race_inv s.
Proof. intros H0. induction 1; [done|]. by eapply race_step_inv. Qed.

Lemma race_init lo hi :
  0 ≤ lo ≤ hi → hi ≤ 65535 → hi - lo < 65535 → race_inv (mkRace (PortAllocator_new lo hi) ∅ []).
Proof.
  intros. destruct (PortAllocator_new_ok lo hi) as [Hok He]; [lia..|].
  split; cbn [shared held threads]; [| | |by rewrite He|constructor].
  - by destruct (settle (PortAllocator_new lo hi) _ Hok) as [-> _].
  - unfold tokens. rewrite elements_empty. constructor.
  - unfold tokens. by rewrite elements_empty, He.
Qed.

(** ** One thread alone is the sequential call *)

(** The thread answers [r] from any sufficient fuel on. *)
Definition solo_gives (weak : list bool) (pa : PortAllocator) (st : pc * option answer)
    (r : answer * PortAllocator) : Prop :=
  ∃ n, ∀ fuel, (n ≤ fuel)%nat → solo fuel weak pa st = Some r.

Lemma solo_done weak pa c a : solo_gives weak pa (c, Some a) (a, pa).
Proof. exists 0%nat. intros fuel _. by destruct fuel. Qed.

Lemma solo_step weak weak' pa pa' sp c st r :
  (if is_cas c then weak_fails weak else (false, weak)) = (sp, weak') →
  thread_step pa sp c = Some (st, pa') → solo_gives weak' pa' st r → solo_gives weak pa (c, None) r.
Proof.
  intros Hw Hs [n Hn]. exists (S n). intros [|fuel] Hf; [lia|]. cbn [solo]. rewrite Hw, Hs.
  apply Hn. lia.
Qed.

Lemma store_then_count pa i w d :
  add_count (store pa i w 0) d = store pa i w d.
Proof. unfold add_count, store. cbn. f_equal. word_lia. Qed.

(** After its exchange a thread only has the counter left. *)
Lemma solo_count weak pa i w p :
  solo_gives weak (store pa i w 0) (CountUp p, None) (Allocated (Some p), store pa i w 1).
Proof.
  eapply solo_step; [done|done|]. rewrite store_then_count. apply solo_done.
Qed.

Lemma cas_solo pa sp i new :
  cas pa sp i (word pa i) new = if sp then None else Some (store pa i new 0).
Proof. unfold cas. rewrite Z.eqb_refl. by destruct sp. Qed.

Lemma fallback_solo pa s o t weak :
  let idx := actual_idx pa s t in
  match lowest_free (port_count pa) idx (word pa idx) weak with
  | (Some (q, w), _) =>
    solo_gives weak pa (fallback pa s o t (word pa idx))
      (Allocated (Some (as_u16 (min_port pa + q))), store pa idx w 1)
  | (None, weak') => weak' = weak ∧ fallback pa s o t (word pa idx) = next_word pa s o t
  end.
Proof.
  intros idx. unfold fallback, port_index. fold idx.
  induction weak as [|b weak IH]; cbn [lowest_free];
    (destruct (not64 (word pa idx) =? 0) eqn:E0; [done|]);
    (destruct (port_count pa <=? as_u16 (Z.of_nat idx * 64 + trailing_zeros (not64 (word pa idx)))) eqn:E1;
     [done|]).
  - eapply solo_step; [done| |apply solo_count]. cbn [thread_step]. fold idx. by rewrite cas_solo.
  - destruct b.
    + destruct (lowest_free _ _ _ weak) as [[[q w]|] wk] eqn:E.
      * eapply (solo_step _ weak _ _ true); [done| |exact IH]. cbn [thread_step]. fold idx. rewrite cas_solo.
        unfold fallback, port_index. fold idx. by rewrite E0, E1.
      * destruct IH as [_ IH]. unfold next_word in IH. by case_decide.
    + eapply (solo_step _ weak _ _ false); [done| |apply solo_count]. cbn [thread_step]. fold idx.
      by rewrite cas_solo.
Qed.

Lemma word_solo pa s o t weak :
  match probe pa s o t weak with
  | (Some (p, pa'), _) => solo_gives weak pa (Load s o t, None) (Allocated (Some p), pa')
  | (None, weak') => ∀ r, solo_gives weak' pa (next_word pa s o t) r → solo_gives weak pa (Load s o t, None) r
  end.
Proof.
  unfold probe. set (idx := Z.to_nat _). change idx with (actual_idx pa s t) in *. clear idx.
  set (idx := actual_idx pa s t). set (rb := (o + Z.of_nat t) mod 64). change rb with (random_bit o t) in *.
  assert (Hload : ∀ wk r, solo_gives wk pa (after_load pa s o t (word pa idx)) r →
    solo_gives wk pa (Load s o t, None) r).
  { intros wk r H. by eapply solo_step; [done| |exact H]. }
  pose proof (fallback_solo pa s o t) as Hfall. cbv zeta in Hfall. fold idx in Hfall.
  unfold after_load, port_index in Hload. fold idx in Hload.
  destruct (word pa idx =? U64_MAX); [intros r; apply Hload|].
  destruct (not64 (word pa idx) =? 0); [intros r; apply Hload|].
  destruct (negb (Z.land (not64 (word pa idx)) (bit64 (random_bit o t)) =? 0)); cbn [andb] in Hload;
    [destruct (as_u16 (Z.of_nat idx * 64 + random_bit o t) <? port_count pa)|].
  - destruct (weak_fails weak) as [[] wk] eqn:Ew.
    + specialize (Hfall wk). destruct (lowest_free _ _ _ wk) as [[[q w]|] wk'].
      * apply Hload. eapply solo_step; [exact Ew| |exact Hfall]. cbn [thread_step]. fold idx. by rewrite cas_solo.
      * destruct Hfall as [-> Hfall]. intros r Hr. apply Hload.
        eapply solo_step; [exact Ew| |exact Hr]. cbn [thread_step]. fold idx. rewrite cas_solo. by rewrite Hfall.
    + apply Hload. eapply solo_step; [exact Ew| |apply solo_count]. cbn [thread_step]. unfold port_index. fold idx.
      by rewrite cas_solo.
  - specialize (Hfall weak). destruct (lowest_free _ _ _ weak) as [[[q w]|] wk']; [by apply Hload|].
    destruct Hfall as [-> Hfall]. rewrite Hfall in Hload. intros r. apply Hload.
  - specialize (Hfall weak). destruct (lowest_free _ _ _ weak) as [[[q w]|] wk']; [by apply Hload|].
    destruct Hfall as [-> Hfall]. rewrite Hfall in Hload. intros r. apply Hload.
Qed.

Lemma loop_solo pa s o n t weak r pa' :
  (S t + n = length (allocated pa))%nat →
  probe_from pa s o (seq t (S n)) weak = (r, pa') →
  solo_gives weak pa (Load s o t, None) (Allocated r, pa').
Proof.
  revert t weak. induction n as [|n IH]; intros t weak Hlen; cbn [seq probe_from];
    pose proof (word_solo pa s o t weak) as Hw;
    destruct (probe pa s o t weak) as [[[p pa1]|] wk]; try (intros [= <- <-]; exact Hw).
  - intros [= <- <-]. apply Hw. unfold next_word. rewrite decide_False by lia. apply solo_done.
  - intros H. apply Hw. unfold next_word. rewrite decide_True by lia. apply IH; [lia|exact H].
Qed.

Lemma release_solo weak pa port :
  match PortAllocator_release weak port pa with
  | (b, pa') => solo_gives weak pa (enter_release pa port) (Released b, pa')
  end.
Proof.
  unfold PortAllocator_release, enter_release.
  destruct ((port <? min_port pa) || (max_port pa <? port)); [apply solo_done|].
  case_decide; [apply solo_done|]. set (i := Z.to_nat _).
  assert (Hhead : ∀ wk, match release_word (word pa i) (bit64 ((port - min_port pa) mod 64)) wk with
    | Some w => solo_gives wk pa (release_head pa port (word pa i)) (Released true, store pa i w (-1))
    | None => solo_gives wk pa (release_head pa port (word pa i)) (Released false, pa) end).
  { induction wk as [|b wk IH]; cbn [release_word]; unfold release_head;
      (destruct (Z.land (word pa i) _ =? 0) eqn:E; [apply solo_done|]).
    - eapply solo_step; [done| |]; [cbn [thread_step]; fold i; by rewrite cas_solo|].
      eapply solo_step; [done|done|]. rewrite store_then_count. apply solo_done.
    - destruct b.
      + destruct (release_word _ _ wk) as [w|]; (eapply (solo_step _ wk _ _ true); [done| |exact IH]);
          cbn [thread_step]; fold i; by rewrite cas_solo.
      + eapply (solo_step _ wk _ _ false); [done| |]; [cbn [thread_step]; fold i; by rewrite cas_solo|].
        eapply solo_step; [done|done|]. rewrite store_then_count. apply solo_done. }
  specialize (Hhead weak). destruct (release_word _ _ weak); (eapply solo_step; [done| |exact Hhead]);
    cbn [thread_step]; by fold i.
Qed.

(** ** Running a schedule *)

(** The choices of the scheduler, so that an interleaving can be executed. *)
Inductive move := Spawn | Allocate (i : nat) (r1 r2 : Z) | Release (i : nat) (p : Z) | Run (i : nat) (spurious : bool).

Definition race_exec (s : Race) (m : move) : option (option answer * Race) :=
  match m with
  | Spawn => Some (None, mkRace (shared s) (held s) (threads s ++ [Idle]))
  | Allocate i r1 r2 =>
    match threads s !! i, enter_allocate (shared s) r1 r2 with
    | Some Idle, Ret (c, a) => Some (a, mkRace (shared s) (held s) (<[i := c]> (threads s)))
    | _, _ => None
    end
  | Release i p =>
    match threads s !! i with
    | Some Idle =>
      if decide (p ∈ held s) then
        let '(c, a) := enter_release (shared s) p in
        Some (a, mkRace (shared s) (held s ∖ {[p]}) (<[i := c]> (threads s)))
      else None
    | _ => None
    end
  | Run i spurious =>
    c ← threads s !! i;
    '(c', a, pa') ← thread_step (shared s) spurious c;
    Some (a, mkRace pa' (deliver a (held s)) (<[i := c']> (threads s)))
  end.

Fixpoint race_runs (s : Race) (l : list answer) (ms : list move) : option (list answer * Race) :=
  match ms with
  | [] => Some (l, s)
  | m :: ms => '(a, s') ← race_exec s m; race_runs s' (l ++ option_list a) ms
  end.

Lemma race_exec_sound s m a s' : race_exec s m = Some (a, s') → race_step s a s'.
Proof.
  destruct m as [|i r1 r2|i p|i sp]; cbn [race_exec].
  - intros [= <- <-]. constructor.
  - intros H. repeat split_match; simplify_eq. by eapply race_allocate.
  - intros H. repeat split_match; simplify_eq. by eapply race_release.
  - intros H. destruct (threads s !! i) as [c|] eqn:E; [|done]. cbn in H.
    destruct (thread_step (shared s) sp c) as [[[c' x] pa']|] eqn:E'; [|done]. cbn in H. simplify_eq.
    by eapply race_run.
Qed.

Lemma race_runs_sound s0 s l ms l' s' :
  race_reach s0 l s → race_runs s l ms = Some (l', s') → race_reach s0 l' s'.
Proof.
  revert s l. induction ms as [|m ms IH]; cbn; intros s l Hr; [by intros [= <- <-]|].
  destruct (race_exec s m) as [[a s1]|] eqn:E; [|done]. cbn. apply IH.
  eapply reach_step; [done|]. by eapply race_exec_sound.
Qed.

(** ** Properties *)

(** C9. No two callers ever hold the same port, whatever the interleaving of the
    atomic operations of any number of concurrent [allocate] and [release]
    calls and whatever the spurious failures: an [allocate] that returns a
    port returns one of the range that nobody holds, a [release] by the holder
    always succeeds, and when all calls have returned the bitmap is exactly
    the set of ports held and the counter its size. *)
Theorem concurrent_ports_exclusive (lo hi : Z) (l : list answer) (s : Race) :
  0 ≤ lo ≤ hi → hi ≤ 65535 → hi - lo < 65535 →
  race_reach (mkRace (PortAllocator_new lo hi) ∅ []) l s →
  (∀ a s', race_step s a s' → answer_ok s a) ∧
  (∀ p, p ∈ held s → p ∈ ports (shared s)) ∧
  (Forall (λ c, c = Idle) (threads s) →
     ports_ok (shared s) ∧ ports (shared s) = held s ∧
     PortAllocator_allocated_count (shared s) = Z.of_nat (size (held s))).
Proof.
  intros Hlo Hhi Hfit Hreach.
  pose proof (race_reach_inv _ _ _ (race_init lo hi Hlo Hhi Hfit) Hreach) as Hinv.
  split_and!; [intros a s' Hs; by apply (race_step_inv s a s')|intros p; by apply held_in_ports|].
  intros Hidle. destruct Hinv as [Hok _ Hset Hc _].
  assert (Htok : ∀ h, tokens h (threads s) = elements h ∧ owed (threads s) = 0).
  { intros h. unfold tokens. clear -Hidle. induction Hidle as [|c ts -> _ [IH1 IH2]]; [|done].
    cbn. by rewrite app_nil_r. }
  destruct (Htok (held s)) as [Et Eo]. rewrite Et, list_to_set_elements_L in Hset. rewrite Eo in Hc.
  pose proof (ports_size_bound _ Hok) as Hb. pose proof (ok_fits _ Hok) as Hf.
  change (ports (settled (shared s))) with (ports (shared s)) in Hb. cbn in Hb, Hf.
  rewrite Z.add_0_r, as_u64_id in Hc by (unfold_words; lia).
  assert (E : settled (shared s) = shared s).
  { unfold settled. rewrite <- Hc. by destruct (shared s). }
  rewrite E in Hok. split_and!; [done|done|]. unfold PortAllocator_allocated_count. by rewrite Hc, Hset.
Qed.

(** Two callers draw the same word and the same bit: the first exchange wins,
    the second fails, sees the new word and takes the next port. *)
Lemma concurrent_ports_exclusive_witness :
  ∃ s, race_runs (mkRace (PortAllocator_new 50000 50003) ∅ []) []
         [Spawn; Spawn; Allocate 0 0 0; Allocate 1 0 0; Run 0 false; Run 1 false; Run 0 false; Run 1 false;
          Run 1 false; Run 0 false; Run 1 false] =
         Some ([Allocated (Some 50000); Allocated (Some 50001)], s) ∧
    ports (shared s) = held s ∧ PortAllocator_allocated_count (shared s) = 2.
Proof.
  eexists. assert (E : race_runs (mkRace (PortAllocator_new 50000 50003) ∅ []) []
    [Spawn; Spawn; Allocate 0 0 0; Allocate 1 0 0; Run 0 false; Run 1 false; Run 0 false; Run 1 false;
     Run 1 false; Run 0 false; Run 1 false] = _) by (vm_compute; reflexivity).
  split; [exact E|]. apply (race_runs_sound (mkRace (PortAllocator_new 50000 50003) ∅ [])) in E; [|constructor].
  destruct (concurrent_ports_exclusive 50000 50003 _ _ ltac:(lia) ltac:(lia) ltac:(lia) E) as (_ & _ & Hq).
  destruct Hq as (_ & Hp & Hc); [by repeat constructor|]. by split.
Defined.

(** C28. The sequential model of the allocator is what a caller sees that is not
    disturbed: run alone, with any spurious failures, the thread of [allocate]
    and that of [release] finish after finitely many atomic operations with
    the answer and the bitmap of the functions of Ports. *)
Theorem solo_is_sequential (weak : list bool) (pa : PortAllocator) :
  (∀ r1 r2 r pa', PortAllocator_allocate r1 r2 weak pa = Ret (r, pa') →
     ∃ st, enter_allocate pa r1 r2 = Ret st ∧ solo_gives weak pa st (Allocated r, pa')) ∧
  (∀ port, let '(b, pa') := PortAllocator_release weak port pa in
     solo_gives weak pa (enter_release pa port) (Released b, pa')).
Proof.
  split; [|intros port; apply release_solo]. intros r1 r2 r pa'.
  unfold PortAllocator_allocate, enter_allocate.
  destruct (Z.eqb_spec (Z.of_nat (length (allocated pa))) 0) as [|Hn]; [done|]. intros [= H].
  eexists. split; [done|]. destruct (length (allocated pa)) as [|n] eqn:El; [lia|].
  apply (loop_solo _ _ _ n); [by rewrite El|exact H].
Qed.

