(* ===== verification/Channels.v ===== *)
(** * Channel bindings (src/allocation.rs, [ChannelTable])

    The map from (relayed address, channel number) to a binding, guarded by
    one lock in the source, so each operation is one step.  [now] is the
    reading of [Instant::now()] inside the call. *)

From S2P Require Import Prelude RustStd Errors.
Local Open Scope Z_scope.

Record ChannelBinding := mkBinding {
  channel_id : Z;
  cb_peer_addr : SocketAddr;
  cb_relayed_addr : SocketAddr;
  cb_created_at : Z;
  cb_lifetime : Z
}.

Record ChannelTable := mkChannels {
  channels : gmap (SocketAddr * Z) ChannelBinding;
  next_channel : Z
}.

#[global] Instance ChannelBinding_eq_dec : EqDecision ChannelBinding.
Proof. solve_decision. Defined.

Definition ChannelBinding_is_expired (now : Z) (b : ChannelBinding) : bool :=
  cb_lifetime b <? elapsed now (cb_created_at b).

Definition ChannelBinding_remaining_lifetime (now : Z) (b : ChannelBinding) : Z :=
  let elapsed := elapsed now (cb_created_at b) in
  if cb_lifetime b <=? elapsed then 0 else as_u32 (as_secs (cb_lifetime b - elapsed)).

Definition ChannelTable_new : ChannelTable := mkChannels ∅ 0x4000.

Definition set_channels (t : ChannelTable) (m : gmap (SocketAddr * Z) ChannelBinding) : ChannelTable :=
  mkChannels m (next_channel t).

Definition ChannelTable_bind (now id : Z) (peer relayed : SocketAddr) (t : ChannelTable)
    : result unit Error * ChannelTable :=
  let key := (relayed, id) in
  match channels t !! key with
  | Some existing =>
    if decide (cb_peer_addr existing = peer) then
      (Ok tt, set_channels t (<[key := mkBinding (channel_id existing) (cb_peer_addr existing)
                 (cb_relayed_addr existing) now (cb_lifetime existing)]> (channels t)))
    else (Err AlreadyExists, t)
  | None =>
    (Ok tt, set_channels t (<[key := mkBinding id peer relayed now (from_secs 600)]> (channels t)))
  end.

Definition get_by_channel (t : ChannelTable) (relayed : SocketAddr) (id : Z) : option ChannelBinding :=
  channels t !! (relayed, id).

Section iteration.
Context `{HO : HashOrder}.

Definition get_by_peer (t : ChannelTable) (peer : SocketAddr) : option Z :=
  '((_, id), _) ← find_first (λ '((_, _), ch), bool_decide (cb_peer_addr ch = peer))
                    (hash_iter (channels t));
  Some id.

Definition get_by_peer_for_relayed (t : ChannelTable) (relayed peer : SocketAddr) : option Z :=
  '((_, id), _) ← find_first (λ '((ra, _), ch),
                     bool_decide (ra = relayed) && bool_decide (cb_peer_addr ch = peer))
                    (hash_iter (channels t));
  Some id.

Definition get_relayed_by_peer (t : ChannelTable) (peer : SocketAddr) : option SocketAddr :=
  '(_, ch) ← find_first (λ '(_, ch), bool_decide (cb_peer_addr ch = peer))
               (hash_iter (channels t));
  Some (cb_relayed_addr ch).
End iteration.

Definition unbind (relayed : SocketAddr) (id : Z) (t : ChannelTable)
    : option ChannelBinding * ChannelTable :=
  (channels t !! (relayed, id), set_channels t (delete (relayed, id) (channels t))).

(** [fetch_add] returns the old value and wraps at sixteen bits. *)
Definition next_id (t : ChannelTable) : Z * ChannelTable :=
  let id := next_channel t in
  let next := as_u16 (next_channel t + 1) in
  (id, mkChannels (channels t) (if 0x7FFF <? next then 0x4000 else next)).

Definition remove_for_relayed (relayed : SocketAddr) (t : ChannelTable) : Z * ChannelTable :=
  let kept := filter (λ '((ra, _), _), ra ≠ relayed) (channels t) in
  (saturating_sub (Z.of_nat (size (channels t))) (Z.of_nat (size kept)), set_channels t kept).

Definition ChannelTable_cleanup_expired (now : Z) (t : ChannelTable) : Z * ChannelTable :=
  let kept := filter (λ '(_, b), ChannelBinding_is_expired now b = false) (channels t) in
  (saturating_sub (Z.of_nat (size (channels t))) (Z.of_nat (size kept)), set_channels t kept).

Definition ChannelTable_len (t : ChannelTable) : Z := Z.of_nat (size (channels t)).
Definition ChannelTable_is_empty (t : ChannelTable) : bool := bool_decide (channels t = ∅).

(** ** The invariant: a binding sits under its own key, and the next channel
    number is in the range TURN reserves for channels. *)

Record channels_ok (t : ChannelTable) : Prop := {
  ch_key : ∀ r id b, channels t !! (r, id) = Some b → channel_id b = id ∧ cb_relayed_addr b = r;
  ch_next : 0x4000 ≤ next_channel t ≤ 0x7FFF
}.

(** No binding of the table belongs to [relayed]. *)
Definition unbound (relayed : SocketAddr) (t : ChannelTable) : Prop :=
  ∀ id, channels t !! (relayed, id) = None.

Lemma channels_ok_new : channels_ok ChannelTable_new.
Proof. split; [intros r id b; cbn [channels ChannelTable_new]; by rewrite lookup_empty|cbn; lia]. Qed.

Lemma bind_lookup now id peer relayed t t' :
  channels_ok t → ChannelTable_bind now id peer relayed t = (Ok tt, t') →
  ∃ b, channels t' !! (relayed, id) = Some b ∧ cb_peer_addr b = peer ∧ channel_id b = id ∧
       cb_relayed_addr b = relayed ∧ cb_created_at b = now ∧
       next_channel t' = next_channel t ∧
       ∀ k, k ≠ (relayed, id) → channels t' !! k = channels t !! k.
Proof.
  intros Hok H. unfold ChannelTable_bind in H.
  destruct (channels t !! (relayed, id)) as [e|] eqn:E; [case_decide|]; simplify_eq; cbn;
    (eexists; split; [apply lookup_insert_eq|]; cbn).
  - destruct (ch_key _ Hok _ _ _ E). split_and!; try done. intros. by rewrite lookup_insert_ne.
  - split_and!; try done. intros. by rewrite lookup_insert_ne.
Qed.

Lemma bind_err now id peer relayed t e t' :
  ChannelTable_bind now id peer relayed t = (Err e, t') →
  e = AlreadyExists ∧ t' = t ∧
  ∃ b, channels t !! (relayed, id) = Some b ∧ cb_peer_addr b ≠ peer.
Proof.
  unfold ChannelTable_bind. intros H.
  destruct (channels t !! (relayed, id)) as [b|] eqn:E; [case_decide|]; simplify_eq. eauto.
Qed.

Lemma bind_ok now id peer relayed t :
  channels_ok t → channels_ok (ChannelTable_bind now id peer relayed t).2.
Proof.
  intros Hok. destruct (ChannelTable_bind now id peer relayed t) as [[[]|e] t'] eqn:E; cbn.
  - apply bind_lookup in E as (b & Hb & _ & Hid & Hr & _ & Hn & Hother); [|done].
    split; [|rewrite Hn; apply Hok]. intros r id' b' Hl.
    destruct (decide ((r, id') = (relayed, id))) as [[= -> ->]|Hne]; [by simplify_eq|].
    rewrite Hother in Hl by done. by apply (ch_key _ Hok).
  - by apply bind_err in E as (_ & -> & _).
Qed.

Lemma filter_channels_ok P `{∀ x, Decision (P x)} t :
  channels_ok t → channels_ok (set_channels t (filter P (channels t))).
Proof.
  intros Hok. split; [|apply Hok]. cbn. intros r id b [Hl _]%map_lookup_filter_Some.
  by apply (ch_key _ Hok).
Qed.

Lemma remove_for_relayed_lookup relayed t k :
  channels (remove_for_relayed relayed t).2 !! k =
  if decide (k.1 = relayed) then None else channels t !! k.
Proof.
  destruct k as [r id]. cbn. apply option_eq. intros b.
  rewrite map_lookup_filter_Some. case_decide; naive_solver.
Qed.

Lemma remove_for_relayed_unbound relayed t : unbound relayed (remove_for_relayed relayed t).2.
Proof. intros id. rewrite remove_for_relayed_lookup. by rewrite decide_True. Qed.

Lemma remove_for_relayed_ok relayed t :
  channels_ok t → channels_ok (remove_for_relayed relayed t).2.
Proof. apply filter_channels_ok. Qed.
Lemma cleanup_channels_ok now t :
  channels_ok t → channels_ok (ChannelTable_cleanup_expired now t).2.
Proof. apply filter_channels_ok. Qed.
Lemma next_id_ok t : channels_ok t → channels_ok (next_id t).2.
Proof.
  intros Hok. split; [apply Hok|]. cbn. pose proof (ch_next _ Hok).
  rewrite as_u16_id by (unfold_words; lia). destruct (Z.ltb_spec 0x7FFF (next_channel t + 1)); lia.
Qed.
Lemma unbind_ok relayed id t : channels_ok t → channels_ok (unbind relayed id t).2.
Proof.
  intros Hok. split; [|apply Hok]. cbn. intros r i b [_ Hl]%lookup_delete_Some.
  by apply (ch_key _ Hok).
Qed.

Lemma get_by_peer_for_relayed_sound `{HashOrder} t relayed peer id :
  get_by_peer_for_relayed t relayed peer = Some id →
  ∃ b, get_by_channel t relayed id = Some b ∧ cb_peer_addr b = peer.
Proof.
  unfold get_by_peer_for_relayed. intros E. destruct (find_first _ _) as [[[ra i] b]|] eqn:F; [|done].
  cbn in E. simplify_eq. apply find_first_Some in F as [Hin Hp]. bool_to_prop. subst.
  exists b. split; [|done]. by apply hash_iter_lookup.
Qed.

Lemma get_by_peer_for_relayed_None `{HashOrder} t relayed peer :
  get_by_peer_for_relayed t relayed peer = None ↔
  ∀ id b, get_by_channel t relayed id = Some b → cb_peer_addr b ≠ peer.
Proof.
  unfold get_by_peer_for_relayed. destruct (find_first _ _) as [[[ra i] b]|] eqn:F; cbn.
  - split; [done|]. intros Hno. apply find_first_Some in F as [Hin Hp]. bool_to_prop. subst.
    exfalso. apply (Hno i b); [|done]. by apply hash_iter_lookup.
  - split; [|done]. intros _ id b Hb Hp. apply find_first_None in F. rewrite list.Forall_forall in F.
    specialize (F (relayed, id, b)). cbn in F. rewrite !bool_decide_eq_true_2 in F by done.
    apply hash_iter_lookup in Hb. naive_solver.
Qed.

(** ** Properties *)

(** Binding and lookup: a successful [bind] makes the channel of that
    allocation name the peer with a fresh time stamp, whatever was there
    before, and touches no other key; a refused one ([AlreadyExists]) happens
    exactly when the number is bound to another peer, and changes nothing. *)
Theorem bind_then_lookup (now id : Z) (peer relayed : SocketAddr) (t : ChannelTable) :
  channels_ok t →
  match ChannelTable_bind now id peer relayed t with
  | (Ok _, t') =>
    (∃ b, get_by_channel t' relayed id = Some b ∧ cb_peer_addr b = peer ∧ cb_created_at b = now) ∧
    (∀ r i, (r, i) ≠ (relayed, id) → get_by_channel t' r i = get_by_channel t r i) ∧
    (∀ b, get_by_channel t relayed id = Some b → cb_peer_addr b = peer)
  | (Err e, t') =>
    e = AlreadyExists ∧ t' = t ∧
    ∃ b, get_by_channel t relayed id = Some b ∧ cb_peer_addr b ≠ peer
  end.
Proof.
  intros Hok. destruct (ChannelTable_bind now id peer relayed t) as [[[]|e] t'] eqn:E;
    [|by apply bind_err in E].
  pose proof E as E'. apply bind_lookup in E as (b & ? & ? & _ & _ & ? & _ & Ho); [|done].
  split_and!; [by exists b|intros r i Hne; by apply Ho|].
  intros b'. unfold get_by_channel, ChannelTable_bind in *. intros Hb. rewrite Hb in E'.
  by case_decide.
Qed.

Definition relay_a : SocketAddr := SaV4 (mkIpv4 10 0 0 1) 49152.
Definition peer_a : SocketAddr := SaV4 (mkIpv4 192 168 1 7) 5000.
Definition peer_b : SocketAddr := SaV4 (mkIpv4 192 168 1 8) 5001.

Lemma bind_then_lookup_witness :
  match ChannelTable_bind 5 0x4000 peer_a relay_a ChannelTable_new with
  | (Ok _, t') =>
    (∃ b, get_by_channel t' relay_a 0x4000 = Some b ∧ cb_peer_addr b = peer_a ∧ cb_created_at b = 5) ∧
    (∀ r i, (r, i) ≠ (relay_a, 0x4000) →
       get_by_channel t' r i = get_by_channel ChannelTable_new r i) ∧
    (∀ b, get_by_channel ChannelTable_new relay_a 0x4000 = Some b → cb_peer_addr b = peer_a)
  | (Err e, t') =>
    e = AlreadyExists ∧ t' = ChannelTable_new ∧
    ∃ b, get_by_channel ChannelTable_new relay_a 0x4000 = Some b ∧ cb_peer_addr b ≠ peer_a
  end.
Proof. apply (bind_then_lookup 5 0x4000 peer_a relay_a ChannelTable_new). apply channels_ok_new. Defined.

(** Expiry: the cleanup keeps exactly the bindings whose age does not
    exceed their lifetime, and reports how many it dropped. *)
Theorem channel_cleanup_exact (now : Z) (t : ChannelTable) :
  let '(n, t') := ChannelTable_cleanup_expired now t in
  (∀ k b, channels t' !! k = Some b ↔
          channels t !! k = Some b ∧ elapsed now (cb_created_at b) ≤ cb_lifetime b) ∧
  n + ChannelTable_len t' = ChannelTable_len t.
Proof.
  unfold ChannelTable_cleanup_expired. split.
  - intros k b. cbn. rewrite map_lookup_filter_Some. unfold ChannelBinding_is_expired.
    rewrite Z.ltb_ge. done.
  - unfold ChannelTable_len, saturating_sub. cbn.
    pose proof (size_filter_le (λ '(_, b), ChannelBinding_is_expired now b = false) (channels t)).
    lia.
Qed.

(** Channel numbers drawn by [next_id] stay in TURN's channel range
    0x4000-0x7FFF for ever, and the invariant of the table is kept by every
    operation of the component. *)
Theorem channel_ops_keep_invariant (t : ChannelTable) :
  channels_ok t →
  0x4000 ≤ (next_id t).1 ≤ 0x7FFF ∧ channels_ok (next_id t).2 ∧
  (∀ now id peer relayed, channels_ok (ChannelTable_bind now id peer relayed t).2) ∧
  (∀ relayed id, channels_ok (unbind relayed id t).2) ∧
  (∀ relayed, channels_ok (remove_for_relayed relayed t).2 ∧
              unbound relayed (remove_for_relayed relayed t).2) ∧
  (∀ now, channels_ok (ChannelTable_cleanup_expired now t).2).
Proof.
  intros Hok. split; [apply Hok|]. split; [by apply next_id_ok|]. split; [intros; by apply bind_ok|].
  split; [intros; by apply unbind_ok|]. split; [|intros; by apply cleanup_channels_ok].
  intros. split; [by apply remove_for_relayed_ok|apply remove_for_relayed_unbound].
Qed.

Lemma channel_ops_keep_invariant_witness :
  let t := mkChannels ∅ 0x7FFF in
  0x4000 ≤ (next_id t).1 ≤ 0x7FFF ∧ channels_ok (next_id t).2 ∧
  (∀ now id peer relayed, channels_ok (ChannelTable_bind now id peer relayed t).2) ∧
  (∀ relayed id, channels_ok (unbind relayed id t).2) ∧
  (∀ relayed, channels_ok (remove_for_relayed relayed t).2 ∧
              unbound relayed (remove_for_relayed relayed t).2) ∧
  (∀ now, channels_ok (ChannelTable_cleanup_expired now t).2).
Proof.
  cbv zeta. apply (channel_ops_keep_invariant (mkChannels ∅ 0x7FFF)).
  split; [intros r id b; cbn [channels]; rewrite lookup_empty; discriminate|vm_compute; split; discriminate].
Defined.
