(* ===== verification/Bandwidth.v ===== *)
(** * Bandwidth limiting (src/bandwidth.rs)

    The token bucket, the per-user and per-allocation trackers and the global
    manager.  [now] is the clock reading of the call, and [weak] the schedule
    of spurious compare-exchange failures, as in the file Ports. *)

From S2P Require Import Prelude RustStd.
Local Open Scope Z_scope.

Record BandwidthLimiter := mkLimiter {
  max_tokens : Z;
  tokens : Z;
  rate_bytes_per_sec : Z;
  last_update : Z
}.

Definition BandwidthLimiter_new (now rate burst : Z) : BandwidthLimiter :=
  mkLimiter burst burst rate now.

(** Tokens earned over a duration. *)
Definition tokens_to_add (rate elapsed : Z) : Z :=
  saturating_add U64_MAX
    (saturating_mul U64_MAX (as_secs elapsed) rate)
    (as_u64 ((subsec_nanos elapsed * rate) / 1000000000)).

(** The compare-exchange loop: the new token count, or nothing. *)
Fixpoint consume_loop (max add size current : Z) (weak : list bool) : option Z :=
  let available := Z.min (saturating_add U64_MAX current add) max in
  if available <? size then None else
  let new_tokens := available - size in
  match weak with
  | true :: rest => consume_loop max add size current rest
  | _ => Some new_tokens
  end.

Definition try_consume (now size : Z) (weak : list bool) (l : BandwidthLimiter)
    : option Z * BandwidthLimiter :=
  let elapsed := elapsed now (last_update l) in
  let add := tokens_to_add (rate_bytes_per_sec l) elapsed in
  match consume_loop (max_tokens l) add size (tokens l) weak with
  | Some new_tokens =>
    (Some new_tokens, mkLimiter (max_tokens l) new_tokens (rate_bytes_per_sec l) now)
  | None => (None, l)
  end.

(** Plain [u64] arithmetic here, which wraps. *)
Definition available_tokens (now : Z) (l : BandwidthLimiter) : Z :=
  let elapsed := elapsed now (last_update l) in
  let add := as_u64 (as_secs elapsed * rate_bytes_per_sec l) in
  Z.min (as_u64 (tokens l + add)) (max_tokens l).

Definition BandwidthLimiter_reset (l : BandwidthLimiter) : BandwidthLimiter :=
  mkLimiter (max_tokens l) (max_tokens l) (rate_bytes_per_sec l) (last_update l).

(** ** Trackers *)

Definition limiter_for (now : Z) (limit : option Z) : BandwidthLimiter :=
  let rate := match limit with Some r => r | None => U64_MAX / 2 end in
  let burst := saturating_mul U64_MAX rate 10 in
  BandwidthLimiter_new now rate burst.

Record UserBandwidthTracker := mkUserTracker {
  ub_user_id : string;
  ub_limiter : BandwidthLimiter;
  ub_total_bytes : Z;
  ub_limit : option Z
}.

Definition UserBandwidthTracker_new (now : Z) (user_id : string) (limit : option Z)
    : UserBandwidthTracker :=
  mkUserTracker user_id (limiter_for now limit) 0 limit.

Definition UserBandwidthTracker_try_relay (now size : Z) (weak : list bool)
    (t : UserBandwidthTracker) : option Z * UserBandwidthTracker :=
  match ub_limit t with
  | None =>
    (Some U64_MAX, mkUserTracker (ub_user_id t) (ub_limiter t)
                     (as_u64 (ub_total_bytes t + size)) (ub_limit t))
  | Some _ =>
    let '(r, l) := try_consume now size weak (ub_limiter t) in
    (r, mkUserTracker (ub_user_id t) l
          (match r with Some _ => as_u64 (ub_total_bytes t + size) | None => ub_total_bytes t end)
          (ub_limit t))
  end.

Record AllocationBandwidthTracker := mkTracker {
  abt_relayed_addr : string;
  abt_limiter : BandwidthLimiter;
  abt_limit : option Z
}.

Definition AllocationBandwidthTracker_new (now : Z) (limit : option Z) : AllocationBandwidthTracker :=
  mkTracker "" (limiter_for now limit) limit.

Definition with_relayed_addr (addr : string) (t : AllocationBandwidthTracker)
    : AllocationBandwidthTracker :=
  mkTracker addr (abt_limiter t) (abt_limit t).

Definition AllocationBandwidthTracker_try_relay (now size : Z) (weak : list bool)
    (t : AllocationBandwidthTracker) : option Z * AllocationBandwidthTracker :=
  match abt_limit t with
  | None => (Some U64_MAX, t)
  | Some _ =>
    let '(r, l) := try_consume now size weak (abt_limiter t) in
    (r, mkTracker (abt_relayed_addr t) l (abt_limit t))
  end.

(** ** The manager *)

Record BandwidthManager := mkManager {
  trackers : gmap string AllocationBandwidthTracker;
  global_limiter : BandwidthLimiter;
  bm_total_bytes : Z;
  global_limit : option Z
}.

Definition BandwidthManager_new (now : Z) (limit : option Z) : BandwidthManager :=
  mkManager ∅ (limiter_for now limit) 0 limit.

Definition register_allocation (now : Z) (addr : string) (limit : option Z) (m : BandwidthManager)
    : BandwidthManager :=
  mkManager (<[addr := with_relayed_addr addr (AllocationBandwidthTracker_new now limit)]> (trackers m))
            (global_limiter m) (bm_total_bytes m) (global_limit m).

Definition unregister_allocation (addr : string) (m : BandwidthManager) : BandwidthManager :=
  mkManager (delete addr (trackers m)) (global_limiter m) (bm_total_bytes m) (global_limit m).

(** [weak1] and [weak2] schedule the two token buckets. *)
Definition BandwidthManager_try_relay (now : Z) (addr : string) (size : Z) (weak1 weak2 : list bool)
    (m : BandwidthManager) : bool * BandwidthManager :=
  let '(allowed, gl) :=
    match global_limit m with
    | Some _ => let '(r, l) := try_consume now size weak1 (global_limiter m) in
                (bool_decide (is_Some r), l)
    | None => (true, global_limiter m)
    end in
  if negb allowed then (false, mkManager (trackers m) gl (bm_total_bytes m) (global_limit m)) else
  match trackers m !! addr with
  | Some tracker =>
    let '(r, tracker') := AllocationBandwidthTracker_try_relay now size weak2 tracker in
    let m' total := mkManager (<[addr := tracker']> (trackers m)) gl total (global_limit m) in
    match r with
    | Some _ => (true, m' (as_u64 (bm_total_bytes m + size)))
    | None => (false, m' (bm_total_bytes m))
    end
  | None => (true, mkManager (trackers m) gl (as_u64 (bm_total_bytes m + size)) (global_limit m))
  end.

Definition total_bytes_relayed (m : BandwidthManager) : Z := bm_total_bytes m.
Definition tracked_count (m : BandwidthManager) : Z := Z.of_nat (size (trackers m)).

(** ** The bucket as a traffic shaper *)

Definition limiter_ok (l : BandwidthLimiter) : Prop :=
  0 ≤ tokens l ≤ max_tokens l ∧ max_tokens l ≤ U64_MAX ∧ 0 ≤ rate_bytes_per_sec l ≤ U64_MAX.

(** A run of requests (clock reading, size, schedule): the bytes let through
    and the bucket afterwards. *)
Fixpoint consume_all (reqs : list (Z * Z * list bool)) (l : BandwidthLimiter) : Z * BandwidthLimiter :=
  match reqs with
  | [] => (0, l)
  | (now, size, weak) :: reqs =>
    let '(r, l') := try_consume now size weak l in
    let '(total, l'') := consume_all reqs l' in
    ((match r with Some _ => size | None => 0 end) + total, l'')
  end.

(** The clock never goes back and sizes are unsigned. *)
Fixpoint clocked (t0 : Z) (reqs : list (Z * Z * list bool)) : Prop :=
  match reqs with
  | [] => True
  | (now, size, _) :: reqs => t0 ≤ now ∧ 0 ≤ size ≤ U64_MAX ∧ clocked now reqs
  end.

Fixpoint last_time (t0 : Z) (reqs : list (Z * Z * list bool)) : Z :=
  match reqs with
  | [] => t0
  | (now, _, _) :: reqs => last_time now reqs
  end.

Lemma consume_loop_eq max add size current weak :
  consume_loop max add size current weak =
  let available := Z.min (saturating_add U64_MAX current add) max in
  if available <? size then None else Some (available - size).
Proof.
  induction weak as [|[] weak IH]; cbn; destruct (_ <? size) eqn:E; try done.
  rewrite IH. cbv zeta. by rewrite E.
Qed.

Lemma tokens_to_add_bound rate e :
  0 ≤ rate ≤ U64_MAX → 0 ≤ e →
  0 ≤ tokens_to_add rate e ∧ tokens_to_add rate e * NANOS ≤ rate * e.
Proof.
  intros Hr He. unfold tokens_to_add, saturating_add, saturating_mul, as_secs, subsec_nanos, NANOS.
  assert (Hs : 0 ≤ e / 1000000000) by (apply Z.div_pos; lia).
  pose proof (Z.mod_pos_bound e 1000000000) as Hn.
  pose proof (Z.div_mod e 1000000000) as Hd.
  set (s := e / 1000000000) in *. set (n := e mod 1000000000) in *.
  assert (0 ≤ n * rate) by nia. assert (0 ≤ s * rate) by nia.
  assert (Hq : 0 ≤ n * rate / 1000000000) by (apply Z.div_pos; lia).
  assert (n * rate / 1000000000 < 18446744073709551616).
  { apply Z.div_lt_upper_bound; [lia|]. nia. }
  rewrite as_u64_id by (unfold_words; lia).
  assert (n * rate / 1000000000 * 1000000000 ≤ n * rate) by (rewrite Z.mul_comm; apply Z.mul_div_le; lia).
  split; [lia|].
  transitivity ((s * rate + n * rate / 1000000000) * 1000000000); [nia|]. nia.
Qed.

(** One request: it takes at most what is there plus what was earned, and the
    bucket stays between empty and full. *)
Lemma try_consume_spec now size weak l :
  limiter_ok l → 0 ≤ size →
  match try_consume now size weak l with
  | (Some n, l') =>
    limiter_ok l' ∧ n = tokens l' ∧ last_update l' = now ∧
    rate_bytes_per_sec l' = rate_bytes_per_sec l ∧ max_tokens l' = max_tokens l ∧
    (size + tokens l') * NANOS ≤ tokens l * NANOS + rate_bytes_per_sec l * elapsed now (last_update l)
  | (None, l') => l' = l
  end.
Proof.
  intros (Ht & Hm & Hr) Hs. unfold try_consume. rewrite consume_loop_eq. cbv zeta.
  destruct (tokens_to_add_bound (rate_bytes_per_sec l) (elapsed now (last_update l))) as [Ha0 Ha];
    [done|apply elapsed_nonneg|].
  set (add := tokens_to_add _ _) in *. unfold saturating_add.
  destruct (Z.ltb_spec (Z.min (Z.min U64_MAX (tokens l + add)) (max_tokens l)) size); [done|].
  cbn. unfold limiter_ok, NANOS in *. cbn. split_and!; try done; lia.
Qed.

Lemma consume_all_bound reqs l :
  limiter_ok l → clocked (last_update l) reqs →
  let '(total, l') := consume_all reqs l in
  limiter_ok l' ∧
  (total + tokens l') * NANOS ≤
    tokens l * NANOS + rate_bytes_per_sec l * (last_time (last_update l) reqs - last_update l).
Proof.
  intros Hok. assert (Hgen : ∀ t0, last_update l ≤ t0 → clocked t0 reqs →
    let '(total, l') := consume_all reqs l in
    limiter_ok l' ∧ t0 ≤ last_time t0 reqs ∧
    (total + tokens l') * NANOS ≤
      tokens l * NANOS + rate_bytes_per_sec l * (last_time t0 reqs - last_update l)).
  { revert l Hok. induction reqs as [|[[now size] weak] reqs IH]; intros l Hok t0 H0 Hc; cbn.
    - destruct Hok as (? & ? & ?). unfold limiter_ok. split_and!; try lia. nia.
    - destruct Hc as (Hn & Hs & Hc).
      pose proof (try_consume_spec now size weak l Hok (proj1 Hs)) as Hstep.
      destruct (try_consume now size weak l) as [[n|] l1] eqn:E.
      + destruct Hstep as (Hok1 & _ & Hl1 & Hr1 & _ & Hb).
        specialize (IH l1 Hok1 now). destruct (consume_all reqs l1) as [total l2].
        destruct IH as (Hok2 & Hlt & Hb2); [lia|done|]. split; [done|]. split; [lia|].
        unfold elapsed, saturating_sub in Hb. rewrite Hl1, Hr1 in Hb2.
        rewrite Z.max_r in Hb by lia. nia.
      + subst l1. specialize (IH l Hok now). destruct (consume_all reqs l) as [total l2].
        destruct IH as (Hok2 & Hlt & Hb2); [lia|done|]. split; [done|]. split; [lia|done]. }
  intros Hc. specialize (Hgen (last_update l)). destruct (consume_all reqs l) as [total l'].
  destruct Hgen as (? & _ & ?); [lia|done|done].
Qed.

Lemma limiter_for_ok now limit :
  match limit with Some r => 0 ≤ r ≤ U64_MAX | None => True end → limiter_ok (limiter_for now limit).
Proof.
  intros H. unfold limiter_for, limiter_ok, BandwidthLimiter_new, saturating_mul. cbn.
  destruct limit as [r|]; [lia|]. change (U64_MAX / 2) with 9223372036854775807. lia.
Qed.

(** ** Properties *)

(** The limiter shapes traffic: over any run of requests with a clock
    that does not go back, the bytes let through are at most the tokens in the
    bucket plus the rate times the time that passed (so at most the burst plus
    rate times time), and the bucket stays between empty and full. *)
Theorem token_bucket_conformance (reqs : list (Z * Z * list bool)) (l : BandwidthLimiter) :
  limiter_ok l → clocked (last_update l) reqs →
  limiter_ok (consume_all reqs l).2 ∧
  (consume_all reqs l).1 * NANOS ≤
    max_tokens l * NANOS + rate_bytes_per_sec l * (last_time (last_update l) reqs - last_update l).
Proof.
  intros Hok Hc. pose proof (consume_all_bound reqs l Hok Hc) as H.
  destruct (consume_all reqs l) as [total l']. destruct H as [Hok' Hb]. split; [done|]. cbn.
  destruct Hok as (? & _), Hok' as (? & _). unfold NANOS in *. lia.
Qed.

Definition sample_reqs : list (Z * Z * list bool) :=
  [(0, 3000, []); (0, 2000, [true]); (500000000, 400, []); (600000000, 5000, []); (9000000000, 5000, [])].

Lemma token_bucket_conformance_witness :
  limiter_ok (consume_all sample_reqs (BandwidthLimiter_new 0 1000 5000)).2 ∧
  (consume_all sample_reqs (BandwidthLimiter_new 0 1000 5000)).1 * NANOS ≤
    5000 * NANOS + 1000 * (9000000000 - 0).
Proof.
  apply (token_bucket_conformance sample_reqs (BandwidthLimiter_new 0 1000 5000)).
  - vm_compute. intuition congruence.
  - vm_compute. intuition congruence.
Defined.

(** A request is refused only when the bucket cannot cover it, and then
    costs nothing; a granted one returns the tokens that are left.  Spurious
    compare-exchange failures do not change the answer. *)
Theorem try_consume_decision (now size : Z) (weak : list bool) (l : BandwidthLimiter) :
  let available :=
    Z.min (saturating_add U64_MAX (tokens l)
             (tokens_to_add (rate_bytes_per_sec l) (elapsed now (last_update l)))) (max_tokens l) in
  try_consume now size weak l =
  if available <? size then (None, l)
  else (Some (available - size),
        mkLimiter (max_tokens l) (available - size) (rate_bytes_per_sec l) now).
Proof. unfold try_consume. rewrite consume_loop_eq. cbv zeta. by destruct (_ <? size). Qed.

(** The manager charges the global bucket before it asks the allocation's
    own: a packet the allocation's limiter refuses is still paid for globally
    (the total of relayed bytes is not touched). *)
Theorem refused_packet_charged_globally (now size g : Z) (addr : string) (w1 w2 : list bool)
    (m : BandwidthManager) (t : AllocationBandwidthTracker) (n : Z) (gl : BandwidthLimiter) :
  global_limit m = Some g → try_consume now size w1 (global_limiter m) = (Some n, gl) →
  trackers m !! addr = Some t → (AllocationBandwidthTracker_try_relay now size w2 t).1 = None →
  let '(ok, m') := BandwidthManager_try_relay now addr size w1 w2 m in
  ok = false ∧ total_bytes_relayed m' = total_bytes_relayed m ∧
  global_limiter m' = gl ∧ tokens (global_limiter m') = n.
Proof.
  intros Hg Hc Ht Hr. unfold BandwidthManager_try_relay. rewrite Hg, Hc, Ht. cbn [negb].
  rewrite bool_decide_eq_true_2 by eauto. cbn [negb].
  destruct (AllocationBandwidthTracker_try_relay now size w2 t) as [r t']. cbn in Hr. subst r.
  split_and!; [done..|]. cbn. unfold try_consume in Hc.
  destruct (consume_loop _ _ _ _ _); simplify_eq. done.
Qed.

Definition sample_manager : BandwidthManager :=
  mkManager {["r"%string := mkTracker "r" (BandwidthLimiter_new 0 10 100) (Some 10)]}
            (BandwidthLimiter_new 0 1000 10000) 0 (Some 1000).

Lemma refused_packet_charged_globally_witness :
  let '(ok, m') := BandwidthManager_try_relay 0 "r" 500 [] [] sample_manager in
  ok = false ∧ total_bytes_relayed m' = 0 ∧
  global_limiter m' = mkLimiter 10000 9500 1000 0 ∧ tokens (global_limiter m') = 9500.
Proof.
  apply (refused_packet_charged_globally 0 500 1000 "r" [] [] sample_manager
           (mkTracker "r" (BandwidthLimiter_new 0 10 100) (Some 10)) 9500 (mkLimiter 10000 9500 1000 0));
    vm_compute; reflexivity.
Defined.

(** [available_tokens] has no saturation: for an unlimited bucket it
    wraps after two seconds, so it reports almost nothing available while
    [try_consume] still grants the full burst. *)
Theorem available_tokens_wraps :
  let l := mkLimiter U64_MAX 2 (U64_MAX / 2) 0 in
  available_tokens (from_secs 2) l = 0 ∧
  (try_consume (from_secs 2) (U64_MAX / 2) [] l).1 = Some (U64_MAX / 2 + 1).
Proof. vm_compute. done. Qed.
