(* ===== verification/BandwidthRace.v ===== *)
(** * Concurrent callers of a token bucket (src/bandwidth.rs, [BandwidthLimiter])

    A limiter is shared by every task that relays.  [try_consume] takes no lock
    across its steps: it reads the clock, then [last_update], then the tokens,
    exchanges the tokens and, after that, writes the clock reading back to
    [last_update].  Here a call is a thread that makes one of these steps at a
    time, threads interleave in any order and time passes between steps.  The
    atomic operations act in one order, which the source's orderings give for
    the exchanges; a weaker load could only refuse more.

    Callers that overlap earn tokens for the same time more than once.  How
    often is exactly bounded: with [n] callers no instant is paid for more than
    [n * (n + 1) / 2] times. *)

From S2P Require Import Prelude RustStd Ports Bandwidth.
Local Open Scope Z_scope.

(** ** One thread *)

(** Where a call stands: before the read of [last_update], the load of the
    tokens, the exchange, the write of [last_update].  [now], [e] and [current]
    are the call's clock reading, elapsed time and view of the tokens. *)
Inductive stage :=
| Resting
| ReadUpdate (size now : Z)
| LoadTokens (size now e : Z)
| Exchange (size now e current : Z)
| WriteUpdate (now new_tokens : Z).

(** What a run shows: a charge, when an exchange succeeds, and a call's return. *)
Inductive bucket_event := Charged (size now e : Z) | Answered (r : option Z).

Definition put_tokens (t : Z) (l : BandwidthLimiter) : BandwidthLimiter :=
  mkLimiter (max_tokens l) t (rate_bytes_per_sec l) (last_update l).
Definition set_last_update (t : Z) (l : BandwidthLimiter) : BandwidthLimiter :=
  mkLimiter (max_tokens l) (tokens l) (rate_bytes_per_sec l) t.

Section steps.
Context (l : BandwidthLimiter).

(** [available]: what the loop compares with the size. *)
Definition available (e current : Z) : Z :=
  Z.min (saturating_add U64_MAX current (tokens_to_add (rate_bytes_per_sec l) e)) (max_tokens l).

(** The head of the loop, up to its exchange. *)
Definition loop_head (size now e current : Z) : stage * option bucket_event :=
  if available e current <? size then (Resting, Some (Answered None))
  else (Exchange size now e current, None).

(** One atomic operation and the code up to the next one. *)
Definition caller_step (spurious : bool) (c : stage) : option (stage * option bucket_event * BandwidthLimiter) :=
  match c with
  | Resting => None
  | ReadUpdate size now => Some (LoadTokens size now (elapsed now (last_update l)), None, l)
  | LoadTokens size now e => Some (loop_head size now e (tokens l), l)
  | Exchange size now e current =>
    if negb spurious && (tokens l =? current) then
      let new_tokens := available e current - size in
      Some (WriteUpdate now new_tokens, Some (Charged size now e), put_tokens new_tokens l)
    else Some (loop_head size now e (tokens l), l)
  | WriteUpdate now new_tokens => Some (Resting, Some (Answered (Some new_tokens)), set_last_update now l)
  end.
End steps.

(** One thread alone, with the spurious failures of its exchanges. *)
Definition is_exchange (c : stage) : bool := match c with Exchange _ _ _ _ => true | _ => false end.

Fixpoint call_alone (fuel : nat) (weak : list bool) (l : BandwidthLimiter) (st : stage * option bucket_event)
    : option (option Z * BandwidthLimiter) :=
  match st with
  | (_, Some (Answered r)) => Some (r, l)
  | (c, _) =>
    match fuel with
    | O => None
    | S fuel =>
      let '(spurious, weak) := if is_exchange c then weak_fails weak else (false, weak) in
      match caller_step l spurious c with
      | Some (st, l) => call_alone fuel weak l st
      | None => None
      end
    end
  end.

(** ** Many threads *)

Record BucketRace := mkBucketRace { clock : Z; bucket : BandwidthLimiter; callers : list stage }.

(** Time passes, an idle caller starts a call and reads the clock, or a caller
    takes its next step. *)
Inductive bucket_step : BucketRace → option bucket_event → BucketRace → Prop :=
| bucket_tick s d :
    0 ≤ d → bucket_step s None (mkBucketRace (clock s + d) (bucket s) (callers s))
| bucket_call s i size :
    callers s !! i = Some Resting → 0 ≤ size →
    bucket_step s None (mkBucketRace (clock s) (bucket s) (<[i := ReadUpdate size (clock s)]> (callers s)))
| bucket_run s i c spurious c' a l' :
    callers s !! i = Some c → caller_step (bucket s) spurious c = Some (c', a, l') →
    bucket_step s a (mkBucketRace (clock s) l' (<[i := c']> (callers s))).

(** The events of a run, in order. *)
Inductive bucket_reach (s0 : BucketRace) : list bucket_event → BucketRace → Prop :=
| bucket_reach_start : bucket_reach s0 [] s0
| bucket_reach_step es s a s' :
    bucket_reach s0 es s → bucket_step s a s' → bucket_reach s0 (es ++ option_list a) s'.

(** The same runs as a function, for the examples. *)
Inductive bucket_move := Wait (d : Z) | Begin (i : nat) (size : Z) | Go (i : nat) (spurious : bool).

Definition bucket_exec (s : BucketRace) (m : bucket_move) : option (option bucket_event * BucketRace) :=
  match m with
  | Wait d => if 0 <=? d then Some (None, mkBucketRace (clock s + d) (bucket s) (callers s)) else None
  | Begin i size =>
    match callers s !! i with
    | Some Resting => if 0 <=? size
                   then Some (None, mkBucketRace (clock s) (bucket s) (<[i := ReadUpdate size (clock s)]> (callers s)))
                   else None
    | _ => None
    end
  | Go i spurious =>
    c ← callers s !! i; '(c', a, l') ← caller_step (bucket s) spurious c;
    Some (a, mkBucketRace (clock s) l' (<[i := c']> (callers s)))
  end.

Fixpoint bucket_runs (s : BucketRace) (es : list bucket_event) (ms : list bucket_move) : option (list bucket_event * BucketRace) :=
  match ms with
  | [] => Some (es, s)
  | m :: ms => '(a, s') ← bucket_exec s m; bucket_runs s' (es ++ option_list a) ms
  end.

(** [n] callers that have not called yet. *)
Definition bucket_start (now : Z) (l : BandwidthLimiter) (n : nat) : BucketRace :=
  mkBucketRace now l (replicate n Resting).

(** ** Sums over lists *)

Fixpoint total {A} (f : A → Z) (l : list A) : Z :=
  match l with [] => 0 | x :: l => f x + total f l end.

(** The bytes charged and the time they were charged against. *)
Definition charged_bytes (e : bucket_event) : Z := match e with Charged size _ _ => size | _ => 0 end.
Definition charged_time (e : bucket_event) : Z := match e with Charged _ _ e => e | _ => 0 end.

Section total.
Context {A : Type}.
Implicit Types (f g : A → Z) (l : list A).

Lemma total_app f l1 l2 : total f (l1 ++ l2) = total f l1 + total f l2.
Proof. induction l1 as [|x l1 IH]; cbn; [done|]. rewrite IH. lia. Qed.

Lemma total_insert f l i x y :
  l !! i = Some x → total f (<[i := y]> l) = total f l - f x + f y.
Proof.
  revert i. induction l as [|z l IH]; intros [|i]; cbn; try done.
  - intros [= ->]. lia.
  - intros Hi. change (f z + total f (<[i:=y]> l) = f z + total f l - f x + f y). rewrite (IH i Hi). lia.
Qed.

Lemma total_le f g l : (∀ x, f x ≤ g x) → total f l ≤ total g l.
Proof. intros H. induction l as [|x l IH]; cbn; [done|]. specialize (H x). lia. Qed.

Lemma total_plus f g l : total (λ x, f x + g x) l = total f l + total g l.
Proof. induction l as [|x l IH]; cbn; [done|]. lia. Qed.

Lemma total_const (k : Z) l : total (λ _, k) l = k * Z.of_nat (length l).
Proof. induction l as [|x l IH]; cbn; [lia|]. rewrite IH. lia. Qed.

Lemma total_ext f g l : Forall (λ x, f x = g x) l → total f l = total g l.
Proof. induction 1 as [|x l Hx _ IH]; cbn; [done|]. by rewrite Hx, IH. Qed.

Lemma total_scale (k : Z) f l : total (λ x, k * f x) l = k * total f l.
Proof. induction l as [|x l IH]; cbn; lia. Qed.
End total.

Lemma total_swap {A B} (f : A → B → Z) (l1 : list A) (l2 : list B) :
  total (λ x, total (f x) l2) l1 = total (λ y, total (λ x, f x y) l1) l2.
Proof.
  induction l1 as [|x l1 IH]; cbn; [by rewrite total_const|]. rewrite IH.
  symmetry. apply (total_plus (f x)).
Qed.

(** ** Instants

    [covers τ e]: the charge [e] earned tokens for the nanosecond that ends at
    [τ].  An instant is worth so much: one for every charge that has covered it
    and for every caller that is about to. *)

Definition covers (τ : Z) (e : bucket_event) : Z :=
  match e with Charged _ now el => if (now - el <? τ) && (τ <=? now) then 1 else 0 | _ => 0 end.

(** A call that read the clock before [τ]: its write will set [last_update]
    back, and callers that start then earn the instant again. *)
Definition stale (τ : Z) (c : stage) : Z :=
  match c with
  | Resting => 0
  | ReadUpdate _ now | LoadTokens _ now _ | Exchange _ now _ _ | WriteUpdate now _ =>
    if now <? τ then 1 else 0
  end.

(** How often a caller can still cover [τ] before [last_update] is set back: once
    it has decided to, or, while [last_update] lies before [τ] ([open]), if it is
    not stale and not about to close. *)
Definition chances (τ : Z) (open : bool) (c : stage) : Z :=
  let may := if open then 1 else 0 in
  match c with
  | Resting => may
  | ReadUpdate _ now => if now <? τ then 0 else may
  | LoadTokens _ now el | Exchange _ now el _ =>
    if now <? τ then 0 else if now - el <? τ then 1 else may
  | WriteUpdate _ _ => 0
  end.

(** [n - a + 1] chances come back with the write of the last of [a] stale calls:
    twice the sum of these over [a], [a - 1], ..., 1. *)
Definition comebacks (n a : Z) : Z := a * (2 * n + 1 - a).

Definition worth (τ : Z) (es : list bucket_event) (s : BucketRace) : Z :=
  2 * total (covers τ) es + 2 * total (chances τ (last_update (bucket s) <? τ)) (callers s)
  + comebacks (Z.of_nat (length (callers s))) (total (stale τ) (callers s)).

(** ** What holds at all times *)

(** The times and the tokens a caller holds, in a run since [t0]. *)
Definition timely (t0 clk now e : Z) : Prop := 0 ≤ e ∧ t0 ≤ now - e ∧ now ≤ clk.
Definition caller_ok (t0 clk : Z) (l : BandwidthLimiter) (c : stage) : Prop :=
  match c with
  | Resting => True
  | ReadUpdate size now => 0 ≤ size ∧ t0 ≤ now ≤ clk
  | LoadTokens size now e => 0 ≤ size ∧ timely t0 clk now e
  | Exchange size now e current => 0 ≤ size ∧ timely t0 clk now e ∧ size ≤ available l e current
  | WriteUpdate now _ => t0 ≤ now ≤ clk
  end.
Definition bucket_event_ok (t0 clk : Z) (e : bucket_event) : Prop :=
  match e with Charged size now el => timely t0 clk now el | Answered _ => True end.

(** The tokens in the bucket [l] after the charges [es] came from the bucket
    [l0] or were earned. *)
Definition earned (rate : Z) (e : bucket_event) : Z :=
  match e with Charged _ _ el => tokens_to_add rate el | _ => 0 end.

Record bucket_ok (l0 : BandwidthLimiter) (es : list bucket_event) (s : BucketRace) : Prop := {
  ok_bucket : limiter_ok (bucket s);
  ok_rate : rate_bytes_per_sec (bucket s) = rate_bytes_per_sec l0;
  ok_max : max_tokens (bucket s) = max_tokens l0;
  ok_update : last_update l0 ≤ last_update (bucket s) ≤ clock s;
  ok_callers : Forall (caller_ok (last_update l0) (clock s) (bucket s)) (callers s);
  ok_events : Forall (bucket_event_ok (last_update l0) (clock s)) es;
  ok_tokens : tokens (bucket s) + total charged_bytes es
              ≤ tokens l0 + total (earned (rate_bytes_per_sec l0)) es
}.

(** ** Lemmas: the invariant *)

Lemma caller_ok_later t0 clk clk' l l' c :
  clk ≤ clk' → rate_bytes_per_sec l' = rate_bytes_per_sec l → max_tokens l' = max_tokens l →
  caller_ok t0 clk l c → caller_ok t0 clk' l' c.
Proof. unfold caller_ok, timely, available. intros ? -> ->. destruct c; lia. Qed.

Lemma bucket_event_ok_later t0 clk clk' e : clk ≤ clk' → bucket_event_ok t0 clk e → bucket_event_ok t0 clk' e.
Proof. unfold bucket_event_ok, timely. destruct e; lia. Qed.

Lemma loop_head_ok t0 clk l size now e current c a :
  0 ≤ size → timely t0 clk now e → loop_head l size now e current = (c, a) →
  caller_ok t0 clk l c ∧ from_option (bucket_event_ok t0 clk) True a.
Proof.
  unfold loop_head. intros Hs Ht. destruct (Z.ltb_spec (available l e current) size); intros [= <- <-]; [done|].
  by cbn.
Qed.

(** What a caller's step keeps: the shape of the bucket, its own knowledge and
    the balance of tokens. *)
Lemma caller_step_ok t0 clk l spurious c c' a l' :
  limiter_ok l → t0 ≤ last_update l ≤ clk → caller_ok t0 clk l c →
  caller_step l spurious c = Some (c', a, l') →
  limiter_ok l' ∧ rate_bytes_per_sec l' = rate_bytes_per_sec l ∧ max_tokens l' = max_tokens l ∧
  t0 ≤ last_update l' ≤ clk ∧ caller_ok t0 clk l' c' ∧ from_option (bucket_event_ok t0 clk) True a ∧
  tokens l' + from_option charged_bytes 0 a ≤ tokens l + from_option (earned (rate_bytes_per_sec l)) 0 a.
Proof.
  intros Hl Hu Hc. destruct c as [|size now|size now e|size now e current|now t]; cbn [caller_step]; [done| | | |].
  - intros [= <- <- <-]. cbn in Hc |- *. unfold timely, elapsed, saturating_sub.
    split_and!; (done || lia).
  - intros [= H <-]. destruct Hc as [Hs Ht].
    destruct (loop_head_ok _ _ _ _ _ _ _ _ _ Hs Ht H) as [H1 H2]. split_and!; try (done || lia).
    unfold loop_head in H. destruct (_ <? _); simplify_eq; cbn; lia.
  - destruct Hc as (Hs & Ht & Ha). destruct (negb spurious && _) eqn:E.
    + intros [= <- <- <-]. apply andb_true_iff in E as [_ E]. apply Z.eqb_eq in E as E. subst current.
      destruct Hl as (Hl1 & Hl2 & Hl3). unfold limiter_ok, put_tokens in *. cbn.
      destruct (tokens_to_add_bound (rate_bytes_per_sec l) e Hl3 (proj1 Ht)) as [Hadd _].
      revert Ha. unfold available, saturating_add. intros Ha. unfold timely in *. split_and!; lia.
    + intros [= H <-]. destruct (loop_head_ok _ _ _ _ _ _ _ _ _ Hs Ht H) as [H1 H2]. split_and!; try (done || lia).
      unfold loop_head in H. destruct (_ <? _); simplify_eq; cbn; lia.
  - intros [= <- <- <-]. cbn in Hc |- *. split_and!; (done || lia).
Qed.

Lemma bucket_step_ok l0 es s a s' :
  bucket_ok l0 es s → bucket_step s a s' → bucket_ok l0 (es ++ option_list a) s'.
Proof.
  intros [Hb Hr Hm Hu Hc He Ht] Hs.
  destruct Hs as [s d Hd|s i size Hi Hsz|s i c spurious c' a l' Hi Hstep]; cbn [option_list]; rewrite ?app_nil_r.
  - split; cbn; try (done || lia).
    + eapply Forall_impl; [exact Hc|]. intros c. apply caller_ok_later; [lia|done..].
    + eapply Forall_impl; [exact He|]. intros e. apply bucket_event_ok_later. lia.
  - split; cbn; try done. apply Forall_insert; [done|]. cbn. lia.
  - pose proof (Forall_lookup_1 _ _ _ _ Hc Hi) as Hci.
    destruct (caller_step_ok _ _ _ _ _ _ _ _ Hb Hu Hci Hstep) as (Hb' & Hr' & Hm' & Hu' & Hc' & Ha & Ht').
    split; cbn; try (done || congruence).
    + apply Forall_insert; [|done]. eapply Forall_impl; [exact Hc|]. intros d. apply caller_ok_later; [lia|done..].
    + apply list.Forall_app. split; [done|]. destruct a; cbn; [by repeat constructor|done].
    + rewrite !total_app, <- Hr. rewrite <- Hr in Ht. destruct a as [e|]; cbn in *; lia.
Qed.

Lemma bucket_reach_ok l0 now n es s :
  limiter_ok l0 → last_update l0 ≤ now → bucket_reach (bucket_start now l0 n) es s → bucket_ok l0 es s.
Proof.
  intros Hl Hn. induction 1 as [|es s a s' _ IH Hs]; [|by eapply bucket_step_ok].
  split; cbn; try (done || lia). by apply Forall_replicate.
Qed.

Lemma bucket_reach_callers now l0 n es s :
  bucket_reach (bucket_start now l0 n) es s → length (callers s) = n.
Proof.
  induction 1 as [|es s a s' _ IH Hs]; [apply length_replicate|].
  destruct Hs; cbn; by rewrite ?length_insert.
Qed.

(** ** Lemmas: no instant is paid for too often *)

Ltac instants := repeat match goal with
  | |- context [?x <? ?y] => destruct (Z.ltb_spec x y)
  | |- context [?x <=? ?y] => destruct (Z.leb_spec x y)
  end; cbn [andb].

Lemma chances_bound τ o c : 0 ≤ chances τ o c ∧ 0 ≤ stale τ c ∧ chances τ o c + stale τ c ≤ 1.
Proof. destruct c, o; cbn; instants; lia. Qed.

Lemma chances_open τ o c : chances τ false c ≤ chances τ o c.
Proof. destruct c, o; cbn; instants; lia. Qed.

Lemma totals_bound τ o cs :
  0 ≤ total (chances τ o) cs ∧ 0 ≤ total (stale τ) cs ∧
  total (chances τ o) cs + total (stale τ) cs ≤ Z.of_nat (length cs).
Proof.
  induction cs as [|c cs IH]; cbn [total length]; [lia|]. pose proof (chances_bound τ o c). lia.
Qed.

Lemma comebacks_last n a : comebacks n a - comebacks n (a - 1) = 2 * (n - a + 1).
Proof. unfold comebacks. lia. Qed.

(** Before the clock has reached an instant it is worth at most this. *)
Lemma worth_young l0 τ es s :
  bucket_ok l0 es s → clock s < τ → worth τ es s ≤ Z.of_nat (length (callers s)) * (Z.of_nat (length (callers s)) + 1).
Proof.
  intros [_ _ _ Hu _ He _] Hclk. unfold worth.
  rewrite (total_ext (covers τ) (λ _, 0)), total_const.
  2:{ eapply Forall_impl; [exact He|]. intros [size now el|r]; [|done]. unfold bucket_event_ok, timely. cbn. instants; lia. }
  pose proof (totals_bound τ (last_update (bucket s) <? τ) (callers s)) as (H1 & H2 & H3).
  unfold comebacks. set (n := Z.of_nat _) in *. set (a := total (stale τ) _) in *.
  assert (0 ≤ (n - a) * (n - a - 1)) by (destruct (Z.eq_dec n a); [lia|nia]). nia.
Qed.

Definition writing (c : stage) : bool := match c with WriteUpdate _ _ => true | _ => false end.

(** A step that is no write of [last_update]: a stale caller stays stale, or gives
    up; any other pays for what it covers with its chance. *)
Lemma caller_step_worth τ l spurious c c' a l' :
  writing c = false →
  caller_step l spurious c = Some (c', a, l') →
  let o := last_update l <? τ in
  last_update l' = last_update l ∧
  (stale τ c' = stale τ c ∧ from_option (covers τ) 0 a + chances τ o c' ≤ chances τ o c ∨
   stale τ c = 1 ∧ stale τ c' = 0 ∧ from_option (covers τ) 0 a = 0 ∧ chances τ o c' ≤ 1 ∧ chances τ o c = 0).
Proof.
  intros Hw. destruct c as [|size now|size now e|size now e current|now t]; cbn [caller_step]; try done.
  - intros [= <- <- <-]. cbn. unfold elapsed, saturating_sub. split; [done|]. instants; lia.
  - unfold loop_head. destruct (available l e (tokens l) <? size); intros [= <- <- <-]; cbn;
      (split; [done|]); instants; lia.
  - destruct (negb spurious && _); [|unfold loop_head; destruct (available l e (tokens l) <? size)];
      intros [= <- <- <-]; cbn; (split; [done|]); instants; lia.
Qed.

Lemma worth_step l0 τ es s a s' :
  bucket_ok l0 es s → τ ≤ clock s → bucket_step s a s' → worth τ (es ++ option_list a) s' ≤ worth τ es s.
Proof.
  intros Hok Hclk Hs. unfold worth.
  destruct Hs as [s d Hd|s i size Hi Hsz|s i c spurious c' a l' Hi Hstep];
    cbn [option_list clock bucket callers]; rewrite ?app_nil_r, ?length_insert, ?total_app;
    [done|rewrite (total_insert (chances τ _) _ _ _ _ Hi), (total_insert (stale τ) _ _ _ _ Hi); cbn [stale chances];
      destruct (Z.ltb_spec (clock s) τ); rewrite ?Z.sub_0_r, ?Z.add_0_r; lia|].
  rewrite (total_insert (chances τ _) _ _ _ _ Hi), (total_insert (stale τ) _ _ _ _ Hi).
  assert (Ha : total (covers τ) (option_list a) = from_option (covers τ) 0 a) by (destruct a; cbn; lia).
  rewrite Ha. clear Ha. set (cs := callers s) in *. set (n := Z.of_nat (length cs)).
  pose proof (totals_bound τ (last_update (bucket s) <? τ) cs) as (Hp & Ha0 & Hsum).
  pose proof (totals_bound τ true cs) as (_ & _ & Hsum').
  pose proof (comebacks_last n (total (stale τ) cs)) as Hlast.
  destruct (writing c) eqn:Hw.
  - destruct c as [| | | |now t]; try done. cbn in Hstep. injection Hstep as <- <- <-. cbn [stale from_option covers set_last_update last_update].
    pose proof (total_le (chances τ false) (chances τ (last_update (bucket s) <? τ)) cs (chances_open τ _)) as Hle.
    destruct (Z.ltb_spec now τ); cbn [chances]; rewrite ?Z.sub_0_r, ?Z.add_0_r; lia.
  - destruct (caller_step_worth τ (bucket s) spurious c c' a l') as [Hu Hcase]; [done|done|].
    rewrite Hu. destruct Hcase as [(Hst & Hch)|(Hst & Hst' & Hcov & Hch & Hch0)].
    + rewrite Hst. replace (total (stale τ) cs - stale τ c + stale τ c) with (total (stale τ) cs) by lia. lia.
    + rewrite Hst, Hst', Hcov. replace (total (stale τ) cs - 1 + 0) with (total (stale τ) cs - 1) by lia. lia.
Qed.

Lemma worth_bound l0 now n τ es s :
  limiter_ok l0 → last_update l0 ≤ now → bucket_reach (bucket_start now l0 n) es s →
  worth τ es s ≤ Z.of_nat n * (Z.of_nat n + 1).
Proof.
  intros Hl Hn Hr. rewrite <- (bucket_reach_callers _ _ _ _ _ Hr). revert Hr.
  induction 1 as [|es s a s' Hr IH Hs].
  - destruct (Z.lt_ge_cases now τ) as [Hy|Hy].
    + eapply worth_young; [|exact Hy]. eapply bucket_reach_ok; [done..|constructor].
    + unfold worth. pose proof (totals_bound τ (last_update l0 <? τ) (replicate n Resting)) as (H1 & H2 & H3).
      cbn [bucket_start callers bucket total] in *. unfold comebacks. set (m := Z.of_nat _) in *.
      set (a := total (stale τ) _) in *. assert (0 ≤ (m - a) * (m - a - 1)) by (destruct (Z.eq_dec m a); [lia|nia]). nia.
  - pose proof (bucket_reach_ok _ _ _ _ _ Hl Hn Hr) as Hok. pose proof (bucket_step_ok _ _ _ _ _ Hok Hs) as Hok'.
    destruct (Z.lt_ge_cases (clock s) τ) as [Hy|Hy].
    + destruct (Z.lt_ge_cases (clock s') τ) as [Hy'|Hy']; [by eapply worth_young|].
      destruct Hs; cbn in *; [|lia..]. rewrite app_nil_r. apply IH.
    + assert (length (callers s') = length (callers s)) as ->.
      { destruct Hs; cbn; by rewrite ?length_insert. }
      etransitivity; [by eapply worth_step|exact IH].
Qed.

(** An instant is covered by its charges, and a charge by its instants. *)
Lemma interval_sum t x y (m : nat) :
  t ≤ x → x ≤ y →
  total (λ τ, if (x <? τ) && (τ <=? y) then 1 else 0) (seqZ (t + 1) (Z.of_nat m)) =
  Z.max 0 (Z.min y (t + Z.of_nat m) - x).
Proof.
  intros Hx Hy. induction m as [|m IH]; [rewrite seqZ_nil by lia; cbn [total]; lia|].
  rewrite seqZ_S, total_app, IH. cbn [total]. instants; lia.
Qed.

Lemma charge_covers t0 clk e :
  t0 ≤ clk → bucket_event_ok t0 clk e → total (λ τ, covers τ e) (seqZ (t0 + 1) (clk - t0)) = charged_time e.
Proof.
  intros Hc. destruct e as [size now el|r]; cbn; [|by rewrite total_const].
  unfold timely. intros Ht. rewrite <- (Z2Nat.id (clk - t0)), interval_sum by lia. lia.
Qed.

Lemma charged_time_bound t0 clk (k : Z) es :
  t0 ≤ clk → Forall (bucket_event_ok t0 clk) es → (∀ τ, total (covers τ) es ≤ k) →
  total charged_time es ≤ k * (clk - t0).
Proof.
  intros Hc He Hk.
  rewrite (total_ext _ (λ e, total (λ τ, covers τ e) (seqZ (t0 + 1) (clk - t0)))).
  2:{ eapply Forall_impl; [exact He|]. intros e ?. symmetry. by apply charge_covers. }
  rewrite total_swap. etransitivity; [apply (total_le _ (λ _, k)); intros τ; apply Hk|].
  rewrite total_const, length_seqZ, Z2Nat.id by lia. done.
Qed.

Lemma earned_bound rate t0 clk es :
  0 ≤ rate ≤ U64_MAX → Forall (bucket_event_ok t0 clk) es →
  total (earned rate) es * NANOS ≤ rate * total charged_time es.
Proof.
  intros Hr. induction 1 as [|e es He _ IH]; cbn [total]; [lia|].
  destruct e as [size now el|r]; cbn [earned charged_time]; [|lia].
  destruct (tokens_to_add_bound rate el Hr (proj1 He)) as [_ Hadd]. lia.
Qed.

(** ** Lemmas: a call alone *)

Lemma alone_step fuel weak weak' l sp c st l' :
  (if is_exchange c then weak_fails weak else (false, weak)) = (sp, weak') →
  caller_step l sp c = Some (st, l') → call_alone (S fuel) weak l (c, None) = call_alone fuel weak' l' st.
Proof. intros Hw Hs. cbn [call_alone]. by rewrite Hw, Hs. Qed.

Lemma alone_exchange weak size now e l fuel :
  (length weak + 2 ≤ fuel)%nat →
  call_alone fuel weak l (loop_head l size now e (tokens l)) =
  Some (match consume_loop (max_tokens l) (tokens_to_add (rate_bytes_per_sec l) e) size (tokens l) weak with
        | Some t => (Some t, mkLimiter (max_tokens l) t (rate_bytes_per_sec l) now)
        | None => (None, l)
        end).
Proof.
  revert fuel. induction weak as [|b weak IH]; intros fuel Hf; unfold loop_head; cbn [consume_loop];
    fold (available l e (tokens l)); destruct (available l e (tokens l) <? size) eqn:E;
    try (by destruct fuel); destruct fuel as [|[|fuel]]; cbn in Hf; try lia.
  - erewrite alone_step; [|done|cbn; by rewrite Z.eqb_refl]. by destruct fuel.
  - destruct b.
    + erewrite alone_step; [|done|done]. apply IH. lia.
    + erewrite alone_step; [|done|cbn; by rewrite Z.eqb_refl]. by destruct fuel.
Qed.

(** ** Properties *)

(** C32. The bucket under concurrent callers: in every interleaving of [n]
    callers, retried exchanges and late writes included, no instant is charged
    against more than [n * (n + 1) / 2] times, so the bytes let through are at
    most the tokens there were plus so many times the rate times the time that
    passed, and the bucket stays between empty and full.  For one caller this is
    the conformance of the token bucket. *)
Theorem concurrent_bucket_bound (now : Z) (l : BandwidthLimiter) (n : nat) (es : list bucket_event) (s : BucketRace) :
  limiter_ok l → last_update l ≤ now → bucket_reach (bucket_start now l n) es s →
  let k := Z.of_nat n * (Z.of_nat n + 1) / 2 in
  limiter_ok (bucket s) ∧ (∀ τ, total (covers τ) es ≤ k) ∧
  total charged_bytes es * NANOS ≤
    tokens l * NANOS + rate_bytes_per_sec l * (k * (clock s - last_update l)).
Proof.
  intros Hl Hn Hr k. pose proof (bucket_reach_ok _ _ _ _ _ Hl Hn Hr) as [Hb _ _ Hu _ He Ht].
  assert (Hk : ∀ τ, total (covers τ) es ≤ k).
  { intros τ. apply Z.div_le_lower_bound; [lia|]. pose proof (worth_bound _ _ _ τ _ _ Hl Hn Hr) as Hw.
    unfold worth, comebacks in Hw. rewrite (bucket_reach_callers _ _ _ _ _ Hr) in Hw.
    pose proof (totals_bound τ (last_update (bucket s) <? τ) (callers s)) as (H1 & H2 & H3).
    rewrite (bucket_reach_callers _ _ _ _ _ Hr) in H3. nia. }
  split; [done|]. split; [done|].
  destruct Hl as (_ & _ & Hrate). pose proof (charged_time_bound (last_update l) (clock s) k es ltac:(lia) He Hk) as Htime.
  pose proof (earned_bound _ _ _ _ Hrate He) as Hearn. destruct Hb as (Htok & _). unfold NANOS in *. nia.
Qed.

(** Two callers on an empty bucket of 1000 bytes a second.  Both are between
    their exchange and their write when a second passes: each write sets
    [last_update] back, and 3000 bytes pass in that second. *)
Definition empty_bucket : BandwidthLimiter := mkLimiter 5000 0 1000 0.
Definition triple_pay : list bucket_move :=
  let go i := [Go i false; Go i false; Go i false] in
  [Begin 0 0; Begin 1 0] ++ go 0%nat ++ go 1%nat ++ [Wait 1000000000; Go 0 false]
  ++ [Begin 0 1000] ++ go 0%nat ++ [Go 0 false; Go 1 false]
  ++ [Begin 0 1000; Begin 1 1000; Go 0 false; Go 1 false] ++ [Go 0 false; Go 0 false; Go 1 false; Go 1 false].

Lemma bucket_exec_sound s m a s' : bucket_exec s m = Some (a, s') → bucket_step s a s'.
Proof.
  destruct m as [d|i size|i sp]; cbn.
  - destruct (Z.leb_spec 0 d); [|done]. intros [= <- <-]. by constructor.
  - destruct (callers s !! i) as [[]|] eqn:E; try done. destruct (Z.leb_spec 0 size); [|done].
    intros [= <- <-]. by constructor.
  - destruct (callers s !! i) as [c|] eqn:E; [|done]. cbn.
    destruct (caller_step (bucket s) sp c) as [[[c' a'] l']|] eqn:Et; [|done]. cbn.
    intros [= <- <-]. by econstructor.
Qed.

Lemma bucket_runs_sound s0 s es ms es' s' :
  bucket_reach s0 es s → bucket_runs s es ms = Some (es', s') → bucket_reach s0 es' s'.
Proof.
  revert s es. induction ms as [|m ms IH]; cbn; intros s es Hr; [by intros [= <- <-]|].
  destruct (bucket_exec s m) as [[a s1]|] eqn:E; [|done]. cbn. apply IH.
  econstructor; [done|by eapply bucket_exec_sound].
Qed.

Definition triple_paid : list bucket_event * BucketRace :=
  default ([], bucket_start 0 empty_bucket 2) (bucket_runs (bucket_start 0 empty_bucket 2) [] triple_pay).

Lemma concurrent_bucket_bound_witness :
  total charged_bytes (fst triple_paid) * NANOS ≤ 0 * NANOS + 1000 * (3 * (1000000000 - 0)).
Proof.
  apply (concurrent_bucket_bound 0 empty_bucket 2 (fst triple_paid) (snd triple_paid)).
  - vm_compute. intuition congruence.
  - done.
  - apply (bucket_runs_sound (bucket_start 0 empty_bucket 2) (bucket_start 0 empty_bucket 2) [] triple_pay).
    + constructor.
    + vm_compute. reflexivity.
Defined.

(** The bound is reached: two callers get three times the rate out of an empty
    bucket, where one caller after the other gets at most the rate. *)
Theorem overlapping_callers_overpay :
  bucket_reach (bucket_start 0 empty_bucket 2) (fst triple_paid) (snd triple_paid) ∧
  clock (snd triple_paid) = 1000000000 ∧
  total charged_bytes (fst triple_paid) * NANOS
  = 0 * NANOS + 1000 * (3 * (clock (snd triple_paid) - last_update empty_bucket)).
Proof.
  split; [|vm_compute; done].
  apply (bucket_runs_sound _ (bucket_start 0 empty_bucket 2) [] triple_pay); [constructor|]. vm_compute. reflexivity.
Qed.

(** A call that nothing interleaves with is the one-step [try_consume]: the same
    answer and the same bucket, for every schedule of spurious failures. *)
Theorem alone_is_try_consume (now size : Z) (weak : list bool) (l : BandwidthLimiter) (fuel : nat) :
  (length weak + 4 ≤ fuel)%nat →
  call_alone fuel weak l (ReadUpdate size now, None) = Some (try_consume now size weak l).
Proof.
  intros Hf. destruct fuel as [|[|fuel]]; [lia..|]. erewrite alone_step; [|done|done].
  erewrite alone_step; [|done|done]. rewrite alone_exchange by lia. unfold try_consume.
  by destruct (consume_loop _ _ _ _ _).
Qed.

Lemma alone_is_try_consume_witness :
  call_alone 6 [true; false] empty_bucket (ReadUpdate 700 1000000000, None)
  = Some (try_consume 1000000000 700 [true; false] empty_bucket).
Proof. apply (alone_is_try_consume 1000000000 700 [true; false] empty_bucket 6). cbn. lia. Defined.
