(* ===== verification/Auth.v ===== *)
(** * Users and access control (src/auth.rs)

    The user table, the API keys and the IP access rules.  [now] is the Unix
    time in seconds the call reads. *)

From S2P Require Import Prelude RustStd.
From Stdlib Require Import Ascii.
Local Open Scope Z_scope.

Inductive UserType := Temporary | Fixed | ApiKey.
Inductive AclAction := Allow | Deny.

#[global] Instance UserType_eq_dec : EqDecision UserType.
Proof. solve_decision. Defined.
#[global] Instance AclAction_eq_dec : EqDecision AclAction.
Proof. solve_decision. Defined.

Record User := mkUser {
  username : string;
  password : string;
  user_type : UserType;
  user_created_at : Z;
  expires_at : option Z;
  max_allocations : Z;
  bandwidth_limit : option Z;
  ip_whitelist : option (list string);
  user_max_allocation_duration_secs : option Z
}.

Record AclRule := mkRule { ip_range : string; action : AclAction; priority : Z }.

#[global] Instance User_eq_dec : EqDecision User.
Proof. solve_decision. Defined.
#[global] Instance AclRule_eq_dec : EqDecision AclRule.
Proof. solve_decision. Defined.

Record AuthManager := mkAuth {
  users : gmap string User;
  api_keys : gmap string string;
  acl_rules : list AclRule;
  auth_realm : string
}.

Definition AuthManager_new (realm : string) : AuthManager := mkAuth ∅ ∅ [] realm.

Definition add_user (u : User) (am : AuthManager) : AuthManager :=
  mkAuth (<[username u := u]> (users am)) (api_keys am) (acl_rules am) (auth_realm am).

Definition load_from_config (us : list User) (keys : gmap string string) (rules : list AclRule)
    (am : AuthManager) : AuthManager :=
  let users' := fold_left (λ m u, <[username u := u]> m) us (users am) in
  mkAuth users' keys rules (auth_realm am).

Definition authenticate (now : Z) (am : AuthManager) (name pw : string) : option User :=
  match users am !! name with
  | Some user =>
    if str_eqb (password user) pw then
      match expires_at user with
      | Some expires => if expires <? now then None else Some user
      | None => Some user
      end
    else None
  | None => None
  end.

Definition authenticate_api_key (am : AuthManager) (key : string) : option string :=
  api_keys am !! key.

Definition not32 (x : Z) : Z := Z.lxor x U32_MAX.

(** [p.parse::<u8>().unwrap_or(0)] *)
Definition octet (p : string) : Z :=
  match parse_uint U8_MAX p with Some v => v | None => 0 end.

Definition quad (p : list Z) : Z :=
  Z.lor (Z.lor (Z.lor (as_u32 (Z.shiftl (byte_at p 0) 24)) (as_u32 (Z.shiftl (byte_at p 1) 16)))
               (as_u32 (Z.shiftl (byte_at p 2) 8))) (byte_at p 3).

Definition ip_matches_subnet (ip base : string) (mask : Z) : bool :=
  if mask =? 0 then true else
  let ip_parts := map octet (split_on "."%char ip) in
  let base_parts := map octet (split_on "."%char base) in
  if negb (Nat.eqb (length ip_parts) 4) || negb (Nat.eqb (length base_parts) 4) then false else
  let ip_int := quad ip_parts in
  let base_int := quad base_parts in
  let mask_int := if 32 <=? mask then 0xFFFFFFFF
                  else not32 (as_u32 (Z.shiftl 1 (32 - mask)) - 1) in
  Z.land ip_int mask_int =? Z.land base_int mask_int.

Definition ip_in_range (ip range : string) : bool :=
  if str_contains "/"%char range then
    match split_on "/"%char range with
    | [base_ip; m] =>
      let mask := match parse_uint U32_MAX m with Some v => v | None => 32 end in
      ip_matches_subnet ip base_ip mask
    | _ => false
    end
  else str_eqb ip range.

Fixpoint check_rules (rules : list AclRule) (ip : string) : bool :=
  match rules with
  | [] => true
  | rule :: rules =>
    if ip_in_range ip (ip_range rule) then bool_decide (action rule = Allow)
    else check_rules rules ip
  end.
Definition check_acl (am : AuthManager) (ip : string) : bool := check_rules (acl_rules am) ip.

Definition remove_user (name : string) (am : AuthManager) : AuthManager :=
  mkAuth (delete name (users am)) (api_keys am) (acl_rules am) (auth_realm am).

Definition list_users `{HashOrder} (am : AuthManager) : list User :=
  map snd (hash_iter (users am)).

(** [b.priority.cmp(&a.priority)] puts the larger priority first. *)
Definition rule_leb (a b : AclRule) : bool := priority b <=? priority a.

Definition add_acl_rule (r : AclRule) (am : AuthManager) : AuthManager :=
  mkAuth (users am) (api_keys am) (sort_by rule_leb (acl_rules am ++ [r])) (auth_realm am).

Definition list_acl_rules (am : AuthManager) : list AclRule := acl_rules am.

Definition remove_acl_rule (range : string) (prio : Z) (am : AuthManager) : AuthManager :=
  mkAuth (users am) (api_keys am)
    (List.filter (λ r, negb (str_eqb (ip_range r) range && (priority r =? prio))) (acl_rules am))
    (auth_realm am).

Definition get_user_password (now : Z) (am : AuthManager) (name : string) : option string :=
  user ← users am !! name;
  match expires_at user with
  | Some expires => if expires <? now then None else Some (password user)
  | None => Some (password user)
  end.

(** ** Lemmas *)

Definition user_live (now : Z) (u : User) : Prop :=
  match expires_at u with Some e => now ≤ e | None => True end.

Definition rules_sorted (am : AuthManager) : Prop :=
  StronglySorted (λ a b, rule_leb a b = true) (acl_rules am).

Definition ipv4_u32 (a : Ipv4Addr) : Z := be32 (oct0 a) (oct1 a) (oct2 a) (oct3 a).

Lemma rule_leb_trans a b c : rule_leb a b = true → rule_leb b c = true → rule_leb a c = true.
Proof. unfold rule_leb. rewrite !Z.leb_le. lia. Qed.
Lemma rule_leb_total a b : rule_leb a b = true ∨ rule_leb b a = true.
Proof. unfold rule_leb. rewrite !Z.leb_le. lia. Qed.

Lemma authenticate_iff now am name pw u :
  authenticate now am name pw = Some u ↔
  users am !! name = Some u ∧ password u = pw ∧ user_live now u.
Proof.
  unfold authenticate, user_live. split.
  - intros H. repeat split_match; simplify_eq;
      match goal with E : str_eqb _ _ = true |- _ => apply str_eqb_eq in E end; bool_to_prop; auto.
  - intros (-> & <- & Hl). unfold str_eqb. rewrite bool_decide_eq_true_2 by done.
    destruct (expires_at u); [|done]. by destruct (Z.ltb_spec z now); [lia|].
Qed.

Lemma get_user_password_iff now am name pw :
  get_user_password now am name = Some pw ↔
  ∃ u, users am !! name = Some u ∧ password u = pw ∧ user_live now u.
Proof.
  unfold get_user_password, user_live. destruct (users am !! name) as [u|]; cbn; [|naive_solver].
  destruct (expires_at u) as [e|] eqn:E.
  - destruct (Z.ltb_spec e now); split.
    + done.
    + intros (u' & [= <-] & _ & Hl). rewrite E in Hl. lia.
    + intros [= <-]. exists u. by rewrite E.
    + by intros (u' & [= <-] & <- & _).
  - split; [intros [= <-]; exists u; by rewrite E|by intros (u' & [= <-] & <- & _)].
Qed.

(** Dotted quads. *)
Lemma split_ipv4 a :
  split_on "."%char (ipv4_string a) =
  [dec_string (oct0 a); dec_string (oct1 a); dec_string (oct2 a); dec_string (oct3 a)].
Proof.
  unfold ipv4_string. rewrite !str_app_cons, !str_app_nil.
  rewrite !split_on_app by (by apply dec_string_contains).
  by rewrite split_on_none by (by apply dec_string_contains).
Qed.

Lemma octet_dec n : in_u8 n → octet (dec_string n) = n.
Proof. intros. unfold octet. rewrite parse_uint_dec; [done|unfold_words; lia..]. Qed.

Lemma lor_disjoint_add x y k : 0 ≤ k → 0 ≤ y < 2 ^ k → Z.lor (x * 2 ^ k) y = x * 2 ^ k + y.
Proof.
  intros Hk Hy. symmetry. apply Z.add_nocarry_lor. rewrite <- Z.shiftl_mul_pow2 by done.
  apply Z.bits_inj'. intros n Hn. rewrite Z.land_spec, Z.shiftl_spec, Z.bits_0 by done.
  destruct (Z.ltb_spec n k).
  - rewrite (Z.testbit_neg_r x) by lia. done.
  - rewrite <- (Z.mod_small y (2 ^ k)) by done.
    rewrite Z.mod_pow2_bits_high by lia. apply andb_false_r.
Qed.

Lemma quad_be32 a b c d :
  in_u8 a → in_u8 b → in_u8 c → in_u8 d → quad [a; b; c; d] = be32 a b c d.
Proof.
  intros Ha Hb Hc Hd. unfold quad, byte_at, as_u32, wrap, be32. cbn [nth]. unfold_words.
  rewrite !Z.shiftl_mul_pow2 by lia.
  rewrite (Z.mod_small (a * _)), (Z.mod_small (b * _)), (Z.mod_small (c * _)) by lia.
  rewrite (lor_disjoint_add a (b * 2 ^ 16) 24) by lia.
  replace (a * 2 ^ 24 + b * 2 ^ 16) with ((a * 2 ^ 8 + b) * 2 ^ 16) by lia.
  rewrite (lor_disjoint_add (a * 2 ^ 8 + b) (c * 2 ^ 8) 16) by lia.
  replace ((a * 2 ^ 8 + b) * 2 ^ 16 + c * 2 ^ 8) with (((a * 2 ^ 8 + b) * 2 ^ 8 + c) * 2 ^ 8) by lia.
  rewrite (lor_disjoint_add _ d 8) by lia. lia.
Qed.

Lemma ipv4_u32_range a : ipv4_ok a → in_u32 (ipv4_u32 a).
Proof. unfold ipv4_ok, ipv4_u32, be32. unfold_words. lia. Qed.

(** Masking with the complement of the [k] low bits drops exactly those bits. *)
Lemma land_not_low x k :
  in_u32 x → 0 ≤ k ≤ 32 → Z.land x (not32 (2 ^ k - 1)) = x / 2 ^ k * 2 ^ k.
Proof.
  intros Hx Hk. replace (2 ^ k - 1) with (Z.ones k) by (rewrite Z.ones_equiv; lia).
  replace (x / 2 ^ k * 2 ^ k) with (Z.ldiff x (Z.ones k))
    by (rewrite Z.ldiff_ones_r, Z.shiftl_mul_pow2, Z.shiftr_div_pow2 by lia; done).
  unfold not32. replace U32_MAX with (Z.ones 32) by done.
  apply Z.bits_inj'. intros n Hn. rewrite Z.land_spec, Z.lxor_spec, Z.ldiff_spec.
  rewrite !Z.testbit_ones by lia.
  destruct (Z.ltb_spec n 32) as [|H32].
  - destruct (Z.leb_spec 0 n); [|lia]. cbn. by destruct (n <? k).
  - replace (Z.testbit x n) with false; [done|]. symmetry.
    rewrite <- (Z.mod_small x (2 ^ 32)) by (unfold_words; lia). apply Z.mod_pow2_bits_high. lia.
Qed.

(** The host part of a printed quad and the mask length decide the match. *)
Lemma ip_matches_subnet_spec a b m :
  ipv4_ok a → ipv4_ok b → 0 ≤ m ≤ 32 →
  ip_matches_subnet (ipv4_string a) (ipv4_string b) m =
  bool_decide (ipv4_u32 a / 2 ^ (32 - m) = ipv4_u32 b / 2 ^ (32 - m)).
Proof.
  intros Ha Hb Hm. pose proof (ipv4_u32_range a Ha) as Ra. pose proof (ipv4_u32_range b Hb) as Rb.
  unfold ip_matches_subnet. destruct (Z.eqb_spec m 0) as [-> |Hm0].
  { symmetry. apply bool_decide_eq_true_2. unfold_words.
    rewrite !Z.div_small by lia. done. }
  rewrite !split_ipv4. cbn [map length Nat.eqb negb orb].
  destruct Ha as (A0 & A1 & A2 & A3), Hb as (B0 & B1 & B2 & B3).
  rewrite !octet_dec, !quad_be32 by done. fold (ipv4_u32 a). fold (ipv4_u32 b).
  assert (E : (if 32 <=? m then 0xFFFFFFFF else not32 (as_u32 (Z.shiftl 1 (32 - m)) - 1))
            = not32 (2 ^ (32 - m) - 1)).
  { destruct (Z.leb_spec 32 m); [by replace m with 32 by lia|].
    rewrite Z.shiftl_mul_pow2 by lia. unfold as_u32, wrap.
    rewrite Z.mod_small; [f_equal; lia|].
    split; [lia|]. rewrite Z.mul_1_l. apply Z.pow_lt_mono_r; lia. }
  rewrite E, !land_not_low by (done || lia).
  apply eq_true_iff_eq. rewrite Z.eqb_eq, bool_decide_eq_true.
  assert (0 < 2 ^ (32 - m)) by (apply Z.pow_pos_nonneg; lia). split; [nia|congruence].
Qed.

Lemma dec_no_slash n : str_contains "/"%char (dec_string n) = false.
Proof. by apply dec_string_contains. Qed.

Lemma ipv4_no_slash a : str_contains "/"%char (ipv4_string a) = false.
Proof. unfold ipv4_string. by rewrite !str_contains_app, !dec_no_slash. Qed.

Lemma ip_in_range_cidr a b m :
  ipv4_ok a → ipv4_ok b → 0 ≤ m ≤ 32 →
  ip_in_range (ipv4_string a) (ipv4_string b +:+ "/" +:+ dec_string m) =
  bool_decide (ipv4_u32 a / 2 ^ (32 - m) = ipv4_u32 b / 2 ^ (32 - m)).
Proof.
  intros Ha Hb Hm. unfold ip_in_range. rewrite !str_contains_app.
  replace (str_contains "/"%char "/") with true by done.
  rewrite orb_true_l, orb_true_r. rewrite str_app_cons, str_app_nil.
  rewrite split_on_app by apply ipv4_no_slash.
  rewrite split_on_none by apply dec_no_slash.
  rewrite parse_uint_dec by lia. by apply ip_matches_subnet_spec.
Qed.

(** Rule lists in priority order. *)
Lemma insert_by_head x l :
  Forall (λ y, rule_leb x y = true) l → insert_by rule_leb x l = x :: l.
Proof. intros [|y k E _]; [done|]. cbn. by rewrite E. Qed.

Lemma Forall_filter_bool {A} (P : A → Prop) f (l : list A) : Forall P l → Forall P (List.filter f l).
Proof. induction 1; cbn; [done|]. case_match; [by constructor|done]. Qed.

Lemma filter_bool_none {A} (f : A → bool) (l : list A) :
  Forall (λ x, f x = false) l → List.filter f l = [].
Proof. induction 1 as [|x l E _ IH]; cbn; [done|]. by rewrite E. Qed.

Lemma sort_by_snoc l r :
  StronglySorted (λ a b, rule_leb a b = true) l →
  sort_by rule_leb (l ++ [r]) =
  List.filter (λ x, priority r <=? priority x) l ++ [r] ++
  List.filter (λ x, priority x <? priority r) l.
Proof.
  induction 1 as [|x l Hs IH Hx]; [done|]. cbn [app sort_by]. rewrite IH. clear IH. cbn [List.filter].
  destruct (Z.leb_spec (priority r) (priority x)).
  - destruct (Z.ltb_spec (priority x) (priority r)); [lia|]. cbn [app].
    apply insert_by_head. rewrite list.Forall_app, list.Forall_cons.
    split; [by apply Forall_filter_bool|]. split; [by apply Z.leb_le|by apply Forall_filter_bool].
  - destruct (Z.ltb_spec (priority x) (priority r)); [|lia].
    rewrite (filter_bool_none (λ y, priority r <=? priority y)).
    + cbn [app insert_by]. unfold rule_leb at 1.
      destruct (Z.leb_spec (priority r) (priority x)); [lia|].
      f_equal. by apply insert_by_head, Forall_filter_bool.
    + eapply Forall_impl; [exact Hx|]. cbn. unfold rule_leb. intros y.
      rewrite Z.leb_le, Z.leb_gt. lia.
Qed.

Lemma check_rules_skip l1 l2 ip :
  Forall (λ x, ip_in_range ip (ip_range x) = false) l1 →
  check_rules (l1 ++ l2) ip = check_rules l2 ip.
Proof. induction 1 as [|x l E _ IH]; cbn; [done|]. by rewrite E. Qed.

(** In a sorted rule list a matching rule that outranks every other matching
    rule decides. *)
Lemma check_rules_top l r ip :
  StronglySorted (λ a b, rule_leb a b = true) l → r ∈ l →
  ip_in_range ip (ip_range r) = true →
  Forall (λ x, ip_in_range ip (ip_range x) = true → x = r ∨ priority x < priority r) l →
  check_rules l ip = bool_decide (action r = Allow).
Proof.
  intros Hs Hr Hm Hu. induction Hs as [|x l _ IH Hx]; [set_solver|].
  cbn. apply list.Forall_cons in Hu as [Hxu Hu].
  destruct (ip_in_range ip (ip_range x)) eqn:E.
  - destruct (Hxu eq_refl) as [-> |Hlt]; [done|].
    apply elem_of_cons in Hr as [-> |Hr]; [lia|]. rewrite list.Forall_forall in Hx.
    specialize (Hx r Hr). unfold rule_leb in Hx. rewrite Z.leb_le in Hx. lia.
  - apply elem_of_cons in Hr as [-> |Hr]; [congruence|]. by apply IH.
Qed.

Lemma add_acl_rule_sorted r am : rules_sorted (add_acl_rule r am).
Proof. apply sort_by_sorted; [apply rule_leb_trans|apply rule_leb_total]. Qed.

Lemma remove_acl_rule_sorted range p am : rules_sorted am → rules_sorted (remove_acl_rule range p am).
Proof.
  unfold rules_sorted, remove_acl_rule. cbn. induction 1 as [|x l _ IH Hx]; cbn; [constructor|].
  case_match; [|done]. constructor; [done|]. by apply Forall_filter_bool.
Qed.

(** ** Properties *)

(** Subnet rules match exactly by network prefix: a printed IPv4 address
    is in the range [base/m] if and only if the leading [m] bits of the two
    32-bit addresses agree, for every [m] from 0 to 32. *)
Theorem acl_subnet_prefix a b m :
  ipv4_ok a → ipv4_ok b → 0 ≤ m ≤ 32 →
  ip_in_range (ipv4_string a) (ipv4_string b +:+ "/" +:+ dec_string m) = true ↔
  ipv4_u32 a / 2 ^ (32 - m) = ipv4_u32 b / 2 ^ (32 - m).
Proof. intros. rewrite ip_in_range_cidr by done. apply bool_decide_eq_true. Qed.

Lemma acl_subnet_prefix_witness :
  ip_in_range "192.168.7.9" "192.168.0.0/16" = true ∧
  ip_in_range "192.169.7.9" "192.168.0.0/16" = false.
Proof.
  split.
  - apply (acl_subnet_prefix (mkIpv4 192 168 7 9) (mkIpv4 192 168 0 0) 16);
      [unfold ipv4_ok; unfold_words; cbn; lia..|reflexivity].
  - vm_compute. reflexivity.
Defined.

(** Rules added at run time are kept by falling priority, a new rule
    after the ones of its own priority, so the matching rule that outranks
    every other matching rule decides whether an address is let in. *)
Theorem acl_highest_priority_decides am r ip :
  rules_sorted am →
  ip_in_range ip (ip_range r) = true →
  Forall (λ x, ip_in_range ip (ip_range x) = true → priority x < priority r) (acl_rules am) →
  acl_rules (add_acl_rule r am) =
    List.filter (λ x, priority r <=? priority x) (acl_rules am) ++ [r] ++
    List.filter (λ x, priority x <? priority r) (acl_rules am) ∧
  rules_sorted (add_acl_rule r am) ∧
  check_acl (add_acl_rule r am) ip = bool_decide (action r = Allow).
Proof.
  intros Hs Hm Hu. split; [by apply sort_by_snoc|]. split; [apply add_acl_rule_sorted|].
  apply (check_rules_top _ r); [apply add_acl_rule_sorted| |done|]; cbn; rewrite sort_by_perm.
  - set_solver.
  - rewrite list.Forall_app. split; [eapply Forall_impl; [exact Hu|]; cbn; auto|].
    constructor; [by left|constructor].
Qed.

Lemma acl_highest_priority_decides_witness :
  check_acl (add_acl_rule (mkRule "10.0.0.5" Deny 9)
    (mkAuth ∅ ∅ [mkRule "10.0.0.0/8" Allow 5] "r")) "10.0.0.5" = false.
Proof.
  apply (acl_highest_priority_decides (mkAuth ∅ ∅ [mkRule "10.0.0.0/8" Allow 5] "r")
           (mkRule "10.0.0.5" Deny 9) "10.0.0.5").
  - repeat constructor.
  - reflexivity.
  - repeat constructor.
Defined.

(** Rules loaded from the configuration are not put in priority order: a
    low-priority rule that comes first in the file overrides a high-priority
    one, and only a later [add_acl_rule] sorts the list. *)
Theorem acl_config_order_unsorted :
  let low := mkRule "0.0.0.0/0" Allow 1 in
  let high := mkRule "10.0.0.0/8" Deny 100 in
  let am := load_from_config [] ∅ [low; high] (AuthManager_new "r") in
  check_acl am "10.1.2.3" = true ∧
  check_acl (add_acl_rule (mkRule "192.0.2.1" Deny 0) am) "10.1.2.3" = false.
Proof. vm_compute. done. Qed.

(** A password is accepted exactly when the user is in the table, it is
    the stored password and the account has not expired; the key derivation
    sees a password under exactly the same conditions. *)
Theorem authenticate_exact now am name pw :
  (is_Some (authenticate now am name pw) ↔ get_user_password now am name = Some pw) ∧
  (get_user_password now am name = Some pw ↔
   ∃ u, users am !! name = Some u ∧ password u = pw ∧ user_live now u).
Proof.
  split; [|apply get_user_password_iff]. rewrite get_user_password_iff.
  split; [intros [u Hu]; exists u; by apply authenticate_iff in Hu|].
  intros [u Hu]. exists u. by apply authenticate_iff.
Qed.
