(* ===== verification/Alloc.v ===== *)
(** * The allocation table (src/allocation.rs)

    Allocations keyed by relayed address, with the port allocator, the
    statistics, the bandwidth trackers, the client transports and the relay
    tasks.  The table is proved against the [PortPool] interface of the port
    allocator.

    Inputs the program takes from outside are arguments: clock readings,
    the draws of [port_rand], the results of [UdpSocket::bind] and of the
    socket sends.  Datagrams handed to a socket are returned as [Packet]s. *)

From S2P Require Import Prelude RustStd StunMessage Errors Ports Channels Bandwidth.
Local Open Scope Z_scope.

(** ** Client transports *)

(** The implementations of the [ClientPacketSender] trait; a socket is named
    by its local address, a stream by its connection. *)
Inductive ClientPacketSender :=
| UdpClientPacketSender (socket : SocketAddr)
| StreamClientPacketSender (conn : Z)
| DtlsClientPacketSender (conn : Z).

#[global] Instance ClientPacketSender_eq_dec : EqDecision ClientPacketSender.
Proof. solve_decision. Defined.

Inductive Packet :=
| ToPeer (socket peer : SocketAddr) (data : list Z)
| ToClient (sender : ClientPacketSender) (client : SocketAddr) (data : list Z).

#[global] Instance Packet_eq_dec : EqDecision Packet.
Proof. solve_decision. Defined.

Record ClientTransportRegistry := mkRegistry {
  default_sender : option ClientPacketSender;
  client_senders : gmap SocketAddr ClientPacketSender
}.

Definition ClientTransportRegistry_default : ClientTransportRegistry := mkRegistry None ∅.

(** [io] is what the chosen sender's own send returns. *)
Definition send_to_client (io : result Z string) (data : list Z) (client : SocketAddr)
    (r : ClientTransportRegistry) : result Z string * list Packet :=
  match client_senders r !! client with
  | Some sender => (io, [ToClient sender client data])
  | None =>
    match default_sender r with
    | Some sender => (io, [ToClient sender client data])
    | None => (Err "no client packet sender registered"%string, [])
    end
  end.

Definition register_client (client : SocketAddr) (s : ClientPacketSender)
    (r : ClientTransportRegistry) : ClientTransportRegistry :=
  mkRegistry (default_sender r) (<[client := s]> (client_senders r)).
Definition unregister_client (client : SocketAddr) (r : ClientTransportRegistry)
    : ClientTransportRegistry :=
  mkRegistry (default_sender r) (delete client (client_senders r)).
Definition set_default_sender (s : ClientPacketSender) (r : ClientTransportRegistry)
    : ClientTransportRegistry :=
  mkRegistry (Some s) (client_senders r).

(** ** Allocations *)

Inductive AllocationMessage :=
| PeerData (data : list Z) (peer : SocketAddr)
| ClientData (data : list Z) (peer : SocketAddr)
| ChannelData (data : list Z) (channel_num : Z)
| RefreshMsg (lifetime : Z)
| Shutdown.

(** The relay socket, by its bind address, and the handle of the task. *)
Record AllocationRelay := mkRelay { socket : SocketAddr; task_handle : Z }.

Record Allocation := mkAlloc {
  alloc_id : list Z;
  relayed_addr : SocketAddr;
  client_addr : SocketAddr;
  created_at : Z;
  lifetime : Z;
  five_tuple : SocketAddr * SocketAddr;
  relay : option AllocationRelay;
  permissions : gset IpAddr;
  bytes_forwarded : Z;
  messages_forwarded : Z
}.

Definition Allocation_new (now : Z) (id : list Z) (relayed client : SocketAddr) (life : Z)
    (src dst : SocketAddr) : Allocation :=
  mkAlloc id relayed client now life (src, dst) None ∅ 0 0.

Definition with_relay (now : Z) (id : list Z) (relayed client : SocketAddr) (life : Z)
    (src dst : SocketAddr) (r : AllocationRelay) : Allocation :=
  mkAlloc id relayed client now life (src, dst) (Some r) ∅ 0 0.

Definition Allocation_is_expired (now : Z) (a : Allocation) : bool :=
  lifetime a <? elapsed now (created_at a).

Definition Allocation_remaining_lifetime (now : Z) (a : Allocation) : Z :=
  let elapsed := elapsed now (created_at a) in
  if lifetime a <=? elapsed then 0 else as_u32 (as_secs (lifetime a - elapsed)).

Record ServerStats := mkStats {
  total_allocations : Z;
  active_allocations : Z;
  stats_bytes_relayed : Z;
  total_messages : Z
}.

Definition ServerStats_default : ServerStats := mkStats 0 0 0 0.
Definition ServerStats_snapshot (s : ServerStats) : Z * Z * Z * Z :=
  (total_allocations s, active_allocations s, stats_bytes_relayed s, total_messages s).

(** [fetch_add] and [fetch_sub] on the [AtomicU64] counters wrap. *)
Definition count_created (s : ServerStats) : ServerStats :=
  mkStats (as_u64 (total_allocations s + 1)) (as_u64 (active_allocations s + 1))
          (stats_bytes_relayed s) (total_messages s).
Definition count_removed (n : Z) (s : ServerStats) : ServerStats :=
  mkStats (total_allocations s) (as_u64 (active_allocations s - n))
          (stats_bytes_relayed s) (total_messages s).
Definition count_relayed (n : Z) (s : ServerStats) : ServerStats :=
  mkStats (total_allocations s) (active_allocations s)
          (as_u64 (stats_bytes_relayed s + n)) (as_u64 (total_messages s + 1)).

(** What the spawned task captures. *)
Record RelayTask := mkTask {
  task_client : SocketAddr;
  task_bind_addr : SocketAddr;
  task_relayed : SocketAddr
}.

(** The table; [tasks] and [next_task] are the runtime's set of running
    relay tasks and its next handle.  The two fields of the record that the
    source keeps under a leading underscore are never read and are left out. *)
Record AllocationTable {P : Type} := mkTable {
  allocations : gmap SocketAddr Allocation;
  port_allocator : P;
  bind_addr : Ipv4Addr;
  external_addr : Ipv4Addr;
  table_realm : string;
  stats : ServerStats;
  max_concurrent_allocations : option Z;
  max_allocation_duration_secs : option Z;
  bandwidth_manager : BandwidthManager;
  main_socket : option SocketAddr;
  client_transports : ClientTransportRegistry;
  tasks : gmap Z RelayTask;
  next_task : Z
}.
#[global] Arguments AllocationTable P : clear implicits.

Definition with_port_range_and_bind_addr (now : Z) (external bind : Ipv4Addr) (realm : string)
    (min_port max_port : Z) (max_conc max_dur : option Z) : AllocationTable PortAllocator :=
  mkTable PortAllocator ∅ (PortAllocator_new min_port max_port) bind external realm ServerStats_default
    max_conc max_dur (BandwidthManager_new now None) None ClientTransportRegistry_default ∅ 0.

Definition with_limits_and_bind_addr (now : Z) (external bind : Ipv4Addr) (realm : string)
    (max_conc max_dur : option Z) : AllocationTable PortAllocator :=
  mkTable PortAllocator ∅ (PortAllocator_new 49152 65535) bind external realm ServerStats_default
    max_conc max_dur (BandwidthManager_new now None) None ClientTransportRegistry_default ∅ 0.

Definition with_port_range (now : Z) (addr : Ipv4Addr) (realm : string) (min_port max_port : Z)
    (max_conc max_dur : option Z) : AllocationTable PortAllocator :=
  with_port_range_and_bind_addr now addr addr realm min_port max_port max_conc max_dur.
Definition with_limits (now : Z) (addr : Ipv4Addr) (realm : string) (max_conc max_dur : option Z)
    : AllocationTable PortAllocator :=
  with_limits_and_bind_addr now addr addr realm max_conc max_dur.
Definition with_bind_addr (now : Z) (external bind : Ipv4Addr) (realm : string)
    : AllocationTable PortAllocator :=
  with_limits_and_bind_addr now external bind realm None None.
Definition AllocationTable_new (now : Z) (addr : Ipv4Addr) (realm : string)
    : AllocationTable PortAllocator :=
  with_limits now addr realm None None.

Definition port_stats (t : AllocationTable PortAllocator) : Z * Z :=
  (PortAllocator_allocated_count (port_allocator t), PortAllocator_available_count (port_allocator t)).

(** [getrandom]: a linear congruential generator over the nanosecond clock. *)
Fixpoint getrandom_from (n : nat) (seed : Z) : list Z :=
  match n with
  | O => []
  | S n =>
    let seed := as_u64 (as_u64 (seed * 1103515245) + 12345) in
    as_u8 (Z.shiftr seed 16) :: getrandom_from n seed
  end.
Definition getrandom (n : nat) (nanos : Z) : list Z := getrandom_from n (as_u64 nanos).

(** ** Operations of the table *)

(** The environment of one pass through the bind loop: the two draws and the
    spurious failures of the port allocator, the result of the bind, and the
    spurious failures of the release that follows a failed bind. *)
Record BindAttempt := mkAttempt {
  draw1 : Z;
  draw2 : Z;
  alloc_weak : list bool;
  bind_result : result unit string;
  release_weak : list bool
}.
Record CreateEnv := mkCreateEnv {
  bind_attempts : nat → BindAttempt;
  id_nanos : Z;
  tracker_now : Z;
  create_now : Z
}.

Definition MAX_ATTEMPTS : nat := 100.

Section table.
Context {P : Type} `{PP : PortPool P} `{HO : HashOrder}.

Implicit Types t : AllocationTable P.

Definition set_allocations (m : gmap SocketAddr Allocation) t : AllocationTable P :=
  mkTable P m (port_allocator t) (bind_addr t) (external_addr t) (table_realm t) (stats t)
    (max_concurrent_allocations t) (max_allocation_duration_secs t) (bandwidth_manager t)
    (main_socket t) (client_transports t) (tasks t) (next_task t).
Definition set_ports (p : P) t : AllocationTable P :=
  mkTable P (allocations t) p (bind_addr t) (external_addr t) (table_realm t) (stats t)
    (max_concurrent_allocations t) (max_allocation_duration_secs t) (bandwidth_manager t)
    (main_socket t) (client_transports t) (tasks t) (next_task t).
Definition set_stats (s : ServerStats) t : AllocationTable P :=
  mkTable P (allocations t) (port_allocator t) (bind_addr t) (external_addr t) (table_realm t) s
    (max_concurrent_allocations t) (max_allocation_duration_secs t) (bandwidth_manager t)
    (main_socket t) (client_transports t) (tasks t) (next_task t).
Definition set_bandwidth (b : BandwidthManager) t : AllocationTable P :=
  mkTable P (allocations t) (port_allocator t) (bind_addr t) (external_addr t) (table_realm t) (stats t)
    (max_concurrent_allocations t) (max_allocation_duration_secs t) b
    (main_socket t) (client_transports t) (tasks t) (next_task t).
Definition set_transports (s : option SocketAddr) (r : ClientTransportRegistry) t : AllocationTable P :=
  mkTable P (allocations t) (port_allocator t) (bind_addr t) (external_addr t) (table_realm t) (stats t)
    (max_concurrent_allocations t) (max_allocation_duration_secs t) (bandwidth_manager t)
    s r (tasks t) (next_task t).
Definition set_tasks (m : gmap Z RelayTask) (n : Z) t : AllocationTable P :=
  mkTable P (allocations t) (port_allocator t) (bind_addr t) (external_addr t) (table_realm t) (stats t)
    (max_concurrent_allocations t) (max_allocation_duration_secs t) (bandwidth_manager t)
    (main_socket t) (client_transports t) m n.

Definition set_main_socket (s : SocketAddr) t : AllocationTable P :=
  set_transports (Some s) (set_default_sender (UdpClientPacketSender s) (client_transports t)) t.
Definition register_client_sender (client : SocketAddr) (s : ClientPacketSender) t : AllocationTable P :=
  set_transports (main_socket t) (register_client client s (client_transports t)) t.
Definition unregister_client_sender (client : SocketAddr) t : AllocationTable P :=
  set_transports (main_socket t) (unregister_client client (client_transports t)) t.

Definition effective_lifetime (requested : option Z) t : Z :=
  let secs := match requested with Some l => l | None => 600 end in
  match max_allocation_duration_secs t with
  | Some max => if max <? secs then max else secs
  | None => secs
  end.

(** The bind loop: [left] attempts of [MAX_ATTEMPTS] remain. *)
Fixpoint bind_loop (env : nat → BindAttempt) (bind : Ipv4Addr) (left : nat)
    (last : option (SocketAddr * string)) (p : P) : outcome (result Z Error * P) :=
  match left with
  | O =>
    Ret (match last with
         | Some (addr, source) => Err (RelayBindFailed addr source)
         | None => Err RelayPortExhausted
         end, p)
  | S left' =>
    let a := env (MAX_ATTEMPTS - left)%nat in
    '(port, p) ← pool_allocate (draw1 a) (draw2 a) (alloc_weak a) p;
    match port with
    | None => Ret (Err RelayPortExhausted, p)
    | Some port =>
      match bind_result a with
      | Ok _ => Ret (Ok port, p)
      | Err e =>
        let '(_, p) := pool_release (release_weak a) port p in
        bind_loop env bind left' (Some (SaV4 bind port, e)) p
      end
    end
  end.

(** [spawn_allocation_task] starts a task and returns its handle. *)
Definition spawn_allocation_task (client relay_bind relayed : SocketAddr) t
    : AllocationRelay * AllocationTable P :=
  (mkRelay relay_bind (next_task t),
   set_tasks (<[next_task t := mkTask client relay_bind relayed]> (tasks t)) (next_task t + 1) t).

Definition quota_reached t : bool :=
  match max_concurrent_allocations t with
  | Some max => max <=? active_allocations (stats t)
  | None => false
  end.

(** What follows a successful bind of [port]. *)
Definition install_allocation (env : CreateEnv) (client : SocketAddr) (life port : Z) t
    : Allocation * AllocationTable P :=
  let relay_bind := SaV4 (bind_addr t) port in
  let relayed := SaV4 (external_addr t) port in
  let id := getrandom 12 (id_nanos env) in
  let t := match main_socket t with
           | None => set_transports None (set_default_sender (UdpClientPacketSender relay_bind)
                                            (client_transports t)) t
           | Some _ => t
           end in
  let '(r, t) := spawn_allocation_task client relay_bind relayed t in
  let a := with_relay (create_now env) id relayed client life client relayed r in
  let t := set_allocations (<[relayed := a]> (allocations t)) t in
  let t := set_stats (count_created (stats t)) t in
  (a, set_bandwidth (register_allocation (tracker_now env) (sa_string relayed) None
                       (bandwidth_manager t)) t).

Definition create_allocation (env : CreateEnv) (client : SocketAddr) (requested : option Z) t
    : outcome (result Allocation Error * AllocationTable P) :=
  if quota_reached t then Ret (Err Errors.AllocationQuotaReached, t) else
  let life := from_secs (effective_lifetime requested t) in
  '(r, p) ← bind_loop (bind_attempts env) (bind_addr t) MAX_ATTEMPTS None (port_allocator t);
  let t := set_ports p t in
  match r with
  | Err e => Ret (Err e, t)
  | Ok port => let '(a, t) := install_allocation env client life port t in Ret (Ok a, t)
  end.

Definition get_allocation t (relayed : SocketAddr) : option Allocation := allocations t !! relayed.

(** Aborting the task, returning the port and dropping the tracker: the steps
    [remove_allocation] and [cleanup_expired] share. *)
Definition release_resources (weak : list bool) (addr : SocketAddr) (a : Allocation) t
    : AllocationTable P :=
  let t := match relay a with
           | Some r => set_tasks (delete (task_handle r) (tasks t)) (next_task t) t
           | None => t
           end in
  let t := set_ports (pool_release weak (sa_port addr) (port_allocator t)).2 t in
  set_bandwidth (unregister_allocation (sa_string addr) (bandwidth_manager t)) t.

Definition forget_channels (addr : SocketAddr) (ch : option ChannelTable) : option ChannelTable :=
  match ch with Some c => Some (remove_for_relayed addr c).2 | None => None end.

Definition remove_allocation (weak : list bool) (addr : SocketAddr) (ch : option ChannelTable) t
    : option Allocation * option ChannelTable * AllocationTable P :=
  match allocations t !! addr with
  | None => (None, ch, t)
  | Some a =>
    let t := set_allocations (delete addr (allocations t)) t in
    let t := release_resources weak addr a t in
    (Some a, forget_channels addr ch, set_stats (count_removed 1 (stats t)) t)
  end.

Definition set_lifetime (life : Z) (a : Allocation) : Allocation :=
  mkAlloc (alloc_id a) (relayed_addr a) (client_addr a) (created_at a) life (five_tuple a)
    (relay a) (permissions a) (bytes_forwarded a) (messages_forwarded a).

Definition refresh_allocation (addr : SocketAddr) (secs : Z) t
    : result unit Error * AllocationTable P :=
  match allocations t !! addr with
  | Some a => (Ok tt, set_allocations (<[addr := set_lifetime (from_secs secs) a]> (allocations t)) t)
  | None => (Err Errors.NotFound, t)
  end.

(** The first allocation of the client in iteration order. *)
Definition entry_by_client t (client : SocketAddr) : option (SocketAddr * Allocation) :=
  find_first (λ '(_, a), bool_decide (client_addr a = client)) (hash_iter (allocations t)).

Definition find_allocation_by_client t (client : SocketAddr) : option SocketAddr :=
  '(_, a) ← entry_by_client t client; Some (relayed_addr a).

Definition get_allocation_by_client t (client : SocketAddr) : option Allocation :=
  '(_, a) ← entry_by_client t client; Some a.

Definition permit (ips : list IpAddr) (a : Allocation) : Allocation :=
  mkAlloc (alloc_id a) (relayed_addr a) (client_addr a) (created_at a) (lifetime a) (five_tuple a)
    (relay a) (fold_left (λ s ip, {[ip]} ∪ s) ips (permissions a))
    (bytes_forwarded a) (messages_forwarded a).

Definition add_permissions (client : SocketAddr) (peers : list SocketAddr) t
    : bool * AllocationTable P :=
  match entry_by_client t client with
  | Some (k, a) => (true, set_allocations (<[k := permit (map sa_ip peers) a]> (allocations t)) t)
  | None => (false, t)
  end.

Definition check_permission t (client peer : SocketAddr) : bool :=
  match entry_by_client t client with
  | Some (_, a) => bool_decide (sa_ip peer ∈ permissions a)
  | None => false
  end.

Definition count_forwarded (n : Z) (a : Allocation) : Allocation :=
  mkAlloc (alloc_id a) (relayed_addr a) (client_addr a) (created_at a) (lifetime a) (five_tuple a)
    (relay a) (permissions a) (as_u64 (bytes_forwarded a + n)) (as_u64 (messages_forwarded a + 1)).

(** [io] is the result of [send_to] on the relay socket. *)
Definition send_to_peer (io : result Z string) (client peer : SocketAddr) (data : list Z) t
    : option unit * list Packet * AllocationTable P :=
  match entry_by_client t client with
  | None => (None, [], t)
  | Some (k, a) =>
    if negb (bool_decide (sa_ip peer ∈ permissions a)) then (None, [], t) else
    match relay a with
    | None => (None, [], t)
    | Some r =>
      let sent := [ToPeer (socket r) peer data] in
      match io with
      | Err _ => (None, sent, t)
      | Ok _ =>
        let n := Z.of_nat (length data) in
        let t := set_stats (count_relayed n (stats t)) t in
        (Some tt, sent, set_allocations (<[k := count_forwarded n a]> (allocations t)) t)
      end
    end
  end.

Definition relay_to_peer (addr : SocketAddr) (data : list Z) t
    : result SocketAddr Error * AllocationTable P :=
  match allocations t !! addr with
  | Some a => (Ok (client_addr a), set_stats (count_relayed (Z.of_nat (length data)) (stats t)) t)
  | None => (Err NoAllocation, t)
  end.

Definition peer_to_relay (peer : SocketAddr) t : result SocketAddr Error * AllocationTable P :=
  match find_first (λ '(_, a), bool_decide ((five_tuple a).2 = peer)) (hash_iter (allocations t)) with
  | Some (_, a) => (Ok (relayed_addr a), set_stats (count_relayed 1 (stats t)) t)
  | None => (Err Errors.NotFound, t)
  end.

(** [cleanup_expired]: the keys of the expired entries are collected first,
    then each is removed. *)
Definition expired_keys (now : Z) t : list SocketAddr :=
  map fst (filter (λ e, Allocation_is_expired now e.2 = true) (hash_iter (allocations t))).

Fixpoint drop_expired (weak : list bool) (keys : list SocketAddr) (ch : option ChannelTable) (count : Z) t
    : Z * option ChannelTable * AllocationTable P :=
  match keys with
  | [] => (count, ch, t)
  | addr :: keys =>
    match allocations t !! addr with
    | Some a =>
      let t := set_allocations (delete addr (allocations t)) t in
      drop_expired weak keys (forget_channels addr ch) (count + 1) (release_resources weak addr a t)
    | None => drop_expired weak keys ch count t
    end
  end.

Definition cleanup_expired (now : Z) (weak : list bool) (ch : option ChannelTable) t
    : Z * option ChannelTable * AllocationTable P :=
  let '(count, ch, t) := drop_expired weak (expired_keys now t) ch 0 t in
  let t := if 0 <? count then set_stats (count_removed count (stats t)) t else t in
  (count, ch, t).
End table.

(** ** The relay task *)

Definition build_data_indication (nanos : Z) (peer : SocketAddr) (payload : list Z) : list Z :=
  let tid := getrandom 12 nanos in
  Message_encode (mkMsg (mkHeader Data Indication 0 0x2112A442 tid)
    [mkAttr PEER_ADDRESS (encode_xor_address peer 0x2112A442 tid); mkAttr DATA payload]).

Definition normalize_peer_addr_for_client (peer relay_bind relayed : SocketAddr) : SocketAddr :=
  if bool_decide (sa_ip peer = sa_ip relay_bind) && negb (bool_decide (sa_ip relay_bind = sa_ip relayed))
  then sa_new (sa_ip relayed) (sa_port peer)
  else peer.

Definition channel_data_frame (ch_num : Z) (data : list Z) : list Z :=
  let data_len := as_u16 (Z.of_nat (length data)) in
  [as_u8 (Z.shiftr ch_num 8); as_u8 (Z.land ch_num 0xFF);
   as_u8 (Z.shiftr data_len 8); as_u8 (Z.land data_len 0xFF)] ++ data.

(** What one turn of the task's [select!] sees: a datagram or an error on the
    relay socket, a message from the server, or both branches closed. *)
Inductive TaskEvent :=
| SocketRecv (r : result (list Z * SocketAddr) string)
| TaskMessage (m : AllocationMessage)
| TaskClosed.

Inductive TaskControl := Continue | Break.

Section relay_task.
Context `{HO : HashOrder}.

(** [nanos] is the clock the transaction id of a Data indication comes from,
    [io] the result of the send to the client. *)
Definition relay_peer_data (nanos : Z) (io : result Z string) (data : list Z) (peer : SocketAddr)
    (task : RelayTask) (reg : ClientTransportRegistry) (ch : ChannelTable) : list Packet :=
  let effective := normalize_peer_addr_for_client peer (task_bind_addr task) (task_relayed task) in
  let payload := match get_by_peer_for_relayed ch (task_relayed task) effective with
                 | Some n => channel_data_frame n data
                 | None => build_data_indication nanos effective data
                 end in
  (send_to_client io payload (task_client task) reg).2.

Definition relay_task_step (nanos : Z) (io : result Z string) (ev : TaskEvent) (task : RelayTask)
    (reg : ClientTransportRegistry) (ch : ChannelTable) (s : ServerStats)
    : TaskControl * ServerStats * list Packet :=
  match ev with
  | SocketRecv (Ok (data, peer)) =>
    (Continue, count_relayed (Z.of_nat (length data)) s, relay_peer_data nanos io data peer task reg ch)
  | SocketRecv (Err _) => (Break, s, [])
  | TaskMessage (ClientData data peer) => (Continue, s, [ToPeer (task_bind_addr task) peer data])
  | TaskMessage (ChannelData data _) => (Continue, s, (send_to_client io data (task_client task) reg).2)
  | TaskMessage Shutdown => (Break, s, [])
  | TaskMessage _ => (Continue, s, [])
  | TaskClosed => (Break, s, [])
  end.
End relay_task.

(** ** The table invariant

    An allocation sits under its own relayed address on the external
    interface, its port is taken in the pool, its tracker is registered, and
    the task behind its handle, as long as it runs, was spawned for it with
    its addresses; no two allocations share a handle; and nothing is left
    over: no port, tracker or running task without its allocation.  (A task
    ends by itself when its socket fails.) *)

Section inv.
Context {P : Type} `{PP : PortPool P}.
Implicit Types t : AllocationTable P.

Definition entry_ok t (k : SocketAddr) (a : Allocation) : Prop :=
  ∃ p h, k = SaV4 (external_addr t) p ∧ in_u16 p ∧
    relayed_addr a = k ∧ five_tuple a = (client_addr a, k) ∧
    relay a = Some (mkRelay (SaV4 (bind_addr t) p) h) ∧ h < next_task t ∧
    ∀ task, tasks t !! h = Some task → task = mkTask (client_addr a) (SaV4 (bind_addr t) p) k.

Record table_core t : Prop := {
  tc_pool : pool_ok (port_allocator t);
  tc_range : 0 ≤ (pool_range (port_allocator t)).1 ∧ (pool_range (port_allocator t)).2 ≤ 65535;
  tc_entry : ∀ k a, allocations t !! k = Some a → entry_ok t k a;
  tc_port : ∀ p, p ∈ pool_ports (port_allocator t) ↔ is_Some (allocations t !! SaV4 (external_addr t) p);
  tc_track : ∀ s, is_Some (trackers (bandwidth_manager t) !! s) ↔
                  ∃ k, is_Some (allocations t !! k) ∧ s = sa_string k;
  tc_task : ∀ h task, tasks t !! h = Some task →
            ∃ a r, allocations t !! task_relayed task = Some a ∧ relay a = Some r ∧ task_handle r = h;
  tc_handle : ∀ k1 a1 r1 k2 a2 r2,
    allocations t !! k1 = Some a1 → relay a1 = Some r1 →
    allocations t !! k2 = Some a2 → relay a2 = Some r2 → task_handle r1 = task_handle r2 → k1 = k2
}.

Definition table_ok t : Prop :=
  table_core t ∧ active_allocations (stats t) = Z.of_nat (size (allocations t)).

(** What an update in place keeps. *)
Definition same_identity (a b : Allocation) : Prop :=
  relayed_addr a = relayed_addr b ∧ client_addr a = client_addr b ∧
  five_tuple a = five_tuple b ∧ relay a = relay b.

Lemma core_stats s t : table_core t → table_core (set_stats s t).
Proof. by intros []. Qed.
Lemma core_transports m r t : table_core t → table_core (set_transports m r t).
Proof. by intros []. Qed.

Lemma core_update t k a b :
  table_core t → allocations t !! k = Some a → same_identity a b →
  table_core (set_allocations (<[k := b]> (allocations t)) t).
Proof.
  intros [Hp Hr He Hq Ht Hk Hf] Ha (I1 & I2 & I3 & I4).
  assert (Hsome : ∀ k', is_Some (<[k := b]> (allocations t) !! k') ↔ is_Some (allocations t !! k')).
  { intros k'. destruct (decide (k' = k)) as [-> |];
      [rewrite lookup_insert_eq, Ha|by rewrite lookup_insert_ne]. naive_solver. }
  split; cbn [set_allocations allocations port_allocator external_addr bandwidth_manager tasks next_task];
    [done|done| | | | |].
  - intros k' a' [[<- <-]|[_ Hl]]%lookup_insert_Some; [|by apply He].
    destruct (He k a Ha) as (p & h & ? & ? & ? & ? & ? & ? & ?). exists p, h. by rewrite <- I1, <- I2, <- I3, <- I4.
  - intros p. by rewrite Hsome.
  - intros s. rewrite Ht. by setoid_rewrite Hsome.
  - intros h task Hl. destruct (Hk h task Hl) as (a' & r & Ha' & ? & ?).
    destruct (decide (task_relayed task = k)) as [E|].
    + exists b, r. rewrite E in *. split_and!; [by rewrite lookup_insert_eq|congruence|done].
    + exists a', r. by rewrite lookup_insert_ne.
  - assert (Hback : ∀ k' a' r', <[k := b]> (allocations t) !! k' = Some a' → relay a' = Some r' →
      ∃ a0, allocations t !! k' = Some a0 ∧ relay a0 = Some r').
    { intros k' a' r' [[<- <-]|[_ Hl]]%lookup_insert_Some Hr'; [exists a; by rewrite I4|eauto]. }
    intros k1 a1 r1 k2 a2 r2 H1 R1 H2 R2. destruct (Hback _ _ _ H1 R1) as (? & ? & ?).
    destruct (Hback _ _ _ H2 R2) as (? & ? & ?). by eapply Hf.
Qed.

Lemma size_update t k a b :
  allocations t !! k = Some a → size (<[k := b]> (allocations t)) = size (allocations t).
Proof. intros Ha. rewrite map_size_insert_Some; [done|by eexists]. Qed.

Lemma ok_update t s k a b :
  table_ok t → allocations t !! k = Some a → same_identity a b →
  active_allocations s = active_allocations (stats t) →
  table_ok (set_allocations (<[k := b]> (allocations t)) (set_stats s t)).
Proof.
  intros [Hc Hn] Ha Hi Hs. split.
  - apply (core_update (set_stats s t) k a b); [by apply core_stats|done|done].
  - cbn. by rewrite (size_update t k a b Ha), Hs.
Qed.

(** The number of allocations is far from the width of the counter. *)
Lemma table_size_below t (n : Z) :
  table_core t → (∀ p, in_u16 p → 0 ≤ p < n) → Z.of_nat (size (allocations t)) ≤ Z.of_nat (Z.to_nat n).
Proof.
  intros Hc Hn. rewrite <- (size_dom (D:=gset SocketAddr)).
  assert (Inj (=) (=) (SaV4 (external_addr t))) by (intros x y [=]; done).
  assert (Hsub : dom (allocations t) ⊆ list_to_set (SaV4 (external_addr t) <$> seqZ 0 n)).
  { intros k [a Ha]%elem_of_dom. apply elem_of_list_to_set, list_elem_of_fmap.
    destruct (tc_entry _ Hc k a Ha) as (p & h & -> & Hp & _). exists p. split; [done|].
    apply elem_of_seqZ. specialize (Hn p Hp). lia. }
  apply subseteq_size in Hsub. rewrite size_list_to_set in Hsub.
  - rewrite length_fmap, length_seqZ in Hsub. lia.
  - apply NoDup_fmap_2; [done|apply NoDup_seqZ].
Qed.

Lemma table_size_bound t : table_core t → Z.of_nat (size (allocations t)) ≤ 65536.
Proof.
  intros Hc. pose proof (table_size_below t 65536 Hc) as H.
  rewrite Z2Nat.id in H by lia. apply H. unfold_words. lia.
Qed.

Lemma sa_string_inj_table t k1 k2 a1 a2 :
  table_core t → allocations t !! k1 = Some a1 → allocations t !! k2 = Some a2 →
  sa_string k1 = sa_string k2 → k1 = k2.
Proof.
  intros Hc H1 H2 E. destruct (tc_entry _ Hc _ _ H1) as (p1 & _ & -> & ? & _).
  destruct (tc_entry _ Hc _ _ H2) as (p2 & _ & -> & ? & _). f_equal. by eapply sa_string_port_inj.
Qed.

(** Removing an allocation and releasing what it held. *)
Lemma core_release weak t k a :
  table_core t → allocations t !! k = Some a →
  table_core (release_resources weak k a (set_allocations (delete k (allocations t)) t)) ∧
  allocations (release_resources weak k a (set_allocations (delete k (allocations t)) t)) =
    delete k (allocations t) ∧
  stats (release_resources weak k a (set_allocations (delete k (allocations t)) t)) = stats t.
Proof.
  intros Hc Ha. destruct (tc_entry _ Hc k a Ha) as (p & h & -> & Hp & Hra & Hft & Hrel & Hlt & Htask).
  unfold release_resources. rewrite Hrel. cbn. split; [|done].
  pose proof (pool_release_spec weak p (port_allocator t) (tc_pool _ Hc)) as Hpr.
  destruct (pool_release weak p (port_allocator t)) as [b q] eqn:Eq.
  destruct Hpr as (Hq & Hrng & _ & Hports).
  assert (Hdel : ∀ k', is_Some (delete (SaV4 (external_addr t) p) (allocations t) !! k') ↔
                       k' ≠ SaV4 (external_addr t) p ∧ is_Some (allocations t !! k')).
  { intros k'. destruct (decide (k' = SaV4 (external_addr t) p)) as [-> |];
      [rewrite lookup_delete_eq|rewrite lookup_delete_ne by done]; unfold is_Some; naive_solver. }
  split; cbn.
  - done.
  - rewrite Hrng. apply Hc.
  - intros k' a' [Hne Hl]%lookup_delete_Some.
    destruct (tc_entry _ Hc k' a' Hl) as (p' & h' & -> & ? & ? & ? & ? & ? & Ht').
    exists p', h'. cbn. split_and!; try done. intros task [_ Hl']%lookup_delete_Some. by apply Ht'.
  - intros p'. rewrite Hports, elem_of_difference, (tc_port _ Hc), Hdel, elem_of_singleton.
    split; [intros [? ?]; split; [congruence|done]|intros [? ?]; split; [done|congruence]].
  - intros s. destruct (decide (s = sa_string (SaV4 (external_addr t) p))) as [-> |Hs].
    + rewrite lookup_delete_eq. split; [by intros []|].
      intros (k' & [Hne [a' Ha']]%Hdel & E). destruct Hne. symmetry. by eapply sa_string_inj_table.
    + rewrite lookup_delete_ne, (tc_track _ Hc) by done. setoid_rewrite Hdel. split.
      * intros (k' & ? & ->). exists k'. split; [split; [congruence|done]|done].
      * intros (k' & [_ ?] & ->). eauto.
  - intros h' task [Hne Hl]%lookup_delete_Some.
    destruct (tc_task _ Hc h' task Hl) as (a' & r & Ha' & Hr & <-).
    exists a', r. rewrite lookup_delete_ne; [done|]. intros E. rewrite <- E in Ha'.
    simplify_eq.
  - intros k1 a1 r1 k2 a2 r2 [_ H1]%lookup_delete_Some R1 [_ H2]%lookup_delete_Some R2.
    by eapply (tc_handle _ Hc).
Qed.

(** Entering an allocation on a port the pool has just handed out, with the
    relay task [h] that was spawned for it (and may have ended already). *)
Lemma core_insert t p port client now a s m r h ts n :
  let k := SaV4 (external_addr t) port in
  let b := SaV4 (bind_addr t) port in
  table_core t → pool_ok p → pool_range p = pool_range (port_allocator t) →
  in_u16 port → port ∉ pool_ports (port_allocator t) →
  pool_ports p = {[port]} ∪ pool_ports (port_allocator t) →
  relayed_addr a = k → client_addr a = client → five_tuple a = (client, k) →
  relay a = Some (mkRelay b h) →
  next_task t ≤ n → h < n →
  (∀ k' a' r', allocations t !! k' = Some a' → relay a' = Some r' → task_handle r' ≠ h) →
  (∀ task, ts !! h = Some task → task = mkTask client b k) →
  (∀ h', h' ≠ h → ts !! h' = tasks t !! h') →
  table_core (mkTable P (<[k := a]> (allocations t)) p (bind_addr t) (external_addr t)
    (table_realm t) s (max_concurrent_allocations t) (max_allocation_duration_secs t)
    (register_allocation now (sa_string k) None (bandwidth_manager t)) m r ts n).
Proof.
  intros k b Hc Hp Hrng Hport Hfree Hports Hra Hcl Hft Hrel Hn Hh Huse Hts Hoth.
  assert (Hnone : allocations t !! k = None).
  { apply eq_None_not_Some. unfold k. by rewrite <- (tc_port _ Hc). }
  assert (Hins : ∀ k', is_Some (<[k := a]> (allocations t) !! k') ↔ k' = k ∨ is_Some (allocations t !! k')).
  { intros k'. destruct (decide (k' = k)) as [-> |];
      [rewrite lookup_insert_eq|rewrite lookup_insert_ne by done]; unfold is_Some; naive_solver. }
  split; cbn.
  - done.
  - rewrite Hrng. apply Hc.
  - intros k' a' [[<- <-]|[Hne Hl]]%lookup_insert_Some.
    + exists port, h. cbn. rewrite Hcl. by split_and!.
    + destruct (tc_entry _ Hc k' a' Hl) as (p' & h' & -> & ? & ? & ? & Er & ? & Ht').
      exists p', h'. cbn. split_and!; try done; [lia|]. intros task. rewrite Hoth; [apply Ht'|].
      exact (Huse _ _ _ Hl Er).
  - intros p'. rewrite Hports, elem_of_union, elem_of_singleton, (tc_port _ Hc), Hins. unfold k.
    split; (intros [H|H]; [left; congruence|by right]).
  - intros x. destruct (decide (x = sa_string k)) as [-> |Hx].
    + rewrite lookup_insert_eq. split; [|by eexists]. intros _. exists k. rewrite Hins. auto.
    + rewrite lookup_insert_ne, (tc_track _ Hc) by done. setoid_rewrite Hins. split.
      * intros (k' & ? & ->). eauto.
      * intros (k' & [-> |?] & ->); [done|eauto].
  - intros h' task Hl. destruct (decide (h' = h)) as [-> |Hne].
    + rewrite (Hts _ Hl). cbn. exists a, (mkRelay b h). by rewrite lookup_insert_eq.
    + rewrite Hoth in Hl by done. destruct (tc_task _ Hc h' task Hl) as (a' & r' & Ha' & ? & ?). exists a', r'.
      rewrite lookup_insert_ne; [done|]. congruence.
  - intros k1 a1 r1 k2 a2 r2 [[<- <-]|[_ H1]]%lookup_insert_Some R1
      [[<- <-]|[_ H2]]%lookup_insert_Some R2 E; [done| | |by eapply (tc_handle _ Hc)].
    + destruct (Huse _ _ _ H2 R2). rewrite Hrel in R1. by simplify_eq.
    + destruct (Huse _ _ _ H1 R1). rewrite Hrel in R2. by simplify_eq.
Qed.

(** The handles in use are below the next one. *)
Lemma core_handle_lt t k a r :
  table_core t → allocations t !! k = Some a → relay a = Some r → task_handle r < next_task t.
Proof.
  intros Hc Ha Hr. destruct (tc_entry _ Hc k a Ha) as (p' & h' & _ & _ & _ & _ & E & ? & _).
  rewrite E in Hr. by simplify_eq.
Qed.

(** A relay task that ends by itself. *)
Lemma core_task_ends h t : table_core t → table_core (set_tasks (delete h (tasks t)) (next_task t) t).
Proof.
  intros [Hp Hr He Hq Ht Hk Hf]. split; cbn; try done.
  - intros k a Ha. destruct (He k a Ha) as (p & h' & ? & ? & ? & ? & ? & ? & Hh). exists p, h'. cbn.
    split_and!; try done. intros task [_ Hl]%lookup_delete_Some. by apply Hh.
  - intros h' task [_ Hl]%lookup_delete_Some. by apply Hk.
Qed.

Lemma install_ok env client life port p t :
  table_ok t → pool_ok p → pool_range p = pool_range (port_allocator t) →
  in_u16 port → port ∉ pool_ports (port_allocator t) →
  pool_ports p = {[port]} ∪ pool_ports (port_allocator t) →
  table_ok (install_allocation env client life port (set_ports p t)).2 ∧
  allocations t !! SaV4 (external_addr t) port = None ∧
  allocations (install_allocation env client life port (set_ports p t)).2 =
    <[SaV4 (external_addr t) port := (install_allocation env client life port (set_ports p t)).1]>
      (allocations t).
Proof.
  intros [Hc Hn] Hp Hrng Hport Hfree Hports.
  assert (Hnone : allocations t !! SaV4 (external_addr t) port = None).
  { apply eq_None_not_Some. by rewrite <- (tc_port _ Hc). }
  pose proof (table_size_bound t Hc).
  unfold install_allocation. split; [|by destruct (main_socket (set_ports p t))].
  set (a := with_relay (create_now env) (getrandom 12 (id_nanos env)) (SaV4 (external_addr t) port) client
     life client (SaV4 (external_addr t) port) (mkRelay (SaV4 (bind_addr t) port) (next_task t))).
  assert (Hcore : ∀ s m r, table_core (mkTable P (<[SaV4 (external_addr t) port := a]> (allocations t)) p
    (bind_addr t) (external_addr t) (table_realm t) s (max_concurrent_allocations t)
    (max_allocation_duration_secs t)
    (register_allocation (tracker_now env) (sa_string (SaV4 (external_addr t) port)) None (bandwidth_manager t)) m r
    (<[next_task t := mkTask client (SaV4 (bind_addr t) port) (SaV4 (external_addr t) port)]> (tasks t)) (next_task t + 1))).
  { intros s m r. apply (core_insert t p port client _ a _ _ _ (next_task t)); try done; [lia..| | |].
    - intros k' a' r' Ha Hr. pose proof (core_handle_lt t k' a' r' Hc Ha Hr). lia.
    - intros task. rewrite lookup_insert_eq. by intros [= <-].
    - intros h' Hne. by rewrite lookup_insert_ne. }
  cbn. destruct (main_socket t); (split; [apply Hcore|]); cbn;
    rewrite map_size_insert_None, Hn, as_u64_id by (done || (unfold_words; lia)); lia.
Qed.

(** The bind loop leaves the pool with exactly the returned port added, and
    with nothing added when it fails; it cannot panic. *)
Lemma bind_loop_spec env bind left last p :
  pool_ok p →
  ∃ r p', bind_loop env bind left last p = Ret (r, p') ∧ pool_ok p' ∧ pool_range p' = pool_range p ∧
  match r with
  | Ok port => (pool_range p).1 ≤ port ≤ (pool_range p).2 ∧ (port ∉ pool_ports p) ∧
               pool_ports p' = {[port]} ∪ pool_ports p
  | Err e => pool_ports p' = pool_ports p ∧
             (e = RelayPortExhausted ∨ ∃ addr src, e = RelayBindFailed addr src)
  end.
Proof.
  revert last p. induction left as [|left IH]; intros last p Hok; cbn [bind_loop].
  { eexists _, p. split; [reflexivity|]. split; [done|]. split; [done|].
    destruct last as [[addr src]|]; cbn; eauto. }
  set (a := env _). destruct (pool_allocate_spec (draw1 a) (draw2 a) (alloc_weak a) p Hok)
    as (r & p1 & -> & Hok1 & Hr1 & H). simpl_bind. destruct r as [port|].
  2:{ destruct H as [-> _]. eexists _, p. split; [reflexivity|]. split_and!; [done..|by left]. }
  destruct H as (Hin & Hfree & Hports). destruct (bind_result a) as [|e].
  { eexists _, p1. split; [reflexivity|]. split_and!; (done || lia). }
  pose proof (pool_release_spec (release_weak a) port p1 Hok1) as Hrel.
  destruct (pool_release _ port p1) as [b p2]. destruct Hrel as (Hok2 & Hr2 & _ & Hp2).
  assert (E : pool_ports p2 = pool_ports p) by (rewrite Hp2, Hports; set_solver).
  destruct (IH (Some (SaV4 bind port, e)) p2 Hok2) as (r & p3 & -> & Hok3 & Hr3 & H).
  eexists r, p3. split; [reflexivity|]. rewrite Hr3, Hr2, Hr1.
  rewrite E, Hr2, Hr1 in H. by split_and!.
Qed.
End inv.

Section ops.
Context {P : Type} `{PP : PortPool P} `{HO : HashOrder}.
Implicit Types t : AllocationTable P.

Lemma create_spec env client requested t :
  table_ok t →
  ∃ r t', create_allocation env client requested t = Ret (r, t') ∧ table_ok t' ∧
  external_addr t' = external_addr t ∧ bind_addr t' = bind_addr t ∧
  max_concurrent_allocations t' = max_concurrent_allocations t ∧
  match r with
  | Ok a => quota_reached t = false ∧ allocations t !! relayed_addr a = None ∧
            allocations t' = <[relayed_addr a := a]> (allocations t) ∧
            client_addr a = client ∧ created_at a = create_now env ∧ permissions a = ∅ ∧
            lifetime a = from_secs (effective_lifetime requested t)
  | Err e => allocations t' = allocations t ∧ stats t' = stats t ∧ tasks t' = tasks t ∧
             pool_ports (port_allocator t') = pool_ports (port_allocator t) ∧
             (e = Errors.AllocationQuotaReached ↔ quota_reached t = true) ∧
             (e = Errors.AllocationQuotaReached ∨ e = RelayPortExhausted ∨
              ∃ addr src, e = RelayBindFailed addr src)
  end.
Proof.
  intros Hok. unfold create_allocation. destruct (quota_reached t) eqn:Hquota.
  { eexists _, t. split; [reflexivity|]. split_and!; try done. by left. }
  destruct Hok as [Hc Hn].
  destruct (bind_loop_spec (bind_attempts env) (bind_addr t) MAX_ATTEMPTS None (port_allocator t)
    (tc_pool _ Hc)) as (r & p & -> & Hp & Hrng & H). simpl_bind. destruct r as [port|e].
  - destruct H as (Hin & Hfree & Hports). pose proof (tc_range _ Hc).
    destruct (install_ok env client (from_secs (effective_lifetime requested t)) port p t)
      as (Hok' & Hnone & Hall); [done|done|done|unfold_words; lia|done|done|].
    destruct (install_allocation _ _ _ port (set_ports p t)) as [a t'] eqn:E. cbn in Hok', Hall.
    eexists _, t'. split; [reflexivity|]. split; [done|].
    unfold install_allocation in E. cbn in E. destruct (main_socket t); simplify_eq; cbn; by split_and!.
  - destruct H as [Hports He]. eexists _, _. split; [reflexivity|]. split; [split; [|done]|].
    + destruct Hc. split; cbn; try done; [by rewrite Hrng|by rewrite Hports].
    + cbn. split_and!; try done; [|by right]. by destruct He as [-> |(? & ? & ->)].
Qed.

Lemma remove_spec weak k ch t :
  table_ok t →
  let '(r, ch', t') := remove_allocation weak k ch t in
  table_ok t' ∧ r = allocations t !! k ∧ allocations t' = delete k (allocations t) ∧
  external_addr t' = external_addr t ∧ bind_addr t' = bind_addr t ∧
  max_concurrent_allocations t' = max_concurrent_allocations t ∧
  ch' = (if decide (is_Some (allocations t !! k)) then forget_channels k ch else ch).
Proof.
  intros [Hc Hn]. unfold remove_allocation. destruct (allocations t !! k) as [a|] eqn:Ha.
  - destruct (core_release weak t k a Hc Ha) as (Hc' & Hall & Hst).
    rewrite decide_True by (by eexists).
    assert (Hf : ∀ t0, external_addr (release_resources weak k a t0) = external_addr t0 ∧
      bind_addr (release_resources weak k a t0) = bind_addr t0 ∧
      max_concurrent_allocations (release_resources weak k a t0) = max_concurrent_allocations t0).
    { intros t0. unfold release_resources. by destruct (relay a). }
    specialize (Hf (set_allocations (delete k (allocations t)) t)). cbv zeta.
    set (t1 := release_resources _ _ _ _) in *. clearbody t1. pose proof (table_size_bound t Hc).
    assert (S (pred (size (allocations t))) = size (allocations t)).
    { rewrite <- (map_size_delete_Some k) by (by eexists). rewrite <- (insert_delete_id _ k a Ha) at 2.
      by rewrite map_size_insert_None by apply lookup_delete_eq. }
    split; [split; [by apply core_stats|]|].
    + cbn. rewrite Hst, Hall, Hn, map_size_delete_Some by (by eexists).
      rewrite as_u64_id; [lia|unfold_words; lia].
    + cbn. destruct Hf as (? & ? & ?). by split_and!.
  - rewrite decide_False by (by intros []). rewrite delete_id by done. by split_and!.
Qed.

Lemma entry_by_client_Some t client k a :
  entry_by_client t client = Some (k, a) → allocations t !! k = Some a ∧ client_addr a = client.
Proof.
  unfold entry_by_client. intros [Hin Hp]%find_first_Some. bool_to_prop.
  split; [by apply hash_iter_lookup|done].
Qed.

Lemma entry_by_client_None t client :
  entry_by_client t client = None ↔ ∀ k a, allocations t !! k = Some a → client_addr a ≠ client.
Proof.
  unfold entry_by_client. rewrite find_first_None, list.Forall_forall. split.
  - intros H k a Ha%hash_iter_lookup Hcl. specialize (H _ Ha). cbn in H.
    by rewrite bool_decide_eq_true_2 in H.
  - intros H [k a] Hin%hash_iter_lookup. apply bool_decide_eq_false_2. eauto.
Qed.

(** With one allocation for the client every iteration order finds it. *)
Lemma entry_by_client_unique t client k a :
  allocations t !! k = Some a → client_addr a = client →
  (∀ k' a', allocations t !! k' = Some a' → client_addr a' = client → k' = k) →
  entry_by_client t client = Some (k, a).
Proof.
  intros Ha Hcl Hun. unfold entry_by_client. apply find_first_unique.
  - by apply hash_iter_lookup.
  - by apply bool_decide_eq_true_2.
  - intros [k' a'] Hin%hash_iter_lookup Hp. bool_to_prop.
    assert (k' = k) by eauto. subst. by simplify_eq.
Qed.

Lemma refresh_ok k secs t : table_ok t → table_ok (refresh_allocation k secs t).2.
Proof.
  intros Hok. unfold refresh_allocation. destruct (allocations t !! k) as [a|] eqn:Ha; [|done].
  by apply (ok_update t (stats t) k a).
Qed.

Lemma add_permissions_ok client peers t : table_ok t → table_ok (add_permissions client peers t).2.
Proof.
  intros Hok. unfold add_permissions. destruct (entry_by_client t client) as [[k a]|] eqn:E; [|done].
  apply entry_by_client_Some in E as [Ha _]. by apply (ok_update t (stats t) k a).
Qed.

Lemma send_to_peer_ok io client peer data t : table_ok t → table_ok (send_to_peer io client peer data t).2.
Proof.
  intros Hok. unfold send_to_peer. destruct (entry_by_client t client) as [[k a]|] eqn:E; [|done].
  apply entry_by_client_Some in E as [Ha _]. repeat (case_match; try done).
  by apply (ok_update t _ k a).
Qed.

Lemma stats_ok s t :
  active_allocations s = active_allocations (stats t) → table_ok t → table_ok (set_stats s t).
Proof. intros Hs [Hc Hn]. split; [by apply core_stats|]. cbn. by rewrite Hs. Qed.

Lemma relay_to_peer_ok k data t : table_ok t → table_ok (relay_to_peer k data t).2.
Proof. intros Hok. unfold relay_to_peer. case_match; [by apply stats_ok|done]. Qed.

Lemma peer_to_relay_ok peer t : table_ok t → table_ok (peer_to_relay peer t).2.
Proof. intros Hok. unfold peer_to_relay. repeat case_match; by try apply stats_ok. Qed.

Lemma permit_elem ips a ip : ip ∈ permissions (permit ips a) ↔ ip ∈ ips ∨ ip ∈ permissions a.
Proof.
  unfold permit. cbn. generalize (permissions a) as X. induction ips as [|i ips IH]; intros X; cbn.
  - set_solver.
  - rewrite IH. set_solver.
Qed.

(** The sweep. *)
Lemma elem_of_expired_keys now t k :
  k ∈ expired_keys now t ↔ ∃ a, allocations t !! k = Some a ∧ Allocation_is_expired now a = true.
Proof.
  unfold expired_keys. change (map fst) with (fmap (M:=list) (@fst SocketAddr Allocation)).
  rewrite list_elem_of_fmap. split.
  - intros ([k' a] & -> & [He Hin]%list_elem_of_filter). exists a. by rewrite <- hash_iter_lookup.
  - intros (a & Ha & He). exists (k, a). split; [done|]. rewrite list_elem_of_filter.
    by rewrite hash_iter_lookup.
Qed.

Lemma drop_expired_spec weak keys ch c t :
  table_core t →
  let '(c', ch', t') := drop_expired weak keys ch c t in
  table_core t' ∧ stats t' = stats t ∧
  (∀ k, allocations t' !! k = if decide (k ∈ keys) then None else allocations t !! k) ∧
  c' + Z.of_nat (size (allocations t')) = c + Z.of_nat (size (allocations t)) ∧
  (∀ ct, ch = Some ct → ∃ ct', ch' = Some ct' ∧ (channels_ok ct → channels_ok ct') ∧ ∀ k id, channels ct' !! (k, id) =
     if decide (k ∈ keys ∧ is_Some (allocations t !! k)) then None else channels ct !! (k, id)).
Proof.
  revert ch c t. induction keys as [|k keys IH]; intros ch c t Hc; cbn [drop_expired].
  { split_and!; try done. intros ct ->. exists ct. split; [done|]. split; [done|].
    intros k id. rewrite decide_False by set_solver. done. }
  destruct (allocations t !! k) as [a|] eqn:Ha.
  - destruct (core_release weak t k a Hc Ha) as (Hc' & Hall & Hst).
    specialize (IH (forget_channels k ch) (c + 1) _ Hc').
    destruct (drop_expired weak keys _ _ _) as [[c' ch'] t'].
    destruct IH as (? & Hs & Hl & Hcnt & Hch). rewrite Hall in *. split_and!; [done|congruence|..].
    + intros k'. rewrite Hl. destruct (decide (k' = k)) as [-> |Hne].
      * rewrite lookup_delete_eq, (decide_True (P:=k ∈ k :: keys)) by set_solver. by case_decide.
      * rewrite lookup_delete_ne by done. repeat case_decide; set_solver.
    + rewrite Hcnt. rewrite <- (insert_delete_id _ k a Ha) at 2.
      rewrite map_size_insert_None by apply lookup_delete_eq. lia.
    + intros ct ->. destruct (Hch _ eq_refl) as (ct' & -> & Hco & Hlk). exists ct'. split; [done|].
      split; [intros; by apply Hco, remove_for_relayed_ok|].
      intros k' id. rewrite Hlk, remove_for_relayed_lookup. cbn [fst].
      destruct (decide (k' = k)) as [-> |Hne].
      * rewrite (decide_True (P:=k ∈ k :: keys ∧ _)) by (rewrite Ha; set_solver). by case_decide.
      * rewrite lookup_delete_ne by done. repeat case_decide; set_solver.
  - specialize (IH ch c t Hc). destruct (drop_expired weak keys ch c t) as [[c' ch'] t'].
    destruct IH as (? & ? & Hl & ? & Hch). split_and!; try done.
    + intros k'. rewrite Hl. destruct (decide (k' = k)) as [-> |Hne];
        [rewrite Ha|]; repeat case_decide; set_solver.
    + intros ct ->. destruct (Hch _ eq_refl) as (ct' & -> & Hco & Hlk). exists ct'. split; [done|].
      split; [done|]. intros k' id. rewrite Hlk. destruct (decide (k' = k)) as [-> |Hne];
        repeat case_decide; try done; rewrite ?Ha in *; set_solver by eauto using is_Some_None.
Qed.

Lemma cleanup_spec now weak ch t :
  table_ok t →
  let '(c, ch', t') := cleanup_expired now weak ch t in
  table_ok t' ∧
  allocations t' = filter (λ '(_, a), Allocation_is_expired now a = false) (allocations t) ∧
  c = Z.of_nat (size (allocations t)) - Z.of_nat (size (allocations t')) ∧
  (∀ ct, ch = Some ct → ∃ ct', ch' = Some ct' ∧ (channels_ok ct → channels_ok ct') ∧ ∀ k id, channels ct' !! (k, id) =
     if decide (k ∈ expired_keys now t) then None else channels ct !! (k, id)).
Proof.
  intros [Hc Hn]. unfold cleanup_expired.
  pose proof (drop_expired_spec weak (expired_keys now t) ch 0 t Hc) as H.
  destruct (drop_expired _ _ _ _ _) as [[c ch'] t']. destruct H as (Hc' & Hs & Hl & Hcnt & Hch).
  assert (Hall : allocations t' =
    filter (λ '(_, a), Allocation_is_expired now a = false) (allocations t)).
  { apply map_eq. intros k. rewrite Hl. apply option_eq. intros a. rewrite map_lookup_filter_Some.
    case_decide as Hk; rewrite elem_of_expired_keys in Hk.
    - destruct Hk as (a' & Ha' & He). split; [done|]. intros [? ?]. simplify_eq. congruence.
    - split; [|by intros [? _]]. intros Ha. split; [done|]. apply not_true_iff_false. eauto. }
  pose proof (table_size_bound t Hc). pose proof (table_size_bound t' Hc').
  assert (size (allocations t') ≤ size (allocations t))%nat by (rewrite Hall; apply size_filter_le).
  assert (Hok' : table_ok (if 0 <? c then set_stats (count_removed c (stats t')) t' else t')).
  { destruct (Z.ltb_spec 0 c); (split; [try apply core_stats; done|]).
    - cbn. rewrite Hs, Hn, as_u64_id; [lia|unfold_words; lia].
    - rewrite Hs, Hn. lia. }
  split; [done|]. split; [by destruct (0 <? c)|]. split; [destruct (0 <? c); cbn; lia|].
  intros ct Ec. destruct (Hch ct Ec) as (ct' & ? & ? & Hlk). exists ct'. split; [done|].
  split; [done|]. intros k id. rewrite Hlk. destruct (decide (k ∈ expired_keys now t)) as [Hk|Hk].
  - rewrite decide_True; [done|]. split; [done|].
    apply elem_of_expired_keys in Hk as (? & ? & _). by eexists.
  - rewrite decide_False; [done|]. tauto.
Qed.
(** What no operation changes: the addresses, the limits and the port range. *)
Definition table_params t :=
  (external_addr t, bind_addr t, max_concurrent_allocations t, max_allocation_duration_secs t,
   pool_range (port_allocator t)).

Lemma bind_loop_range env bind left last p r p' :
  bind_loop env bind left last p = Ret (r, p') → pool_range p' = pool_range p.
Proof.
  revert last p. induction left as [|left IH]; intros last p; cbn [bind_loop]; [by intros [= _ <-]|].
  destruct (pool_allocate _ _ _ p) as [[[port|] p1]|] eqn:E; simpl_bind; [| |done].
  - apply pool_allocate_range in E as <-. split_match; [by intros [= _ <-]|].
    pose proof (pool_release_range (release_weak (env (MAX_ATTEMPTS - S left)%nat)) port p1) as Hr.
    destruct (pool_release _ port p1) as [b p2]. cbn in Hr. rewrite <- Hr. apply IH.
  - intros [= _ <-]. by eapply pool_allocate_range.
Qed.

Lemma release_params weak k a t :
  table_params (release_resources weak k a t) = table_params t.
Proof. unfold release_resources, table_params. destruct (relay a); cbn; by rewrite pool_release_range. Qed.

Lemma remove_params weak k ch t : table_params (remove_allocation weak k ch t).2 = table_params t.
Proof.
  unfold remove_allocation. destruct (allocations t !! k) as [a|]; [|done]. cbn.
  exact (release_params weak k a (set_allocations (delete k (allocations t)) t)).
Qed.

Lemma create_params env c life t r t' :
  create_allocation env c life t = Ret (r, t') → table_params t' = table_params t.
Proof.
  unfold create_allocation. destruct (quota_reached t); [by intros [= <- <-]|].
  destruct (bind_loop _ _ _ _ _) as [[r0 pa]|] eqn:Eb; simpl_bind; [|done]. apply bind_loop_range in Eb.
  unfold table_params. rewrite <- Eb. destruct r0 as [p|e]; [|by intros [= <- <-]].
  destruct (install_allocation _ _ _ _ _) as [a t1] eqn:E. intros [= <- <-]. revert E.
  unfold install_allocation, spawn_allocation_task. destruct (main_socket _); by intros [= <- <-].
Qed.

Lemma drop_expired_params weak keys ch n t :
  table_params (drop_expired weak keys ch n t).2 = table_params t.
Proof.
  revert ch n t. induction keys as [|k keys IH]; intros ch n t; cbn [drop_expired]; [done|].
  destruct (allocations t !! k) as [a|]; [|apply IH]. by rewrite IH, release_params.
Qed.

Lemma cleanup_params now weak ch t :
  table_params (cleanup_expired now weak ch t).2 = table_params t.
Proof.
  unfold cleanup_expired. pose proof (drop_expired_params weak (expired_keys now t) ch 0 t) as H.
  destruct (drop_expired _ _ _ _ _) as [[n ch'] t']. cbn in *. by destruct (0 <? n).
Qed.

End ops.

Lemma new_table_ok now external bind realm lo hi mc md :
  0 ≤ lo ≤ hi → hi ≤ 65535 → hi - lo < 65535 →
  table_ok (with_port_range_and_bind_addr now external bind realm lo hi mc md).
Proof.
  intros Hlo Hhi Hfit. destruct (PortAllocator_new_ok lo hi Hlo Hhi Hfit) as [Hok Hports].
  split; [|done]. split; cbn -[PortAllocator_new].
  - done.
  - cbn. lia.
  - intros k a. by rewrite lookup_empty.
  - intros p. rewrite Hports, lookup_empty. split; [set_solver|by intros []].
  - intros s. rewrite lookup_empty. setoid_rewrite lookup_empty. split; [by intros []|by intros (? & [] & _)].
  - intros h task. by rewrite lookup_empty.
  - intros k1 a1 r1 k2 a2 r2. by rewrite lookup_empty.
Qed.

(** The Data indication a client receives. *)
Lemma getrandom_from_ok n seed : length (getrandom_from n seed) = n ∧ bytes_ok (getrandom_from n seed).
Proof.
  revert seed. induction n as [|n IH]; intros seed; cbn [getrandom_from]; [by repeat constructor|].
  destruct (IH (as_u64 (as_u64 (seed * 1103515245) + 12345))) as [Hl Hb].
  split; [cbn; by rewrite Hl|]. constructor; [|done]. word_lia.
Qed.

Lemma data_indication_ok nanos ip port payload :
  ipv4_ok ip → in_u16 port → bytes_ok payload → Z.of_nat (length payload) ≤ 65000 →
  let tid := getrandom 12 nanos in
  msg_ok (mkMsg (mkHeader Data Indication 0 0x2112A442 tid)
    [mkAttr PEER_ADDRESS (encode_xor_address (SaV4 ip port) 0x2112A442 tid); mkAttr DATA payload]).
Proof.
  intros Hip Hport Hb Hl tid. destruct (getrandom_from_ok 12 (as_u64 nanos)) as [Htl Htb].
  apply msg_ok_intro; [done| |].
  - apply list.Forall_cons. split; [|apply Forall_singleton; split_and!; cbn; (done || lia)].
    split_and!; cbn [attr_type value]; [done| |rewrite encode_xor_address_length; lia].
    by apply encode_xor_address_ok.
  - cbn [sum_list_with value]. rewrite encode_xor_address_length. lia.
Qed.

Lemma data_indication_parses nanos ip port payload :
  ipv4_ok ip → in_u16 port → bytes_ok payload → Z.of_nat (length payload) ≤ 65000 →
  ∃ m a, Message_parse (build_data_indication nanos (SaV4 ip port) payload) = Some m ∧
    method (header m) = Data ∧ event_type (header m) = Indication ∧
    get_attribute m PEER_ADDRESS = Some a ∧
    decode_xor_address (value a) MAGIC (transaction_id (header m)) = Some (SaV4 ip port) ∧
    get_attribute m DATA = Some (mkAttr DATA payload).
Proof.
  intros Hip Hport Hb Hl. unfold build_data_indication.
  eexists _, _. rewrite Message_parse_encode by by apply data_indication_ok.
  split_and!; try reflexivity. by apply decode_encode_xor.
Qed.

(** ** Properties *)

(** C8. The table never leaks or double-books: in every state the operations
    can reach, an allocation sits under its own relayed address, its port is
    taken, its bandwidth tracker is registered and the task behind its handle
    is its own, no port, tracker or task is left without its allocation, and
    the active counter is the number of allocations.  The invariant holds of a new table
    and each operation keeps it, for every clock, random draw, bind result,
    send result and hash order. *)
Theorem table_ops_keep_invariant `{HashOrder} :
  (∀ now external bind realm lo hi mc md, 0 ≤ lo ≤ hi → hi ≤ 65535 → hi - lo < 65535 →
    table_ok (with_port_range_and_bind_addr now external bind realm lo hi mc md)) ∧
  (∀ t : AllocationTable PortAllocator, table_ok t →
    (∀ env client requested, ∃ r t', create_allocation env client requested t = Ret (r, t') ∧ table_ok t') ∧
    (∀ weak k ch, table_ok (remove_allocation weak k ch t).2) ∧
    (∀ k secs, table_ok (refresh_allocation k secs t).2) ∧
    (∀ client peers, table_ok (add_permissions client peers t).2) ∧
    (∀ io client peer data, table_ok (send_to_peer io client peer data t).2) ∧
    (∀ k data, table_ok (relay_to_peer k data t).2) ∧
    (∀ peer, table_ok (peer_to_relay peer t).2) ∧
    (∀ now weak ch, table_ok (cleanup_expired now weak ch t).2)).
Proof.
  split; [apply new_table_ok|]. intros t Hok. split_and!.
  - intros env client rq. destruct (create_spec env client rq t Hok) as (r & t' & ? & ? & _). eauto.
  - intros weak k ch. pose proof (remove_spec weak k ch t Hok) as Hr.
    destruct (remove_allocation weak k ch t) as [[? ?] ?]. apply Hr.
  - intros. by apply refresh_ok.
  - intros. by apply add_permissions_ok.
  - intros. by apply send_to_peer_ok.
  - intros. by apply relay_to_peer_ok.
  - intros. by apply peer_to_relay_ok.
  - intros now weak ch. pose proof (cleanup_spec now weak ch t Hok) as Hr.
    destruct (cleanup_expired now weak ch t) as [[? ?] ?]. apply Hr.
Qed.

Definition sample_table : AllocationTable PortAllocator :=
  with_port_range_and_bind_addr 0 (mkIpv4 203 0 113 5) (mkIpv4 10 0 0 5) "realm" 50000 50003
    (Some 2) (Some 3600).
Definition sample_client : SocketAddr := SaV4 (mkIpv4 198 51 100 7) 4000.
Definition bind_ok_env : CreateEnv :=
  mkCreateEnv (λ _, mkAttempt 0 0 [] (Ok tt) []) 1 0 0.

Lemma sample_table_ok : table_ok sample_table.
Proof. apply new_table_ok; lia. Qed.

Lemma table_ops_keep_invariant_witness :
  table_ok (refresh_allocation (SaV4 (mkIpv4 203 0 113 5) 50000) 60 sample_table).2.
Proof.
  apply (@table_ops_keep_invariant map_order).
  apply (@table_ops_keep_invariant map_order); lia.
Defined.

(** [create_allocation] always returns.  On success the allocation is new
    at its relayed address, belongs to the client, carries no permission and
    lives for the requested time (600 s by default) cut to the configured
    maximum; nothing else changes.  On failure no allocation, port, task or
    counter has changed, however many binds were tried, and the quota error
    is raised exactly when the quota is reached. *)
Theorem create_allocation_outcomes env client requested (t : AllocationTable PortAllocator) :
  table_ok t →
  ∃ r t', create_allocation env client requested t = Ret (r, t') ∧
  match r with
  | Ok a => quota_reached t = false ∧ allocations t !! relayed_addr a = None ∧
            allocations t' = <[relayed_addr a := a]> (allocations t) ∧
            client_addr a = client ∧ permissions a = ∅ ∧
            lifetime a = from_secs (match max_allocation_duration_secs t with
                                    | Some m => Z.min m (default 600 requested)
                                    | None => default 600 requested
                                    end)
  | Err e => allocations t' = allocations t ∧ stats t' = stats t ∧ tasks t' = tasks t ∧
             ports (port_allocator t') = ports (port_allocator t) ∧
             (e = Errors.AllocationQuotaReached ↔ quota_reached t = true)
  end.
Proof.
  intros Hok. destruct (create_spec env client requested t Hok) as (r & t' & -> & _ & _ & _ & _ & Hr).
  exists r, t'. split; [done|]. destruct r as [a|e]; [|by destruct Hr as (? & ? & ? & ? & ? & _)].
  destruct Hr as (? & ? & ? & ? & _ & ? & ->). split_and!; try done.
  unfold effective_lifetime. f_equal. destruct requested; cbn [default from_option id];
    (destruct (max_allocation_duration_secs t); [|done]); case_match; bool_to_prop; lia.
Qed.

Lemma create_allocation_outcomes_witness :
  ∃ a t', create_allocation bind_ok_env sample_client (Some 7200) sample_table = Ret (Ok a, t') ∧
          lifetime a = from_secs 3600.
Proof.
  destruct (create_allocation_outcomes bind_ok_env sample_client (Some 7200) sample_table
    sample_table_ok) as (r & t' & E & Hr).
  destruct r as [a|e]; [|exfalso; clear Hr; vm_compute in E; discriminate].
  exists a, t'. split; [exact E|]. destruct Hr as (_ & _ & _ & _ & _ & Hl). exact Hl.
Defined.

(** The quota holds along any sequence of calls: a table within its
    maximum stays within it after another Allocate. *)
Theorem quota_respected env client requested (t : AllocationTable PortAllocator) m :
  table_ok t → max_concurrent_allocations t = Some m →
  Z.of_nat (size (allocations t)) ≤ m →
  ∃ r t', create_allocation env client requested t = Ret (r, t') ∧
          max_concurrent_allocations t' = Some m ∧ Z.of_nat (size (allocations t')) ≤ m.
Proof.
  intros Hok Hm Hle. destruct (create_spec env client requested t Hok)
    as (r & t' & E & Hok' & _ & _ & Hmax & Hr).
  exists r, t'. split; [done|]. split; [congruence|]. destruct r as [a|e].
  - destruct Hr as (Hq & Hnone & -> & _). rewrite map_size_insert_None by done.
    unfold quota_reached in Hq. rewrite Hm in Hq. bool_to_prop. destruct Hok as [_ Hn]. lia.
  - by destruct Hr as [-> _].
Qed.

Lemma quota_respected_witness :
  ∃ r t', create_allocation bind_ok_env sample_client None sample_table = Ret (r, t') ∧
          max_concurrent_allocations t' = Some 2 ∧ Z.of_nat (size (allocations t')) ≤ 2.
Proof.
  apply (quota_respected bind_ok_env sample_client None sample_table 2);
    [exact sample_table_ok|reflexivity|].
  vm_compute. discriminate.
Defined.

(** Removal returns everything the allocation held: the port is free
    again, its tracker is gone, its relay task is aborted, its channel
    bindings are dropped, and every other allocation is untouched. *)
Theorem remove_releases_everything weak k a (ct : ChannelTable) (t : AllocationTable PortAllocator) :
  table_ok t → allocations t !! k = Some a →
  let '(r, ch', t') := remove_allocation weak k (Some ct) t in
  r = Some a ∧ allocations t' = delete k (allocations t) ∧
  ports (port_allocator t') = ports (port_allocator t) ∖ {[sa_port k]} ∧
  trackers (bandwidth_manager t') !! sa_string k = None ∧
  (∀ h task, tasks t' !! h = Some task → task_relayed task ≠ k) ∧
  active_allocations (stats t') = active_allocations (stats t) - 1 ∧
  (∃ ct', ch' = Some ct' ∧ unbound k ct' ∧
    ∀ k' id, k' ≠ k → channels ct' !! (k', id) = channels ct !! (k', id)).
Proof.
  intros Hok Ha. pose proof (remove_spec weak k (Some ct) t Hok) as Hr.
  destruct (remove_allocation weak k (Some ct) t) as [[r ch'] t'] eqn:E.
  destruct Hr as (Hok' & -> & Hall & Hext & _ & _ & ->).
  rewrite decide_True by (by eexists). destruct Hok as [Hc Hn], Hok' as [Hc' Hn'].
  destruct (tc_entry _ Hc k a Ha) as (p & h & -> & _).
  split; [done|]. split; [done|]. split_and!.
  - apply set_eq. intros q. rewrite elem_of_difference, elem_of_singleton.
    change ports with (pool_ports (P:=PortAllocator)).
    rewrite (tc_port _ Hc'), (tc_port _ Hc), Hall, Hext. cbn [sa_port].
    unfold is_Some. setoid_rewrite lookup_delete_Some. naive_solver.
  - unfold remove_allocation in E. rewrite Ha in E. simplify_eq. cbn. apply lookup_delete_eq.
  - intros h' task (a' & r' & Ha' & _)%(tc_task _ Hc') Et.
    rewrite Et, Hall, lookup_delete_eq in Ha'. done.
  - rewrite Hn, Hn', Hall. rewrite <- (insert_delete_id _ _ a Ha) at 2.
    rewrite map_size_insert_None by apply lookup_delete_eq. lia.
  - eexists. split; [reflexivity|]. split; [apply remove_for_relayed_unbound|].
    intros k' id Hne. rewrite remove_for_relayed_lookup. by rewrite decide_False.
Qed.

Definition sample_state : AllocationTable PortAllocator :=
  match create_allocation bind_ok_env sample_client None sample_table with
  | Ret (_, t) => t
  | Panic => sample_table
  end.
Definition sample_relayed : SocketAddr := SaV4 (mkIpv4 203 0 113 5) 50000.

Lemma sample_state_ok : table_ok sample_state.
Proof.
  unfold sample_state.
  destruct (create_spec bind_ok_env sample_client None sample_table sample_table_ok)
    as (r & t' & -> & Hok & _). exact Hok.
Qed.

Lemma remove_releases_everything_witness :
  ∃ a, let '(r, _, t') := remove_allocation [] sample_relayed (Some ChannelTable_new) sample_state in
  r = Some a ∧ allocations t' = delete sample_relayed (allocations sample_state).
Proof.
  destruct (allocations sample_state !! sample_relayed) as [a|] eqn:Ha;
    [|exfalso; vm_compute in Ha; discriminate].
  exists a. pose proof (remove_releases_everything [] sample_relayed a ChannelTable_new sample_state
    sample_state_ok Ha) as Hr.
  destruct (remove_allocation [] sample_relayed (Some ChannelTable_new) sample_state) as [[r ch] t'].
  destruct Hr as (Hr1 & Hr2 & _). split; [exact Hr1|exact Hr2].
Defined.

(** C31. The sweep removes exactly the expired allocations, for every hash
    order: what stays is what has not outlived its lifetime, the returned
    count is the number removed, and the bindings of exactly the removed
    relayed addresses are dropped. *)
Theorem cleanup_removes_exactly_expired `{HashOrder} now weak ct (t : AllocationTable PortAllocator) :
  table_ok t →
  let '(c, ch', t') := cleanup_expired now weak (Some ct) t in
  allocations t' = filter (λ '(_, a), elapsed now (created_at a) ≤ lifetime a) (allocations t) ∧
  c = Z.of_nat (size (allocations t)) - Z.of_nat (size (allocations t')) ∧
  active_allocations (stats t') = Z.of_nat (size (allocations t')) ∧
  ∃ ct', ch' = Some ct' ∧ ∀ k id, channels ct' !! (k, id) =
    match allocations t !! k with
    | Some a => if Allocation_is_expired now a then None else channels ct !! (k, id)
    | None => channels ct !! (k, id)
    end.
Proof.
  intros Hok. pose proof (cleanup_spec now weak (Some ct) t Hok) as Hr.
  destruct (cleanup_expired now weak (Some ct) t) as [[c ch'] t'].
  destruct Hr as ([_ Hn] & Hall & Hc & Hch). destruct (Hch ct eq_refl) as (ct' & -> & _ & Hlk).
  split; [|split; [done|]; split; [done|]; exists ct'; split; [done|]].
  - rewrite Hall. apply map_filter_ext. intros k a _. unfold Allocation_is_expired.
    destruct (Z.ltb_spec (lifetime a) (elapsed now (created_at a))); split; (done || lia).
  - intros k id. rewrite Hlk. case_decide as Hk; rewrite elem_of_expired_keys in Hk.
    + destruct Hk as (a & -> & ->). done.
    + destruct (allocations t !! k) as [a|]; [|done].
      destruct (Allocation_is_expired now a) eqn:He; [|done]. destruct Hk. by exists a.
Qed.

Lemma cleanup_removes_exactly_expired_witness :
  let '(c, _, t') := @cleanup_expired _ _ map_order (from_secs 601) [] (Some ChannelTable_new) sample_state in
  c = 1 ∧ active_allocations (stats t') = 0.
Proof.
  pose proof (@cleanup_removes_exactly_expired map_order (from_secs 601) [] ChannelTable_new sample_state
    sample_state_ok) as Hr.
  destruct (@cleanup_expired _ _ map_order (from_secs 601) [] (Some ChannelTable_new) sample_state)
    as [[c ch] t'] eqn:E.
  destruct Hr as (Hall & Hc & Hn & _). rewrite Hn, Hc.
  assert (Hs : size (allocations t') = 0%nat) by (rewrite Hall; vm_compute; reflexivity).
  rewrite Hs. vm_compute. split; reflexivity.
Defined.

(** Nothing leaves for a peer without permission: [send_to_peer] hands a
    datagram to a relay socket only when an allocation of that client lists
    the peer's IP address (the port does not matter), and then it is the
    client's payload, unchanged, to that peer, from that allocation's relay
    socket; the counters move only when the send succeeded. *)
Theorem relay_requires_permission `{HashOrder} io client peer data (t : AllocationTable PortAllocator) :
  let '(r, out, t') := send_to_peer io client peer data t in
  (∀ pk, pk ∈ out → ∃ k a rl, allocations t !! k = Some a ∧ client_addr a = client ∧
     sa_ip peer ∈ permissions a ∧ relay a = Some rl ∧ pk = ToPeer (socket rl) peer data) ∧
  (r = Some tt → length out = 1%nat ∧ stats t' = count_relayed (Z.of_nat (length data)) (stats t)) ∧
  (r = None → t' = t).
Proof.
  unfold send_to_peer. destruct (entry_by_client t client) as [[k a]|] eqn:E;
    [|split_and!; set_solver].
  apply entry_by_client_Some in E as [Ha Hcl].
  destruct (bool_decide (sa_ip peer ∈ permissions a)) eqn:Hp; cbn [negb]; [|split_and!; set_solver].
  bool_to_prop. destruct (relay a) as [rl|] eqn:Hrel; [|split_and!; set_solver].
  assert (Hone : ∀ pk, pk ∈ [ToPeer (socket rl) peer data] → ∃ k a rl, allocations t !! k = Some a ∧
    client_addr a = client ∧ sa_ip peer ∈ permissions a ∧ relay a = Some rl ∧
    pk = ToPeer (socket rl) peer data).
  { intros pk ->%list_elem_of_singleton. by exists k, a, rl. }
  by destruct io.
Qed.

(** Permissions are what was asked for: after [add_permissions] on a
    client with one allocation a peer is permitted exactly when its address
    was listed now or was permitted before; a client without an allocation
    gets nothing. *)
Theorem permissions_exact `{HashOrder} client peers peer (t : AllocationTable PortAllocator) :
  (∀ k1 a1 k2 a2, allocations t !! k1 = Some a1 → allocations t !! k2 = Some a2 →
     client_addr a1 = client → client_addr a2 = client → k1 = k2) →
  check_permission (add_permissions client peers t).2 client peer = true ↔
  check_permission t client peer = true ∨
  (sa_ip peer ∈ map sa_ip peers ∧ is_Some (find_allocation_by_client t client)).
Proof.
  intros Hun. unfold add_permissions, check_permission, find_allocation_by_client.
  destruct (entry_by_client t client) as [[k a]|] eqn:E; cbn [snd].
  - apply entry_by_client_Some in E as [Ha Hcl].
    rewrite (entry_by_client_unique _ client k (permit (map sa_ip peers) a)).
    + rewrite !bool_decide_eq_true, permit_elem. cbn. unfold is_Some. naive_solver.
    + apply lookup_insert_eq.
    + done.
    + cbn. intros k' a' [[-> _]|[_ Hl]]%lookup_insert_Some Hcl'; [done|]. eauto.
  - rewrite E. cbn. split; [naive_solver|]. by intros [?|[_ []]].
Qed.

Lemma permissions_exact_witness :
  @check_permission _ map_order (@add_permissions _ map_order sample_client [peer_a] sample_state).2
    sample_client peer_a = true.
Proof.
  apply (@permissions_exact map_order sample_client [peer_a] peer_a sample_state).
  - assert (Hs : allocations sample_state = {[ sample_relayed :=
      match allocations sample_state !! sample_relayed with Some a => a | None =>
        Allocation_new 0 [] sample_relayed sample_client 0 sample_client sample_client end ]})
      by (vm_compute; reflexivity).
    intros k1 a1 k2 a2. rewrite Hs. intros [<- _]%lookup_singleton_Some [<- _]%lookup_singleton_Some. done.
  - right. split; [left|]. vm_compute. eexists. reflexivity.
Defined.

(** A refresh sets the lifetime and leaves the start of the allocation
    where it was: after a successful refresh to [secs] seconds the allocation
    expires [secs] seconds after it was CREATED.  So a client that refreshes
    an old allocation for less than its age has it expired on the spot, and
    the configured maximum duration is not applied. *)
Theorem refresh_counts_from_creation now k secs a (t : AllocationTable PortAllocator) :
  allocations t !! k = Some a →
  ∃ a', refresh_allocation k secs t = (Ok tt, set_allocations (<[k := a']> (allocations t)) t) ∧
    created_at a' = created_at a ∧ permissions a' = permissions a ∧ relay a' = relay a ∧
    (Allocation_is_expired now a' = true ↔ created_at a + from_secs secs < Z.max now (created_at a)).
Proof.
  intros Ha. unfold refresh_allocation. rewrite Ha. eexists. split; [reflexivity|]. split_and!; try done.
  unfold Allocation_is_expired, elapsed, saturating_sub. cbn. rewrite Z.ltb_lt. lia.
Qed.

Lemma refresh_counts_from_creation_witness :
  ∃ a', refresh_allocation sample_relayed 400 sample_state =
          (Ok tt, set_allocations (<[sample_relayed := a']> (allocations sample_state)) sample_state) ∧
        Allocation_is_expired (from_secs 500) a' = true.
Proof.
  destruct (allocations sample_state !! sample_relayed) as [a|] eqn:Ha;
    [|exfalso; vm_compute in Ha; discriminate].
  destruct (refresh_counts_from_creation (from_secs 500) sample_relayed 400 a sample_state Ha)
    as (a' & E & _ & _ & _ & Hx).
  exists a'. split; [exact E|]. apply Hx. vm_compute in Ha. injection Ha as <-. vm_compute. reflexivity.
Defined.

(** What a peer sends reaches the client intact: a datagram received on
    the relay socket goes out once, to the allocation's client, through the
    client's registered transport; as ChannelData of the peer's channel when
    the allocation has one, otherwise as a Data indication from which the
    client decodes the peer's address and the same payload. *)
Theorem peer_data_reaches_client `{HashOrder} nanos io data ip port ext rport task reg ch s sender :
  ipv4_ok ip → in_u16 port → bytes_ok data → Z.of_nat (length data) ≤ 65000 →
  task_relayed task = SaV4 ext rport → ipv4_ok ext →
  client_senders reg !! task_client task = Some sender →
  let eff := normalize_peer_addr_for_client (SaV4 ip port) (task_bind_addr task) (task_relayed task) in
  ∃ payload,
    relay_task_step nanos io (SocketRecv (Ok (data, SaV4 ip port))) task reg ch s =
      (Continue, count_relayed (Z.of_nat (length data)) s, [ToClient sender (task_client task) payload]) ∧
    match get_by_peer_for_relayed ch (task_relayed task) eff with
    | Some n => drop 4 payload = data ∧ take 4 payload =
        [as_u8 (Z.shiftr n 8); as_u8 (Z.land n 0xFF);
         Z.of_nat (length data) / 256; Z.of_nat (length data) mod 256]
    | None => ∃ m a, Message_parse payload = Some m ∧
        method (header m) = Data ∧ event_type (header m) = Indication ∧
        get_attribute m PEER_ADDRESS = Some a ∧
        decode_xor_address (value a) MAGIC (transaction_id (header m)) = Some eff ∧
        get_attribute m DATA = Some (mkAttr DATA data)
    end.
Proof.
  intros Hip Hport Hb Hl Hrel Hext Hreg eff.
  unfold relay_task_step, relay_peer_data, send_to_client. fold eff. rewrite Hreg.
  eexists. split; [reflexivity|]. destruct (get_by_peer_for_relayed ch (task_relayed task) eff) as [n|].
  - split; [done|]. unfold channel_data_frame. rewrite as_u16_id by (unfold_words; lia).
    cbn [app take]. rewrite !Z.shiftr_div_pow2 by lia. change 0xFF with (Z.ones 8).
    rewrite !(Z.land_ones _ 8) by lia. repeat f_equal; word_lia.
  - assert (He : ∃ ip' , eff = SaV4 ip' port ∧ ipv4_ok ip').
    { unfold eff, normalize_peer_addr_for_client. rewrite Hrel. case_match; cbn; eauto. }
    destruct He as (ip' & -> & Hip'). by apply data_indication_parses.
Qed.

Definition sample_task : RelayTask :=
  mkTask sample_client (SaV4 (mkIpv4 10 0 0 5) 50000) sample_relayed.
Definition sample_registry : ClientTransportRegistry :=
  mkRegistry None {[ sample_client := StreamClientPacketSender 1 ]}.

Lemma peer_data_reaches_client_witness :
  ∃ payload, @relay_task_step map_order 5 (Ok 3) (SocketRecv (Ok ([1; 2; 3], SaV4 (mkIpv4 192 0 2 9) 700)))
    sample_task sample_registry ChannelTable_new ServerStats_default =
    (Continue, count_relayed 3 ServerStats_default, [ToClient (StreamClientPacketSender 1) sample_client payload]).
Proof.
  destruct (@peer_data_reaches_client map_order 5 (Ok 3) [1; 2; 3] (mkIpv4 192 0 2 9) 700
    (mkIpv4 203 0 113 5) 50000 sample_task sample_registry ChannelTable_new ServerStats_default
    (StreamClientPacketSender 1)) as (payload & E & _).
  all: try (unfold ipv4_ok; unfold_words; cbn; lia).
  all: try reflexivity.
  - repeat constructor; unfold_words; lia.
  - exists payload. exact E.
Defined.

(** Peer traffic is not checked against the permissions: the allocation
    has none, [check_permission] refuses the peer, a datagram to the peer is
    dropped, and a datagram from that peer is still delivered to the client. *)
Theorem peer_data_needs_no_permission :
  let t := sample_state in
  @check_permission _ map_order t sample_client peer_a = false ∧
  (@send_to_peer _ map_order (Ok 0) sample_client peer_a [1] t).1 = (None, []) ∧
  ∃ task payload, tasks t !! 0 = Some task ∧
    (@relay_task_step map_order 0 (Ok 0) (SocketRecv (Ok ([1], peer_a))) task (client_transports t)
      ChannelTable_new (stats t)).2 = [ToClient (UdpClientPacketSender (SaV4 (mkIpv4 10 0 0 5) 50000))
                                         sample_client payload].
Proof.
  split; [vm_compute; reflexivity|]. split; [vm_compute; reflexivity|].
  exists sample_task. eexists. split; [vm_compute; reflexivity|]. vm_compute. reflexivity.
Qed.
