(* ===== verification/Framing.v ===== *)
(** * Framing on stream transports (src/server.rs)

    TCP and TLS carry STUN messages and ChannelData back to back:
    [extract_stream_frame] cuts the next frame off the receive buffer,
    [write_stream_frame] pads ChannelData to a multiple of four.  The read
    loop of a connection is [read_loop]: a chunk is appended to the buffer
    and every complete frame is taken out. *)

From S2P Require Import Prelude RustStd StunMessage.
Local Open Scope Z_scope.

Definition is_channel_number (n : Z) : bool := (0x4000 <=? n) && (n <=? 0x7FFF).

(** [(payload_len + 3) & !3] *)
Definition pad4 (n : Z) : Z := Z.land (n + 3) (Z.lnot 3).

(** The frame and what stays in the buffer. *)
Definition extract_stream_frame (buf : list Z) : option (list Z * list Z) :=
  if decide (length buf < 4)%nat then None else
  let first_word := be16 (byte_at buf 0) (byte_at buf 1) in
  let payload_len := be16 (byte_at buf 2) (byte_at buf 3) in
  let split frame_len :=
    if Z.of_nat (length buf) <? frame_len then None
    else Some (take (Z.to_nat frame_len) buf, drop (Z.to_nat frame_len) buf) in
  if is_channel_number first_word then split (4 + pad4 payload_len)
  else if decide (length buf < 20)%nat then None
  else split (20 + payload_len).

Definition missing_stream_channel_padding (data : list Z) : Z :=
  if decide (length data < 4)%nat then 0 else
  let channel_num := be16 (byte_at data 0) (byte_at data 1) in
  if negb (is_channel_number channel_num) then 0 else
  let payload_len := be16 (byte_at data 2) (byte_at data 3) in
  let unpadded_frame_len := 4 + payload_len in
  if Z.of_nat (length data) <? unpadded_frame_len then 0 else
  let padded_frame_len := 4 + pad4 payload_len in
  saturating_sub padded_frame_len (Z.of_nat (length data)).

(** What a successful [write_stream_frame] puts on the stream; slicing the
    three-byte padding array past its end would panic. *)
Definition write_stream_frame (data : list Z) : outcome (list Z) :=
  let padding_len := missing_stream_channel_padding data in
  if 0 <? padding_len then
    pad ← slice_to [0; 0; 0] (Z.to_nat padding_len);
    Ret (data ++ pad)
  else Ret data.

(** [while let Some(data) = extract_stream_frame(&mut buf)]: one unit of fuel
    per byte is enough, a frame has at least four. *)
Fixpoint drain_frames (fuel : nat) (buf : list Z) : list (list Z) * list Z :=
  match fuel with
  | O => ([], buf)
  | S fuel =>
    match extract_stream_frame buf with
    | None => ([], buf)
    | Some (frame, rest) => let '(frames, rest) := drain_frames fuel rest in (frame :: frames, rest)
    end
  end.
Definition drain (buf : list Z) : list (list Z) * list Z := drain_frames (S (length buf)) buf.

Fixpoint read_loop (buf : list Z) (chunks : list (list Z)) : list (list Z) * list Z :=
  match chunks with
  | [] => ([], buf)
  | c :: chunks =>
    let '(frames, buf) := drain (buf ++ c) in
    let '(frames', buf) := read_loop buf chunks in
    (frames ++ frames', buf)
  end.

(** ** Frames *)

(** A complete STUN message and a complete, unpadded ChannelData message. *)
Definition stun_frame (d : list Z) : Prop :=
  (20 ≤ length d)%nat ∧ is_channel_number (be16 (byte_at d 0) (byte_at d 1)) = false ∧
  Z.of_nat (length d) = 20 + be16 (byte_at d 2) (byte_at d 3).
Definition channel_frame (d : list Z) : Prop :=
  (4 ≤ length d)%nat ∧ is_channel_number (be16 (byte_at d 0) (byte_at d 1)) = true ∧
  Z.of_nat (length d) = 4 + be16 (byte_at d 2) (byte_at d 3).

Definition on_wire (d : list Z) : list Z :=
  d ++ replicate (Z.to_nat (missing_stream_channel_padding d)) 0.

(** ** Lemmas *)

Lemma pad4_spec n : 0 ≤ n → n ≤ pad4 n < n + 4 ∧ pad4 n = (n + 3) / 4 * 4.
Proof.
  intros Hn. assert (E : pad4 n = (n + 3) / 4 * 4).
  { unfold pad4. change 3 with (Z.ones 2) at 2. rewrite <- Z.ldiff_land, Z.ldiff_ones_r by lia.
    rewrite Z.shiftl_mul_pow2, Z.shiftr_div_pow2 by lia. done. }
  rewrite E. word_lia.
Qed.

Lemma extract_length buf f rest :
  bytes_ok buf → extract_stream_frame buf = Some (f, rest) →
  f ++ rest = buf ∧ (4 ≤ length f)%nat ∧ (length rest + length f = length buf)%nat ∧ bytes_ok rest.
Proof.
  intros Hb. unfold extract_stream_frame. case_decide; [done|].
  set (p := be16 (byte_at buf 2) (byte_at buf 3)).
  assert (Hp : in_u16 p) by (apply be16_range; auto with miu).
  destruct (pad4_spec p) as [Hpad _]; [unfold_words; lia|]. unfold_words.
  assert (Hcut : ∀ n, 4 ≤ n → (if Z.of_nat (length buf) <? n then None
     else Some (take (Z.to_nat n) buf, drop (Z.to_nat n) buf)) = Some (f, rest) →
     f ++ rest = buf ∧ (4 ≤ length f)%nat ∧ (length rest + length f = length buf)%nat ∧ bytes_ok rest).
  { intros n Hn. destruct (Z.ltb_spec (Z.of_nat (length buf)) n); [done|]. intros [= <- <-].
    rewrite length_take, length_drop, take_drop. split_and!; [done|lia|lia|by apply Forall_drop]. }
  destruct (is_channel_number _); [apply Hcut; lia|]. case_decide; [done|]. apply Hcut. lia.
Qed.

(** More data behind a complete frame does not change it. *)
Lemma extract_app buf more f rest :
  bytes_ok buf → extract_stream_frame buf = Some (f, rest) →
  extract_stream_frame (buf ++ more) = Some (f, rest ++ more).
Proof.
  intros Hb. unfold extract_stream_frame. case_decide as H4; [done|].
  rewrite (decide_False (P := (length (buf ++ more) < 4)%nat)) by (rewrite length_app; lia).
  rewrite !byte_at_app_l by lia.
  set (p := be16 (byte_at buf 2) (byte_at buf 3)).
  assert (Hcut : ∀ n, (if Z.of_nat (length buf) <? n then None
     else Some (take (Z.to_nat n) buf, drop (Z.to_nat n) buf)) = Some (f, rest) →
     (if Z.of_nat (length (buf ++ more)) <? n then None
     else Some (take (Z.to_nat n) (buf ++ more), drop (Z.to_nat n) (buf ++ more))) = Some (f, rest ++ more)).
  { intros n. destruct (Z.ltb_spec (Z.of_nat (length buf)) n); [done|]. intros [= <- <-].
    rewrite length_app. destruct (Z.ltb_spec (Z.of_nat (length buf + length more)) n); [lia|].
    rewrite take_app_le, drop_app_le by lia. done. }
  destruct (is_channel_number _); [apply Hcut|]. case_decide; [done|].
  rewrite (decide_False (P := (length (buf ++ more) < 20)%nat)) by (rewrite length_app; lia).
  apply Hcut.
Qed.

Lemma drain_fuel f1 f2 buf :
  bytes_ok buf → (length buf < f1)%nat → (length buf < f2)%nat →
  drain_frames f1 buf = drain_frames f2 buf.
Proof.
  revert f2 buf. induction f1 as [|f1 IH]; intros [|f2] buf Hb H1 H2; [lia..|]. cbn.
  destruct (extract_stream_frame buf) as [[f rest]|] eqn:E; [|done].
  apply extract_length in E as (_ & ? & ? & ?); [|done]. by rewrite (IH f2) by (done || lia).
Qed.

Lemma drain_eq buf :
  bytes_ok buf →
  drain buf = match extract_stream_frame buf with
              | None => ([], buf)
              | Some (f, rest) => (f :: (drain rest).1, (drain rest).2)
              end.
Proof.
  intros Hb. unfold drain at 1. cbn [drain_frames].
  destruct (extract_stream_frame buf) as [[f rest]|] eqn:E; [|done].
  apply extract_length in E as (_ & ? & ? & ?); [|done].
  rewrite (drain_fuel (length buf) (S (length rest))) by (done || lia).
  fold (drain rest). by destruct (drain rest).
Qed.

(** Draining is complete and loses nothing. *)
Lemma drain_spec buf :
  bytes_ok buf →
  concat (drain buf).1 ++ (drain buf).2 = buf ∧ extract_stream_frame (drain buf).2 = None ∧
  bytes_ok (drain buf).2.
Proof.
  remember (length buf) as n eqn:Hn. revert buf Hn.
  induction (lt_wf n) as [n _ IH]. intros buf -> Hb. rewrite drain_eq by done.
  destruct (extract_stream_frame buf) as [[f rest]|] eqn:E; [|done].
  apply extract_length in E as (<- & ? & ? & ?); [|done].
  destruct (IH (length rest) ltac:(rewrite length_app; lia) rest eq_refl) as (Hc & ? & ?); [done|].
  cbn [fst snd concat]. by rewrite <- app_assoc, Hc.
Qed.

(** Reading in pieces is reading at once. *)
Lemma drain_app buf more :
  bytes_ok buf → bytes_ok more →
  drain (buf ++ more) =
  ((drain buf).1 ++ (drain ((drain buf).2 ++ more)).1, (drain ((drain buf).2 ++ more)).2).
Proof.
  remember (length buf) as n eqn:Hn. revert buf Hn.
  induction (lt_wf n) as [n _ IH]. intros buf -> Hb Hm. rewrite (drain_eq buf) by done.
  destruct (extract_stream_frame buf) as [[f rest]|] eqn:E; [|cbn [fst snd app]; apply surjective_pairing].
  rewrite drain_eq by (by apply bytes_ok_app). rewrite (extract_app buf more f rest) by done.
  apply extract_length in E as (_ & ? & ? & ?); [|done].
  by rewrite (IH (length rest) ltac:(lia) rest eq_refl).
Qed.

Lemma bytes_ok_concat l : Forall bytes_ok l → bytes_ok (concat l).
Proof. induction 1; [constructor|]. cbn. by apply bytes_ok_app. Qed.

Lemma read_loop_drain chunks buf :
  bytes_ok buf → Forall bytes_ok chunks → extract_stream_frame buf = None →
  read_loop buf chunks = drain (buf ++ concat chunks).
Proof.
  intros Hb Hc. revert buf Hb. induction Hc as [|c chunks Hc Hcs IH]; intros buf Hb Hn; cbn [read_loop concat].
  - rewrite app_nil_r, drain_eq by done. by rewrite Hn.
  - assert (Hbc : bytes_ok (buf ++ c)) by (by apply bytes_ok_app).
    destruct (drain_spec (buf ++ c) Hbc) as (_ & Hnone & Hok).
    rewrite app_assoc, (drain_app (buf ++ c)) by (done || by apply bytes_ok_concat).
    destruct (drain (buf ++ c)) as [frames rest]. cbn [fst snd] in *.
    rewrite IH by done. by destruct (drain (rest ++ concat chunks)).
Qed.

(** The padding is at most three bytes, so the write cannot panic. *)
Lemma padding_bound d : bytes_ok d → 0 ≤ missing_stream_channel_padding d ≤ 3.
Proof.
  intros Hb. unfold missing_stream_channel_padding. case_decide; [lia|].
  set (p := be16 (byte_at d 2) (byte_at d 3)).
  assert (Hp : in_u16 p) by (apply be16_range; auto with miu).
  destruct (pad4_spec p) as [Hpad _]; [unfold_words; lia|].
  destruct (negb _); [lia|]. destruct (Z.ltb_spec (Z.of_nat (length d)) (4 + p)); [lia|].
  unfold saturating_sub. lia.
Qed.

Lemma write_stream_frame_total d : bytes_ok d → write_stream_frame d = Ret (on_wire d).
Proof.
  intros Hb. pose proof (padding_bound d Hb) as Hp. unfold write_stream_frame, on_wire.
  set (n := missing_stream_channel_padding d) in *. clearbody n.
  destruct (Z.ltb_spec 0 n).
  - assert (n = 1 ∨ n = 2 ∨ n = 3) as [-> |[-> | ->]] by lia; done.
  - replace n with 0 by lia. by rewrite app_nil_r.
Qed.

Lemma on_wire_stun d : stun_frame d → on_wire d = d.
Proof.
  intros (H20 & Hch & _). unfold on_wire, missing_stream_channel_padding.
  case_decide; [by rewrite app_nil_r|]. rewrite Hch. by rewrite app_nil_r.
Qed.

Lemma on_wire_channel d :
  bytes_ok d → channel_frame d →
  missing_stream_channel_padding d = pad4 (be16 (byte_at d 2) (byte_at d 3)) - be16 (byte_at d 2) (byte_at d 3).
Proof.
  intros Hb (H4 & Hch & Hl). unfold missing_stream_channel_padding. rewrite decide_False by lia.
  rewrite Hch. cbn [negb]. set (p := be16 (byte_at d 2) (byte_at d 3)) in *.
  assert (Hp : in_u16 p) by (apply be16_range; auto with miu).
  destruct (pad4_spec p) as [Hpad _]; [unfold_words; lia|].
  destruct (Z.ltb_spec (Z.of_nat (length d)) (4 + p)); [lia|]. unfold saturating_sub. lia.
Qed.

(** A frame at the head of the buffer is what comes out, padding included. *)
Lemma extract_on_wire d rest :
  bytes_ok d → stun_frame d ∨ channel_frame d →
  extract_stream_frame (on_wire d ++ rest) = Some (on_wire d, rest).
Proof.
  intros Hb Hd. assert (H4 : (4 ≤ length d)%nat).
  { destruct Hd as [(? & _ & _)|(? & _ & _)]; lia. }
  assert (Hbyte : ∀ i, (i < 4)%nat → byte_at (on_wire d ++ rest) i = byte_at d i).
  { intros i Hi. unfold on_wire. rewrite <- app_assoc. apply byte_at_app_l. lia. }
  assert (Hcut : ∀ n, n = Z.of_nat (length (on_wire d)) →
    (if Z.of_nat (length (on_wire d ++ rest)) <? n then None
     else Some (take (Z.to_nat n) (on_wire d ++ rest), drop (Z.to_nat n) (on_wire d ++ rest))) =
    Some (on_wire d, rest)).
  { intros n ->. rewrite length_app. destruct (Z.ltb_spec (Z.of_nat (length (on_wire d) + length rest))
      (Z.of_nat (length (on_wire d)))); [lia|].
    rewrite Nat2Z.id, take_app_length, drop_app_length. done. }
  assert (Hlen : (length d ≤ length (on_wire d))%nat) by (unfold on_wire; rewrite length_app; lia).
  unfold extract_stream_frame. rewrite decide_False by (rewrite length_app; lia).
  rewrite !Hbyte by lia. destruct Hd as [Hs|Hc].
  - pose proof (on_wire_stun d Hs) as E. destruct Hs as (? & -> & Hl).
    rewrite decide_False by (rewrite length_app; lia). apply Hcut. rewrite E. lia.
  - pose proof (on_wire_channel d Hb Hc) as E. pose proof (padding_bound d Hb).
    destruct Hc as (? & -> & Hl). apply Hcut. unfold on_wire. rewrite length_app, length_replicate. lia.
Qed.

Lemma bytes_ok_on_wire d : bytes_ok d → bytes_ok (on_wire d).
Proof. intros. apply bytes_ok_app. split; [done|]. by apply Forall_replicate. Qed.

Lemma drain_on_wire msgs :
  Forall bytes_ok msgs → Forall (λ d, stun_frame d ∨ channel_frame d) msgs →
  drain (concat (map on_wire msgs)) = (map on_wire msgs, []).
Proof.
  intros Hb Hf. induction msgs as [|d msgs IH]; [done|].
  apply list.Forall_cons in Hb as [Hb Hbs], Hf as [Hf Hfs]. cbn [map concat].
  rewrite drain_eq.
  - rewrite extract_on_wire by done. by rewrite IH.
  - apply bytes_ok_app. split; [by apply bytes_ok_on_wire|]. apply bytes_ok_concat.
    clear -Hbs. induction Hbs; constructor; [by apply bytes_ok_on_wire|done].
Qed.

(** What the encoder writes is a STUN frame. *)
Lemma encoded_message_frame m : msg_ok m → stun_frame (Message_encode m).
Proof.
  intros Hm. assert (Hl : length (Message_encode m) = (20 + length (encode_attributes (attributes m)))%nat).
  { unfold Message_encode. rewrite length_app, MessageHeader_encode_length; [done|]. apply Hm. }
  destruct Hm as (Ht & _ & Hs). split; [lia|].
  rewrite Hl. unfold Message_encode, MessageHeader_encode, set_length, byte_at.
  cbn [method event_type message_length put_u16 app nth].
  rewrite !be16_put by (apply msg_type_range || apply as_u16_range).
  rewrite as_u16_id by (unfold_words; lia). split; [|lia].
  by destruct (method (header m)), (event_type (header m)).
Qed.

(** ** Properties *)

(** Stream reassembly does not depend on how the bytes arrive: for every
    way the stream is cut into reads, the frames taken out and the bytes left
    in the buffer are the same as if all of it had arrived at once; no byte is
    lost or reordered, and no complete frame is left waiting. *)
Theorem reassembly_chunking_independent (chunks : list (list Z)) :
  Forall bytes_ok chunks →
  read_loop [] chunks = drain (concat chunks) ∧
  concat (read_loop [] chunks).1 ++ (read_loop [] chunks).2 = concat chunks ∧
  extract_stream_frame (read_loop [] chunks).2 = None.
Proof.
  intros Hc. rewrite read_loop_drain by (done || constructor). cbn [app].
  destruct (drain_spec (concat chunks) (bytes_ok_concat _ Hc)) as (? & ? & _). done.
Qed.

Definition sample_frames : list (list Z) :=
  [Message_encode sample_msg; [0x40; 0x01; 0; 5; 1; 2; 3; 4; 5]; [0x40; 0x02; 0; 0]].
Definition sample_chunks : list (list Z) :=
  let s := concat (map on_wire sample_frames) in [take 3 s; slice s 3 50; []; drop 50 s].

Lemma sample_chunks_ok : Forall bytes_ok sample_chunks.
Proof. apply (bool_decide_unpack _). vm_compute. exact I. Qed.

Lemma reassembly_chunking_independent_witness :
  length (read_loop [] sample_chunks).1 = 3%nat ∧
  read_loop [] sample_chunks = drain (concat sample_chunks).
Proof.
  split; [vm_compute; reflexivity|].
  apply (reassembly_chunking_independent sample_chunks sample_chunks_ok).
Defined.

(** C15. Stream round trip: whatever sequence of STUN and ChannelData messages
    is written with [write_stream_frame], however the stream is cut on the
    way, the reader gets exactly that sequence, each ChannelData message
    followed by its zero padding, and an empty buffer.  Writing never panics. *)
Theorem stream_roundtrip (msgs chunks : list (list Z)) :
  Forall bytes_ok msgs → Forall (λ d, stun_frame d ∨ channel_frame d) msgs →
  Forall bytes_ok chunks → concat chunks = concat (map on_wire msgs) →
  read_loop [] chunks = (map on_wire msgs, []) ∧
  Forall (λ d, write_stream_frame d = Ret (on_wire d)) msgs ∧
  Forall (λ d, stun_frame d → on_wire d = d) msgs ∧
  Forall (λ d, take (length d) (on_wire d) = d ∧ (length (on_wire d) < length d + 4)%nat) msgs.
Proof.
  intros Hb Hf Hc E. rewrite read_loop_drain by (done || constructor). cbn [app]. rewrite E.
  split; [by apply drain_on_wire|]. split_and!.
  - eapply Forall_impl; [exact Hb|]. apply write_stream_frame_total.
  - apply Forall_true. apply on_wire_stun.
  - eapply Forall_impl; [exact Hb|]. intros d Hd. cbn. pose proof (padding_bound d Hd).
    unfold on_wire. rewrite take_app_length, length_app, length_replicate. split; [done|lia].
Qed.

Lemma stream_roundtrip_witness :
  read_loop [] sample_chunks = (map on_wire sample_frames, []).
Proof.
  apply (stream_roundtrip sample_frames sample_chunks).
  - apply (bool_decide_unpack _). vm_compute. exact I.
  - apply list.Forall_cons. split; [left; apply encoded_message_frame; apply (bool_decide_unpack _); vm_compute; exact I|].
    repeat constructor; right; (split; [cbn; lia|]); (split; reflexivity).
  - exact sample_chunks_ok.
  - vm_compute. reflexivity.
Defined.

(** The receive buffer is bounded by one frame: after the frames are taken
    out fewer than 65556 bytes wait, so what a client sends can never reach
    the ten-megabyte limit of the connection. *)
Theorem stream_buffer_bounded (chunks : list (list Z)) :
  Forall bytes_ok chunks →
  Z.of_nat (length (read_loop [] chunks).2) < 65556.
Proof.
  intros Hc. rewrite read_loop_drain by (done || constructor). cbn [app].
  destruct (drain_spec (concat chunks) (bytes_ok_concat _ Hc)) as (_ & Hn & Hb).
  set (buf := (drain (concat chunks)).2) in *. clearbody buf. revert Hn. unfold extract_stream_frame.
  case_decide; [lia|]. set (p := be16 (byte_at buf 2) (byte_at buf 3)).
  assert (Hp : in_u16 p) by (apply be16_range; auto with miu).
  destruct (pad4_spec p) as [Hpad _]; [unfold_words; lia|]. unfold_words.
  destruct (is_channel_number _).
  - destruct (Z.ltb_spec (Z.of_nat (length buf)) (4 + pad4 p)); [lia|done].
  - case_decide; [lia|]. destruct (Z.ltb_spec (Z.of_nat (length buf)) (20 + p)); [lia|done].
Qed.

Lemma stream_buffer_bounded_witness :
  Z.of_nat (length (read_loop [] [[0; 1; 255; 255; 0; 0]; [7]]).2) < 65556.
Proof.
  apply (stream_buffer_bounded [[0; 1; 255; 255; 0; 0]; [7]]).
  apply (bool_decide_unpack _). vm_compute. exact I.
Defined.
