(* ===== verification/Crypto.v ===== *)
(** * Cryptographic crates

    HMAC-SHA1, MD5 and the hex codec come from third-party crates.  They are
    the parameters of [Crypto]; [CryptoLaws] is what their documentation
    promises.  [toy_crypto] is an executable instance, for the examples. *)

From S2P Require Import Prelude RustStd.
Local Open Scope Z_scope.

Class Crypto := {
  hmac_sha1 : list Z → list Z → list Z;
  md5 : list Z → list Z;
  hex_encode : list Z → string
}.

(** HMAC-SHA1 yields 20 bytes for every key and message (RFC 2104), and hex
    text is ASCII and determines its bytes. *)
Class CryptoLaws `{Crypto} : Prop := {
  hmac_length : ∀ key data, length (hmac_sha1 key data) = 20%nat;
  hmac_bytes : ∀ key data, bytes_ok (hmac_sha1 key data);
  hex_ascii : ∀ b, bytes_ok b → ascii_str (hex_encode b) ∧ String.length (hex_encode b) = (2 * length b)%nat
}.

(** ** A concrete instance of the cryptographic parameters, for the examples *)

Fixpoint hex_text (l : list Z) : string :=
  match l with
  | [] => ""
  | b :: l => String (hex_digit (b / 16)) (String (hex_digit (b mod 16)) (hex_text l))
  end.

Definition toy_crypto : Crypto := {|
  hmac_sha1 key data :=
    map as_u8 (take 20 (key ++ (foldr Z.add 7 data :: replicate 20 (Z.of_nat (length data)))));
  md5 data := map as_u8 (take 16 (foldr (λ b h, h * 31 + b) 7 data :: data ++ replicate 16 0));
  hex_encode := hex_text
|}.

Lemma hex_digit_ascii d : 0 ≤ d < 16 → 0 ≤ ascii_Z (hex_digit d) < 128.
Proof.
  intros Hd. unfold hex_digit. destruct (Z.ltb_spec d 10); rewrite ascii_Z_ascii by (unfold_words; lia); lia.
Qed.

Lemma toy_laws : @CryptoLaws toy_crypto.
Proof.
  split.
  - intros key data. cbn [hmac_sha1 toy_crypto]. rewrite length_map, length_take, length_app. cbn [length].
    rewrite length_replicate. lia.
  - intros key data. cbn [hmac_sha1 toy_crypto]. apply list.Forall_forall. intros x Hx.
    apply list_elem_of_In, in_map_iff in Hx as (y & <- & _). word_lia.
  - intros b Hb. cbn [hex_encode toy_crypto]. induction Hb as [|x l Hx _ IH]; [by repeat constructor|].
    destruct IH as [IH1 IH2]. cbn [hex_text String.length length]. split; [|lia].
    repeat constructor; [apply hex_digit_ascii; word_lia..|done].
Qed.
