(* ===== verification/ShortTerm.v ===== *)
(** * Short-term credentials (src/short_term.rs)

    The TURN REST API scheme: the user name is the expiry time and a user id,
    the password a MAC of it.  [now] is the Unix time the call reads. *)

From S2P Require Import Prelude RustStd Crypto.
From Stdlib Require Import Ascii.
Local Open Scope Z_scope.

Record ShortTermCredentialManager := mkShortTerm {
  secret_key : list Z;
  default_lifetime_secs : Z
}.

Definition ShortTermCredentialManager_new (secret : string) : ShortTermCredentialManager :=
  mkShortTerm (str_bytes secret) 3600.
Definition with_lifetime (secs : Z) (m : ShortTermCredentialManager) : ShortTermCredentialManager :=
  mkShortTerm (secret_key m) secs.

Section creds.
Context `{CR : Crypto}.

Definition compute_password (m : ShortTermCredentialManager) (name : string) : string :=
  hex_encode (hmac_sha1 (secret_key m) (str_bytes name)).

(** (user name, password, expiry); the sum of seconds wraps at 64 bits. *)
Definition generate (now : Z) (m : ShortTermCredentialManager) (user_id : string) (life : option Z)
    : string * string * Z :=
  let life := match life with Some l => l | None => default_lifetime_secs m end in
  let timestamp := as_u64 (now + life) in
  let name := (dec_string timestamp +:+ ":" +:+ user_id) in
  (name, compute_password m name, timestamp).

Definition verify (now : Z) (m : ShortTermCredentialManager) (name pw : string) : bool :=
  match split_on ":"%char name with
  | [ts; _] =>
    match parse_uint U64_MAX ts with
    | None => false
    | Some timestamp => if timestamp <? now then false else str_eqb (compute_password m name) pw
    end
  | _ => false
  end.
End creds.

Definition parse_username (name : string) : option (Z * string) :=
  match split_on ":"%char name with
  | [ts; user_id] => timestamp ← parse_uint U64_MAX ts; Some (timestamp, user_id)
  | _ => None
  end.

Definition is_expired (now : Z) (name : string) : bool :=
  match parse_username name with
  | Some (timestamp, _) => timestamp <? now
  | None => true
  end.

(** ** Lemmas *)

Lemma split_name ts user_id :
  split_on ":"%char (dec_string ts +:+ ":" +:+ user_id) = dec_string ts :: split_on ":"%char user_id.
Proof.
  rewrite str_app_cons, str_app_nil. apply split_on_app. by apply dec_string_contains.
Qed.

Lemma split_on_contains c s : str_contains c s = true → (2 ≤ length (split_on c s))%nat.
Proof.
  induction s as [|a s IH]; [done|]. cbn. destruct (ascii_dec a c).
  - intros _. cbn. pose proof (split_on_nonempty c s) as Hne. revert Hne. destruct (split_on c s); [done|cbn; lia].
  - intros H. specialize (IH H). revert IH. destruct (split_on c s); cbn; lia.
Qed.

Lemma verify_generated `{CR : Crypto} now0 now m user_id life :
  let '(name, pw, expiry) := generate now0 m user_id life in
  verify now m name pw = negb (str_contains ":"%char user_id) && (now <=? expiry).
Proof.
  unfold generate. set (ts := as_u64 _). assert (Hts : in_u64 ts) by apply as_u64_range. clearbody ts.
  unfold verify. rewrite split_name. destruct (str_contains ":"%char user_id) eqn:Hc; cbn [negb andb].
  - pose proof (split_on_contains _ _ Hc) as Hl.
    destruct (split_on ":"%char user_id) as [|x [|y l]]; cbn in Hl; [lia|lia|done].
  - rewrite split_on_none by done. rewrite parse_uint_dec by (unfold_words; lia).
    destruct (Z.ltb_spec ts now), (Z.leb_spec now ts); try lia. by apply str_eqb_eq.
Qed.

Lemma generate_parses `{CR : Crypto} now m user_id life :
  str_contains ":"%char user_id = false →
  let '(name, _, expiry) := generate now m user_id life in parse_username name = Some (expiry, user_id).
Proof.
  intros Hc. unfold generate. set (ts := as_u64 _). assert (Hts : in_u64 ts) by apply as_u64_range. clearbody ts.
  unfold parse_username. rewrite split_name, split_on_none by done.
  by rewrite parse_uint_dec by (unfold_words; lia).
Qed.

(** ** Properties *)

(** A credential the server hands out is accepted until it expires and not
    after, and its user name parses back to the expiry and the user id, for
    every user id without a colon; a user id with a colon gets a credential
    that is never accepted. *)
Theorem short_term_lifecycle `{CR : Crypto} now0 m user_id life :
  let '(name, pw, expiry) := generate now0 m user_id life in
  expiry = as_u64 (now0 + default (default_lifetime_secs m) life) ∧
  (str_contains ":"%char user_id = false →
     parse_username name = Some (expiry, user_id) ∧
     ∀ now, verify now m name pw = negb (is_expired now name) ∧ (is_expired now name = false ↔ now ≤ expiry)) ∧
  (str_contains ":"%char user_id = true → ∀ now, verify now m name pw = false).
Proof.
  pose proof (λ now, verify_generated now0 now m user_id life) as Hv. unfold generate in *.
  set (ts := as_u64 _) in *. assert (Hts : in_u64 ts) by apply as_u64_range.
  split; [by destruct life|]. split.
  - intros Hc. pose proof (generate_parses now0 m user_id life Hc) as Hp. unfold generate in Hp. fold ts in Hp.
    split; [done|]. intros now. rewrite Hv, Hc. unfold is_expired. rewrite Hp. cbn [negb andb].
    destruct (Z.ltb_spec ts now), (Z.leb_spec now ts); cbn; split; (done || lia).
  - intros Hc now. by rewrite Hv, Hc.
Qed.

(** Only the holder of the secret can make a credential: what [verify]
    accepts is a user name of the form expiry:id that has not expired, with
    exactly the MAC of the name as the password. *)
Theorem short_term_verify_sound `{CR : Crypto} now m name pw :
  verify now m name pw = true ↔
  ∃ expiry user_id, parse_username name = Some (expiry, user_id) ∧ now ≤ expiry ∧
    pw = hex_encode (hmac_sha1 (secret_key m) (str_bytes name)).
Proof.
  unfold verify, parse_username. destruct (split_on ":"%char name) as [|ts [|uid [|]]]; cbn;
    try naive_solver. destruct (parse_uint U64_MAX ts) as [t|]; cbn; [|naive_solver].
  destruct (Z.ltb_spec t now).
  - split; [done|]. intros (e & u & [= <- <-] & ? & _). lia.
  - rewrite str_eqb_eq. unfold compute_password. split.
    + intros <-. eauto.
    + intros (e & u & [= <- <-] & _ & ->). done.
Qed.
