(* ===== verification/Metrics.v ===== *)
(** * Prometheus metrics (src/metrics.rs)

    The counters behind one lock, their updates, the snapshot and the text
    exposition.  Counters are 64-bit and wrap. *)

From S2P Require Import Prelude RustStd.
From Stdlib Require Import Ascii.
Local Open Scope Z_scope.

Record MetricsInner := mkMetrics {
  m_total_allocations : Z;
  m_active_allocations : Z;
  m_total_bytes_relayed : Z;
  m_total_messages : Z;
  m_total_requests : Z;
  m_successful_requests : Z;
  m_failed_requests : Z;
  m_auth_failures : Z;
  m_total_channel_binds : Z;
  m_active_channels : Z;
  m_last_request_duration_ms : Z;
  m_start_time : Z
}.

Definition Metrics_new (now : Z) : MetricsInner := mkMetrics 0 0 0 0 0 0 0 0 0 0 0 now.

Definition record_allocation (m : MetricsInner) : MetricsInner :=
  mkMetrics (as_u64 (m_total_allocations m + 1)) (as_u64 (m_active_allocations m + 1))
    (m_total_bytes_relayed m) (m_total_messages m) (m_total_requests m) (m_successful_requests m)
    (m_failed_requests m) (m_auth_failures m) (m_total_channel_binds m) (m_active_channels m)
    (m_last_request_duration_ms m) (m_start_time m).

Definition record_allocation_dropped (m : MetricsInner) : MetricsInner :=
  mkMetrics (m_total_allocations m)
    (if 0 <? m_active_allocations m then m_active_allocations m - 1 else m_active_allocations m)
    (m_total_bytes_relayed m) (m_total_messages m) (m_total_requests m) (m_successful_requests m)
    (m_failed_requests m) (m_auth_failures m) (m_total_channel_binds m) (m_active_channels m)
    (m_last_request_duration_ms m) (m_start_time m).

Definition record_bytes_relayed (bytes : Z) (m : MetricsInner) : MetricsInner :=
  mkMetrics (m_total_allocations m) (m_active_allocations m)
    (as_u64 (m_total_bytes_relayed m + bytes)) (as_u64 (m_total_messages m + 1)) (m_total_requests m)
    (m_successful_requests m) (m_failed_requests m) (m_auth_failures m) (m_total_channel_binds m)
    (m_active_channels m) (m_last_request_duration_ms m) (m_start_time m).

(** [duration] in nanoseconds. *)
Definition record_request (success : bool) (duration : Z) (auth_failed : bool) (m : MetricsInner)
    : MetricsInner :=
  mkMetrics (m_total_allocations m) (m_active_allocations m) (m_total_bytes_relayed m) (m_total_messages m)
    (as_u64 (m_total_requests m + 1))
    (if success then as_u64 (m_successful_requests m + 1) else m_successful_requests m)
    (if success then m_failed_requests m else as_u64 (m_failed_requests m + 1))
    (if auth_failed then as_u64 (m_auth_failures m + 1) else m_auth_failures m)
    (m_total_channel_binds m) (m_active_channels m) (as_u64 (duration / 1000000)) (m_start_time m).

Definition record_channel_bind (m : MetricsInner) : MetricsInner :=
  mkMetrics (m_total_allocations m) (m_active_allocations m) (m_total_bytes_relayed m) (m_total_messages m)
    (m_total_requests m) (m_successful_requests m) (m_failed_requests m) (m_auth_failures m)
    (as_u64 (m_total_channel_binds m + 1)) (as_u64 (m_active_channels m + 1))
    (m_last_request_duration_ms m) (m_start_time m).

Definition record_channel_unbind (m : MetricsInner) : MetricsInner :=
  mkMetrics (m_total_allocations m) (m_active_allocations m) (m_total_bytes_relayed m) (m_total_messages m)
    (m_total_requests m) (m_successful_requests m) (m_failed_requests m) (m_auth_failures m)
    (m_total_channel_binds m)
    (if 0 <? m_active_channels m then m_active_channels m - 1 else m_active_channels m)
    (m_last_request_duration_ms m) (m_start_time m).

Record MetricsSnapshot := mkSnapshot {
  s_total_allocations : Z;
  s_active_allocations : Z;
  s_total_bytes_relayed : Z;
  s_total_messages : Z;
  s_total_requests : Z;
  s_successful_requests : Z;
  s_failed_requests : Z;
  s_auth_failures : Z;
  s_total_channel_binds : Z;
  s_active_channels : Z;
  s_last_request_duration_ms : Z;
  s_uptime_secs : Z
}.

Definition Metrics_snapshot (now : Z) (m : MetricsInner) : MetricsSnapshot :=
  mkSnapshot (m_total_allocations m) (m_active_allocations m) (m_total_bytes_relayed m)
    (m_total_messages m) (m_total_requests m) (m_successful_requests m) (m_failed_requests m)
    (m_auth_failures m) (m_total_channel_binds m) (m_active_channels m)
    (m_last_request_duration_ms m) (as_secs (elapsed now (m_start_time m))).

Definition newline : ascii := "010"%char.
Definition nl : string := String newline "".

(** One metric's three [push_str] calls. *)
Definition prom_entry (name help kind : string) (v : Z) : string :=
  "# HELP " +:+ name +:+ " " +:+ help +:+ nl +:+
  "# TYPE " +:+ name +:+ " " +:+ kind +:+ nl +:+
  name +:+ " " +:+ dec_string v +:+ nl.

Definition prom_metrics (s : MetricsSnapshot) : list (string * string * string * Z) :=
  [("turn_total_allocations", "Total number of allocations created", "counter", s_total_allocations s);
   ("turn_active_allocations", "Current number of active allocations", "gauge", s_active_allocations s);
   ("turn_total_bytes_relayed", "Total bytes relayed", "counter", s_total_bytes_relayed s);
   ("turn_total_messages", "Total messages relayed", "counter", s_total_messages s);
   ("turn_total_requests", "Total TURN requests received", "counter", s_total_requests s);
   ("turn_successful_requests", "Successful requests", "counter", s_successful_requests s);
   ("turn_failed_requests", "Failed requests", "counter", s_failed_requests s);
   ("turn_auth_failures", "Authentication failures", "counter", s_auth_failures s);
   ("turn_total_channel_binds", "Total channel binds", "counter", s_total_channel_binds s);
   ("turn_active_channels", "Current active channels", "gauge", s_active_channels s);
   ("turn_request_duration_ms", "Last request duration", "gauge", s_last_request_duration_ms s);
   ("turn_uptime_seconds", "Server uptime", "gauge", s_uptime_secs s)]%string.

Definition export_prometheus (now : Z) (m : MetricsInner) : string :=
  foldr (λ '(name, help, kind, v) acc, prom_entry name help kind v +:+ acc) ""%string
    (prom_metrics (Metrics_snapshot now m)).

(** ** A history of updates *)

Inductive MetricsEvent :=
| EvAllocation
| EvAllocationDropped
| EvBytes (n : Z)
| EvRequest (success : bool) (duration : Z) (auth_failed : bool)
| EvChannelBind
| EvChannelUnbind.

Definition apply_event (m : MetricsInner) (e : MetricsEvent) : MetricsInner :=
  match e with
  | EvAllocation => record_allocation m
  | EvAllocationDropped => record_allocation_dropped m
  | EvBytes n => record_bytes_relayed n m
  | EvRequest ok d af => record_request ok d af m
  | EvChannelBind => record_channel_bind m
  | EvChannelUnbind => record_channel_unbind m
  end.

Definition requests (es : list MetricsEvent) : list (bool * bool) :=
  omap (λ e, match e with EvRequest ok _ af => Some (ok, af) | _ => None end) es.
Definition count_if {A} (p : A → bool) (l : list A) : Z := Z.of_nat (length (List.filter p l)).

Definition metrics_ok (m : MetricsInner) : Prop :=
  in_u64 (m_total_allocations m) ∧ in_u64 (m_active_allocations m) ∧ in_u64 (m_total_bytes_relayed m) ∧
  in_u64 (m_total_messages m) ∧ in_u64 (m_total_requests m) ∧ in_u64 (m_successful_requests m) ∧
  in_u64 (m_failed_requests m) ∧ in_u64 (m_auth_failures m) ∧ in_u64 (m_total_channel_binds m) ∧
  in_u64 (m_active_channels m) ∧ in_u64 (m_last_request_duration_ms m).

(** ** Lemmas *)

Lemma apply_event_ok m e : metrics_ok m → metrics_ok (apply_event m e).
Proof.
  unfold metrics_ok. intros (? & ? & ? & ? & ? & ? & ? & ? & ? & ? & ?).
  assert (Hdec : ∀ x, in_u64 x → in_u64 (if 0 <? x then x - 1 else x)).
  { intros x Hx. destruct (Z.ltb_spec 0 x); unfold_words; lia. }
  destruct e as [| |n|[] d []| |]; cbn [apply_event]; unfold record_allocation, record_allocation_dropped,
    record_bytes_relayed, record_request, record_channel_bind, record_channel_unbind; cbn;
    do 10 (split; [auto using as_u64_range|]); auto using as_u64_range.
Qed.

Lemma count_if_cons {A} (p : A → bool) x l : count_if p (x :: l) = (if p x then 1 else 0) + count_if p l.
Proof. unfold count_if. cbn. destruct (p x); cbn; lia. Qed.

Lemma as_u64_add x y : as_u64 (as_u64 x + y) = as_u64 (x + y).
Proof. unfold as_u64, wrap. apply Zplus_mod_idemp_l. Qed.

Lemma request_counts es m :
  metrics_ok m →
  let m' := fold_left apply_event es m in
  m_total_requests m' = as_u64 (m_total_requests m + Z.of_nat (length (requests es))) ∧
  m_successful_requests m' = as_u64 (m_successful_requests m + count_if fst (requests es)) ∧
  m_failed_requests m' = as_u64 (m_failed_requests m + count_if (λ r, negb r.1) (requests es)) ∧
  m_auth_failures m' = as_u64 (m_auth_failures m + count_if snd (requests es)).
Proof.
  revert m. induction es as [|e es IH]; intros m Hm; cbn [fold_left].
  - destruct Hm as (_ & _ & _ & _ & ? & ? & ? & ? & _). cbn.
    split_and!; symmetry; rewrite Z.add_0_r; by apply as_u64_id.
  - pose proof (apply_event_ok m e Hm) as Hm'. destruct (IH _ Hm') as (-> & -> & -> & ->). clear IH Hm'.
    destruct e as [| |n|ok d af| |]; try done.
    change (requests (EvRequest ok d af :: es)) with ((ok, af) :: requests es).
    cbn [length]. rewrite !count_if_cons. cbn [apply_event record_request fst snd
      m_total_requests m_successful_requests m_failed_requests m_auth_failures].
    rewrite as_u64_add. destruct ok, af; cbn [negb]; rewrite ?as_u64_add; split_and!; f_equal; lia.
Qed.

(** The text, line by line. *)
Definition prom_lines (e : string * string * string * Z) : list string :=
  let '(name, help, kind, v) := e in
  [("# HELP " +:+ name +:+ " " +:+ help)%string; ("# TYPE " +:+ name +:+ " " +:+ kind)%string;
   (name +:+ " " +:+ dec_string v)%string].

Definition one_line (s : string) : Prop := str_contains newline s = false.

Lemma split_nl s t : one_line s → split_on newline (s +:+ nl +:+ t) = s :: split_on newline t.
Proof. intros Hs. unfold nl. rewrite str_app_cons, str_app_nil. by apply split_on_app. Qed.

Lemma split_entry name help kind v t :
  one_line name → one_line help → one_line kind →
  split_on newline (prom_entry name help kind v +:+ t) =
  prom_lines (name, help, kind, v) ++ split_on newline t.
Proof.
  intros Hn Hh Hk. unfold prom_entry, prom_lines.
  assert (Hd : one_line (dec_string v)) by (by apply dec_string_contains).
  assert (H1 : one_line ("# HELP " +:+ name +:+ " " +:+ help)).
  { unfold one_line. rewrite !str_contains_app, Hn, Hh. done. }
  assert (H2 : one_line ("# TYPE " +:+ name +:+ " " +:+ kind)).
  { unfold one_line. rewrite !str_contains_app, Hn, Hk. done. }
  assert (H3 : one_line (name +:+ " " +:+ dec_string v)).
  { unfold one_line. rewrite !str_contains_app, Hn, Hd. done. }
  repeat rewrite <- str_app_assoc in H1. repeat rewrite <- str_app_assoc in H2.
  repeat rewrite <- str_app_assoc in H3. rewrite !str_app_assoc.
  rewrite <- (str_app_assoc " " help), <- (str_app_assoc name), <- (str_app_assoc "# HELP ").
  rewrite split_nl by (by rewrite <- ?str_app_assoc).
  rewrite <- (str_app_assoc " " kind), <- (str_app_assoc name (" " +:+ kind)), <- (str_app_assoc "# TYPE ").
  rewrite split_nl by (by rewrite <- ?str_app_assoc).
  rewrite <- (str_app_assoc " " (dec_string v)), <- (str_app_assoc name (" " +:+ dec_string v)).
  rewrite split_nl by (by rewrite <- ?str_app_assoc). done.
Qed.

Lemma export_lines l :
  Forall (λ '(name, help, kind, _), one_line name ∧ one_line help ∧ one_line kind) l →
  split_on newline (foldr (λ '(name, help, kind, v) acc, prom_entry name help kind v +:+ acc) ""%string l) =
  concat (map prom_lines l) ++ [""%string].
Proof.
  induction 1 as [|[[[name help] kind] v] l (? & ? & ?) _ IH]; [done|]. cbn [foldr map concat].
  rewrite split_entry by done. rewrite IH. by rewrite app_assoc.
Qed.

(** ** Properties *)

(** The request counters agree with the history: after any sequence of
    updates every counter is a 64-bit word, the request, success, failure and
    authentication-failure counters are the numbers of such requests modulo
    2^64, so successes and failures add up to the requests. *)
Theorem metrics_count_history now (es : list MetricsEvent) :
  let m := fold_left apply_event es (Metrics_new now) in
  metrics_ok m ∧
  m_total_requests m = as_u64 (Z.of_nat (length (requests es))) ∧
  m_successful_requests m = as_u64 (count_if fst (requests es)) ∧
  m_failed_requests m = as_u64 (count_if (λ r, negb r.1) (requests es)) ∧
  m_auth_failures m = as_u64 (count_if snd (requests es)) ∧
  m_total_requests m = as_u64 (m_successful_requests m + m_failed_requests m).
Proof.
  assert (Hnew : metrics_ok (Metrics_new now)).
  { unfold metrics_ok. cbn. unfold_words. lia. }
  intros m. assert (Hm : metrics_ok m).
  { unfold m. clear m. revert Hnew. generalize (Metrics_new now) as m0.
    induction es as [|e es IH]; intros m0 H0; [done|]. cbn. by apply IH, apply_event_ok. }
  destruct (request_counts es (Metrics_new now) Hnew) as (Ht & Hs & Hf & Ha). fold m in Ht, Hs, Hf, Ha.
  rewrite Ht, Hs, Hf, Ha. split; [done|]. do 4 (split; [done|]).
  cbn [m_total_requests m_successful_requests m_failed_requests Metrics_new]. rewrite !Z.add_0_l.
  rewrite as_u64_add, Z.add_comm, as_u64_add. f_equal. clear.
  induction (requests es) as [|[[] af] l IH]; [done|..]; rewrite !count_if_cons; cbn [length fst negb]; lia.
Qed.

(** The exposition is well formed: the exported text is three lines per
    metric, HELP, TYPE and the sample, and nothing else; every sample line is
    the metric's name, a space and the decimal value of the snapshot, from
    which the value parses back. *)
Theorem prometheus_export_lines now m :
  split_on newline (export_prometheus now m) =
    concat (map prom_lines (prom_metrics (Metrics_snapshot now m))) ++ [""%string] ∧
  length (prom_metrics (Metrics_snapshot now m)) = 12%nat ∧
  (metrics_ok m → in_u64 (elapsed now (m_start_time m)) →
   Forall (λ '(_, _, _, v), parse_uint U64_MAX (dec_string v) = Some v)
          (prom_metrics (Metrics_snapshot now m))).
Proof.
  split; [|split; [done|]].
  - apply export_lines. repeat (constructor; [done|]). constructor.
  - intros (? & ? & ? & ? & ? & ? & ? & ? & ? & ? & ?) Hup.
    assert (Hp : ∀ v, in_u64 v → parse_uint U64_MAX (dec_string v) = Some v).
    { intros v Hv. apply parse_uint_dec; unfold_words; lia. }
    assert (in_u64 (as_secs (elapsed now (m_start_time m)))).
    { unfold as_secs, NANOS. word_lia. }
    unfold prom_metrics, Metrics_snapshot. repeat constructor; by apply Hp.
Qed.
