(* ===== verification/StatsDump.v ===== *)
(** * The statistics dump and the table handle (src/server.rs)

    One turn of the task that logs the relay statistics, with the text it
    logs, and [TurnServerHandle].  Byte counts are printed through [f64]: a
    count is rounded to 53 bits, the division by a power of two is exact, and
    two decimals are printed, ties to even. *)

From S2P Require Import Prelude RustStd Ports Channels Alloc.
From Stdlib Require Import Ascii String.
Local Open Scope string_scope.
Local Open Scope Z_scope.

(** ** Printing *)

(** [a / b] rounded to the nearest integer, ties to even. *)
Definition div_even (a b : Z) : Z :=
  let q := a / b in
  let r := a mod b in
  if 2 * r <? b then q else if b <? 2 * r then q + 1 else if Z.even q then q else q + 1.

(** [n as f64], for a [u64] *)
Definition u64_as_f64 (n : Z) : Z :=
  let e := Z.max 0 (Z.log2 n - 52) in div_even n (2 ^ e) * 2 ^ e.

(** [{:.2}] of [n as f64 / 2^k] *)
Definition fixed2 (n k : Z) : string :=
  let h := div_even (u64_as_f64 n * 100) (2 ^ k) in
  dec_string (h / 100) ++ "." ++ dec_string (h mod 100 / 10) ++ dec_string (h mod 10).

Definition format_bytes (bytes : Z) : string :=
  let KB := 1024 in
  let MB := KB * 1024 in
  let GB := MB * 1024 in
  let TB := GB * 1024 in
  if TB <=? bytes then fixed2 bytes 40 ++ " TB"
  else if GB <=? bytes then fixed2 bytes 30 ++ " GB"
  else if MB <=? bytes then fixed2 bytes 20 ++ " MB"
  else if KB <=? bytes then fixed2 bytes 10 ++ " KB"
  else dec_string bytes ++ " B".

Definition format_bytes_and_rate (total delta interval_secs : Z) : string * string :=
  let rate := if 0 <? interval_secs then delta / interval_secs else 0 in
  (format_bytes total, format_bytes rate ++ "/s").

Definition format_messages_and_rate (total delta interval_secs : Z) : string * string :=
  let rate := if 0 <? interval_secs then delta / interval_secs else 0 in
  (dec_string total, dec_string rate).

(** ** The task *)

Record DumpState := mkDump { prev_bytes : Z; prev_messages : Z; prev_active : Z; prev_total : Z }.
Definition DumpState_init : DumpState := mkDump 0 0 0 0.

(** What a turn logs. *)
Record DumpLine := mkLine { line_bytes_delta : Z; line_messages_delta : Z; line_text : string }.

Definition stats_dump_tick (interval_secs : Z) (skip_if_no_change : bool) (s : ServerStats) (p : DumpState)
    : option DumpLine * DumpState :=
  let has_change :=
    if skip_if_no_change then
      negb (stats_bytes_relayed s =? prev_bytes p) || negb (total_messages s =? prev_messages p) ||
      negb (active_allocations s =? prev_active p) || negb (total_allocations s =? prev_total p)
    else true in
  let line :=
    if has_change then
      let bytes_delta := saturating_sub (stats_bytes_relayed s) (prev_bytes p) in
      let messages_delta := saturating_sub (total_messages s) (prev_messages p) in
      let '(bytes_str, bytes_rate_str) := format_bytes_and_rate (stats_bytes_relayed s) bytes_delta interval_secs in
      let '(msg_str, msg_rate_str) := format_messages_and_rate (total_messages s) messages_delta interval_secs in
      Some (mkLine bytes_delta messages_delta
        ("[STATS] Active: " ++ dec_string (active_allocations s) ++ " | Total: " ++ dec_string (total_allocations s) ++
         " | Bytes: " ++ bytes_str ++ " (+" ++ bytes_rate_str ++ "/s) | Messages: " ++ msg_str ++
         " (+" ++ msg_rate_str ++ "/s)"))
    else None in
  (line, mkDump (stats_bytes_relayed s) (total_messages s) (active_allocations s) (total_allocations s)).

(** The task over the statistics its turns read; an interval of zero starts none. *)
Fixpoint dump_turns (interval_secs : Z) (skip : bool) (l : list ServerStats) (p : DumpState) : list (option DumpLine) :=
  match l with
  | [] => []
  | s :: l => let '(line, p) := stats_dump_tick interval_secs skip s p in line :: dump_turns interval_secs skip l p
  end.
Definition start_stats_dump_task (interval_secs : Z) (skip : bool) (l : list ServerStats) : list (option DumpLine) :=
  if interval_secs =? 0 then [] else dump_turns interval_secs skip l DumpState_init.

(** ** [TurnServerHandle] *)

Record TurnServerHandle := mkHandle {
  handle_allocation_table : AllocationTable PortAllocator;
  handle_channel_table : ChannelTable
}.
Definition TurnServerHandle_new (now : Z) (relay : Ipv4Addr) (realm : string) : TurnServerHandle :=
  mkHandle (AllocationTable_new now relay realm) ChannelTable_new.
Definition TurnServerHandle_stats (h : TurnServerHandle) : Z * Z * Z * Z :=
  ServerStats_snapshot (stats (handle_allocation_table h)).

(** ** Examples *)

Example format_samples :
  map format_bytes [0; 1023; 1024; 1536; 1048575; 5242880; 2 ^ 40 + 2 ^ 39] =
  ["0 B"; "1023 B"; "1.00 KB"; "1.50 KB"; "1024.00 KB"; "5.00 MB"; "1.50 TB"].
Proof. vm_compute. reflexivity. Qed.

(** The rate of the bytes carries its unit twice. *)
Example rate_unit_twice :
  match (stats_dump_tick 30 true (mkStats 1 1 61440 10) DumpState_init).1 with
  | Some l => line_text l
  | None => ""
  end = "[STATS] Active: 1 | Total: 1 | Bytes: 60.00 KB (+2.00 KB/s/s) | Messages: 10 (+0/s)".
Proof. vm_compute. reflexivity. Qed.

(** ** Properties *)

Definition delta_of (l : option DumpLine) : Z := match l with Some l => line_bytes_delta l | None => 0 end.
Fixpoint total_deltas (l : list (option DumpLine)) : Z :=
  match l with [] => 0 | x :: l => delta_of x + total_deltas l end.

(** The byte counts of successive turns, none below its predecessor. *)
Fixpoint counts_up (from : Z) (l : list ServerStats) : Prop :=
  match l with
  | [] => True
  | s :: l => from ≤ stats_bytes_relayed s ∧ counts_up (stats_bytes_relayed s) l
  end.
Fixpoint last_bytes (from : Z) (l : list ServerStats) : Z :=
  match l with [] => from | s :: l => last_bytes (stats_bytes_relayed s) l end.

Lemma tick_delta i skip s p :
  prev_bytes p ≤ stats_bytes_relayed s →
  delta_of (stats_dump_tick i skip s p).1 = stats_bytes_relayed s - prev_bytes p.
Proof.
  intros H. unfold stats_dump_tick, format_bytes_and_rate, format_messages_and_rate.
  destruct (if skip then _ else true) eqn:E; cbn [fst delta_of line_bytes_delta]; [unfold saturating_sub; lia|].
  destruct skip; [|done]. repeat (apply orb_false_iff in E as [E _]). apply negb_false_iff, Z.eqb_eq in E. lia.
Qed.

(** The statistics log accounts for the traffic: while the byte counter
    only grows, the increments of the lines the task logs add up to the
    counter's last reading, whether or not quiet turns are skipped, and a turn
    is skipped exactly when skipping is on and no counter moved. *)
Theorem dump_accounts_for_traffic interval_secs skip (l : list ServerStats) :
  interval_secs ≠ 0 → counts_up 0 l →
  total_deltas (start_stats_dump_task interval_secs skip l) = last_bytes 0 l ∧
  (∀ s p, (stats_dump_tick interval_secs skip s p).1 = None ↔
     skip = true ∧ (stats_dump_tick interval_secs skip s p).2 = p).
Proof.
  intros Hi Hup. split.
  - unfold start_stats_dump_task. destruct (Z.eqb_spec interval_secs 0); [done|].
    assert (H : ∀ p, counts_up (prev_bytes p) l →
      total_deltas (dump_turns interval_secs skip l p) = last_bytes (prev_bytes p) l - prev_bytes p).
    { clear Hup. induction l as [|s l IH]; intros p Hup; cbn [dump_turns last_bytes]; [cbn; lia|].
      destruct Hup as [Hs Hl]. pose proof (tick_delta interval_secs skip s p Hs) as Hd.
      assert (Hp : prev_bytes (stats_dump_tick interval_secs skip s p).2 = stats_bytes_relayed s) by done.
      destruct (stats_dump_tick interval_secs skip s p) as [line p']. cbn [fst snd] in *. cbn [total_deltas].
      rewrite <- Hp in Hl. rewrite IH, Hd, Hp by done. lia. }
    rewrite H by done. cbn. lia.
  - intros s [b m a t]. unfold stats_dump_tick, format_bytes_and_rate, format_messages_and_rate.
    destruct s as [total active bytes msgs]. cbn. destruct skip; [|split; [done|by intros [? _]]].
    destruct (Z.eqb_spec bytes b), (Z.eqb_spec msgs m), (Z.eqb_spec active a), (Z.eqb_spec total t);
      cbn; (split; [intros H; try done; split; congruence|intros [_ H]; try done; simplify_eq]).
Qed.

Lemma dump_accounts_for_traffic_witness :
  let l := [mkStats 1 1 100 2; mkStats 1 1 100 2; mkStats 2 1 250 5] in
  total_deltas (start_stats_dump_task 30 true l) = 250 ∧
  map (λ x, bool_decide (is_Some x)) (start_stats_dump_task 30 true l) = [true; false; true].
Proof.
  intros l. split; [|vm_compute; reflexivity].
  apply (dump_accounts_for_traffic 30 true l); [done|]. cbn. lia.
Defined.
