(* ===== verification/Serde.v ===== *)
(** * Derived serialisation (src/config.rs, [#[derive(Deserialize, Serialize)]])

    The configuration's structs reach TOML through the impls that [serde]
    derives from their fields and attributes.  Here is what such an impl does,
    between a struct and the value a TOML document denotes: which fields are
    written, what an absent field becomes, which values are refused.  Config has
    the structs; the text of a document is the TOML crate's. *)

From S2P Require Import Prelude RustStd.
Local Open Scope Z_scope.

(** ** Values

    What a document denotes.  Tables are unordered and their keys distinct;
    floats and dates, which no field here takes, are [VOther]. *)

Inductive Value :=
| VString (s : string)
| VInt (n : Z)
| VBool (b : bool)
| VOther (text : string)
| VArray (l : list Value)
| VTable (m : gmap string Value).

Abbreviation Table := (gmap string Value).

#[global] Instance Value_eq_dec : EqDecision Value.
Proof.
  refine (fix go (v w : Value) : Decision (v = w) :=
    let _ : EqDecision Value := go in
    match v, w with
    | VString s, VString s' | VOther s, VOther s' => cast_if (decide (s = s'))
    | VInt n, VInt n' => cast_if (decide (n = n'))
    | VBool b, VBool b' => cast_if (decide (b = b'))
    | VArray l, VArray l' => cast_if (decide (l = l'))
    | VTable m, VTable m' => cast_if (decide (m = m'))
    | _, _ => right _
    end); congruence.
Defined.

(** ** Writing

    A scalar, a list, a map; [None] is an error.  A number outside the unsigned
    type of its field, of [w] bits, is no value of that field.  Which numbers the
    text of a document can hold is the TOML crate's affair. *)

Definition put_string (s : string) : option Value := Some (VString s).
Definition put_bool (b : bool) : option Value := Some (VBool b).
Definition put_uint (w n : Z) : option Value :=
  if (0 <=? n) && (n <? 2 ^ w) then Some (VInt n) else None.
Definition put_list {A} (put : A → option Value) (l : list A) : option Value := VArray <$> mapM put l.
Definition put_string_map (m : gmap string string) : option Value := Some (VTable (VString <$> m)).

(** A field is written, or left out when it is [None]. *)
Definition written {A} (put : A → option Value) (x : A) : option (option Value) := Some <$> put x.
Definition optional {A} (put : A → option Value) (o : option A) : option (option Value) :=
  match o with Some x => Some <$> put x | None => Some None end.

Fixpoint put_fields (fs : list (string * option (option Value))) : option Table :=
  match fs with
  | [] => Some ∅
  | (k, f) :: fs =>
    x ← f; m ← put_fields fs;
    Some (match x with Some v => <[k := v]> m | None => m end)
  end.
Definition put_struct (fs : list (string * option (option Value))) : option Value := VTable <$> put_fields fs.

(** ** Reading *)

Definition get_string (v : Value) : option string := match v with VString s => Some s | _ => None end.
Definition get_bool (v : Value) : option bool := match v with VBool b => Some b | _ => None end.
Definition get_uint (w : Z) (v : Value) : option Z :=
  match v with VInt n => if (0 <=? n) && (n <? 2 ^ w) then Some n else None | _ => None end.
Definition get_list {A} (get : Value → option A) (v : Value) : option (list A) :=
  match v with VArray l => mapM get l | _ => None end.
Definition get_string_map (v : Value) : option (gmap string string) :=
  match v with
  | VTable m => if bool_decide (map_Forall (λ _ v, is_Some (get_string v)) m)
                then Some (omap get_string m) else None
  | _ => None
  end.

(** A struct is read from a table, by name, or from an array, in the order of its
    fields.  Names it does not have are skipped. *)
Inductive Input := ByName (m : Table) | InOrder (l : list Value).
Definition Fields (A : Type) : Type := Input → option (A * Input).
#[global] Instance Fields_ret : MRet Fields := λ A a i, Some (a, i).
#[global] Instance Fields_bind : MBind Fields := λ A B f p i, '(a, i) ← p i; f a i.

(** One field: what it is when its name is absent, and when the array has ended. *)
Definition field {A} (k : string) (get : Value → option A) (absent ended : option A) : Fields A := λ i,
  match i with
  | ByName m => match m !! k with
                | Some v => x ← get v; Some (x, i)
                | None => x ← absent; Some (x, i)
                end
  | InOrder (v :: l) => x ← get v; Some (x, InOrder l)
  | InOrder [] => x ← ended; Some (x, i)
  end.

(** A field without attribute; one of an [Option] type, which may be absent; one
    with a default. *)
Definition required {A} (k : string) (get : Value → option A) : Fields A := field k get None None.
Definition get_some {A} (get : Value → option A) (v : Value) : option (option A) := Some <$> get v.
Definition option_field {A} (k : string) (get : Value → option A) : Fields (option A) :=
  field k (get_some get) (Some None) None.
Definition defaulted {A} (k : string) (get : Value → option A) (d : A) : Fields A :=
  field k get (Some d) (Some d).

Definition get_struct {A} (fields : Fields A) (v : Value) : option A :=
  match v with
  | VTable m => fst <$> fields (ByName m)
  | VArray l => fst <$> fields (InOrder l)
  | _ => None
  end.

(** ** Reading back what was written *)

Definition codec {A} (put : A → option Value) (get : Value → option A) : Prop :=
  ∀ x v, put x = Some v → get v = Some x.

Create HintDb serde.

Lemma codec_string : codec put_string get_string.
Proof. by intros s v [= <-]. Qed.
Lemma codec_bool : codec put_bool get_bool.
Proof. by intros s v [= <-]. Qed.
Lemma codec_uint w : codec (put_uint w) (get_uint w).
Proof.
  intros n v. unfold put_uint. destruct (_ && _) eqn:E; [|done]. intros [= <-]. cbn. by rewrite E.
Qed.
Lemma codec_list {A} (put : A → option Value) get : codec put get → codec (put_list put) (get_list get).
Proof.
  intros H l v. unfold put_list. destruct (mapM put l) as [vs|] eqn:E; [|done]. intros [= <-]. cbn.
  apply mapM_Some in E. apply mapM_Some. induction E as [|x y l vs Hx _ IH]; constructor; [by apply H|done].
Qed.
Lemma codec_string_map : codec put_string_map get_string_map.
Proof.
  intros m v [= <-]. cbn. rewrite bool_decide_eq_true_2.
  - f_equal. apply map_eq. intros k. rewrite lookup_omap, lookup_fmap.
    by destruct (@lookup string string _ _ k m).
  - intros k v. rewrite lookup_fmap_Some. intros (s & <- & _). by eexists.
Qed.
#[export] Hint Resolve codec_string codec_bool codec_uint codec_list codec_string_map : serde.

Lemma put_fields_absent fs m k : put_fields fs = Some m → k ∉ map fst fs → m !! k = None.
Proof.
  revert m. induction fs as [|[k' f] fs IH]; cbn; intros m.
  - intros [= <-] _. apply lookup_empty.
  - destruct f as [x|]; [|done]. cbn. destruct (put_fields fs) as [m'|]; [|done]. cbn. intros [= <-].
    rewrite not_elem_of_cons. intros [Hk Hn]. destruct x; [rewrite lookup_insert_ne by done|]; by apply IH.
Qed.

Lemma put_fields_lookup fs m k f :
  put_fields fs = Some m → NoDup (map fst fs) → (k, f) ∈ fs → f = Some (m !! k).
Proof.
  revert m. induction fs as [|[k' f'] fs IH]; cbn; intros m; [by intros _ _ ?%elem_of_nil|].
  destruct f' as [x|]; [|done]. cbn. destruct (put_fields fs) as [m'|] eqn:E; [|done]. cbn. intros [= <-].
  rewrite NoDup_cons. intros [Hk Hnd] [[= -> ->]|Hin]%elem_of_cons.
  - destruct x; [by rewrite lookup_insert_eq|]. by rewrite (put_fields_absent _ _ _ E Hk).
  - destruct x as [v|]; [|by apply IH]. rewrite lookup_insert_ne; [by apply IH|].
    intros ->. apply Hk. apply list_elem_of_fmap. by exists (k, f).
Qed.

(** The fields of a struct that was written, read by name. *)
Section by_name.
Context (fs : list (string * option (option Value))) (m : Table).
Context (Hput : put_fields fs = Some m) (Hnd : NoDup (map fst fs)).

Lemma field_written {A} k (put : A → option Value) get absent ended x :
  codec put get → (k, written put x) ∈ fs → field k get absent ended (ByName m) = Some (x, ByName m).
Proof.
  intros Hc Hin. pose proof (put_fields_lookup _ _ _ _ Hput Hnd Hin) as H. unfold written in H.
  destruct (put x) as [v|] eqn:E; [|done]. injection H as H. cbn. rewrite <- H. cbn. by rewrite (Hc _ _ E).
Qed.

Lemma field_optional {A} k (put : A → option Value) get ended d o :
  codec put get → (k, optional put o) ∈ fs →
  field k (get_some get) (Some d) ended (ByName m) = Some (match o with Some _ => o | None => d end, ByName m).
Proof.
  intros Hc Hin. pose proof (put_fields_lookup _ _ _ _ Hput Hnd Hin) as H. unfold optional in H.
  destruct o as [x|].
  - destruct (put x) as [v|] eqn:E; [|done]. injection H as H. cbn. rewrite <- H. cbn. unfold get_some. by rewrite (Hc _ _ E).
  - injection H as H. cbn. by rewrite <- H.
Qed.

Lemma field_option {A} k (put : A → option Value) get ended o :
  codec put get → (k, optional put o) ∈ fs →
  field k (get_some get) (Some None) ended (ByName m) = Some (o, ByName m).
Proof. intros Hc Hin. rewrite (field_optional k put get ended None o Hc Hin). by destruct o. Qed.
End by_name.

(** What the fields of a struct have in common, however it is written. *)
Definition yields {A} (P : A → Prop) (p : Fields A) : Prop := ∀ i x i', p i = Some (x, i') → P x.

Lemma yields_bind {A B} (P : A → Prop) (Q : B → Prop) (p : Fields A) (f : A → Fields B) :
  yields P p → (∀ x, P x → yields Q (f x)) → yields Q (p ≫= f).
Proof.
  intros Hp Hf i x i'. unfold mbind, Fields_bind. destruct (p i) as [[a i1]|] eqn:E; [|done]. apply Hf. by eapply Hp.
Qed.
Lemma yields_ret {A} (P : A → Prop) (x : A) : P x → yields P (mret x).
Proof. by intros H i y i' [= <- <-]. Qed.
Lemma yields_any {A} (p : Fields A) : yields (λ _, True) p.
Proof. done. Qed.

Lemma yields_field {A} (P : A → Prop) k get absent ended :
  (∀ v x, get v = Some x → P x) → from_option P True absent → from_option P True ended →
  yields P (field k get absent ended).
Proof.
  intros Hg Ha He [m|[|v l]] x i'; cbn.
  - destruct (m !! k) as [v|]; [destruct (get v) eqn:E|destruct absent]; cbn; try done; intros [= <- <-];
      [by eapply Hg|done].
  - destruct ended; cbn; [|done]. by intros [= <- <-].
  - destruct (get v) eqn:E; cbn; [|done]. intros [= <- <-]. by eapply Hg.
Qed.

Lemma get_struct_yields {A} (P : A → Prop) fields v x : yields P fields → get_struct fields v = Some x → P x.
Proof.
  intros Hy. unfold get_struct. destruct v as [| | | |l|m]; try done.
  - destruct (fields (InOrder l)) as [[y i]|] eqn:E; [|done]. intros [= <-]. by eapply Hy.
  - destruct (fields (ByName m)) as [[y i]|] eqn:E; [|done]. intros [= <-]. by eapply Hy.
Qed.

Lemma get_list_all {A} (P : A → Prop) get v l :
  (∀ w x, get w = Some x → P x) → get_list get v = Some l → Forall P l.
Proof.
  intros Hg. destruct v as [| | | |vs|]; try done. cbn. intros E%mapM_Some.
  induction E as [|w x vs l Hw _ IH]; constructor; [by eapply Hg|done].
Qed.

Definition in_width (w n : Z) : Prop := 0 ≤ n < 2 ^ w.
Definition all_in_width (w : Z) (o : option Z) : Prop := from_option (in_width w) True o.

Lemma get_uint_width w v n : get_uint w v = Some n → in_width w n.
Proof. destruct v; try done. cbn. destruct (_ && _) eqn:E; [|done]. intros [= <-]. unfold in_width. lia. Qed.
Lemma get_some_width w v o : get_some (get_uint w) v = Some o → all_in_width w o.
Proof. unfold get_some. destruct (get_uint w v) eqn:E; [|done]. intros [= <-]. by eapply get_uint_width. Qed.
#[export] Hint Resolve get_uint_width get_some_width : serde.

Lemma fields_bind {A B} (p : Fields A) (f : A → Fields B) i a i' :
  p i = Some (a, i') → (p ≫= f) i = f a i'.
Proof. unfold mbind, Fields_bind. by intros ->. Qed.

(** A struct read back from the table it was written to: the next field. *)
Ltac field_listed := apply list_elem_of_In; solve [repeat first [left; reflexivity | right]].
Ltac fields_differ := apply (bool_decide_unpack _); vm_compute; exact I.
Ltac read_field E :=
  erewrite fields_bind;
  [|first [ eapply (field_option _ _ E); [fields_differ| |field_listed]; solve [eauto with serde]
          | eapply (field_written _ _ E); [fields_differ| |field_listed]; solve [eauto with serde]
          | eapply (field_optional _ _ E); [fields_differ| |field_listed]; solve [eauto with serde] ]].
