(* ===== verification/Config.v ===== *)
(** * Configuration (src/config.rs)

    The structures of the configuration file, their defaults, and loading and
    saving.  TOML text is read and written by third-party crates, the
    parameters of [Toml]; what the file system does is explicit. *)

From S2P Require Import Prelude RustStd RustText Serde.
From Stdlib Require Import String.
Local Open Scope Z_scope.

(** ** Structures *)

Record ListenConfig := mkListen { protocol : string; address : string }.

Record ServerConfig := mkServerConfig {
  cfg_realm : string;
  external_ip : string;
  relay_bind_ip : option string;
  start_port : Z;
  end_port : Z;
  listening : list ListenConfig;
  cfg_max_concurrent_allocations : option Z;
  max_bandwidth_bytes_per_sec : option Z;
  cfg_max_allocation_duration_secs : option Z;
  cfg_stats_dump_interval_secs : Z;
  cfg_stats_dump_skip_if_no_change : bool;
  cfg_server_name : string;
  cfg_stun_enabled : bool;
  cfg_turn_enabled : bool
}.

Definition default_stats_dump_interval_secs : Z := 30.
Definition default_stats_dump_skip_if_no_change : bool := true.
(** [env!("CARGO_PKG_NAME")] and [env!("CARGO_PKG_VERSION")] of Cargo.toml *)
Definition default_server_name : string := "miuturn" +:+ "/" +:+ "0.1.4".
Definition default_stun_enabled : bool := true.
Definition default_turn_enabled : bool := true.

Record HttpConfig := mkHttp {
  http_address : string;
  turn_rest_enabled : option bool;
  turn_rest_secret : option string;
  turn_rest_default_lifetime : option Z;
  admin_username : option string;
  admin_password : option string;
  admin_acl : list string;
  trust_proxy : option bool
}.

Definition default_admin_acl : list string := ["127.0.0.1"%string].
Definition default_trust_proxy : option bool := Some false.
Definition HttpConfig_default : HttpConfig :=
  mkHttp "0.0.0.0:8080" (Some false) None (Some 3600) None None default_admin_acl default_trust_proxy.

Record CertificateConfig := mkCertConfig {
  source : string;
  cert_path : option string;
  key_path : option string;
  domains : list string;
  email : option string;
  environment : option string;
  cache_dir : option string;
  http01_address : option string;
  renew_before_days : option Z;
  sds_address : option string;
  sds_api : option string;
  sds_resource_name : option string;
  sds_node_id : option string;
  sds_cluster : option string;
  sds_timeout_secs : option Z
}.

Record LogConfig := mkLog { log_file : option string; log_level : string }.
Definition default_level : string := "info".
Definition LogConfig_default : LogConfig := mkLog None default_level.

Record UserConfig := mkUserConfig {
  uc_username : string;
  uc_password : string;
  uc_user_type : string;
  uc_expires_at : option Z;
  uc_max_allocations : option Z;
  uc_bandwidth_limit : option Z;
  uc_ip_whitelist : option (list string);
  uc_max_allocation_duration_secs : option Z
}.

Record AclRuleConfig := mkRuleConfig { rc_ip_range : string; rc_action : string; rc_priority : option Z }.

Record AuthConfig := mkAuthConfig {
  cfg_users : list UserConfig;
  cfg_api_keys : gmap string string;
  cfg_acl_rules : list AclRuleConfig
}.

Record Config := mkConfig {
  server : ServerConfig;
  http : option HttpConfig;
  certificates : option CertificateConfig;
  auth : AuthConfig;
  log : LogConfig
}.

Definition Config_default : Config :=
  mkConfig
    (mkServerConfig "miuturn" "0.0.0.0" None 49152 65535
       [mkListen "udp" "0.0.0.0:3478"; mkListen "tcp" "0.0.0.0:3478"] None None None 30 true
       default_server_name true true)
    None None
    (mkAuthConfig [] ∅ [mkRuleConfig "0.0.0.0/0" "Allow" (Some 0)])
    LogConfig_default.

Definition set_auth_config (a : AuthConfig) (c : Config) : Config :=
  mkConfig (server c) (http c) (certificates c) a (log c).

(** [ListenConfig::addr]: an address that does not parse panics. *)
Definition ListenConfig_addr (l : ListenConfig) : outcome SocketAddr :=
  match parse_socket_addr (address l) with Some a => Ret a | None => Panic end.

(** ** Writing and reading the structures

    The derived impls: [put_*] and [get_*] go through the fields in the order of
    the struct, with the attributes each has. *)

Definition put_listen (l : ListenConfig) : option Value :=
  put_struct [("protocol"%string, written put_string (protocol l)); ("address"%string, written put_string (address l))].
Definition get_listen : Value → option ListenConfig := get_struct (
  protocol ← required "protocol" get_string;
  address ← required "address" get_string;
  mret (mkListen protocol address)).

Definition put_server (s : ServerConfig) : option Value :=
  put_struct
    [("realm"%string, written put_string (cfg_realm s));
     ("external_ip"%string, written put_string (external_ip s));
     ("relay_bind_ip"%string, optional put_string (relay_bind_ip s));
     ("start_port"%string, written (put_uint 16) (start_port s));
     ("end_port"%string, written (put_uint 16) (end_port s));
     ("listening"%string, written (put_list put_listen) (listening s));
     ("max_concurrent_allocations"%string, optional (put_uint 64) (cfg_max_concurrent_allocations s));
     ("max_bandwidth_bytes_per_sec"%string, optional (put_uint 64) (max_bandwidth_bytes_per_sec s));
     ("max_allocation_duration_secs"%string, optional (put_uint 32) (cfg_max_allocation_duration_secs s));
     ("stats_dump_interval_secs"%string, written (put_uint 64) (cfg_stats_dump_interval_secs s));
     ("stats_dump_skip_if_no_change"%string, written put_bool (cfg_stats_dump_skip_if_no_change s));
     ("server_name"%string, written put_string (cfg_server_name s));
     ("stun_enabled"%string, written put_bool (cfg_stun_enabled s));
     ("turn_enabled"%string, written put_bool (cfg_turn_enabled s))].
Definition get_server : Value → option ServerConfig := get_struct (
  realm ← required "realm" get_string;
  ext ← required "external_ip" get_string;
  bind ← field "relay_bind_ip" (get_some get_string) (Some None) (Some None);
  start ← required "start_port" (get_uint 16);
  stop ← required "end_port" (get_uint 16);
  listening ← required "listening" (get_list get_listen);
  allocations ← option_field "max_concurrent_allocations" (get_uint 64);
  bandwidth ← option_field "max_bandwidth_bytes_per_sec" (get_uint 64);
  duration ← option_field "max_allocation_duration_secs" (get_uint 32);
  interval ← defaulted "stats_dump_interval_secs" (get_uint 64) default_stats_dump_interval_secs;
  skip ← defaulted "stats_dump_skip_if_no_change" get_bool default_stats_dump_skip_if_no_change;
  name ← defaulted "server_name" get_string default_server_name;
  stun ← defaulted "stun_enabled" get_bool default_stun_enabled;
  turn ← defaulted "turn_enabled" get_bool default_turn_enabled;
  mret (mkServerConfig realm ext bind start stop listening allocations bandwidth duration interval skip name stun turn)).

Definition put_http (h : HttpConfig) : option Value :=
  put_struct
    [("address"%string, written put_string (http_address h));
     ("turn_rest_enabled"%string, optional put_bool (turn_rest_enabled h));
     ("turn_rest_secret"%string, optional put_string (turn_rest_secret h));
     ("turn_rest_default_lifetime"%string, optional (put_uint 64) (turn_rest_default_lifetime h));
     ("admin_username"%string, optional put_string (admin_username h));
     ("admin_password"%string, optional put_string (admin_password h));
     ("admin_acl"%string, written (put_list put_string) (admin_acl h));
     ("trust_proxy"%string, optional put_bool (trust_proxy h))].
Definition get_http : Value → option HttpConfig := get_struct (
  address ← required "address" get_string;
  enabled ← option_field "turn_rest_enabled" get_bool;
  secret ← option_field "turn_rest_secret" get_string;
  lifetime ← option_field "turn_rest_default_lifetime" (get_uint 64);
  username ← option_field "admin_username" get_string;
  password ← option_field "admin_password" get_string;
  acl ← defaulted "admin_acl" (get_list get_string) default_admin_acl;
  proxy ← defaulted "trust_proxy" (get_some get_bool) default_trust_proxy;
  mret (mkHttp address enabled secret lifetime username password acl proxy)).

Definition put_certificate (c : CertificateConfig) : option Value :=
  put_struct
    [("source"%string, written put_string (source c));
     ("cert_path"%string, optional put_string (cert_path c));
     ("key_path"%string, optional put_string (key_path c));
     ("domains"%string, written (put_list put_string) (domains c));
     ("email"%string, optional put_string (email c));
     ("environment"%string, optional put_string (environment c));
     ("cache_dir"%string, optional put_string (cache_dir c));
     ("http01_address"%string, optional put_string (http01_address c));
     ("renew_before_days"%string, optional (put_uint 64) (renew_before_days c));
     ("sds_address"%string, optional put_string (sds_address c));
     ("sds_api"%string, optional put_string (sds_api c));
     ("sds_resource_name"%string, optional put_string (sds_resource_name c));
     ("sds_node_id"%string, optional put_string (sds_node_id c));
     ("sds_cluster"%string, optional put_string (sds_cluster c));
     ("sds_timeout_secs"%string, optional (put_uint 64) (sds_timeout_secs c))].
Definition get_certificate : Value → option CertificateConfig := get_struct (
  source ← required "source" get_string;
  cert ← option_field "cert_path" get_string;
  key ← option_field "key_path" get_string;
  domains ← defaulted "domains" (get_list get_string) [];
  email ← option_field "email" get_string;
  environment ← option_field "environment" get_string;
  cache ← option_field "cache_dir" get_string;
  http01 ← option_field "http01_address" get_string;
  days ← option_field "renew_before_days" (get_uint 64);
  address ← option_field "sds_address" get_string;
  api ← option_field "sds_api" get_string;
  resource ← option_field "sds_resource_name" get_string;
  node ← option_field "sds_node_id" get_string;
  cluster ← option_field "sds_cluster" get_string;
  timeout ← option_field "sds_timeout_secs" (get_uint 64);
  mret (mkCertConfig source cert key domains email environment cache http01 days address api resource node cluster timeout)).

Definition put_log (l : LogConfig) : option Value :=
  put_struct [("log_file"%string, optional put_string (log_file l)); ("log_level"%string, written put_string (log_level l))].
Definition get_log : Value → option LogConfig := get_struct (
  file ← option_field "log_file" get_string;
  level ← defaulted "log_level" get_string default_level;
  mret (mkLog file level)).

Definition put_user (u : UserConfig) : option Value :=
  put_struct
    [("username"%string, written put_string (uc_username u));
     ("password"%string, written put_string (uc_password u));
     ("user_type"%string, written put_string (uc_user_type u));
     ("expires_at"%string, optional (put_uint 64) (uc_expires_at u));
     ("max_allocations"%string, optional (put_uint 64) (uc_max_allocations u));
     ("bandwidth_limit"%string, optional (put_uint 64) (uc_bandwidth_limit u));
     ("ip_whitelist"%string, optional (put_list put_string) (uc_ip_whitelist u));
     ("max_allocation_duration_secs"%string, optional (put_uint 32) (uc_max_allocation_duration_secs u))].
Definition get_user : Value → option UserConfig := get_struct (
  username ← required "username" get_string;
  password ← required "password" get_string;
  user_type ← required "user_type" get_string;
  expires ← option_field "expires_at" (get_uint 64);
  allocations ← option_field "max_allocations" (get_uint 64);
  bandwidth ← option_field "bandwidth_limit" (get_uint 64);
  whitelist ← option_field "ip_whitelist" (get_list get_string);
  duration ← option_field "max_allocation_duration_secs" (get_uint 32);
  mret (mkUserConfig username password user_type expires allocations bandwidth whitelist duration)).

Definition put_rule (r : AclRuleConfig) : option Value :=
  put_struct
    [("ip_range"%string, written put_string (rc_ip_range r)); ("action"%string, written put_string (rc_action r));
     ("priority"%string, optional (put_uint 32) (rc_priority r))].
Definition get_rule : Value → option AclRuleConfig := get_struct (
  range ← required "ip_range" get_string;
  action ← required "action" get_string;
  priority ← option_field "priority" (get_uint 32);
  mret (mkRuleConfig range action priority)).

Definition put_auth (a : AuthConfig) : option Value :=
  put_struct
    [("users"%string, written (put_list put_user) (cfg_users a));
     ("api_keys"%string, written put_string_map (cfg_api_keys a));
     ("acl_rules"%string, written (put_list put_rule) (cfg_acl_rules a))].
Definition get_auth : Value → option AuthConfig := get_struct (
  users ← defaulted "users" (get_list get_user) [];
  keys ← defaulted "api_keys" get_string_map ∅;
  rules ← defaulted "acl_rules" (get_list get_rule) [];
  mret (mkAuthConfig users keys rules)).

(** The document itself is a table. *)
Definition put_config (c : Config) : option Table :=
  put_fields
    [("server"%string, written put_server (server c));
     ("http"%string, optional put_http (http c));
     ("certificates"%string, optional put_certificate (certificates c));
     ("auth"%string, written put_auth (auth c));
     ("log"%string, written put_log (log c))].
Definition config_fields : Fields Config :=
  server ← required "server" get_server;
  http ← defaulted "http" (get_some get_http) None;
  certificates ← defaulted "certificates" (get_some get_certificate) None;
  auth ← required "auth" get_auth;
  log ← defaulted "log" get_log LogConfig_default;
  mret (mkConfig server http certificates auth log).
Definition get_config (m : Table) : option Config := fst <$> config_fields (ByName m).

(** A field that is [None] is not written, and an absent field is read as its
    default: [None] for an [Option] without a default of its own, which leaves
    [trust_proxy], whose default is [Some(false)]. *)
Definition http_defaults (h : HttpConfig) : HttpConfig :=
  mkHttp (http_address h) (turn_rest_enabled h) (turn_rest_secret h) (turn_rest_default_lifetime h)
    (admin_username h) (admin_password h) (admin_acl h)
    (match trust_proxy h with Some b => Some b | None => default_trust_proxy end).
Definition absent_defaults (c : Config) : Config :=
  mkConfig (server c) (http_defaults <$> http c) (certificates c) (auth c) (log c).

(** ** TOML

    The text of a document is read and written by a third-party crate. *)
Class Toml := {
  toml_print : Table → option string;
  toml_parse : string → option Table
}.
(** Text is UTF-8, and what was printed denotes the table it was printed for. *)
Class TomlLaws `{Toml} : Prop := {
  toml_utf8 : ∀ m t, toml_print m = Some t → utf8_valid (str_bytes t) = true;
  toml_parses : ∀ m t, toml_print m = Some t → toml_parse t = Some m
}.

(** [toml::to_string_pretty] and [toml::from_str]. *)
Definition to_string_pretty `{Toml} (c : Config) : option string := m ← put_config c; toml_print m.
Definition from_toml `{Toml} (text : string) : option Config := m ← toml_parse text; get_config m.

(** ** Files *)

Abbreviation FileSystem := (gmap string (list Z)).

(** What a write does: it succeeds, or fails and leaves the file with some
    content or without existing. *)
Inductive WriteIo := Written | WriteError (remains : option (list Z)).

Definition fs_write (io : WriteIo) (path : string) (data : list Z) (fs : FileSystem)
    : bool * FileSystem :=
  match io with
  | Written => (true, <[path := data]> fs)
  | WriteError remains => (false, match remains with Some d => <[path := d]> fs | None => delete path fs end)
  end.

Section files.
Context `{TO : Toml}.

(** [read_to_string] fails on an absent file, on an I/O error ([readable] is
    then false) and on bytes that are not UTF-8. *)
Definition Config_load (readable : bool) (path : string) (fs : FileSystem) : option Config :=
  if negb readable then None else
  bytes ← fs !! path; text ← from_utf8 bytes; from_toml text.

Definition Config_save (io : WriteIo) (c : Config) (path : string) (fs : FileSystem)
    : bool * FileSystem :=
  match to_string_pretty c with
  | None => (false, fs)
  | Some text => fs_write io path (str_bytes text) fs
  end.
End files.

(** ** Lemmas *)

(** A struct is written and read, field by field. *)
Ltac reads_struct put get :=
  let x := fresh "x" in let v := fresh "v" in let H := fresh "H" in let m := fresh "m" in let E := fresh "E" in
  intros x v H; unfold put, put_struct in H;
  match type of H with context [put_fields ?fs] => destruct (put_fields fs) as [m|] eqn:E end; [|done];
  injection H as <-; unfold get; cbn [get_struct]; repeat read_field E;
  clear E; by destruct x.

Lemma codec_listen : codec put_listen get_listen.
Proof. reads_struct put_listen get_listen. Qed.
#[export] Hint Resolve codec_listen : serde.
Lemma codec_server : codec put_server get_server.
Proof. reads_struct put_server get_server. Qed.
Lemma codec_certificate : codec put_certificate get_certificate.
Proof. reads_struct put_certificate get_certificate. Qed.
Lemma codec_log : codec put_log get_log.
Proof. reads_struct put_log get_log. Qed.
Lemma codec_user : codec put_user get_user.
Proof. reads_struct put_user get_user. Qed.
Lemma codec_rule : codec put_rule get_rule.
Proof. reads_struct put_rule get_rule. Qed.
#[export] Hint Resolve codec_server codec_certificate codec_log codec_user codec_rule : serde.
Lemma codec_auth : codec put_auth get_auth.
Proof. reads_struct put_auth get_auth. Qed.
#[export] Hint Resolve codec_auth : serde.

Lemma http_reads_back h v : put_http h = Some v → get_http v = Some (http_defaults h).
Proof.
  unfold put_http, put_struct. destruct (put_fields _) as [m|] eqn:E in |- *; [|done]. intros [= <-].
  unfold get_http. cbn [get_struct]. repeat read_field E. clear E. by destruct h as [? ? ? ? ? ? ? []].
Qed.

(** What was written, read back. *)
Lemma config_reads_back c m : put_config c = Some m → get_config m = Some (absent_defaults c).
Proof.
  intros E. unfold put_config in E. unfold get_config, config_fields. read_field E.
  assert (Hh : defaulted "http" (get_some get_http) None (ByName m) = Some (http_defaults <$> http c, ByName m)).
  { pose proof (put_fields_lookup _ _ "http" (optional put_http (http c)) E ltac:(fields_differ) ltac:(field_listed)) as H.
    unfold optional in H. unfold defaulted, field. destruct (http c) as [h|].
    - destruct (put_http h) as [v|] eqn:Ev; [|done]. injection H as H. rewrite <- H. unfold get_some.
      by rewrite (http_reads_back _ _ Ev).
    - injection H as H. by rewrite <- H. }
  erewrite fields_bind by exact Hh. repeat read_field E. done.
Qed.

Lemma toml_roundtrip `{TL : TomlLaws} c t : to_string_pretty c = Some t → from_toml t = Some (absent_defaults c).
Proof.
  unfold to_string_pretty, from_toml. destruct (put_config c) as [m|] eqn:E; [|done]. cbn. intros Ht.
  rewrite (toml_parses _ _ Ht). cbn. by apply config_reads_back.
Qed.

Lemma absent_defaults_idem c : absent_defaults (absent_defaults c) = absent_defaults c.
Proof. destruct c as [s [h|] ce a l]; [|done]. destruct h as [? ? ? ? ? ? ? [|]]; done. Qed.

Lemma from_utf8_str s : utf8_valid (str_bytes s) = true → from_utf8 (str_bytes s) = Some s.
Proof. intros H. unfold from_utf8. by rewrite H, bytes_str_bytes. Qed.

Lemma load_saved `{TL : TomlLaws} c path fs fs' :
  Config_save Written c path fs = (true, fs') → Config_load true path fs' = Some (absent_defaults c).
Proof.
  unfold Config_save. destruct (to_string_pretty c) as [t|] eqn:E; [|done]. cbn. intros [= <-].
  unfold Config_load. cbn [negb]. rewrite lookup_insert_eq. simpl_bind.
  rewrite from_utf8_str; [simpl_bind; by apply toml_roundtrip|].
  unfold to_string_pretty in E. destruct (put_config c) as [m|]; [|done]. by eapply toml_utf8.
Qed.

(** ** What the types of the fields promise

    The numbers of a configuration that was read are in their fields' types. *)

Definition server_in_range (s : ServerConfig) : Prop :=
  in_width 16 (start_port s) ∧ in_width 16 (end_port s) ∧
  all_in_width 64 (cfg_max_concurrent_allocations s) ∧ all_in_width 64 (max_bandwidth_bytes_per_sec s) ∧
  all_in_width 32 (cfg_max_allocation_duration_secs s) ∧ in_width 64 (cfg_stats_dump_interval_secs s).
Definition user_in_range (u : UserConfig) : Prop :=
  all_in_width 64 (uc_expires_at u) ∧ all_in_width 64 (uc_max_allocations u) ∧
  all_in_width 64 (uc_bandwidth_limit u) ∧ all_in_width 32 (uc_max_allocation_duration_secs u).
Definition rule_in_range (r : AclRuleConfig) : Prop := all_in_width 32 (rc_priority r).
Definition auth_in_range (a : AuthConfig) : Prop :=
  Forall user_in_range (cfg_users a) ∧ Forall rule_in_range (cfg_acl_rules a).
Definition http_in_range (h : HttpConfig) : Prop := all_in_width 64 (turn_rest_default_lifetime h).
Definition certificate_in_range (c : CertificateConfig) : Prop :=
  all_in_width 64 (renew_before_days c) ∧ all_in_width 64 (sds_timeout_secs c).
Definition in_range (c : Config) : Prop :=
  server_in_range (server c) ∧ from_option http_in_range True (http c) ∧
  from_option certificate_in_range True (certificates c) ∧ auth_in_range (auth c).

(** The next field, with what it promises when that is wanted. *)
Ltac ranged_field :=
  first
    [ apply (yields_bind (in_width 16)); [by apply yields_field; eauto with serde|intros ? ?]
    | apply (yields_bind (in_width 64)); [by apply yields_field; eauto with serde|intros ? ?]
    | apply (yields_bind (all_in_width 64)); [by apply yields_field; eauto with serde|intros ? ?]
    | apply (yields_bind (all_in_width 32)); [by apply yields_field; eauto with serde|intros ? ?]
    | apply (yields_bind (λ _, True)); [apply yields_any|intros ? _] ].

Ltac ranged := apply get_struct_yields; repeat ranged_field; apply yields_ret; by split_and?.

Lemma server_reads_in_range v s : get_server v = Some s → server_in_range s.
Proof. ranged. Qed.
Lemma user_reads_in_range v u : get_user v = Some u → user_in_range u.
Proof. ranged. Qed.
Lemma rule_reads_in_range v r : get_rule v = Some r → rule_in_range r.
Proof. ranged. Qed.
Lemma http_reads_in_range v h : get_http v = Some h → http_in_range h.
Proof. ranged. Qed.
Lemma certificate_reads_in_range v c : get_certificate v = Some c → certificate_in_range c.
Proof. ranged. Qed.

Lemma auth_reads_in_range v a : get_auth v = Some a → auth_in_range a.
Proof.
  apply get_struct_yields.
  apply (yields_bind (Forall user_in_range)); [|intros users Hu].
  { apply yields_field; [|by constructor..]. intros w l. apply get_list_all, user_reads_in_range. }
  ranged_field. apply (yields_bind (Forall rule_in_range)); [|intros rules Hr].
  { apply yields_field; [|by constructor..]. intros w l. apply get_list_all, rule_reads_in_range. }
  by apply yields_ret.
Qed.

Lemma get_some_all {A} (P : A → Prop) get v o :
  (∀ w x, get w = Some x → P x) → get_some get v = Some o → from_option P True o.
Proof. intros Hg. unfold get_some. destruct (get v) eqn:E; [|done]. intros [= <-]. by eapply Hg. Qed.

Lemma config_reads_in_range m c : get_config m = Some c → in_range c.
Proof.
  assert (Hy : yields in_range config_fields).
  { apply (yields_bind server_in_range); [|intros s Hs].
    { apply yields_field; [|done..]. apply server_reads_in_range. }
    apply (yields_bind (from_option http_in_range True)); [|intros h Hh].
    { apply yields_field; [|done..]. intros v o. apply get_some_all, http_reads_in_range. }
    apply (yields_bind (from_option certificate_in_range True)); [|intros ce Hc].
    { apply yields_field; [|done..]. intros v o. apply get_some_all, certificate_reads_in_range. }
    apply (yields_bind auth_in_range); [|intros a Ha].
    { apply yields_field; [|done..]. apply auth_reads_in_range. }
    ranged_field. by apply yields_ret. }
  unfold get_config. destruct (config_fields (ByName m)) as [[x i]|] eqn:E; [|done]. intros [= <-]. by eapply Hy.
Qed.

Lemma default_in_range : in_range Config_default.
Proof.
  unfold in_range, server_in_range, auth_in_range. cbn. unfold in_width. split_and!; try (done || lia).
  by repeat constructor.
Qed.

Lemma loaded_in_range `{TM : Toml} readable path fs c : Config_load readable path fs = Some c → in_range c.
Proof.
  unfold Config_load. destruct (negb readable); [done|].
  destruct (fs !! path) as [b|]; [|done]. cbn. destruct (from_utf8 b) as [t|]; [|done]. cbn.
  unfold from_toml. destruct (toml_parse t) as [m|]; [|done]. cbn. apply config_reads_in_range.
Qed.

(** A document is read by the five names of [Config] and nothing else. *)
Definition by_name {A} (m : Table) (k : string) (get : Value → option A) (absent : option A) : option A :=
  match m !! k with Some v => get v | None => absent end.

Lemma field_by_name {A B} (k : string) (get : Value → option A) absent ended (f : A → Fields B) m :
  (field k get absent ended ≫= f) (ByName m) = x ← by_name m k get absent; f x (ByName m).
Proof.
  unfold mbind at 1, Fields_bind at 1. cbn. unfold by_name. destruct (m !! k) as [v|]; [by destruct (get v)|by destruct absent].
Qed.

Lemma get_config_by_name m :
  get_config m =
  s ← by_name m "server" get_server None;
  h ← by_name m "http" (get_some get_http) (Some None);
  c ← by_name m "certificates" (get_some get_certificate) (Some None);
  a ← by_name m "auth" get_auth None;
  l ← by_name m "log" get_log (Some LogConfig_default);
  Some (mkConfig s h c a l).
Proof.
  unfold get_config, config_fields, required, defaulted. rewrite field_by_name.
  destruct (by_name m "server" _ _) as [s|]; [|done]. cbn [mbind option_bind]. rewrite field_by_name.
  destruct (by_name m "http" _ _) as [h|]; [|done]. cbn [mbind option_bind]. rewrite field_by_name.
  destruct (by_name m "certificates" _ _) as [c|]; [|done]. cbn [mbind option_bind]. rewrite field_by_name.
  destruct (by_name m "auth" _ _) as [a|]; [|done]. cbn [mbind option_bind]. rewrite field_by_name.
  by destruct (by_name m "log" _ _) as [l|].
Qed.

(** ** A concrete TOML, for the examples

    A few documents with the text each has; every other table has none. *)
#[global] Instance ListenConfig_eq_dec : EqDecision ListenConfig.
Proof. solve_decision. Defined.
#[global] Instance ServerConfig_eq_dec : EqDecision ServerConfig.
Proof. solve_decision. Defined.
#[global] Instance HttpConfig_eq_dec : EqDecision HttpConfig.
Proof. solve_decision. Defined.
#[global] Instance CertificateConfig_eq_dec : EqDecision CertificateConfig.
Proof. solve_decision. Defined.
#[global] Instance LogConfig_eq_dec : EqDecision LogConfig.
Proof. solve_decision. Defined.
#[global] Instance UserConfig_eq_dec : EqDecision UserConfig.
Proof. solve_decision. Defined.
#[global] Instance AclRuleConfig_eq_dec : EqDecision AclRuleConfig.
Proof. solve_decision. Defined.
#[global] Instance AuthConfig_eq_dec : EqDecision AuthConfig.
Proof. solve_decision. Defined.
#[global] Instance Config_eq_dec : EqDecision Config.
Proof. solve_decision. Defined.

Definition toy_tables (known : list (string * Table)) : Toml := {|
  toml_print m := fst <$> find_first (λ x, bool_decide (snd x = m)) known;
  toml_parse t := snd <$> find_first (λ x, str_eqb (fst x) t) known
|}.

Lemma toy_tables_laws known :
  NoDup (map fst known) → Forall (λ x, utf8_valid (str_bytes (fst x)) = true) known →
  @TomlLaws (toy_tables known).
Proof.
  intros Hnd Hu. split; intros m t; cbn [toml_print toml_parse toy_tables];
    destruct (find_first _ known) as [[t' m']|] eqn:E; cbn; try done; intros [= <-].
  - apply find_first_Some in E as [Hin _]. rewrite list.Forall_forall in Hu. by apply (Hu _ Hin).
  - apply find_first_Some in E as [Hin Hm]. cbn in Hm. apply bool_decide_eq_true_1 in Hm as ->.
    rewrite (find_first_unique _ known (t', m)); [done|done|by apply str_eqb_eq|].
    intros [t2 m2] Hin2 Ht. cbn in Ht. apply str_eqb_eq in Ht as ->.
    apply list_elem_of_lookup in Hin as [i Hi], Hin2 as [j Hj].
    assert (i = j) as <-; [|congruence].
    eapply (NoDup_lookup (map fst known)); [done| |];
      rewrite list_lookup_fmap; [by rewrite Hi|by rewrite Hj].
Qed.

(** The tables of a few configurations. *)
Definition config_tables (known : list (string * Config)) : list (string * Table) :=
  omap (λ x, (λ m, (fst x, m)) <$> put_config (snd x)) known.
Abbreviation toy_toml known := (toy_tables (config_tables known)).

(** ** Properties *)

(** C22. A configuration survives its file: what was saved is loaded with every
    field as it was, except that an HTTP section without [trust_proxy] comes
    back with [false] there; saving and loading that once more changes nothing. *)
Theorem config_file_roundtrip `{TL : TomlLaws} (c : Config) (path : string) (fs fs1 : FileSystem) :
  Config_save Written c path fs = (true, fs1) →
  Config_load true path fs1 = Some (absent_defaults c) ∧
  (absent_defaults c = c ↔ trust_proxy <$> http c ≠ Some None) ∧
  ∀ fs2, Config_save Written (absent_defaults c) path fs1 = (true, fs2) →
    Config_load true path fs2 = Some (absent_defaults c).
Proof.
  intros Hs. split; [by eapply load_saved|]. split.
  - destruct c as [s [[? ? ? ? ? ? ? [b|]]|] ce a l]; cbn; naive_solver.
  - intros fs2 Hs2. rewrite (load_saved _ _ _ _ Hs2). by rewrite absent_defaults_idem.
Qed.

Definition default_document : Toml := toy_toml [("defaults"%string, Config_default)].
Lemma default_document_laws : @TomlLaws default_document.
Proof. apply toy_tables_laws; [apply (bool_decide_unpack _); vm_compute; exact I|by repeat constructor]. Qed.

Lemma config_file_roundtrip_witness :
  @Config_load default_document true "c.toml" {["c.toml"%string := str_bytes "defaults"]} = Some Config_default.
Proof.
  refine (proj1 (@config_file_roundtrip default_document default_document_laws Config_default "c.toml" ∅
    {["c.toml"%string := str_bytes "defaults"]} _)).
  vm_compute. reflexivity.
Defined.

(** How a document becomes a configuration: only the tables [server] and
    [auth] are required, other names are skipped, an absent [http] or
    [certificates] is [None] and an absent [log] its default, and every number
    that is accepted fits the type of its field. *)
Theorem config_document_read (m : Table) :
  (m !! "server"%string = None ∨ m !! "auth"%string = None → get_config m = None) ∧
  (∀ k v, k ∉ ["server"; "http"; "certificates"; "auth"; "log"]%string →
     get_config (<[k := v]> m) = get_config m) ∧
  ∀ c, get_config m = Some c →
    in_range c ∧ (m !! "http"%string = None → http c = None) ∧
    (m !! "certificates"%string = None → certificates c = None) ∧
    (m !! "log"%string = None → log c = LogConfig_default).
Proof.
  split_and!.
  - rewrite get_config_by_name. unfold by_name. intros [->| ->]; [done|].
    destruct (match m !! "server"%string with Some _ => _ | None => _ end); [cbn|done].
    destruct (match m !! "http"%string with Some _ => _ | None => _ end); [cbn|done].
    by destruct (match m !! "certificates"%string with Some _ => _ | None => _ end).
  - intros k v Hk. rewrite !get_config_by_name. unfold by_name.
    rewrite !lookup_insert_ne by (intros ->; apply Hk; set_solver). done.
  - intros c Hc. split; [by eapply config_reads_in_range|]. rewrite get_config_by_name in Hc. unfold by_name in Hc.
    destruct (match m !! "server"%string with Some _ => _ | None => _ end) as [s|]; [cbn in Hc|done].
    destruct (match m !! "http"%string with Some _ => _ | None => _ end) as [h|] eqn:Eh; [cbn in Hc|done].
    destruct (match m !! "certificates"%string with Some _ => _ | None => _ end) as [ce|] eqn:Ec; [cbn in Hc|done].
    destruct (match m !! "auth"%string with Some _ => _ | None => _ end) as [a|]; [cbn in Hc|done].
    destruct (match m !! "log"%string with Some _ => _ | None => _ end) as [l|] eqn:El; [|done].
    injection Hc as <-. cbn. split_and!; intros H; [rewrite H in Eh|rewrite H in Ec|rewrite H in El]; by simplify_eq.
Qed.

(** The smallest document, with a name the program does not know. *)
Definition small_document : Table :=
  {["server"%string := VTable {["realm"%string := VString "r"; "external_ip"%string := VString "192.0.2.1";
                                "start_port"%string := VInt 50000; "end_port"%string := VInt 50010;
                                "listening"%string := VArray []]};
    "auth"%string := VTable ∅; "owner"%string := VOther "1979-05-27"]}.

Lemma config_document_read_witness :
  get_config (delete "auth"%string small_document) = None ∧
  ∃ c, get_config small_document = Some c ∧ in_range c ∧ http c = None ∧ log c = LogConfig_default.
Proof.
  split.
  - apply (config_document_read (delete "auth"%string small_document)). right. vm_compute. reflexivity.
  - destruct (get_config small_document) as [c|] eqn:E.
    2:{ exfalso. revert E. vm_compute. discriminate. }
    exists c. split; [reflexivity|]. destruct (config_document_read small_document) as (_ & _ & H).
    destruct (H c E) as (Hr & Hh & _ & Hl). split; [exact Hr|]. split; [apply Hh|apply Hl]; vm_compute; reflexivity.
Defined.
