(* ===== verification/Server.v ===== *)
(** * Request handling (src/server.rs)

    The server state, long-term credential authentication, the TURN request
    handlers and the entry points of the transports.

    A handler takes the server and returns the response, the datagrams it
    hands to sockets and the new server; it is an [outcome] because an
    out-of-range index in the source unwinds the task.  The cryptographic
    crates are the parameters of [Crypto].  [MsgEnv] holds what one message
    handler reads from outside: clocks, random bytes, bind and send results. *)

From S2P Require Import Prelude RustStd StunMessage Errors Ports Channels Bandwidth Auth Alloc Framing Crypto.
Local Open Scope Z_scope.

(** ** State *)

Record NonceEntry := mkNonce { nonce_text : string; nonce_created_at : Z }.

Record TurnServer := mkServer {
  allocation_table : AllocationTable PortAllocator;
  channel_table : ChannelTable;
  relay_addr : Ipv4Addr;
  relay_bind_addr : Ipv4Addr;
  srv_realm : string;
  nonce_map : gmap string NonceEntry;
  srv_password : string;
  auth_disabled : bool;
  auth_manager : option AuthManager;
  stats_dump_interval_secs : Z;
  stats_dump_skip_if_no_change : bool;
  server_name : string;
  stun_enabled : bool;
  turn_enabled : bool
}.

Definition set_table (t : AllocationTable PortAllocator) (s : TurnServer) : TurnServer :=
  mkServer t (channel_table s) (relay_addr s) (relay_bind_addr s) (srv_realm s) (nonce_map s)
    (srv_password s) (auth_disabled s) (auth_manager s) (stats_dump_interval_secs s)
    (stats_dump_skip_if_no_change s) (server_name s) (stun_enabled s) (turn_enabled s).
Definition set_channel_table (c : ChannelTable) (s : TurnServer) : TurnServer :=
  mkServer (allocation_table s) c (relay_addr s) (relay_bind_addr s) (srv_realm s) (nonce_map s)
    (srv_password s) (auth_disabled s) (auth_manager s) (stats_dump_interval_secs s)
    (stats_dump_skip_if_no_change s) (server_name s) (stun_enabled s) (turn_enabled s).
Definition set_nonces (n : gmap string NonceEntry) (s : TurnServer) : TurnServer :=
  mkServer (allocation_table s) (channel_table s) (relay_addr s) (relay_bind_addr s) (srv_realm s) n
    (srv_password s) (auth_disabled s) (auth_manager s) (stats_dump_interval_secs s)
    (stats_dump_skip_if_no_change s) (server_name s) (stun_enabled s) (turn_enabled s).

Definition CARGO_NAME_VERSION : string := "miuturn/0.1.4".

(** The constructors; every one ends in the same record. *)
Definition make_server (t : AllocationTable PortAllocator) (relay bind : Ipv4Addr)
    (realm pw : string) (no_auth : bool) : TurnServer :=
  mkServer t ChannelTable_new relay bind realm ∅ pw no_auth None 30 true CARGO_NAME_VERSION true true.

Definition with_port_range_limits_bind_address_and_password (now : Z) (relay bind : Ipv4Addr)
    (realm : string) (min_port max_port : Z) (max_conc max_dur : option Z) (pw : string)
    (no_auth : bool) : TurnServer :=
  make_server (with_port_range_and_bind_addr now relay bind realm min_port max_port max_conc max_dur)
    relay bind realm pw no_auth.
Definition with_port_range_limits_and_password (now : Z) (relay : Ipv4Addr)
    (realm : string) (min_port max_port : Z) (max_conc max_dur : option Z) (pw : string)
    (no_auth : bool) : TurnServer :=
  with_port_range_limits_bind_address_and_password now relay relay realm min_port max_port
    max_conc max_dur pw no_auth.
Definition with_port_range_and_bind_address_and_password (now : Z) (relay bind : Ipv4Addr)
    (realm : string) (min_port max_port : Z) (pw : string) : TurnServer :=
  make_server (with_port_range_and_bind_addr now relay bind realm min_port max_port None None)
    relay bind realm pw false.
Definition with_port_range_and_password (now : Z) (relay : Ipv4Addr) (realm : string)
    (min_port max_port : Z) (pw : string) : TurnServer :=
  with_port_range_and_bind_address_and_password now relay relay realm min_port max_port pw.
Definition with_port_range_auth_disabled (now : Z) (relay : Ipv4Addr) (realm : string)
    (min_port max_port : Z) : TurnServer :=
  make_server (with_port_range now relay realm min_port max_port None None) relay relay realm "" true.
Definition with_limits_and_password (now : Z) (relay : Ipv4Addr) (realm : string)
    (max_conc max_dur : option Z) (pw : string) (no_auth : bool) : TurnServer :=
  make_server (Alloc.with_limits now relay realm max_conc max_dur) relay relay realm pw no_auth.
Definition TurnServer_with_limits (now : Z) (relay : Ipv4Addr) (realm : string)
    (max_conc max_dur : option Z) : TurnServer :=
  with_limits_and_password now relay realm max_conc max_dur "password" false.
Definition TurnServer_new (now : Z) (relay : Ipv4Addr) (realm : string) : TurnServer :=
  with_limits_and_password now relay realm None None "password" false.
Definition with_password (now : Z) (relay : Ipv4Addr) (realm pw : string) : TurnServer :=
  with_limits_and_password now relay realm None None pw false.
Definition with_auth_disabled (now : Z) (relay : Ipv4Addr) (realm : string) : TurnServer :=
  with_limits_and_password now relay realm None None "" true.

Definition set_auth_manager (am : AuthManager) (s : TurnServer) : TurnServer :=
  mkServer (allocation_table s) (channel_table s) (relay_addr s) (relay_bind_addr s) (srv_realm s)
    (nonce_map s) (srv_password s) (auth_disabled s) (Some am) (stats_dump_interval_secs s)
    (stats_dump_skip_if_no_change s) (server_name s) (stun_enabled s) (turn_enabled s).
Definition set_stats_dump_interval (secs : Z) (s : TurnServer) : TurnServer :=
  mkServer (allocation_table s) (channel_table s) (relay_addr s) (relay_bind_addr s) (srv_realm s)
    (nonce_map s) (srv_password s) (auth_disabled s) (auth_manager s) secs
    (stats_dump_skip_if_no_change s) (server_name s) (stun_enabled s) (turn_enabled s).
Definition set_stats_dump_skip_if_no_change (skip : bool) (s : TurnServer) : TurnServer :=
  mkServer (allocation_table s) (channel_table s) (relay_addr s) (relay_bind_addr s) (srv_realm s)
    (nonce_map s) (srv_password s) (auth_disabled s) (auth_manager s) (stats_dump_interval_secs s)
    skip (server_name s) (stun_enabled s) (turn_enabled s).
Definition set_server_name (name : string) (s : TurnServer) : TurnServer :=
  mkServer (allocation_table s) (channel_table s) (relay_addr s) (relay_bind_addr s) (srv_realm s)
    (nonce_map s) (srv_password s) (auth_disabled s) (auth_manager s) (stats_dump_interval_secs s)
    (stats_dump_skip_if_no_change s) name (stun_enabled s) (turn_enabled s).
Definition set_protocol_enabled (stun turn : bool) (s : TurnServer) : TurnServer :=
  mkServer (allocation_table s) (channel_table s) (relay_addr s) (relay_bind_addr s) (srv_realm s)
    (nonce_map s) (srv_password s) (auth_disabled s) (auth_manager s) (stats_dump_interval_secs s)
    (stats_dump_skip_if_no_change s) (server_name s) stun turn.

Definition enabled_protocol_label (stun turn : bool) : string :=
  match stun, turn with
  | true, true => "STUN/TURN"
  | true, false => "STUN"
  | false, true => "TURN"
  | false, false => "disabled STUN/TURN"
  end.
Definition protocol_label (s : TurnServer) : string :=
  enabled_protocol_label (stun_enabled s) (turn_enabled s).

Definition TurnServer_stats (s : TurnServer) : Z * Z * Z * Z :=
  ServerStats_snapshot (stats (allocation_table s)).

(** What a handler reads from outside. *)
Record MsgEnv := mkEnv {
  env_now : Z;
  env_unix : Z;
  env_random : list Z;
  env_create : CreateEnv;
  env_weak : list bool;
  env_io : result Z string
}.

Definition MAGIC_COOKIE : Z := 0x2112A442.

(** ** Responses that need no key *)

Definition software_attr (s : TurnServer) : Attribute := mkAttr SOFTWARE (str_bytes (server_name s)).

Definition create_error_response_bytes (msg : Message) (code : ErrorCode) (s : TurnServer) : list Z :=
  Message_encode (add_attribute (create_error_response (header msg) code) (software_attr s)).

Definition create_error_response_bytes_with_reason (msg : Message) (code : ErrorCode)
    (reason : string) (s : TurnServer) : list Z :=
  Message_encode (add_attribute (create_error_response_with_reason (header msg) code (Some reason))
                                (software_attr s)).

(** [Buf::get_u32] panics on fewer than four bytes. *)
Definition get_lifetime (msg : Message) : outcome Z :=
  match get_attribute msg LIFETIME with
  | Some attr =>
    let v := value attr in
    if decide (length v < 4)%nat then Panic
    else Ret (be32 (byte_at v 0) (byte_at v 1) (byte_at v 2) (byte_at v 3))
  | None => Ret 600
  end.

Definition handle_binding (msg : Message) (client : SocketAddr) : option (list Z) :=
  Some (create_binding_response_fast (transaction_id (header msg)) client).

Definition get_password_for_user (unix : Z) (s : TurnServer) (name : string) : option string :=
  let fallback := if str_eqb (srv_password s) "" then None else Some (srv_password s) in
  match auth_manager s with
  | Some am => match get_user_password unix am name with
               | Some pw => Some pw
               | None => fallback
               end
  | None => fallback
  end.

(** ** Keys and MESSAGE-INTEGRITY *)

Section handlers.
Context `{CR : Crypto} `{HO : HashOrder}.

Definition generate_nonce (random : list Z) : string := hex_encode random.

Definition compute_message_integrity_key (name realm pw : string) : list Z :=
  md5 (str_bytes (name +:+ ":" +:+ realm +:+ ":" +:+ pw)).

(** The bytes the MAC covers: the header with the length that counts the
    24-byte MESSAGE-INTEGRITY attribute, then [attrs]. *)
Definition integrity_input (h : MessageHeader) (attrs : list Attribute) : list Z :=
  let attr_buf := encode_attributes attrs in
  MessageHeader_encode (set_length h (as_u16 (Z.of_nat (length attr_buf) + 24))) ++ attr_buf.

Fixpoint attrs_before_integrity (l : list Attribute) : list Attribute :=
  match l with
  | [] => []
  | a :: l => if attr_type a =? MESSAGE_INTEGRITY then [] else a :: attrs_before_integrity l
  end.

Definition verify_message_integrity (msg : Message) (key : list Z) : outcome bool :=
  match get_attribute msg MESSAGE_INTEGRITY with
  | None => Ret false
  | Some integrity_attr =>
    let computed := hmac_sha1 key (integrity_input (header msg) (attrs_before_integrity (attributes msg))) in
    c ← slice_to computed 20;
    v ← slice_to (value integrity_attr) 20;
    Ret (bool_decide (c = v))
  end.

Definition add_response_message_integrity (response : Message) (key : list Z) : outcome Message :=
  let computed := hmac_sha1 key (integrity_input (header response) (attributes response)) in
  c ← slice_to computed 20;
  Ret (add_attribute response (mkAttr MESSAGE_INTEGRITY c)).

(** ** Authentication *)

Definition create_401_response (env : MsgEnv) (msg : Message) (reason : option string) (s : TurnServer)
    : list Z * TurnServer :=
  let nonce := generate_nonce (env_random env) in
  let s' := set_nonces (<[nonce := mkNonce nonce (env_now env)]> (nonce_map s)) s in
  let r := create_error_response_with_reason (header msg) Unauthorized reason in
  let r := add_attribute r (mkAttr REALM (str_bytes (srv_realm s))) in
  let r := add_attribute r (mkAttr NONCE (str_bytes nonce)) in
  (Message_encode (add_attribute r (software_attr s)), s').

Definition acl_allows (s : TurnServer) (client : SocketAddr) : bool :=
  match auth_manager s with
  | Some am => check_acl am (ip_string (sa_ip client))
  | None => true
  end.

Definition verify_turn_auth (env : MsgEnv) (msg : Message) (client : SocketAddr) (s : TurnServer)
    : outcome (result string (list Z) * TurnServer) :=
  let deny reason := let '(r, s') := create_401_response env msg reason s in Ret (Err r, s') in
  if auth_disabled s then
    Ret (Ok (match get_attribute msg USERNAME with
             | Some a => from_utf8_lossy (value a)
             | None => ""%string
             end), s)
  else if negb (acl_allows s client) then
    Ret (Err (create_error_response_bytes msg Forbidden s), s)
  else
  match get_attribute msg NONCE, get_attribute msg USERNAME with
  | Some nonce_attr, Some username_attr =>
    let nonce := from_utf8_lossy (value nonce_attr) in
    let name := from_utf8_lossy (value username_attr) in
    match nonce_map s !! nonce with
    | None => deny (Some "Invalid nonce"%string)
    | Some entry =>
      if 600 <? as_secs (elapsed (env_now env) (nonce_created_at entry)) then deny (Some "Nonce expired"%string)
      else
      match get_password_for_user (env_unix env) s name with
      | None => deny (Some "Unknown user"%string)
      | Some pw =>
        let key := compute_message_integrity_key name (srv_realm s) pw in
        ok ← verify_message_integrity msg key;
        if negb ok then deny (Some "Bad integrity"%string) else Ret (Ok name, s)
      end
    end
  | _, _ => deny None
  end.

(** [if !server.auth_disabled { if let Some(password) = .. }] before a success
    response is encoded. *)
Definition sign_response (env : MsgEnv) (name : string) (response : Message) (s : TurnServer)
    : outcome Message :=
  if auth_disabled s then Ret response else
  match get_password_for_user (env_unix env) s name with
  | Some pw => add_response_message_integrity response (compute_message_integrity_key name (srv_realm s) pw)
  | None => Ret response
  end.

(** ** Request handlers *)

Definition reply : Type := option (list Z) * list Packet * TurnServer.

(** [remove_allocation(&addr, Some(&ch_table))] on the server's two tables. *)
Definition drop_allocation (weak : list bool) (addr : SocketAddr) (s : TurnServer) : TurnServer :=
  let '(_, ch, t) := remove_allocation weak addr (Some (channel_table s)) (allocation_table s) in
  set_table t (match ch with Some c => set_channel_table c s | None => s end).

Definition allocate_error (e : Errors.Error) : ErrorCode * string :=
  match e with
  | Errors.AllocationQuotaReached => (StunMessage.AllocationQuotaReached, "server allocation quota reached"%string)
  | RelayPortExhausted | RelayBindFailed _ _ => (InsufficientCapacity, Error_fmt e)
  | _ => (ServerError, Error_fmt e)
  end.

Definition allocate_success (msg : Message) (relayed client : SocketAddr) (life : Z) (s : TurnServer)
    : Message :=
  let tid := transaction_id (header msg) in
  mkMsg (mkHeader (method (header msg)) Success 0 MAGIC_COOKIE tid)
    [mkAttr XOR_RELAYED_ADDRESS (encode_xor_address relayed MAGIC_COOKIE tid);
     mkAttr XOR_MAPPED_ADDRESS (encode_xor_address client MAGIC_COOKIE tid);
     mkAttr LIFETIME (put_u32 life);
     mkAttr REALM (str_bytes (srv_realm s));
     software_attr s].

Definition handle_allocate (env : MsgEnv) (msg : Message) (client : SocketAddr) (s : TurnServer)
    : outcome reply :=
  '(auth, s) ← verify_turn_auth env msg client s;
  match auth with
  | Err resp => Ret (Some resp, [], s)
  | Ok name =>
    life ← get_lifetime msg;
    let s := match find_allocation_by_client (allocation_table s) client with
             | Some old_relayed => drop_allocation (env_weak env) old_relayed s
             | None => s
             end in
    '(r, t) ← create_allocation (env_create env) client (Some life) (allocation_table s);
    let s := set_table t s in
    match r with
    | Err e =>
      let '(code, reason) := allocate_error e in
      Ret (Some (create_error_response_bytes_with_reason msg code reason s), [], s)
    | Ok a =>
      response ← sign_response env name (allocate_success msg (relayed_addr a) client life s) s;
      Ret (Some (Message_encode response), [], s)
    end
  end.

Definition handle_refresh (env : MsgEnv) (msg : Message) (client : SocketAddr) (s : TurnServer)
    : outcome reply :=
  '(auth, s) ← verify_turn_auth env msg client s;
  match auth with
  | Err resp => Ret (Some resp, [], s)
  | Ok name =>
    life ← get_lifetime msg;
    match find_allocation_by_client (allocation_table s) client with
    | Some relayed =>
      let '(ok, s) :=
        if life =? 0 then (true, drop_allocation (env_weak env) relayed s)
        else let '(r, t) := refresh_allocation relayed life (allocation_table s) in
             (is_ok r, set_table t s) in
      if negb ok then Ret (Some (create_error_response_bytes msg AllocationMismatch s), [], s) else
      let response := add_attribute (create_success_response (header msg)) (mkAttr LIFETIME (put_u32 life)) in
      response ← sign_response env name response s;
      Ret (Some (Message_encode response), [], s)
    | None => Ret (Some (create_error_response_bytes msg AllocationMismatch s), [], s)
    end
  end.

Definition peers_of (msg : Message) : list SocketAddr :=
  omap (λ a, if attr_type a =? PEER_ADDRESS
             then decode_xor_address (value a) MAGIC_COOKIE (transaction_id (header msg)) else None)
       (attributes msg).

Definition handle_create_permission (env : MsgEnv) (msg : Message) (client : SocketAddr) (s : TurnServer)
    : outcome reply :=
  '(auth, s) ← verify_turn_auth env msg client s;
  match auth with
  | Err resp => Ret (Some resp, [], s)
  | Ok name =>
    match find_allocation_by_client (allocation_table s) client with
    | None => Ret (Some (create_error_response_bytes msg AllocationMismatch s), [], s)
    | Some _ =>
      let peers := peers_of msg in
      if bool_decide (peers = []) then Ret (Some (create_error_response_bytes msg BadRequest s), [], s) else
      let '(added, t) := add_permissions client peers (allocation_table s) in
      let s := set_table t s in
      if negb added then Ret (Some (create_error_response_bytes msg AllocationMismatch s), [], s) else
      response ← sign_response env name (create_success_response (header msg)) s;
      Ret (Some (Message_encode response), [], s)
    end
  end.

Definition handle_channel_bind (env : MsgEnv) (msg : Message) (client : SocketAddr) (s : TurnServer)
    : outcome reply :=
  '(auth, s) ← verify_turn_auth env msg client s;
  match auth with
  | Err resp => Ret (Some resp, [], s)
  | Ok name =>
    match find_allocation_by_client (allocation_table s) client,
          get_attribute msg PEER_ADDRESS, get_attribute msg CHANNEL_NUMBER with
    | Some relayed, Some peer_attr, Some channel_attr =>
      let peer := match decode_xor_address (value peer_attr) MAGIC_COOKIE (transaction_id (header msg)) with
                  | Some a => a
                  | None => SaV4 (mkIpv4 0 0 0 0) 0
                  end in
      b0 ← index (value channel_attr) 0;
      b1 ← index (value channel_attr) 1;
      let channel_num := be16 b0 b1 in
      let '(r, c) := ChannelTable_bind (env_now env) channel_num peer relayed (channel_table s) in
      let s := set_channel_table c s in
      if is_ok r then
        response ← sign_response env name (create_success_response (header msg)) s;
        Ret (Some (Message_encode response), [], s)
      else
        Ret (Some (create_error_response_bytes_with_reason msg BadRequest
                     "Channel number already bound for this allocation" s), [], s)
    | _, _, _ => Ret (None, [], s)
    end
  end.

Definition handle_send (env : MsgEnv) (msg : Message) (client : SocketAddr) (s : TurnServer) : reply :=
  match find_allocation_by_client (allocation_table s) client with
  | None => (None, [], s)
  | Some _ =>
    match get_attribute msg PEER_ADDRESS with
    | None => (None, [], s)
    | Some peer_attr =>
      match decode_xor_address (value peer_attr) MAGIC_COOKIE (transaction_id (header msg)) with
      | None => (None, [], s)
      | Some peer =>
        match get_attribute msg DATA with
        | None => (None, [], s)
        | Some data_attr =>
          let '(_, out, t) := send_to_peer (env_io env) client peer (value data_attr) (allocation_table s) in
          (None, out, set_table t s)
        end
      end
    end
  end.

Definition process_message (env : MsgEnv) (msg : Message) (client : SocketAddr) (s : TurnServer)
    : outcome reply :=
  let m := method (header msg) in
  if bool_decide (m = Binding) && negb (stun_enabled s) then Ret (None, [], s) else
  if negb (bool_decide (m = Binding)) && negb (turn_enabled s) then Ret (None, [], s) else
  match m with
  | Binding => Ret (handle_binding msg client, [], s)
  | Allocate => handle_allocate env msg client s
  | Refresh => handle_refresh env msg client s
  | CreatePermission => handle_create_permission env msg client s
  | ChannelBind => handle_channel_bind env msg client s
  | Send => Ret (handle_send env msg client s)
  | _ => Ret (None, [], s)
  end.

(** ** Entry points of the transports *)

Definition is_channel_data_frame (data : list Z) : bool :=
  if decide (length data < 4)%nat then false
  else is_channel_number (be16 (byte_at data 0) (byte_at data 1)).

Definition handle_channel_data (data : list Z) (client : SocketAddr) (s : TurnServer) : list Packet :=
  if decide (length data < 4)%nat then [] else
  let channel_num := be16 (byte_at data 0) (byte_at data 1) in
  let data_len := Z.to_nat (be16 (byte_at data 2) (byte_at data 3)) in
  let payload_end := (4 + Nat.min data_len (length data - 4))%nat in
  let payload := slice data 4 payload_end in
  match get_allocation_by_client (allocation_table s) client with
  | None => []
  | Some a =>
    match get_by_channel (channel_table s) (relayed_addr a) channel_num with
    | None => []
    | Some channel =>
      match relay a with
      | Some r => [ToPeer (socket r) (cb_peer_addr channel) payload]
      | None => []
      end
    end
  end.

Definition handle_tcp_message (env : MsgEnv) (data : list Z) (client : SocketAddr) (s : TurnServer)
    : outcome reply :=
  if is_channel_data_frame data then Ret (None, handle_channel_data data client s, s) else
  match Message_parse data with
  | Some msg => process_message env msg client s
  | None => Ret (None, [], s)
  end.

(** The second chance [handle_udp_message] gives a message the parser refused:
    the method is the whole first word, and attributes are taken until one
    does not fit. *)
Definition raw_method (v : Z) : option Method :=
  match v with
  | 0x0001 => Some Binding
  | 0x0003 => Some Allocate
  | 0x0004 => Some Refresh
  | 0x0006 => Some Send
  | 0x0007 => Some Data
  | 0x0009 => Some ChannelBind
  | _ => None
  end.

Fixpoint raw_attributes (fuel : nat) (data : list Z) (offset end_ : nat) (acc : list Attribute)
    : option (list Attribute) :=
  match fuel with
  | O => None
  | S fuel =>
    if decide (offset < end_ ∧ offset + 4 ≤ length data)%nat then
      let ty := be16 (byte_at data offset) (byte_at data (offset + 1)) in
      let len := be16 (byte_at data (offset + 2)) (byte_at data (offset + 3)) in
      if decide (offset + 4 + Z.to_nat len ≤ length data)%nat then
        let v := slice data (offset + 4) (offset + 4 + Z.to_nat len) in
        let padding := as_u16 (4 - as_u16 (len + 4) mod 4) mod 4 in
        raw_attributes fuel data (offset + (4 + Z.to_nat len + Z.to_nat padding)) end_ (acc ++ [mkAttr ty v])
      else Some acc
    else Some acc
  end.

Definition raw_parse (data : list Z) : option Message :=
  if decide (length data < 20)%nat then None else
  let method_bytes := be16 (byte_at data 0) (byte_at data 1) in
  let len_bytes := be16 (byte_at data 2) (byte_at data 3) in
  if (0 <? len_bytes) && (len_bytes <? 1500) && (byte_at data 4 =? 0x21) && (byte_at data 5 =? 0x12)
     && (byte_at data 6 =? 0xa4) && (byte_at data 7 =? 0x42) then
    m ← raw_method method_bytes;
    attrs ← raw_attributes (S (length data)) data 20 (20 + Z.to_nat len_bytes) [];
    Some (mkMsg (mkHeader m Request len_bytes MAGIC_COOKIE (slice data 8 20)) attrs)
  else None.

Definition handle_udp_message (env : MsgEnv) (data : list Z) (client : SocketAddr) (s : TurnServer)
    : outcome reply :=
  if decide (length data < 4)%nat then Ret (None, [], s) else
  if is_channel_data_frame data then Ret (None, handle_channel_data data client s, s) else
  match Message_parse data with
  | Some msg => process_message env msg client s
  | None =>
    match raw_parse data with
    | Some msg => process_message env msg client s
    | None => Ret (None, [], s)
    end
  end.

Definition handle_dtls_message (env : MsgEnv) (data : list Z) (client : SocketAddr) (s : TurnServer)
    : outcome reply := handle_udp_message env data client s.
End handlers.

(** ** Background tasks, one tick each *)

Definition NONCE_EXPIRY_SECONDS : Z := 600.

Definition nonce_cleanup_tick (now : Z) (s : TurnServer) : TurnServer :=
  set_nonces (filter (λ e, as_secs (elapsed now (nonce_created_at e.2)) < NONCE_EXPIRY_SECONDS)
                     (nonce_map s)) s.

Definition channel_cleanup_tick (now : Z) (s : TurnServer) : TurnServer :=
  set_channel_table (ChannelTable_cleanup_expired now (channel_table s)).2 s.

Definition allocation_cleanup_tick `{HashOrder} (now : Z) (weak : list bool) (s : TurnServer) : TurnServer :=
  let '(_, ch, t) := cleanup_expired now weak (Some (channel_table s)) (allocation_table s) in
  set_table t (match ch with Some c => set_channel_table c s | None => s end).

(** ** The server invariant *)

Record srv_ok (s : TurnServer) : Prop := {
  so_table : table_ok (allocation_table s);
  so_channels : channels_ok (channel_table s);
  so_unique : ∀ k1 a1 k2 a2,
    allocations (allocation_table s) !! k1 = Some a1 → allocations (allocation_table s) !! k2 = Some a2 →
    client_addr a1 = client_addr a2 → k1 = k2;
  so_bound : ∀ k id, is_Some (channels (channel_table s) !! (k, id)) →
    is_Some (allocations (allocation_table s) !! k)
}.

Lemma srv_ok_nonces n s : srv_ok s → srv_ok (set_nonces n s).
Proof. by intros []. Qed.

(** Replacing the table by one with the same keys and clients. *)
Lemma srv_ok_table t s :
  srv_ok s → table_ok t →
  (∀ k a', allocations t !! k = Some a' →
     ∃ a, allocations (allocation_table s) !! k = Some a ∧ client_addr a = client_addr a') →
  (∀ k, is_Some (allocations (allocation_table s) !! k) → is_Some (allocations t !! k)) →
  srv_ok (set_table t s).
Proof.
  intros [Ht Hc Hu Hb] Hok Hback Hfwd. split; cbn; [done|done| |naive_solver].
  intros k1 a1 k2 a2 (b1 & H1 & E1)%Hback (b2 & H2 & E2)%Hback E. eapply Hu; [done..|congruence].
Qed.

Lemma srv_ok_update t s k a b :
  srv_ok s → table_ok t → allocations (allocation_table s) !! k = Some a →
  client_addr a = client_addr b →
  allocations t = <[k := b]> (allocations (allocation_table s)) → srv_ok (set_table t s).
Proof.
  intros Hs Hok Ha Hcl E. apply srv_ok_table; [done|done|rewrite E..].
  - intros k' a' [[<- <-]|[_ Hl]]%lookup_insert_Some; eauto.
  - intros k' [x Hx]. destruct (decide (k = k')) as [<-|];
      [rewrite lookup_insert_eq|rewrite lookup_insert_ne by done]; eauto.
Qed.

Lemma srv_ok_same t s :
  srv_ok s → table_ok t → allocations t = allocations (allocation_table s) → srv_ok (set_table t s).
Proof. intros Hs Hok E. apply srv_ok_table; [done|done|rewrite E..]; eauto. Qed.

Section server.
Context `{CR : Crypto} `{HO : HashOrder}.

Lemma entry_relayed s client k a :
  srv_ok s → entry_by_client (allocation_table s) client = Some (k, a) →
  allocations (allocation_table s) !! k = Some a ∧ client_addr a = client ∧ relayed_addr a = k.
Proof.
  intros Hs [Ha Hcl]%entry_by_client_Some.
  destruct (tc_entry _ (proj1 (so_table _ Hs)) k a Ha) as (p & h & ? & ? & ? & _). done.
Qed.

Lemma find_allocation_Some s client k :
  srv_ok s → find_allocation_by_client (allocation_table s) client = Some k →
  ∃ a, allocations (allocation_table s) !! k = Some a ∧ client_addr a = client ∧ relayed_addr a = k ∧
       entry_by_client (allocation_table s) client = Some (k, a).
Proof.
  intros Hs H. unfold find_allocation_by_client in H.
  destruct (entry_by_client _ client) as [[k' a]|] eqn:E; [|done]. cbn in H. simplify_eq.
  destruct (entry_relayed s client k' a Hs E) as (? & ? & Hr). rewrite Hr. eauto.
Qed.

Lemma find_allocation_None s client :
  find_allocation_by_client (allocation_table s) client = None →
  ∀ k a, allocations (allocation_table s) !! k = Some a → client_addr a ≠ client.
Proof.
  unfold find_allocation_by_client. destruct (entry_by_client _ client) as [[k' a]|] eqn:E; [done|].
  intros _. by apply entry_by_client_None.
Qed.

Lemma drop_allocation_spec weak k s :
  srv_ok s → is_Some (allocations (allocation_table s) !! k) →
  srv_ok (drop_allocation weak k s) ∧
  allocations (allocation_table (drop_allocation weak k s)) = delete k (allocations (allocation_table s)) ∧
  unbound k (channel_table (drop_allocation weak k s)) ∧
  nonce_map (drop_allocation weak k s) = nonce_map s.
Proof.
  intros Hs Hk. unfold drop_allocation.
  pose proof (remove_spec weak k (Some (channel_table s)) (allocation_table s) (so_table _ Hs)) as H.
  destruct (remove_allocation weak k _ _) as [[r ch] t].
  destruct H as (Hok & _ & Hall & _ & _ & _ & ->). rewrite decide_True by done. cbn.
  split; [|split; [done|split; [apply remove_for_relayed_unbound|done]]].
  split; cbn.
  - done.
  - apply remove_for_relayed_ok, Hs.
  - rewrite Hall. intros k1 a1 k2 a2 [_ H1]%lookup_delete_Some [_ H2]%lookup_delete_Some.
    by eapply (so_unique _ Hs).
  - intros k' id Hb. rewrite Hall.
    pose proof (remove_for_relayed_lookup k (channel_table s) (k', id)) as Hr.
    cbn -[remove_for_relayed] in Hr. case_decide as Hd.
    + unfold remove_for_relayed in Hr; cbn in Hr. rewrite Hr in Hb. by destruct Hb.
    + unfold remove_for_relayed in Hr; cbn in Hr. rewrite Hr in Hb.
      rewrite lookup_delete_ne by done. by eapply (so_bound _ Hs).
Qed.

Lemma auth_keeps_tables env msg client s r s' :
  verify_turn_auth env msg client s = Ret (r, s') → ∃ n, s' = set_nonces n s.
Proof.
  assert (Hid : s = set_nonces (nonce_map s) s) by (by destruct s).
  unfold verify_turn_auth, create_401_response. intros H.
  repeat (split_match; simpl_bind; try done); simplify_eq; eauto.
  destruct (verify_message_integrity _ _) as [ok|]; [|done]. simpl_bind.
  destruct (negb ok); simplify_eq; eauto.
Qed.

Lemma handle_allocate_keeps env msg client s r out s' :
  srv_ok s → handle_allocate env msg client s = Ret (r, out, s') → srv_ok s'.
Proof.
  intros Hs H. unfold handle_allocate in H.
  destruct (verify_turn_auth env msg client s) as [[auth s1]|] eqn:Ea; [|done]. simpl_bind.
  destruct (auth_keeps_tables _ _ _ _ _ _ Ea) as [n ->]. apply (srv_ok_nonces n) in Hs.
  set (s1 := set_nonces n s) in *. clearbody s1. destruct auth as [name|resp]; [|by simplify_eq].
  destruct (get_lifetime msg) as [life|]; [|done]. simpl_bind.
  set (s2 := match find_allocation_by_client _ _ with Some _ => _ | None => _ end) in H.
  assert (Hs2 : srv_ok s2 ∧ ∀ k a, allocations (allocation_table s2) !! k = Some a → client_addr a ≠ client).
  { unfold s2. destruct (find_allocation_by_client _ client) as [k|] eqn:Ef.
    - destruct (find_allocation_Some s1 client k Hs Ef) as (a & Ha & Hcl & _ & _).
      destruct (drop_allocation_spec (env_weak env) k s1 Hs) as (? & Hall & _); [by eexists|].
      split; [done|]. rewrite Hall. intros k' a' [Hne Ha']%lookup_delete_Some Hcl'.
      apply Hne. eapply (so_unique _ Hs); [done..|congruence].
    - split; [done|]. by apply find_allocation_None. }
  clearbody s2. destruct Hs2 as [Hs2 Hnone].
  destruct (create_spec (env_create env) client (Some life) (allocation_table s2) (so_table _ Hs2))
    as (rr & t & Ec & Hok & _ & _ & _ & Hr). rewrite Ec in H. simpl_bind.
  assert (Hs3 : srv_ok (set_table t s2)).
  { destruct rr as [a|e]; [|by apply srv_ok_same, Hr].
    destruct Hr as (_ & Hfresh & Hall & Hcl & _). split; cbn; [done|apply Hs2| |].
    - rewrite Hall. intros k1 a1 k2 a2 [[<- <-]|[_ H1]]%lookup_insert_Some
        [[<- <-]|[_ H2]]%lookup_insert_Some E; [done| | |by eapply (so_unique _ Hs2)].
      + destruct (Hnone _ _ H2). congruence.
      + destruct (Hnone _ _ H1). congruence.
    - intros k id Hb%(so_bound _ Hs2). rewrite Hall. destruct (decide (relayed_addr a = k)) as [<-|];
        [rewrite lookup_insert_eq; by eexists|by rewrite lookup_insert_ne]. }
  clear Hr. destruct rr as [a|e].
  - destruct (sign_response _ _ _ _); simpl_bind; by simplify_eq.
  - destruct (allocate_error e). by simplify_eq.
Qed.

Lemma handle_refresh_keeps env msg client s r out s' :
  srv_ok s → handle_refresh env msg client s = Ret (r, out, s') → srv_ok s'.
Proof.
  intros Hs H. unfold handle_refresh in H.
  destruct (verify_turn_auth env msg client s) as [[auth s1]|] eqn:Ea; [|done]. simpl_bind.
  destruct (auth_keeps_tables _ _ _ _ _ _ Ea) as [n ->]. apply (srv_ok_nonces n) in Hs.
  set (s1 := set_nonces n s) in *. clearbody s1. destruct auth as [name|resp]; [|by simplify_eq].
  destruct (get_lifetime msg) as [life|]; [|done]. simpl_bind.
  destruct (find_allocation_by_client _ client) as [k|] eqn:Ef; [|by simplify_eq].
  destruct (find_allocation_Some s1 client k Hs Ef) as (a & Ha & Hcl & _ & _).
  assert (Hs2 : srv_ok (if life =? 0 then (true, drop_allocation (env_weak env) k s1)
     else let '(r, t) := refresh_allocation k life (allocation_table s1) in (is_ok r, set_table t s1)).2).
  { destruct (life =? 0); [by apply drop_allocation_spec|].
    pose proof (refresh_ok k life _ (so_table _ Hs)) as Hok. revert Hok. unfold refresh_allocation.
    rewrite Ha. cbn [snd]. intros Hok. by refine (srv_ok_update _ _ k a _ Hs Hok Ha _ eq_refl). }
  destruct (if life =? 0 then _ else _) as [ok s2]. cbn in Hs2.
  destruct ok; cbn [negb] in H; [|by simplify_eq].
  destruct (sign_response _ _ _ _); simpl_bind; by simplify_eq.
Qed.

Lemma srv_ok_permissions client peers s :
  srv_ok s → srv_ok (set_table (add_permissions client peers (allocation_table s)).2 s).
Proof.
  intros Hs. pose proof (add_permissions_ok client peers _ (so_table _ Hs)) as Hok. revert Hok.
  unfold add_permissions. destruct (entry_by_client _ client) as [[k a]|] eqn:E; cbn [snd]; intros Hok.
  - apply entry_by_client_Some in E as [Ha _]. by refine (srv_ok_update _ _ k a _ Hs Hok Ha _ eq_refl).
  - by apply srv_ok_same.
Qed.

Lemma srv_ok_send io client peer data s :
  srv_ok s → srv_ok (set_table (send_to_peer io client peer data (allocation_table s)).2 s).
Proof.
  intros Hs. pose proof (send_to_peer_ok io client peer data _ (so_table _ Hs)) as Hok. revert Hok.
  unfold send_to_peer. destruct (entry_by_client _ client) as [[k a]|] eqn:E; cbn [snd];
    [|intros; by apply srv_ok_same].
  apply entry_by_client_Some in E as [Ha _].
  destruct (negb _); [intros; by apply srv_ok_same|].
  destruct (relay a) as [rl|]; [|intros; by apply srv_ok_same].
  destruct io; [|intros; by apply srv_ok_same]. intros Hok.
  by refine (srv_ok_update _ _ k a _ Hs Hok Ha _ eq_refl).
Qed.

Lemma srv_ok_bind now id peer relayed s :
  srv_ok s → is_Some (allocations (allocation_table s) !! relayed) →
  srv_ok (set_channel_table (ChannelTable_bind now id peer relayed (channel_table s)).2 s).
Proof.
  intros Hs Hr. pose proof (bind_ok now id peer relayed _ (so_channels _ Hs)) as Hc.
  destruct (ChannelTable_bind now id peer relayed (channel_table s)) as [[[]|e] c] eqn:E; cbn in *.
  - apply bind_lookup in E as (b & _ & _ & _ & _ & _ & _ & Hother); [|apply Hs].
    split; cbn; [apply Hs|done|apply Hs|]. intros k id' Hk.
    destruct (decide ((k, id') = (relayed, id))) as [[= -> ->]|Hne]; [done|].
    rewrite Hother in Hk by done. by eapply (so_bound _ Hs).
  - apply bind_err in E as (_ & -> & _). by destruct Hs.
Qed.

Lemma handle_create_permission_keeps env msg client s r out s' :
  srv_ok s → handle_create_permission env msg client s = Ret (r, out, s') → srv_ok s'.
Proof.
  intros Hs H. unfold handle_create_permission in H.
  destruct (verify_turn_auth env msg client s) as [[auth s1]|] eqn:Ea; [|done]. simpl_bind.
  destruct (auth_keeps_tables _ _ _ _ _ _ Ea) as [n ->]. apply (srv_ok_nonces n) in Hs.
  set (s1 := set_nonces n s) in *. clearbody s1. destruct auth as [name|resp]; [|by simplify_eq].
  destruct (find_allocation_by_client _ client) as [k|] eqn:Ef; [|by simplify_eq].
  destruct (bool_decide (peers_of msg = [])); [by simplify_eq|].
  pose proof (srv_ok_permissions client (peers_of msg) s1 Hs) as Hs2.
  destruct (add_permissions client (peers_of msg) (allocation_table s1)) as [added t]. cbn in Hs2.
  destruct added; cbn [negb] in H; [|by simplify_eq].
  destruct (sign_response _ _ _ _); simpl_bind; by simplify_eq.
Qed.

Lemma handle_channel_bind_keeps env msg client s r out s' :
  srv_ok s → handle_channel_bind env msg client s = Ret (r, out, s') → srv_ok s'.
Proof.
  intros Hs H. unfold handle_channel_bind in H.
  destruct (verify_turn_auth env msg client s) as [[auth s1]|] eqn:Ea; [|done]. simpl_bind.
  destruct (auth_keeps_tables _ _ _ _ _ _ Ea) as [n ->]. apply (srv_ok_nonces n) in Hs.
  set (s1 := set_nonces n s) in *. clearbody s1. destruct auth as [name|resp]; [|by simplify_eq].
  destruct (find_allocation_by_client _ client) as [k|] eqn:Ef; [|by simplify_eq].
  destruct (find_allocation_Some s1 client k Hs Ef) as (a & Ha & _ & _ & _).
  destruct (get_attribute msg PEER_ADDRESS) as [pa|]; [|by simplify_eq].
  destruct (get_attribute msg CHANNEL_NUMBER) as [ca|]; [|by simplify_eq].
  destruct (index (value ca) 0) as [b0|]; [|done]. simpl_bind.
  destruct (index (value ca) 1) as [b1|]; [|done]. simpl_bind.
  match type of H with context [ChannelTable_bind ?n ?i ?p ?k ?c] =>
    pose proof (srv_ok_bind n i p k s1 Hs (ex_intro _ a Ha)) as Hs2;
    destruct (ChannelTable_bind n i p k c) as [rb c'] end. cbn [snd] in Hs2.
  destruct (is_ok rb); [|by simplify_eq].
  destruct (sign_response _ _ _ _); simpl_bind; by simplify_eq.
Qed.

Lemma handle_send_keeps env msg client s : srv_ok s → srv_ok (handle_send env msg client s).2.
Proof.
  intros Hs. unfold handle_send. repeat (case_match; try done). subst.
  match goal with E : send_to_peer ?io ?c ?p ?d ?t = _ |- _ =>
    pose proof (srv_ok_send io c p d s Hs) as Hk; rewrite E in Hk end. done.
Qed.

Lemma process_message_keeps env msg client s r out s' :
  srv_ok s → process_message env msg client s = Ret (r, out, s') → srv_ok s'.
Proof.
  intros Hs H. unfold process_message in H.
  destruct (bool_decide _ && negb (stun_enabled s)); [by simplify_eq|].
  destruct (negb _ && negb (turn_enabled s)); [by simplify_eq|].
  destruct (method (header msg)); try (by simplify_eq).
  - by eapply handle_allocate_keeps.
  - by eapply handle_refresh_keeps.
  - pose proof (handle_send_keeps env msg client s Hs) as Hk. simplify_eq. by rewrite H in Hk.
  - by eapply handle_create_permission_keeps.
  - by eapply handle_channel_bind_keeps.
Qed.

Lemma handle_udp_keeps env data client s r out s' :
  srv_ok s → handle_udp_message env data client s = Ret (r, out, s') → srv_ok s'.
Proof.
  intros Hs H. unfold handle_udp_message in H. case_decide; [by simplify_eq|].
  destruct (is_channel_data_frame data); [by simplify_eq|].
  destruct (Message_parse data); [by eapply process_message_keeps|].
  destruct (raw_parse data); [by eapply process_message_keeps|by simplify_eq].
Qed.

Lemma handle_tcp_keeps env data client s r out s' :
  srv_ok s → handle_tcp_message env data client s = Ret (r, out, s') → srv_ok s'.
Proof.
  intros Hs H. unfold handle_tcp_message in H.
  destruct (is_channel_data_frame data); [by simplify_eq|].
  destruct (Message_parse data); [by eapply process_message_keeps|by simplify_eq].
Qed.
End server.

(** ** Authentication, exactly *)

Section auth.
Context `{CR : Crypto} `{HO : HashOrder} `{CL : !CryptoLaws}.

(** What makes a request acceptable: the address passes the access rules, the
    nonce is one the server issued at most 600 seconds ago, the user has a
    password, and MESSAGE-INTEGRITY is the MAC of the message under the key
    of that user, realm and password. *)
Definition authorized (env : MsgEnv) (msg : Message) (client : SocketAddr) (s : TurnServer)
    (name : string) : Prop :=
  acl_allows s client = true ∧
  ∃ na ua entry pw mi,
    get_attribute msg NONCE = Some na ∧ get_attribute msg USERNAME = Some ua ∧
    name = from_utf8_lossy (value ua) ∧
    nonce_map s !! from_utf8_lossy (value na) = Some entry ∧
    as_secs (elapsed (env_now env) (nonce_created_at entry)) ≤ 600 ∧
    get_password_for_user (env_unix env) s name = Some pw ∧
    get_attribute msg MESSAGE_INTEGRITY = Some mi ∧
    take 20 (value mi) =
      hmac_sha1 (compute_message_integrity_key name (srv_realm s) pw)
                (integrity_input (header msg) (attrs_before_integrity (attributes msg))).

Lemma slice_to_hmac key data : slice_to (hmac_sha1 key data) 20 = Ret (hmac_sha1 key data).
Proof.
  unfold slice_to. rewrite hmac_length, decide_True by lia.
  rewrite take_ge; [done|]. by rewrite hmac_length.
Qed.

Lemma verify_integrity_true msg key :
  verify_message_integrity msg key = Ret true ↔
  ∃ mi, get_attribute msg MESSAGE_INTEGRITY = Some mi ∧
        take 20 (value mi) = hmac_sha1 key (integrity_input (header msg) (attrs_before_integrity (attributes msg))).
Proof.
  unfold verify_message_integrity. destruct (get_attribute msg MESSAGE_INTEGRITY) as [mi|]; [|naive_solver].
  rewrite slice_to_hmac. simpl_bind. unfold slice_to. case_decide as Hl; simpl_bind.
  - split.
    + intros [= H]. bool_to_prop. eauto.
    + intros (? & [= <-] & E). by rewrite bool_decide_eq_true_2.
  - split; [done|]. intros (? & [= <-] & E). exfalso. apply Hl.
    apply (f_equal length) in E. rewrite length_take, hmac_length in E. lia.
Qed.

Lemma verify_turn_auth_ok env msg client s name s' :
  auth_disabled s = false →
  verify_turn_auth env msg client s = Ret (Ok name, s') ↔ authorized env msg client s name ∧ s' = s.
Proof.
  intros Had. unfold verify_turn_auth, create_401_response. rewrite Had. unfold authorized.
  destruct (acl_allows s client); cbn [negb]; [|naive_solver].
  destruct (get_attribute msg NONCE) as [na|] eqn:En; [|naive_solver].
  destruct (get_attribute msg USERNAME) as [ua|] eqn:Eu; [|naive_solver].
  destruct (nonce_map s !! _) as [entry|] eqn:Ee;
    [|split; [done|]; intros [(_ & ? & ? & ? & ? & ? & [= <-] & [= <-] & _ & ? & _) _]; congruence].
  destruct (Z.ltb_spec 600 (as_secs (elapsed (env_now env) (nonce_created_at entry)))).
  { split; [done|]. intros [(_ & ? & ? & ? & ? & ? & [= <-] & [= <-] & _ & ? & ? & _) _]. simplify_eq. lia. }
  destruct (get_password_for_user (env_unix env) s _) as [pw|] eqn:Ep;
    [|split; [done|]; intros [(_ & ? & ? & ? & ? & ? & [= <-] & [= <-] & -> & ? & ? & ? & _) _]; congruence].
  pose proof (verify_integrity_true msg
    (compute_message_integrity_key (from_utf8_lossy (value ua)) (srv_realm s) pw)) as Hv.
  destruct (verify_message_integrity msg _) as [[]|] eqn:Ev; simpl_bind; cbn [negb].
  - destruct Hv as [Hv _]. destruct (Hv eq_refl) as (mi & Hmi & Hmac). split.
    + intros [= <- <-]. split; [|done]. split; [done|]. by exists na, ua, entry, pw, mi.
    + intros [(_ & ? & ? & ? & ? & ? & [= <-] & [= <-] & -> & _) ->]. done.
  - split; [done|]. intros [(_ & ? & ? & ? & pw' & mi & [= <-] & [= <-] & -> & ? & ? & ? & Hmi & Hmac) _].
    simplify_eq. assert (Ret false = Ret true) by (apply Hv; eauto). done.
  - split; [done|]. intros [(_ & ? & ? & ? & pw' & mi & [= <-] & [= <-] & -> & ? & ? & ? & Hmi & Hmac) _].
    simplify_eq. assert (@Panic bool = Ret true) by (apply Hv; eauto). done.
Qed.

(** Signing and verifying. *)
Definition no_integrity (l : list Attribute) : Prop := Forall (λ a, attr_type a ≠ MESSAGE_INTEGRITY) l.

Lemma attrs_before_integrity_snoc l a :
  no_integrity l → attr_type a = MESSAGE_INTEGRITY → attrs_before_integrity (l ++ [a]) = l.
Proof.
  intros Hl Ha. induction Hl as [|x l Hx _ IH]; cbn.
  - rewrite Ha. done.
  - destruct (Z.eqb_spec (attr_type x) MESSAGE_INTEGRITY); [done|]. by rewrite IH.
Qed.

Lemma get_attribute_snoc h l a ty :
  attr_type a = ty → Forall (λ x, attr_type x ≠ ty) l → get_attribute (mkMsg h (l ++ [a])) ty = Some a.
Proof.
  intros Ha Hl. unfold get_attribute. cbn [attributes]. induction Hl as [|x l Hx _ IH]; cbn.
  - by rewrite (proj2 (Z.eqb_eq _ _) Ha).
  - destruct (Z.eqb_spec (attr_type x) ty); [done|]. apply IH.
Qed.

Lemma integrity_sign response key :
  add_response_message_integrity response key =
  Ret (add_attribute response (mkAttr MESSAGE_INTEGRITY
        (hmac_sha1 key (integrity_input (header response) (attributes response))))).
Proof. unfold add_response_message_integrity. by rewrite slice_to_hmac. Qed.

Lemma integrity_roundtrip response key signed :
  no_integrity (attributes response) →
  add_response_message_integrity response key = Ret signed →
  verify_message_integrity (wire_form signed) key = Ret true.
Proof.
  intros Hn. rewrite integrity_sign. intros [= <-]. apply verify_integrity_true.
  eexists. split; [rewrite get_attribute_wire_form; by apply get_attribute_snoc|].
  cbn [value]. rewrite take_ge by (by rewrite hmac_length). f_equal.
  unfold wire_form, add_attribute. cbn [attributes header].
  by rewrite attrs_before_integrity_snoc.
Qed.
End auth.

(** ** Responses on the wire *)

Section responses.
Context `{CR : Crypto} `{HO : HashOrder} `{CL : !CryptoLaws}.

(** Configuration strings that fit in a STUN message. *)
Definition texts_ok (s : TurnServer) : Prop :=
  Z.of_nat (String.length (srv_realm s)) ≤ 20000 ∧ Z.of_nat (String.length (server_name s)) ≤ 20000.

Lemma str_attr_ok ty str :
  in_u16 ty → Z.of_nat (String.length str) ≤ 65000 → attr_ok (mkAttr ty (str_bytes str)).
Proof.
  intros Ht Hl. split; [done|]. split; [apply str_bytes_ok|]. cbn [value]. rewrite str_bytes_length. lia.
Qed.

Lemma error_attr_ok (code : ErrorCode) (str : string) :
  Z.of_nat (String.length str) ≤ 60000 →
  attr_ok (mkAttr ERROR_CODE (put_u32 (Z.lor (as_u32 (Z.shiftl (ErrorCode_code code / 100) 8))
    (ErrorCode_code code mod 100)) ++ str_bytes str)).
Proof.
  intros Hl. split; [done|]. cbn [value attr_type]. split; [apply bytes_ok_app; auto with miu|].
  rewrite length_app, str_bytes_length. cbn [length put_u32]. lia.
Qed.

Lemma challenge_parses env msg reason s :
  tid_ok (transaction_id (header msg)) → texts_ok s → bytes_ok (env_random env) →
  length (env_random env) = 16%nat → Z.of_nat (String.length (default "Unauthorized"%string reason)) ≤ 100 →
  ∃ m a, Message_parse (create_401_response env msg reason s).1 = Some m ∧
    method (header m) = method (header msg) ∧ event_type (header m) = StunMessage.Error ∧
    transaction_id (header m) = transaction_id (header msg) ∧
    get_attribute m ERROR_CODE = Some a ∧ error_code_of (value a) = 401 ∧
    get_attribute m REALM = Some (mkAttr REALM (str_bytes (srv_realm s))) ∧
    get_attribute m NONCE = Some (mkAttr NONCE (str_bytes (hex_encode (env_random env)))).
Proof.
  intros Ht [Hr Hn] Hb Hl Hreason. destruct (hex_ascii (env_random env) Hb) as [_ Hhex]. rewrite Hl in Hhex.
  unfold create_401_response, generate_nonce. cbn [fst].
  unfold create_error_response_with_reason, add_attribute. cbn [header attributes app].
  set (text := match reason with Some r => r | None => _ end).
  assert (Htext : Z.of_nat (String.length text) ≤ 100) by (by destruct reason).
  eexists _, _. rewrite Message_parse_encode.
  - split_and!; try reflexivity.
  - apply msg_ok_intro; [done| |].
    + repeat (apply list.Forall_cons; split); [apply error_attr_ok; lia|apply str_attr_ok; [done|lia]..|done].
    + cbn [sum_list_with value software_attr]. rewrite length_app, !str_bytes_length, Hhex.
      cbn [length put_u32]. lia.
Qed.

Lemma error_bytes_parse msg code s :
  tid_ok (transaction_id (header msg)) → texts_ok s →
  ∃ m a, Message_parse (create_error_response_bytes msg code s) = Some m ∧
    method (header m) = method (header msg) ∧ event_type (header m) = StunMessage.Error ∧
    transaction_id (header m) = transaction_id (header msg) ∧
    get_attribute m ERROR_CODE = Some a ∧ error_code_of (value a) = ErrorCode_code code.
Proof.
  intros Ht [Hr Hn]. unfold create_error_response_bytes, create_error_response.
  unfold create_error_response_with_reason, add_attribute. cbn [header attributes app].
  assert (Hd : Z.of_nat (String.length (ErrorCode_debug code)) ≤ 100) by (by destruct code).
  eexists _, _. rewrite Message_parse_encode.
  - split_and!; try reflexivity. apply error_value_ok.
  - apply msg_ok_intro; [done| |].
    + repeat (apply list.Forall_cons; split); [apply error_attr_ok; lia|apply str_attr_ok; [done|lia]|done].
    + cbn [sum_list_with value software_attr]. rewrite length_app, !str_bytes_length. cbn [length put_u32]. lia.
Qed.

(** Every answer to a request that is not authorised. *)
Lemma verify_turn_auth_err env msg client s resp s' :
  auth_disabled s = false → verify_turn_auth env msg client s = Ret (Err resp, s') →
  (acl_allows s client = false ∧ s' = s ∧ resp = create_error_response_bytes msg Forbidden s) ∨
  (acl_allows s client = true ∧
   ∃ reason, Z.of_nat (String.length (default "Unauthorized"%string reason)) ≤ 100 ∧
             (resp, s') = create_401_response env msg reason s).
Proof.
  intros Had. unfold verify_turn_auth. rewrite Had.
  destruct (acl_allows s client); cbn [negb]; [|intros [= <- <-]; by left]. intros H. right. split; [done|].
  assert (Hdeny : ∀ reason, (let '(r, s2) := create_401_response env msg reason s in Ret (Err r, s2)) =
    Ret (Err resp : result string (list Z), s') → (resp, s') = create_401_response env msg reason s).
  { intros reason. destruct (create_401_response env msg reason s). by intros [= -> ->]. }
  destruct (get_attribute msg NONCE) as [na|]; [|exists None; split; [by vm_compute|by apply Hdeny]].
  destruct (get_attribute msg USERNAME) as [ua|]; [|exists None; split; [by vm_compute|by apply Hdeny]].
  destruct (nonce_map s !! _) as [entry|]; [|eexists (Some _); split; [|by apply Hdeny]; by vm_compute].
  destruct (600 <? _); [eexists (Some _); split; [|by apply Hdeny]; by vm_compute|].
  destruct (get_password_for_user _ _ _) as [pw|]; [|eexists (Some _); split; [|by apply Hdeny]; by vm_compute].
  destruct (verify_message_integrity _ _) as [[]|]; simpl_bind; cbn [negb] in *; try done.
  eexists (Some _); split; [|by apply Hdeny]; by vm_compute.
Qed.
End responses.
