(* ===== verification/ServerSpec.v ===== *)
(** * Properties of request handling

    What authentication accepts, what an unauthenticated request can change,
    and what each TURN request does to the server (definitions in Server). *)

From S2P Require Import Prelude RustStd StunMessage Errors Ports Channels Bandwidth Auth Alloc Framing Crypto Server.
Local Open Scope Z_scope.

(** ** Lemmas *)

Section spec.
Context `{CR : Crypto} `{HO : HashOrder} `{CL : !CryptoLaws}.

Lemma verify_ok_same env msg client s name s1 :
  verify_turn_auth env msg client s = Ret (Ok name, s1) → s1 = s.
Proof.
  destruct (auth_disabled s) eqn:Had.
  - unfold verify_turn_auth. rewrite Had. by intros [= _ <-].
  - intros H. by apply verify_turn_auth_ok in H as [_ ?].
Qed.

(** The handlers that authenticate first. *)
Definition needs_auth (m : Method) : Prop :=
  m = Allocate ∨ m = Refresh ∨ m = CreatePermission ∨ m = ChannelBind.

Lemma auth_panic_stops env msg client s :
  needs_auth (method (header msg)) → turn_enabled s = true →
  verify_turn_auth env msg client s = Panic → process_message env msg client s = Panic.
Proof.
  intros Hm Ht Hv. unfold process_message. rewrite Ht.
  destruct Hm as [-> |[-> |[-> | ->]]]; cbn [negb andb bool_decide decide decide_rel Method_eq_dec];
    rewrite !andb_false_r; cbn.
  - unfold handle_allocate. by rewrite Hv.
  - unfold handle_refresh. by rewrite Hv.
  - unfold handle_create_permission. by rewrite Hv.
  - unfold handle_channel_bind. by rewrite Hv.
Qed.

Lemma auth_failure_stops env msg client s resp s1 :
  needs_auth (method (header msg)) → turn_enabled s = true →
  verify_turn_auth env msg client s = Ret (Err resp, s1) →
  process_message env msg client s = Ret (Some resp, [], s1).
Proof.
  intros Hm Ht Hv. unfold process_message. rewrite Ht.
  destruct Hm as [-> |[-> |[-> | ->]]]; cbn [negb andb bool_decide decide decide_rel Method_eq_dec];
    rewrite !andb_false_r; cbn.
  - unfold handle_allocate. by rewrite Hv.
  - unfold handle_refresh. by rewrite Hv.
  - unfold handle_create_permission. by rewrite Hv.
  - unfold handle_channel_bind. by rewrite Hv.
Qed.

Lemma drop_allocation_shape weak k s :
  ∃ t c, drop_allocation weak k s = set_table t (set_channel_table c s) ∧
         external_addr t = external_addr (allocation_table s) ∧
         max_allocation_duration_secs t = max_allocation_duration_secs (allocation_table s).
Proof.
  unfold drop_allocation, remove_allocation.
  destruct (allocations (allocation_table s) !! k) as [a|]; cbn [forget_channels].
  - eexists _, _. split; [reflexivity|]. unfold release_resources. by destruct (relay a).
  - exists (allocation_table s), (channel_table s). by destruct s.
Qed.

(** Success responses on the wire. *)
Lemma sign_response_total env name r s :
  no_integrity (attributes r) →
  ∃ r', sign_response env name r s = Ret r' ∧ header r' = header r ∧
        (attributes r' = attributes r ∨
         ∃ mac, attributes r' = attributes r ++ [mkAttr MESSAGE_INTEGRITY mac] ∧
                length mac = 20%nat ∧ bytes_ok mac).
Proof.
  intros Hn. unfold sign_response. destruct (auth_disabled s); [eauto|].
  destruct (get_password_for_user _ _ _); [|eauto]. rewrite integrity_sign.
  eexists. split; [reflexivity|]. split; [done|]. right. eexists. split; [reflexivity|].
  split; [apply hmac_length|apply hmac_bytes].
Qed.

Lemma signed_parses env name r s :
  no_integrity (attributes r) → tid_ok (transaction_id (header r)) → Forall attr_ok (attributes r) →
  Z.of_nat (sum_list_with (λ a, length (value a) + 7)%nat (attributes r)) ≤ 65000 →
  ∃ r' m, sign_response env name r s = Ret r' ∧ Message_parse (Message_encode r') = Some m ∧
    method (header m) = method (header r) ∧ event_type (header m) = event_type (header r) ∧
    transaction_id (header m) = transaction_id (header r) ∧
    ∀ ty a, get_attribute r ty = Some a → get_attribute m ty = Some a.
Proof.
  intros Hn Ht Ha Hsz. destruct (sign_response_total env name r s Hn) as (r' & E & Hh & Hattrs).
  exists r', (wire_form r'). split; [done|].
  assert (Hget : ∀ ty a, get_attribute r ty = Some a → get_attribute (wire_form r') ty = Some a).
  { intros ty a. rewrite get_attribute_wire_form. unfold get_attribute.
    destruct Hattrs as [-> |(mac & -> & _)]; [done|]. rewrite find_first_app. by intros ->. }
  split; [|cbn; rewrite Hh; done]. apply Message_parse_encode. destruct r' as [h' l']. cbn in Hh, Hattrs. subst h'.
  apply msg_ok_intro; [done|..]; destruct Hattrs as [-> |(mac & -> & Hml & Hmb)]; [done| |lia|].
  - apply list.Forall_app. split; [done|]. apply Forall_singleton.
    split; [done|]. split; [done|]. cbn [value]. rewrite Hml. lia.
  - rewrite sum_list_with_app. cbn [sum_list_with value]. lia.
Qed.

Lemma allocate_success_ok msg k client life s :
  tid_ok (transaction_id (header msg)) → texts_ok s → addr_ok k → addr_ok client →
  no_integrity (attributes (allocate_success msg k client life s)) ∧
  Forall attr_ok (attributes (allocate_success msg k client life s)) ∧
  Z.of_nat (sum_list_with (λ a, length (value a) + 7)%nat
    (attributes (allocate_success msg k client life s))) ≤ 65000.
Proof.
  intros Ht [Hr Hn] Hk Hc. unfold allocate_success. cbn [attributes]. split_and!.
  - by repeat constructor.
  - repeat (apply list.Forall_cons; split); try (apply str_attr_ok; [done|lia]); [..|done];
      (split; [done|]); cbn [value]; rewrite ?encode_xor_address_length;
      (split; [apply encode_xor_address_ok || apply put_u32_ok|cbn; lia]); done.
  - cbn [sum_list_with value software_attr]. rewrite !encode_xor_address_length, !str_bytes_length.
    cbn [length put_u32]. lia.
Qed.
End spec.

(** ** A sample server *)

Definition sample_server : TurnServer :=
  with_port_range_limits_bind_address_and_password 0 (mkIpv4 203 0 113 5) (mkIpv4 10 0 0 5) "realm"
    50000 50003 (Some 2) (Some 3600) "secret" false.
Definition sample_env : MsgEnv := mkEnv 0 0 (seqZ 0 16) bind_ok_env [] (Ok 0).
Definition request (m : Method) (attrs : list Attribute) : Message :=
  mkMsg (mkHeader m Request 0 MAGIC (seqZ 1 12)) attrs.

Lemma sample_server_ok : srv_ok sample_server.
Proof.
  split.
  - apply sample_table_ok.
  - apply channels_ok_new.
  - intros k1 a1 k2 a2.
    change (allocations (allocation_table sample_server)) with (∅ : gmap SocketAddr Allocation).
    by rewrite lookup_empty.
  - intros k id.
    change (channels (channel_table sample_server)) with (∅ : gmap (SocketAddr * Z) ChannelBinding).
    rewrite lookup_empty. by intros [].
Qed.

(** The server after the first challenge, and a request signed under it. *)
Definition challenged : TurnServer :=
  (@create_401_response toy_crypto sample_env (request Allocate []) None sample_server).2.
Definition credentials : list Attribute :=
  [mkAttr USERNAME (str_bytes "alice"); mkAttr REALM (str_bytes "realm");
   mkAttr NONCE (str_bytes (hex_text (seqZ 0 16)))].
Definition signed_request (m : Method) (attrs : list Attribute) : Message :=
  let r := request m (attrs ++ credentials) in
  match @add_response_message_integrity toy_crypto r
          (@compute_message_integrity_key toy_crypto "alice" "realm" "secret") with
  | Ret r => r
  | Panic => r
  end.

(** ** Properties *)

(** C3. Authentication accepts exactly the authorised requests: with
    authentication on, a request is accepted for a user if and only if the
    client's address passes the access rules, its nonce is one this server
    issued at most 600 seconds ago, the user has a password, and its
    MESSAGE-INTEGRITY is the HMAC of the message under the long-term key; and
    accepting it changes nothing, so the nonce stays usable. *)
Theorem auth_accepts_exactly `{CR : Crypto} `{CL : !CryptoLaws} env msg client s name s' :
  auth_disabled s = false →
  verify_turn_auth env msg client s = Ret (Ok name, s') ↔ authorized env msg client s name ∧ s' = s.
Proof. apply verify_turn_auth_ok. Qed.

Lemma auth_accepts_exactly_witness :
  @authorized toy_crypto sample_env (signed_request Allocate []) sample_client challenged "alice".
Proof.
  apply (@auth_accepts_exactly toy_crypto toy_laws sample_env (signed_request Allocate []) sample_client
    challenged "alice" challenged); [reflexivity|]. vm_compute. reflexivity.
Defined.

(** C4. A request that is not authorised has no effect: whatever Allocate,
    Refresh, CreatePermission or ChannelBind message arrives, if it does not
    authenticate then, unless the handler panics, allocations and channels are
    unchanged, no datagram is sent, and the client gets an error response for
    its own transaction with code 401 or, when the access rules refuse its
    address, 403. *)
Theorem unauthorized_request_harmless `{CR : Crypto} `{CL : !CryptoLaws} `{HO : HashOrder} env msg client s r out s' :
  auth_disabled s = false → turn_enabled s = true → needs_auth (method (header msg)) →
  tid_ok (transaction_id (header msg)) → texts_ok s →
  bytes_ok (env_random env) → length (env_random env) = 16%nat →
  (∀ name, ¬ authorized env msg client s name) →
  process_message env msg client s = Ret (r, out, s') →
  allocation_table s' = allocation_table s ∧ channel_table s' = channel_table s ∧ out = [] ∧
  ∃ resp m a, r = Some resp ∧ Message_parse resp = Some m ∧ event_type (header m) = StunMessage.Error ∧
    transaction_id (header m) = transaction_id (header msg) ∧ get_attribute m ERROR_CODE = Some a ∧
    error_code_of (value a) = (if acl_allows s client then 401 else 403).
Proof.
  intros Had Ht Hm Htid Htx Hb Hl Hna H.
  destruct (verify_turn_auth env msg client s) as [[auth s1]|] eqn:Ev.
  - destruct auth as [name|resp].
    { apply verify_turn_auth_ok in Ev as [Hau _]; [|done]. by destruct (Hna name). }
    rewrite (auth_failure_stops env msg client s resp s1) in H by done. simplify_eq.
    destruct (auth_keeps_tables _ _ _ _ _ _ Ev) as [n ->]. split_and!; [done..|].
    pose proof (verify_turn_auth_err _ _ _ _ _ _ Had Ev) as [(Hacl & _ & ->)|(Hacl & reason & Hrl & E)];
      rewrite Hacl.
    + destruct (error_bytes_parse msg Forbidden s) as (m & a & ? & ? & ? & ? & ? & ?); [done..|].
      by exists (create_error_response_bytes msg Forbidden s), m, a.
    + destruct (challenge_parses env msg reason s) as (m & a & Hp & ? & ? & ? & ? & ? & _); [done..|].
      rewrite <- E in Hp. by exists resp, m, a.
  - by rewrite (auth_panic_stops env msg client s) in H.
Qed.

Lemma unauthorized_request_harmless_witness :
  ∃ r s', @process_message toy_crypto map_order sample_env (request Allocate []) sample_client sample_server =
            Ret (r, [], s') ∧ allocation_table s' = allocation_table sample_server.
Proof.
  destruct (@process_message toy_crypto map_order sample_env (request Allocate []) sample_client sample_server)
    as [[[r out] s']|] eqn:E; [|exfalso; vm_compute in E; discriminate].
  destruct (@unauthorized_request_harmless toy_crypto toy_laws map_order sample_env (request Allocate [])
    sample_client sample_server r out s') as (Ht & _ & Ho & _); try reflexivity.
  - left. reflexivity.
  - apply (bool_decide_unpack _). vm_compute. exact I.
  - split; vm_compute; discriminate.
  - apply (bool_decide_unpack _). vm_compute. exact I.
  - intros name (_ & na & _ & _ & _ & _ & Hn & _). vm_compute in Hn. discriminate.
  - exact E.
  - exists r, s'. rewrite <- Ho. split; [reflexivity|exact Ht].
Defined.

Lemma find_first_skip {A} (p : A → bool) l1 l2 :
  Forall (λ a, p a = false) l1 → find_first p (l1 ++ l2) = find_first p l2.
Proof. intros H. rewrite find_first_app. by rewrite (proj2 (find_first_None p l1) H). Qed.

(** A request whose own attributes do not touch the credential attributes. *)
Definition plain_attrs (l : list Attribute) : Prop :=
  Forall (λ a, attr_type a ≠ NONCE ∧ attr_type a ≠ USERNAME ∧ attr_type a ≠ MESSAGE_INTEGRITY) l.

Lemma get_credential h l cred ty :
  ty ∈ [NONCE; USERNAME; MESSAGE_INTEGRITY] → plain_attrs l →
  get_attribute (mkMsg h (l ++ cred)) ty = get_attribute (mkMsg h cred) ty.
Proof.
  intros Hty Hl. unfold get_attribute. apply find_first_skip. eapply Forall_impl; [exact Hl|].
  cbn. intros a (? & ? & ?). apply Z.eqb_neq. set_solver.
Qed.

(** C5. The challenge works: a client refused for lack of credentials gets a
    401 whose NONCE and REALM, used with a password the server accepts for the
    user to sign its next request, make that request pass, if it arrives
    within 600 seconds.  This holds for every request (its own attributes
    arbitrary), through encoding and parsing on both sides. *)
Theorem challenge_then_accepted `{CR : Crypto} `{CL : !CryptoLaws} env0 m0 client s :
  auth_disabled s = false → acl_allows s client = true → get_attribute m0 NONCE = None →
  tid_ok (transaction_id (header m0)) → texts_ok s →
  bytes_ok (env_random env0) → length (env_random env0) = 16%nat →
  ∃ resp s1 m na ra,
    verify_turn_auth env0 m0 client s = Ret (Err resp, s1) ∧ Message_parse resp = Some m ∧
    get_attribute m NONCE = Some na ∧ get_attribute m REALM = Some ra ∧
    ∀ env1 h attrs u pw,
      tid_ok (transaction_id h) → Forall attr_ok attrs → plain_attrs attrs →
      Z.of_nat (sum_list_with (λ a, length (value a) + 7)%nat attrs) ≤ 20000 →
      ascii_str u → Z.of_nat (String.length u) ≤ 500 →
      get_password_for_user (env_unix env1) s u = Some pw →
      env_now env1 ≤ env_now env0 + from_secs 600 →
      ∃ signed m1,
        add_response_message_integrity (mkMsg h (attrs ++ [mkAttr USERNAME (str_bytes u); ra; na]))
          (compute_message_integrity_key u (bytes_str (value ra)) pw) = Ret signed ∧
        Message_parse (Message_encode signed) = Some m1 ∧
        verify_turn_auth env1 m1 client s1 = Ret (Ok u, s1).
Proof.
  intros Had Hacl Hno Ht Htx Hb Hl.
  destruct (challenge_parses env0 m0 None s) as (m & a & Hp & _ & _ & _ & _ & _ & Hr & Hn); [done..|].
  destruct (create_401_response env0 m0 None s) as [resp s1] eqn:E. cbn [fst] in Hp.
  exists resp, s1, m. eexists _, _. split_and!; [|done..|].
  { unfold verify_turn_auth. rewrite Had, Hacl. cbn [negb]. by rewrite Hno, E. }
  intros env1 h attrs u pw Hh Hattrs Hplain Hsz Hu Hul Hpw Htime.
  set (nonce := hex_encode (env_random env0)). destruct (hex_ascii _ Hb) as [Hna Hnl]. rewrite Hl in Hnl.
  fold nonce in Hna, Hnl. cbn [value]. rewrite bytes_str_bytes.
  set (l := attrs ++ _). set (key := compute_message_integrity_key u (srv_realm s) pw).
  assert (Hnoint : no_integrity l).
  { unfold l. apply list.Forall_app. split; [|by repeat constructor].
    eapply Forall_impl; [exact Hplain|]. by intros x (_ & _ & ?). }
  pose proof (integrity_sign (mkMsg h l) key) as Esign. eexists _, _. split; [exact Esign|].
  set (mac := hmac_sha1 _ _) in *. rewrite Message_parse_encode.
  2:{ destruct Htx as [Hr1 Hr2]. apply msg_ok_intro; [done| |].
      - unfold l. repeat (apply list.Forall_app; split); [done| |].
        + repeat (apply list.Forall_cons; split); [apply str_attr_ok; [done|lia]..|done].
        + apply Forall_singleton. split; [done|]. split; [apply hmac_bytes|].
          cbn [value]. unfold mac. rewrite hmac_length. lia.
      - unfold l. cbn [attributes]. rewrite !sum_list_with_app. cbn [sum_list_with value].
        rewrite !str_bytes_length, Hnl. unfold mac. rewrite hmac_length. lia. }
  split; [reflexivity|]. injection E as _ Es1. apply verify_turn_auth_ok; [by rewrite <- Es1|]. split; [|done].
  assert (Hget : ∀ ty, ty ∈ [NONCE; USERNAME; MESSAGE_INTEGRITY] →
    get_attribute (wire_form (add_attribute (mkMsg h l) (mkAttr MESSAGE_INTEGRITY mac))) ty =
    get_attribute (mkMsg h ([mkAttr USERNAME (str_bytes u); mkAttr REALM (str_bytes (srv_realm s));
      mkAttr NONCE (str_bytes nonce)] ++ [mkAttr MESSAGE_INTEGRITY mac])) ty).
  { intros ty Hty. rewrite get_attribute_wire_form. unfold add_attribute, l. cbn [attributes header].
    rewrite <- app_assoc. by apply get_credential. }
  split; [by rewrite <- Es1|]. eexists _, _, (mkNonce nonce (env_now env0)), pw, _.
  rewrite !Hget by set_solver. split; [reflexivity|]. split; [reflexivity|]. cbn [value].
  rewrite !from_utf8_lossy_ascii by done. split_and!.
  - done.
  - rewrite <- Es1. cbn. apply lookup_insert_eq.
  - cbn [nonce_created_at]. unfold as_secs, elapsed, saturating_sub, from_secs, NANOS in *.
    apply Z.div_le_upper_bound; lia.
  - rewrite <- Es1. done.
  - reflexivity.
  - cbn [value]. rewrite take_ge by (unfold mac; by rewrite hmac_length).
    unfold wire_form, add_attribute. cbn [attributes header].
    rewrite attrs_before_integrity_snoc by done. rewrite <- Es1. done.
Qed.

Lemma challenge_then_accepted_witness :
  ∃ resp s1 m na ra,
    @verify_turn_auth toy_crypto sample_env (request Allocate []) sample_client sample_server =
      Ret (Err resp, s1) ∧ Message_parse resp = Some m ∧
    ∃ signed m1,
      @add_response_message_integrity toy_crypto
        (request Allocate [mkAttr USERNAME (str_bytes "bob"); ra; na])
        (@compute_message_integrity_key toy_crypto "bob" (bytes_str (value ra)) "secret") = Ret signed ∧
      Message_parse (Message_encode signed) = Some m1 ∧
      @verify_turn_auth toy_crypto (mkEnv (from_secs 600) 0 [] bind_ok_env [] (Ok 0)) m1 sample_client s1 =
        Ret (Ok "bob"%string, s1).
Proof.
  destruct (@challenge_then_accepted toy_crypto toy_laws sample_env (request Allocate []) sample_client
    sample_server) as (resp & s1 & m & na & ra & E1 & E2 & _ & _ & Hrest); try reflexivity.
  - apply (bool_decide_unpack _). vm_compute. exact I.
  - split; vm_compute; discriminate.
  - apply (bool_decide_unpack _). vm_compute. exact I.
  - exists resp, s1, m, na, ra. split; [exact E1|]. split; [exact E2|].
    apply (Hrest (mkEnv (from_secs 600) 0 [] bind_ok_env [] (Ok 0))
             (mkHeader Allocate Request 0 MAGIC (seqZ 1 12)) [] "bob"%string "secret"%string).
    + apply (bool_decide_unpack _). vm_compute. exact I.
    + constructor.
    + constructor.
    + vm_compute. discriminate.
    + apply (bool_decide_unpack _). vm_compute. exact I.
    + vm_compute. discriminate.
    + reflexivity.
    + vm_compute. discriminate.
Defined.

(** A response the server signs verifies: [add_response_message_integrity]
    followed by the wire and [verify_message_integrity] under the same key
    succeeds for every message that carries no MESSAGE-INTEGRITY yet. *)
Theorem integrity_sign_verify `{CR : Crypto} `{CL : !CryptoLaws} response key signed :
  no_integrity (attributes response) →
  add_response_message_integrity response key = Ret signed → msg_ok signed →
  ∃ m, Message_parse (Message_encode signed) = Some m ∧ verify_message_integrity m key = Ret true.
Proof.
  intros Hn E Hok. exists (wire_form signed). split; [by apply Message_parse_encode|].
  by eapply integrity_roundtrip.
Qed.

Lemma integrity_sign_verify_witness :
  ∃ m, Message_parse (Message_encode (signed_request Refresh [])) = Some m ∧
       @verify_message_integrity toy_crypto m
         (@compute_message_integrity_key toy_crypto "alice" "realm" "secret") = Ret true.
Proof.
  apply (@integrity_sign_verify toy_crypto toy_laws (request Refresh credentials)).
  - repeat constructor; discriminate.
  - vm_compute. reflexivity.
  - apply (bool_decide_unpack _). vm_compute. exact I.
Defined.

(** A short MESSAGE-INTEGRITY crashes the handler: with a nonce from any
    401 and a user name that has a password (any name at all, when the global
    password is set), a MESSAGE-INTEGRITY of fewer than 20 bytes makes the
    comparison slice out of range; no key is needed. *)
Theorem short_integrity_panics `{CR : Crypto} `{CL : !CryptoLaws} `{HO : HashOrder} env msg client s na ua mi entry pw :
  auth_disabled s = false → turn_enabled s = true → needs_auth (method (header msg)) →
  acl_allows s client = true →
  get_attribute msg NONCE = Some na → get_attribute msg USERNAME = Some ua →
  nonce_map s !! from_utf8_lossy (value na) = Some entry →
  as_secs (elapsed (env_now env) (nonce_created_at entry)) ≤ 600 →
  get_password_for_user (env_unix env) s (from_utf8_lossy (value ua)) = Some pw →
  get_attribute msg MESSAGE_INTEGRITY = Some mi → (length (value mi) < 20)%nat →
  process_message env msg client s = Panic.
Proof.
  intros Had Ht Hm Hacl Hna Hua Hen Hage Hpw Hmi Hlen. apply auth_panic_stops; [done..|].
  unfold verify_turn_auth. rewrite Had, Hacl, Hna, Hua, Hen. cbn [negb].
  destruct (Z.ltb_spec 600 (as_secs (elapsed (env_now env) (nonce_created_at entry)))); [lia|].
  rewrite Hpw. unfold verify_message_integrity. rewrite Hmi, slice_to_hmac. simpl_bind.
  unfold slice_to. by rewrite decide_False by lia.
Qed.

Lemma short_integrity_panics_witness :
  @process_message toy_crypto map_order sample_env
    (request Refresh (credentials ++ [mkAttr MESSAGE_INTEGRITY [1; 2; 3; 4]])) sample_client challenged = Panic.
Proof.
  apply (@short_integrity_panics toy_crypto toy_laws map_order sample_env
    (request Refresh (credentials ++ [mkAttr MESSAGE_INTEGRITY [1; 2; 3; 4]])) sample_client challenged
    (mkAttr NONCE (str_bytes (hex_text (seqZ 0 16)))) (mkAttr USERNAME (str_bytes "alice"))
    (mkAttr MESSAGE_INTEGRITY [1; 2; 3; 4]) (mkNonce (hex_text (seqZ 0 16)) 0) "secret");
    try reflexivity.
  - right. left. reflexivity.
  - vm_compute. discriminate.
  - vm_compute. lia.
Defined.

(** Other unchecked lengths crash too: a LIFETIME of fewer than four bytes
    in an accepted Allocate or Refresh, and a CHANNEL-NUMBER of fewer than two
    in an accepted ChannelBind of a client with an allocation. *)
Theorem short_attributes_panic `{CR : Crypto} `{HO : HashOrder} env msg client s name s1 :
  turn_enabled s = true → verify_turn_auth env msg client s = Ret (Ok name, s1) →
  (∀ a, (method (header msg) = Allocate ∨ method (header msg) = Refresh) →
     get_attribute msg LIFETIME = Some a → (length (value a) < 4)%nat →
     process_message env msg client s = Panic) ∧
  (∀ k pa ca, method (header msg) = ChannelBind →
     find_allocation_by_client (allocation_table s1) client = Some k →
     get_attribute msg PEER_ADDRESS = Some pa → get_attribute msg CHANNEL_NUMBER = Some ca →
     (length (value ca) < 2)%nat → process_message env msg client s = Panic).
Proof.
  intros Ht Hv. unfold process_message. rewrite Ht. split.
  - intros a Hm Ha Hl. destruct Hm as [-> | ->]; cbn;
      unfold handle_allocate, handle_refresh; rewrite Hv; simpl_bind;
      unfold get_lifetime; rewrite Ha, decide_True by lia; done.
  - intros k pa ca -> Hf Hpa Hca Hl. cbn. unfold handle_channel_bind. rewrite Hv. simpl_bind.
    rewrite Hf, Hpa, Hca. unfold index.
    destruct (value ca) as [|b0 [|b1 l]]; cbn in Hl; [done|done|lia].
Qed.

Lemma short_attributes_panic_witness :
  @process_message toy_crypto map_order sample_env (signed_request Allocate [mkAttr LIFETIME [0; 0]])
    sample_client challenged = Panic.
Proof.
  apply (@short_attributes_panic toy_crypto map_order sample_env (signed_request Allocate [mkAttr LIFETIME [0; 0]])
    sample_client challenged "alice" challenged) with (a := mkAttr LIFETIME [0; 0]).
  - reflexivity.
  - vm_compute. reflexivity.
  - left. reflexivity.
  - vm_compute. reflexivity.
  - cbn. lia.
Defined.

(** The state an Allocate creates in: the client's old allocation is gone. *)
Lemma drop_old_spec `{HO : HashOrder} weak client s :
  srv_ok s →
  let s2 := match find_allocation_by_client (allocation_table s) client with
            | Some old => drop_allocation weak old s
            | None => s
            end in
  srv_ok s2 ∧ (∀ k a, allocations (allocation_table s2) !! k = Some a → client_addr a ≠ client) ∧
  (∀ k a, client_addr a ≠ client → allocations (allocation_table s) !! k = Some a →
          allocations (allocation_table s2) !! k = Some a) ∧
  external_addr (allocation_table s2) = external_addr (allocation_table s) ∧
  max_allocation_duration_secs (allocation_table s2) = max_allocation_duration_secs (allocation_table s) ∧
  srv_realm s2 = srv_realm s ∧ server_name s2 = server_name s.
Proof.
  intros Hs s2. unfold s2. destruct (find_allocation_by_client _ client) as [k|] eqn:Ef.
  - destruct (find_allocation_Some s client k Hs Ef) as (a & Ha & Hcl & _ & _).
    destruct (drop_allocation_spec weak k s Hs) as (? & Hall & _); [by eexists|].
    destruct (drop_allocation_shape weak k s) as (t & c & E & ? & ?).
    split; [done|]. split; [|split; [|by rewrite E]].
    + rewrite Hall. intros k' a' [Hne Ha']%lookup_delete_Some Hcl'.
      apply Hne. eapply (so_unique _ Hs); [done..|congruence].
    + intros k' a' Hne Ha'. rewrite Hall. rewrite lookup_delete_ne; [done|]. intros <-. congruence.
  - split_and!; try done. by apply find_allocation_None.
Qed.

(** C6. An accepted Allocate always answers.  On success the client has exactly
    one allocation, at the address the response carries (with the client's own
    address as the mapped one), with no permissions and no channel bound, even
    if an old allocation was replaced; it lives for the requested time cut to
    the maximum, while the response repeats the time that was REQUESTED.  On
    failure the response carries 486 or 508 and the client has no allocation,
    the old one included.  Other clients' allocations are kept either way. *)
Theorem allocate_outcomes `{CR : Crypto} `{CL : !CryptoLaws} `{HO : HashOrder} env msg cip cport s name s1 life :
  let client := SaV4 cip cport in
  srv_ok s → verify_turn_auth env msg client s = Ret (Ok name, s1) → get_lifetime msg = Ret life →
  tid_ok (transaction_id (header msg)) → texts_ok s → ipv4_ok cip → in_u16 cport →
  ipv4_ok (external_addr (allocation_table s)) →
  ∃ resp s', handle_allocate env msg client s = Ret (Some resp, [], s') ∧
  (∀ k a, client_addr a ≠ client → allocations (allocation_table s) !! k = Some a →
          allocations (allocation_table s') !! k = Some a) ∧
  match find_allocation_by_client (allocation_table s') client with
  | Some k => ∃ a m ra ma,
      allocations (allocation_table s') !! k = Some a ∧ client_addr a = client ∧ permissions a = ∅ ∧
      unbound k (channel_table s') ∧
      lifetime a = from_secs (effective_lifetime (Some life) (allocation_table s)) ∧
      Message_parse resp = Some m ∧ event_type (header m) = Success ∧
      transaction_id (header m) = transaction_id (header msg) ∧
      get_attribute m XOR_RELAYED_ADDRESS = Some ra ∧
      decode_xor_address (value ra) MAGIC (transaction_id (header m)) = Some k ∧
      get_attribute m XOR_MAPPED_ADDRESS = Some ma ∧
      decode_xor_address (value ma) MAGIC (transaction_id (header m)) = Some client ∧
      get_attribute m LIFETIME = Some (mkAttr LIFETIME (put_u32 life))
  | None => ∃ code reason, (ErrorCode_code code = 486 ∨ ErrorCode_code code = 508) ∧
      resp = create_error_response_bytes_with_reason msg code reason s'
  end.
Proof.
  intros client Hs Hv Hlife Ht Htx Hcip Hcport Hext. unfold handle_allocate. rewrite Hv.
  apply verify_ok_same in Hv as ->. simpl_bind. rewrite Hlife. simpl_bind.
  pose proof (drop_old_spec (env_weak env) client s Hs) as Hd. cbv zeta in Hd.
  set (s2 := match find_allocation_by_client (allocation_table s) client with Some _ => _ | None => _ end) in *.
  clearbody s2. destruct Hd as (Hs2 & Hnone & Hkeep & Hext2 & Hmax & Hrealm & Hname).
  destruct (create_spec (env_create env) client (Some life) (allocation_table s2) (so_table _ Hs2))
    as (rr & t & Ec & Hok & Hext3 & _ & _ & Hr). rewrite Ec. simpl_bind. destruct rr as [a|e].
  - destruct Hr as (_ & Hfresh & Hall & Hcl & _ & Hperm & Hlt).
    assert (Hlook : allocations t !! relayed_addr a = Some a) by (rewrite Hall; apply lookup_insert_eq).
    destruct (tc_entry _ (proj1 Hok) _ _ Hlook) as (p & h & Hk & Hp & _).
    rewrite Hext3, Hext2 in Hk. set (k := relayed_addr a) in *.
    destruct (allocate_success_ok msg k client life (set_table t s2)) as (H1 & H2 & H3);
      [done|unfold texts_ok in *; cbn; by rewrite Hrealm, Hname|rewrite Hk; done|done|].
    destruct (signed_parses env name (allocate_success msg k client life (set_table t s2)) (set_table t s2))
      as (r' & m & -> & Hparse & _ & Hev & Htid & Hattrs); [done..|]. simpl_bind.
    eexists _, _. split; [reflexivity|]. cbn [allocation_table set_table]. split.
    { intros k' a' Hne Ha'. rewrite Hall. rewrite lookup_insert_ne; [by apply Hkeep|].
      intros <-. rewrite (Hkeep _ _ Hne Ha') in Hfresh. done. }
    assert (Hfind : find_allocation_by_client t client = Some k).
    { unfold find_allocation_by_client. rewrite (entry_by_client_unique t client k a); [done|done|done|].
      intros k' a'. rewrite Hall. intros [[<- _]|[_ Hl]]%lookup_insert_Some Hcl'; [done|].
      by destruct (Hnone k' a' Hl). }
    rewrite Hfind. exists a, m. eexists _, _.
    split_and!; [done|done|done| |by rewrite Hlt; unfold effective_lifetime; rewrite Hmax|done|done|done|..].
    + intros id. apply eq_None_not_Some. intros Hb%(so_bound _ Hs2). rewrite Hfresh in Hb. by destruct Hb.
    + apply Hattrs. reflexivity.
    + rewrite Htid, Hk. by apply decode_encode_xor.
    + apply Hattrs. reflexivity.
    + rewrite Htid. by apply decode_encode_xor.
    + apply Hattrs. reflexivity.
  - destruct Hr as (Hall & _ & _ & _ & _ & He). destruct (allocate_error e) as [code reason] eqn:Ee.
    eexists _, _. split; [reflexivity|]. cbn [allocation_table set_table]. split; [by rewrite Hall|].
    assert (Hfind : find_allocation_by_client t client = None).
    { unfold find_allocation_by_client. rewrite (proj2 (entry_by_client_None t client)); [done|].
      by rewrite Hall. }
    rewrite Hfind. exists code, reason. split; [|done].
    destruct He as [-> |[-> |(? & ? & ->)]]; cbn in Ee; simplify_eq; cbn; auto.
Qed.

Lemma allocate_outcomes_witness :
  ∃ resp s', @handle_allocate toy_crypto map_order sample_env
    (signed_request Allocate [mkAttr LIFETIME (put_u32 7200)]) sample_client challenged =
    Ret (Some resp, [], s') ∧
    match @find_allocation_by_client _ map_order (allocation_table s') sample_client with
    | Some k => ∃ a, allocations (allocation_table s') !! k = Some a ∧ lifetime a = from_secs 3600
    | None => False
    end.
Proof.
  destruct (@allocate_outcomes toy_crypto toy_laws map_order sample_env
    (signed_request Allocate [mkAttr LIFETIME (put_u32 7200)]) (mkIpv4 198 51 100 7) 4000 challenged
    "alice" challenged 7200) as (resp & s' & E & _ & Hm).
  - apply srv_ok_nonces, sample_server_ok.
  - vm_compute. reflexivity.
  - vm_compute. reflexivity.
  - apply (bool_decide_unpack _). vm_compute. exact I.
  - split; vm_compute; discriminate.
  - unfold ipv4_ok. unfold_words. cbn. lia.
  - unfold_words. lia.
  - unfold ipv4_ok. unfold_words. cbn. lia.
  - exists resp, s'. split; [exact E|].
    destruct (@find_allocation_by_client _ map_order (allocation_table s') (SaV4 (mkIpv4 198 51 100 7) 4000))
      as [k|] eqn:Ef.
    + change sample_client with (SaV4 (mkIpv4 198 51 100 7) 4000). rewrite Ef.
      destruct Hm as (a & m & ra & ma & Ha & _ & _ & _ & Hl & _). exists a. split; [exact Ha|].
      rewrite Hl. reflexivity.
    + exfalso. vm_compute in E. injection E as _ <-. vm_compute in Ef. discriminate.
Defined.

Lemma success_parses `{CR : Crypto} `{CL : !CryptoLaws} env name h extra s :
  tid_ok (transaction_id h) → Forall attr_ok extra → no_integrity extra →
  Z.of_nat (sum_list_with (λ a, length (value a) + 7)%nat extra) ≤ 65000 →
  ∃ r' m, sign_response env name (mkMsg (header (create_success_response h)) extra) s = Ret r' ∧
    Message_parse (Message_encode r') = Some m ∧
    event_type (header m) = Success ∧ method (header m) = method h ∧
    transaction_id (header m) = transaction_id h ∧
    ∀ ty a, get_attribute (mkMsg h extra) ty = Some a → get_attribute m ty = Some a.
Proof.
  intros Ht Ha Hn Hsz.
  destruct (signed_parses env name (mkMsg (header (create_success_response h)) extra) s)
    as (r' & m & ? & ? & ? & ? & ? & Hg); [done..|].
  exists r', m. split_and!; try done.
Qed.

(** C18. Refresh with lifetime zero deletes: an accepted Refresh with LIFETIME
    0 of a client with an allocation answers success and leaves the client
    with no allocation, the relay port free, and no channel bound on the
    relayed address; with another lifetime the allocation stays, with that
    lifetime; without an allocation the answer is 437 and nothing changes. *)
Theorem refresh_outcomes `{CR : Crypto} `{CL : !CryptoLaws} `{HO : HashOrder} env msg client s name s1 life :
  srv_ok s → verify_turn_auth env msg client s = Ret (Ok name, s1) → get_lifetime msg = Ret life →
  tid_ok (transaction_id (header msg)) →
  match find_allocation_by_client (allocation_table s) client with
  | None => handle_refresh env msg client s =
              Ret (Some (create_error_response_bytes msg AllocationMismatch s), [], s)
  | Some k => ∃ resp m s', handle_refresh env msg client s = Ret (Some resp, [], s') ∧
      Message_parse resp = Some m ∧ event_type (header m) = Success ∧
      get_attribute m LIFETIME = Some (mkAttr LIFETIME (put_u32 life)) ∧
      if life =? 0 then
        find_allocation_by_client (allocation_table s') client = None ∧
        allocations (allocation_table s') = delete k (allocations (allocation_table s)) ∧
        (sa_port k ∉ ports (port_allocator (allocation_table s'))) ∧ unbound k (channel_table s')
      else
        ∃ a, allocations (allocation_table s) !! k = Some a ∧ channel_table s' = channel_table s ∧
             allocations (allocation_table s') =
               <[k := set_lifetime (from_secs life) a]> (allocations (allocation_table s))
  end.
Proof.
  intros Hs Hv Hlife Ht. unfold handle_refresh. rewrite Hv.
  apply verify_ok_same in Hv as ->. simpl_bind. rewrite Hlife. simpl_bind.
  destruct (find_allocation_by_client (allocation_table s) client) as [k|] eqn:Ef; [|done].
  destruct (find_allocation_Some s client k Hs Ef) as (a & Ha & Hcl & Hra & _).
  assert (Hsign : ∀ s', ∃ r' m, sign_response env name (add_attribute (create_success_response (header msg))
      (mkAttr LIFETIME (put_u32 life))) s' = Ret r' ∧
    Message_parse (Message_encode r') = Some m ∧ event_type (header m) = Success ∧
    get_attribute m LIFETIME = Some (mkAttr LIFETIME (put_u32 life))).
  { intros s'. destruct (success_parses env name (header msg) [mkAttr LIFETIME (put_u32 life)] s')
      as (r' & m & E & Hp & Hev & _ & _ & Hg); [done| |by repeat constructor|cbn; lia|].
    - apply Forall_singleton. split; [done|]. split; [apply put_u32_ok|cbn; lia].
    - exists r', m. split; [exact E|]. split_and!; try done. by apply Hg. }
  destruct (Z.eqb_spec life 0).
  - cbn [negb]. destruct (Hsign (drop_allocation (env_weak env) k s)) as (r' & m & -> & Hp & Hev & Hg).
    simpl_bind. eexists _, m, _. split; [reflexivity|]. do 3 (split; [done|]).
    destruct (drop_allocation_spec (env_weak env) k s Hs) as (Hs' & Hall & Hun & _); [by eexists|].
    destruct (drop_allocation_shape (env_weak env) k s) as (t & c & E & Hext & _).
    split; [|split; [done|split; [|done]]].
    + unfold find_allocation_by_client. rewrite (proj2 (entry_by_client_None _ client)); [done|].
      rewrite Hall. intros k' a' [Hne Ha']%lookup_delete_Some Hcl'. apply Hne.
      eapply (so_unique _ Hs); [done..|congruence].
    + destruct (so_table _ Hs') as [Hc' _]. destruct (tc_entry _ (proj1 (so_table _ Hs)) k a Ha) as (p & h & -> & _).
      change ports with (pool_ports (P:=PortAllocator)).
      rewrite (tc_port _ Hc'), Hall. cbn [sa_port]. rewrite E. cbn [allocation_table set_table]. rewrite Hext.
      rewrite lookup_delete_eq. by intros [].
  - unfold refresh_allocation. rewrite Ha. cbn [is_ok negb].
    match goal with |- context [sign_response env name _ ?s'] =>
      destruct (Hsign s') as (r' & m & -> & Hp & Hev & Hg) end.
    simpl_bind. eexists _, m, _. split; [reflexivity|]. do 3 (split; [done|]). exists a. done.
Qed.

Definition allocated : TurnServer :=
  match @handle_allocate toy_crypto map_order sample_env (signed_request Allocate []) sample_client challenged with
  | Ret (_, _, s) => s
  | Panic => challenged
  end.

Lemma allocated_ok : srv_ok allocated.
Proof.
  unfold allocated. destruct (@handle_allocate toy_crypto map_order sample_env _ sample_client challenged)
    as [[[r out] s]|] eqn:E; [|apply srv_ok_nonces, sample_server_ok].
  eapply handle_allocate_keeps; [|exact E]. apply srv_ok_nonces, sample_server_ok.
Qed.

Lemma refresh_outcomes_witness :
  ∃ resp m s', @handle_refresh toy_crypto map_order sample_env (signed_request Refresh [mkAttr LIFETIME (put_u32 0)])
    sample_client allocated = Ret (Some resp, [], s') ∧ Message_parse resp = Some m ∧
    @find_allocation_by_client _ map_order (allocation_table s') sample_client = None.
Proof.
  pose proof allocated_ok as Hok.
  assert (Hv : @verify_turn_auth toy_crypto sample_env (signed_request Refresh [mkAttr LIFETIME (put_u32 0)])
    sample_client allocated = Ret (Ok "alice"%string, allocated)) by (vm_compute; reflexivity).
  assert (Ef : @find_allocation_by_client _ map_order (allocation_table allocated) sample_client =
    Some sample_relayed) by (vm_compute; reflexivity).
  revert Hok Hv Ef. generalize allocated as s. intros s Hok Hv Ef.
  pose proof (@refresh_outcomes toy_crypto toy_laws map_order sample_env
    (signed_request Refresh [mkAttr LIFETIME (put_u32 0)]) sample_client s "alice" s 0 Hok Hv) as Hr.
  rewrite Ef in Hr. destruct Hr as (resp & m & s' & E & Hp & _ & _ & Hgone & _).
  - vm_compute. reflexivity.
  - apply (bool_decide_unpack _). vm_compute. exact I.
  - exists resp, m, s'. split; [exact E|]. split; [exact Hp|exact Hgone].
Defined.

(** C17. Permission, then relay: an accepted CreatePermission of a client with
    an allocation installs the listed peers and answers success, and from then
    on a Send indication to any port of such a peer puts exactly its DATA on
    the client's own relay socket, addressed to that peer. *)
Theorem permission_then_send `{CR : Crypto} `{CL : !CryptoLaws} `{HO : HashOrder}
    env env' msg ind client s name s1 k peer pa da :
  srv_ok s → verify_turn_auth env msg client s = Ret (Ok name, s1) →
  tid_ok (transaction_id (header msg)) →
  find_allocation_by_client (allocation_table s) client = Some k →
  sa_ip peer ∈ map sa_ip (peers_of msg) →
  get_attribute ind PEER_ADDRESS = Some pa →
  decode_xor_address (value pa) MAGIC (transaction_id (header ind)) = Some peer →
  get_attribute ind DATA = Some da →
  ∃ resp m s', handle_create_permission env msg client s = Ret (Some resp, [], s') ∧
    Message_parse resp = Some m ∧ event_type (header m) = Success ∧
    ∃ rl a s'', allocations (allocation_table s) !! k = Some a ∧ relay a = Some rl ∧
      handle_send env' ind client s' = (None, [ToPeer (socket rl) peer (value da)], s'').
Proof.
  intros Hs Hv Ht Hf Hpeer Hpa Hdec Hda. unfold handle_create_permission. rewrite Hv.
  apply verify_ok_same in Hv as ->. simpl_bind. rewrite Hf.
  destruct (find_allocation_Some s client k Hs Hf) as (a & Ha & Hcl & Hra & He).
  destruct (tc_entry _ (proj1 (so_table _ Hs)) k a Ha) as (p & h & _ & _ & _ & _ & Hrel & _).
  rewrite bool_decide_eq_false_2 by (intros E; rewrite E in Hpeer; set_solver).
  pose proof (srv_ok_permissions client (peers_of msg) s Hs) as Hs2.
  unfold add_permissions in *. rewrite He in *. cbn [negb snd] in *.
  set (t := set_allocations _ _) in *. set (s2 := set_table t s) in *.
  destruct (success_parses env name (header msg) [] s2) as (r' & m & E & Hp & Hev & _);
    [done|constructor|constructor|cbn; lia|].
  change (mkMsg (header (create_success_response (header msg))) []) with (create_success_response (header msg)) in E.
  rewrite E. simpl_bind. eexists _, m, s2. split; [reflexivity|]. split; [done|]. split; [done|].
  eexists _, a. assert (He2 : entry_by_client t client = Some (k, permit (map sa_ip (peers_of msg)) a)).
  { apply entry_by_client_unique; [apply lookup_insert_eq|done|].
    intros k' a' Hl Hcl'. cbn [t set_allocations allocations] in Hl.
    apply lookup_insert_Some in Hl as [[-> _]|[_ Hl]]; [done|].
    eapply (so_unique _ Hs); [done..|congruence]. }
  unfold handle_send, find_allocation_by_client. cbn [s2 set_table allocation_table]. rewrite He2. simpl_bind.
  rewrite Hpa. change MAGIC_COOKIE with MAGIC. rewrite Hdec, Hda. unfold send_to_peer. rewrite He2.
  rewrite bool_decide_eq_true_2 by (apply permit_elem; by left). cbn [negb].
  assert (Hrel' : relay (permit (map sa_ip (peers_of msg)) a) = relay a) by done. rewrite Hrel', Hrel.
  destruct (env_io env'); eexists; (split; [done|]); split; [reflexivity|reflexivity|reflexivity|reflexivity].
Qed.

Definition permission_request : Message :=
  signed_request CreatePermission [mkAttr PEER_ADDRESS (encode_xor_address peer_a MAGIC (seqZ 1 12))].
Definition send_indication : Message :=
  mkMsg (mkHeader Send Indication 0 MAGIC (seqZ 3 12))
    [mkAttr PEER_ADDRESS (encode_xor_address peer_a MAGIC (seqZ 3 12)); mkAttr DATA [104; 105]].

Lemma permission_then_send_witness :
  ∃ resp s', @handle_create_permission toy_crypto map_order sample_env permission_request sample_client allocated =
    Ret (Some resp, [], s') ∧
    ∃ rl s'', @handle_send map_order sample_env send_indication sample_client s' =
      (None, [ToPeer (socket rl) peer_a [104; 105]], s'').
Proof.
  pose proof allocated_ok as Hok.
  assert (Hv : @verify_turn_auth toy_crypto sample_env permission_request
    sample_client allocated = Ret (Ok "alice"%string, allocated)) by (vm_compute; reflexivity).
  assert (Ef : @find_allocation_by_client _ map_order (allocation_table allocated) sample_client =
    Some sample_relayed) by (vm_compute; reflexivity).
  revert Hok Hv Ef. generalize allocated as s. intros s Hok Hv Ef.
  destruct (@permission_then_send toy_crypto toy_laws map_order sample_env sample_env permission_request
    send_indication sample_client s "alice" s sample_relayed peer_a
    (mkAttr PEER_ADDRESS (encode_xor_address peer_a MAGIC (seqZ 3 12))) (mkAttr DATA [104; 105]) Hok Hv)
    as (resp & m & s' & E & _ & _ & rl & a & s'' & _ & _ & Hsend).
  - apply (bool_decide_unpack _). vm_compute. exact I.
  - exact Ef.
  - vm_compute. left.
  - vm_compute. reflexivity.
  - vm_compute. reflexivity.
  - vm_compute. reflexivity.
  - exists resp, s'. split; [exact E|]. exists rl, s''. exact Hsend.
Defined.

(** ChannelData goes only where the client bound it: whatever frame
    arrives, what is sent is nothing, or the announced payload (cut to what
    arrived), from the relay socket of the sender's own allocation to the peer
    bound to that channel on that allocation; a ChannelBind of the number
    makes it the named peer.  A client cannot use another client's channel. *)
Theorem channel_data_confined `{HO : HashOrder} data client s :
  srv_ok s →
  let ch := be16 (byte_at data 0) (byte_at data 1) in
  match handle_channel_data data client s with
  | [] => True
  | out => ∃ k a rl b, allocations (allocation_table s) !! k = Some a ∧ client_addr a = client ∧
      relay a = Some rl ∧ get_by_channel (channel_table s) k ch = Some b ∧
      out = [ToPeer (socket rl) (cb_peer_addr b)
               (take (Z.to_nat (be16 (byte_at data 2) (byte_at data 3))) (drop 4 data))]
  end ∧
  (∀ k b, (4 ≤ length data)%nat → find_allocation_by_client (allocation_table s) client = Some k →
     get_by_channel (channel_table s) k ch = Some b → handle_channel_data data client s ≠ []).
Proof.
  intros Hs ch. assert (Hpay : slice data 4 (4 + Nat.min (Z.to_nat (be16 (byte_at data 2) (byte_at data 3)))
      (length data - 4)) = take (Z.to_nat (be16 (byte_at data 2) (byte_at data 3))) (drop 4 data)).
  { unfold slice. rewrite Nat.add_comm, Nat.add_sub, <- (length_drop data 4).
    set (n := Z.to_nat _). destruct (Nat.le_gt_cases n (length (drop 4 data))).
    - by rewrite Nat.min_l.
    - rewrite Nat.min_r by lia. rewrite !take_ge; [done|lia|lia]. }
  unfold handle_channel_data. case_decide as Hlen; [split; [done|lia]|]. fold ch. rewrite Hpay. split.
  - unfold get_allocation_by_client. destruct (entry_by_client _ client) as [[k a]|] eqn:E; cbn; [|done].
    destruct (entry_relayed s client k a Hs E) as (Ha & Hcl & ->).
    destruct (get_by_channel (channel_table s) k ch) as [b|] eqn:Hb; [|done].
    destruct (relay a) as [rl|] eqn:Hrel; [|done]. by exists k, a, rl, b.
  - intros k b _ Hf Hb. destruct (find_allocation_Some s client k Hs Hf) as (a & Ha & Hcl & Hra & He).
    unfold get_allocation_by_client. rewrite He. cbn. rewrite Hra, Hb.
    destruct (tc_entry _ (proj1 (so_table _ Hs)) k a Ha) as (p & h & _ & _ & _ & _ & -> & _). done.
Qed.

Lemma channel_data_confined_witness :
  ∃ k b, handle_channel_data (HO := map_order) [0x40; 0x01; 0; 1; 9] sample_client
    (set_channel_table (ChannelTable_bind 0 0x4001 peer_a sample_relayed ChannelTable_new).2 allocated) =
    [ToPeer (SaV4 (mkIpv4 10 0 0 5) 50000) (cb_peer_addr b) [9]] ∧
    get_by_channel (ChannelTable_bind 0 0x4001 peer_a sample_relayed ChannelTable_new).2 k 0x4001 = Some b.
Proof.
  assert (Hok : srv_ok (set_channel_table (ChannelTable_bind 0 0x4001 peer_a sample_relayed
    (channel_table allocated)).2 allocated)).
  { apply srv_ok_bind; [exact allocated_ok|]. vm_compute. eexists. reflexivity. }
  destruct (@channel_data_confined map_order [0x40; 0x01; 0; 1; 9] sample_client _ Hok) as [Hm _].
  assert (E : @handle_channel_data map_order [0x40; 0x01; 0; 1; 9] sample_client
    (set_channel_table (ChannelTable_bind 0 0x4001 peer_a sample_relayed (channel_table allocated)).2 allocated) =
    [ToPeer (SaV4 (mkIpv4 10 0 0 5) 50000) peer_a [9]]) by (vm_compute; reflexivity).
  rewrite E in Hm. destruct Hm as (k & a & rl & b & _ & _ & _ & Hb & Hout).
  exists k, b. injection Hout as Hsock Hpeer. rewrite <- Hpeer. split; [vm_compute; reflexivity|].
  exact Hb.
Defined.
