(* ===== verification/Typing.v ===== *)
(** * What the server puts on the wire is typed (src/server.rs, src/message.rs)

    Every response is a sequence of bytes, a whole number of 32-bit words
    long, and carries the transaction id of the request; every datagram handed
    to a socket is a sequence of bytes. *)

From S2P Require Import Prelude RustStd StunMessage Errors Ports Channels Bandwidth Auth Alloc Framing Crypto.
From S2P Require Import Server ServerSpec.
Local Open Scope Z_scope.

Record wire_ok (tid resp : list Z) : Prop := {
  wire_bytes : bytes_ok resp;
  wire_words : (length resp mod 4 = 0)%nat;
  wire_tid : slice resp 8 20 = tid
}.

Definition packet_ok (p : Packet) : Prop :=
  match p with ToPeer _ _ d | ToClient _ _ d => bytes_ok d end.

(** A request as the parsers deliver it. *)
Definition typed_msg (m : Message) : Prop :=
  tid_ok (transaction_id (header m)) ∧ Forall (λ a, bytes_ok (value a)) (attributes m).

(** ** Encoding *)

Lemma Attribute_encode_typed a :
  bytes_ok (value a) → bytes_ok (Attribute_encode a) ∧ (length (Attribute_encode a) mod 4 = 0)%nat.
Proof.
  intros Hv. unfold Attribute_encode. set (n := length (value a)).
  set (len := as_u16 (Z.of_nat n)). set (p := as_u16 (4 - len mod 4) mod 4).
  assert (Hp : 0 ≤ p < 4) by (apply Z.mod_pos_bound; lia).
  assert (Hn : (Z.of_nat n + p) mod 4 = 0) by (unfold p, len; word_lia).
  split.
  - repeat (apply bytes_ok_app; split); [apply put_u16_ok..|done|].
    destruct (0 <? p); [|constructor]. apply Forall_take. repeat constructor; unfold_words; lia.
  - rewrite !length_app. cbn [length put_u16]. fold n.
    assert (Hl : length (if 0 <? p then take (Z.to_nat p) [0; 0; 0; 0] else []) = Z.to_nat p).
    { destruct (Z.ltb_spec 0 p); [rewrite length_take; cbn [length]; lia|cbn; lia]. }
    rewrite Hl. apply Nat2Z.inj. rewrite Nat2Z.inj_mod. clearbody p n. word_lia.
Qed.

Lemma encode_attributes_typed l :
  Forall (λ a, bytes_ok (value a)) l →
  bytes_ok (encode_attributes l) ∧ (length (encode_attributes l) mod 4 = 0)%nat.
Proof.
  unfold encode_attributes. induction 1 as [|a l Ha _ [IH1 IH2]]; [by split; [constructor|]|].
  destruct (Attribute_encode_typed a Ha) as [H1 H2]. cbn [map concat]. split; [by apply bytes_ok_app|].
  by rewrite length_app, Nat.Div0.add_mod, H2, IH2.
Qed.

Lemma Message_encode_wire m : typed_msg m → wire_ok (transaction_id (header m)) (Message_encode m).
Proof.
  intros [[Ht1 Ht2] Ha]. destruct (encode_attributes_typed _ Ha) as [Hb Hw].
  unfold Message_encode, MessageHeader_encode, set_length. cbn [transaction_id magic_cookie method event_type message_length].
  set (buf := encode_attributes _) in *. split.
  - repeat (apply bytes_ok_app; split); (apply put_u16_ok || apply put_u32_ok || done).
  - rewrite !length_app. cbn [length put_u16 put_u32]. rewrite Ht1.
    replace (2 + (2 + (4 + 12)) + length buf)%nat with (length buf + 5 * 4)%nat by lia.
    by rewrite Nat.Div0.mod_add.
  - change (take 12 (transaction_id (header m) ++ buf) = transaction_id (header m)).
    rewrite take_app_le, take_ge by lia. done.
Qed.

Lemma encode_wire tid m : typed_msg m → transaction_id (header m) = tid → wire_ok tid (Message_encode m).
Proof. intros H <-. by apply Message_encode_wire. Qed.

(** ** Responses *)

Create HintDb typing.

Lemma add_attribute_typed m a : typed_msg m → bytes_ok (value a) → typed_msg (add_attribute m a).
Proof.
  intros [Ht Ha] Hv. split; [done|]. apply list.Forall_app. split; [done|by apply Forall_singleton].
Qed.

Lemma error_typed h code reason :
  tid_ok (transaction_id h) → typed_msg (create_error_response_with_reason h code reason).
Proof.
  intros Ht. split; [done|]. constructor; [|constructor]. cbn [value]. apply bytes_ok_app.
  split; [apply put_u32_ok|apply str_bytes_ok].
Qed.
Lemma success_typed h : tid_ok (transaction_id h) → typed_msg (create_success_response h).
Proof. intros Ht. by split; [|constructor]. Qed.
#[export] Hint Resolve add_attribute_typed error_typed success_typed str_bytes_ok put_u32_ok : typing.

Section responses.
Context `{CR : Crypto} `{CL : !CryptoLaws} `{HO : HashOrder}.

Lemma error_bytes_wire msg code s :
  tid_ok (transaction_id (header msg)) →
  wire_ok (transaction_id (header msg)) (create_error_response_bytes msg code s).
Proof.
  intros Ht. unfold create_error_response_bytes, create_error_response.
  apply encode_wire; [|done]. apply add_attribute_typed; [auto with typing|cbn; apply str_bytes_ok].
Qed.
Lemma error_reason_bytes_wire msg code reason s :
  tid_ok (transaction_id (header msg)) →
  wire_ok (transaction_id (header msg)) (create_error_response_bytes_with_reason msg code reason s).
Proof.
  intros Ht. unfold create_error_response_bytes_with_reason.
  apply encode_wire; [|done]. apply add_attribute_typed; [auto with typing|cbn; apply str_bytes_ok].
Qed.

Lemma verify_err_wire env msg client s resp s' :
  tid_ok (transaction_id (header msg)) → verify_turn_auth env msg client s = Ret (Err resp, s') →
  wire_ok (transaction_id (header msg)) resp.
Proof.
  intros Ht H. destruct (auth_disabled s) eqn:Had; [unfold verify_turn_auth in H; rewrite Had in H; done|].
  destruct (verify_turn_auth_err _ _ _ _ _ _ Had H) as [(_ & _ & ->)|(_ & reason & _ & E)]; [by apply error_bytes_wire|].
  unfold create_401_response in E. injection E as -> _.
  apply encode_wire; [|done]. do 3 (apply add_attribute_typed; [|cbn; apply str_bytes_ok]). auto with typing.
Qed.

Lemma sign_wire env name r s r' :
  typed_msg r → sign_response env name r s = Ret r' → wire_ok (transaction_id (header r)) (Message_encode r').
Proof.
  intros Hr. unfold sign_response. destruct (auth_disabled s); [intros [= <-]; by apply Message_encode_wire|].
  destruct (get_password_for_user _ _ _); [|intros [= <-]; by apply Message_encode_wire].
  rewrite integrity_sign. intros [= <-]. apply encode_wire; [|done].
  apply add_attribute_typed; [done|apply hmac_bytes].
Qed.

Lemma allocate_success_typed msg relayed client life s :
  tid_ok (transaction_id (header msg)) → addr_ok relayed → addr_ok client →
  typed_msg (allocate_success msg relayed client life s).
Proof.
  intros Ht Hr Hc. split; [done|]. unfold allocate_success. cbn [attributes].
  repeat (constructor; [cbn [value software_attr]; (by apply encode_xor_address_ok) || apply put_u32_ok || apply str_bytes_ok|]).
  constructor.
Qed.
End responses.

(** ** Handlers *)

Definition reply_ok (tid : list Z) (r : option (list Z)) (out : list Packet) : Prop :=
  match r with Some resp => wire_ok tid resp | None => True end ∧ Forall packet_ok out.

Lemma reply_ok_response tid resp : wire_ok tid resp → reply_ok tid (Some resp) [].
Proof. by split; [|constructor]. Qed.
Lemma reply_ok_none tid : reply_ok tid None [].
Proof. by split; [|constructor]. Qed.
#[export] Hint Resolve reply_ok_response reply_ok_none error_bytes_wire error_reason_bytes_wire : typing.

Lemma get_attribute_typed m ty a : typed_msg m → get_attribute m ty = Some a → bytes_ok (value a).
Proof.
  intros [_ Hm] [H _]%find_first_Some. rewrite list.Forall_forall in Hm. by apply Hm.
Qed.

Section handlers.
Context `{CR : Crypto} `{CL : !CryptoLaws} `{HO : HashOrder}.
Context (env : MsgEnv) (msg : Message) (client : SocketAddr) (s : TurnServer).
Context (Hmsg : typed_msg msg) (Hclient : addr_ok client) (Hs : srv_ok s).
Context (Hext : ipv4_ok (external_addr (allocation_table s))).
Let tid : list Z := transaction_id (header msg).
Implicit Types (r : option (list Z)) (out : list Packet).

(** The common frame: an error of the authentication, or the rest. *)
Lemma after_auth (k : string → TurnServer → outcome reply) r out s' :
  ('(auth, s) ← verify_turn_auth env msg client s;
   match auth with Err resp => Ret (Some resp, [], s) | Ok name => k name s end) = Ret (r, out, s') →
  (∀ name, k name s = Ret (r, out, s') → reply_ok tid r out) → reply_ok tid r out.
Proof.
  intros H Hk. destruct (verify_turn_auth env msg client s) as [[[name|resp] s1]|] eqn:Ev; simpl_bind; [| |done].
  - apply verify_ok_same in Ev as ->. by eapply Hk.
  - simplify_eq. apply reply_ok_response. eapply verify_err_wire; [apply Hmsg|exact Ev].
Qed.

(** A success response that is signed and encoded. *)
Lemma after_sign m name s1 r out s' :
  typed_msg m → transaction_id (header m) = tid →
  (response ← sign_response env name m s1; Ret (Some (Message_encode response), [], s1)) = Ret (r, out, s') →
  reply_ok tid r out.
Proof.
  intros Hm Ht H. destruct (sign_response env name m s1) as [r'|] eqn:E; simpl_bind; [|done]. simplify_eq.
  apply reply_ok_response. rewrite <- Ht. by eapply sign_wire.
Qed.

Lemma handle_allocate_typed r out s' : handle_allocate env msg client s = Ret (r, out, s') → reply_ok tid r out.
Proof.
  intros H. eapply after_auth; [exact H|]. clear H. cbn beta. intros name H.
  destruct (get_lifetime msg) as [life|]; simpl_bind; [|done].
  pose proof (drop_old_spec (env_weak env) client s Hs) as Hd. cbv zeta in Hd.
  set (s2 := match find_allocation_by_client (allocation_table s) client with Some _ => _ | None => _ end) in *.
  clearbody s2. destruct Hd as (Hs2 & _ & _ & Hext2 & _).
  destruct (create_spec (env_create env) client (Some life) (allocation_table s2) (so_table _ Hs2))
    as (rr & t & Ec & Hok & Hext3 & _ & _ & Hr). rewrite Ec in H. simpl_bind. destruct rr as [a|e].
  - destruct Hr as (_ & _ & Hall & _).
    assert (Hlook : allocations t !! relayed_addr a = Some a) by (rewrite Hall; apply lookup_insert_eq).
    destruct (tc_entry _ (proj1 Hok) _ _ Hlook) as (p & h & Hk & Hp & _).
    eapply after_sign; [| |exact H]; [|done]. apply allocate_success_typed; [apply Hmsg| |done].
    rewrite Hk, Hext3, Hext2. by split.
  - destruct (allocate_error e) as [code reason]. simplify_eq. apply reply_ok_response, error_reason_bytes_wire, Hmsg.
Qed.

Lemma handle_refresh_typed r out s' : handle_refresh env msg client s = Ret (r, out, s') → reply_ok tid r out.
Proof.
  intros H. eapply after_auth; [exact H|]. clear H. cbn beta. intros name H.
  destruct (get_lifetime msg) as [life|]; simpl_bind; [|done].
  destruct (find_allocation_by_client _ _) as [k|]; [|simplify_eq; apply reply_ok_response, error_bytes_wire, Hmsg].
  destruct (if life =? 0 then _ else _) as [ok s1].
  destruct ok; cbn [negb] in H; [|simplify_eq; apply reply_ok_response, error_bytes_wire, Hmsg].
  eapply after_sign; [| |exact H]; [|done].
  apply add_attribute_typed; [apply success_typed, Hmsg|apply put_u32_ok].
Qed.

Lemma handle_create_permission_typed r out s' :
  handle_create_permission env msg client s = Ret (r, out, s') → reply_ok tid r out.
Proof.
  intros H. eapply after_auth; [exact H|]. clear H. cbn beta. intros name H.
  destruct (find_allocation_by_client _ _) as [k|]; [|simplify_eq; apply reply_ok_response, error_bytes_wire, Hmsg].
  cbv zeta in H. destruct (bool_decide (peers_of msg = [])); [simplify_eq; apply reply_ok_response, error_bytes_wire, Hmsg|].
  destruct (add_permissions _ _ _) as [added t].
  destruct added; cbn [negb] in H; [|simplify_eq; apply reply_ok_response, error_bytes_wire, Hmsg].
  eapply after_sign; [| |exact H]; [|done]. apply success_typed, Hmsg.
Qed.

Lemma handle_channel_bind_typed r out s' :
  handle_channel_bind env msg client s = Ret (r, out, s') → reply_ok tid r out.
Proof.
  intros H. eapply after_auth; [exact H|]. clear H. cbn beta. intros name H.
  destruct (find_allocation_by_client _ _) as [k|]; [|simplify_eq; apply reply_ok_none].
  destruct (get_attribute msg PEER_ADDRESS) as [pa|]; [|simplify_eq; apply reply_ok_none].
  destruct (get_attribute msg CHANNEL_NUMBER) as [ca|]; [|simplify_eq; apply reply_ok_none].
  destruct (index (value ca) 0) as [b0|]; simpl_bind; [|done].
  destruct (index (value ca) 1) as [b1|]; simpl_bind; [|done].
  destruct (ChannelTable_bind _ _ _ _ _) as [res c].
  destruct (is_ok res); [|simplify_eq; apply reply_ok_response, error_reason_bytes_wire, Hmsg].
  eapply after_sign; [| |exact H]; [|done]. apply success_typed, Hmsg.
Qed.

Lemma send_to_peer_packets io peer data :
  bytes_ok data → Forall packet_ok (send_to_peer io client peer data (allocation_table s)).1.2.
Proof.
  intros Hd. unfold send_to_peer. destruct (entry_by_client _ _) as [[k a]|]; [|constructor].
  destruct (negb _); [constructor|]. destruct (relay a) as [rl|]; [|constructor].
  destruct io; cbn; by apply Forall_singleton.
Qed.

Lemma handle_send_typed r out s' : handle_send env msg client s = (r, out, s') → reply_ok tid r out.
Proof.
  unfold handle_send. destruct (find_allocation_by_client _ _); [|by intros [= <- <- _]; apply reply_ok_none].
  destruct (get_attribute msg PEER_ADDRESS); [|by intros [= <- <- _]; apply reply_ok_none].
  destruct (decode_xor_address _ _ _) as [peer|]; [|by intros [= <- <- _]; apply reply_ok_none].
  destruct (get_attribute msg DATA) as [da|] eqn:E; [|by intros [= <- <- _]; apply reply_ok_none].
  pose proof (send_to_peer_packets (env_io env) peer (value da) (get_attribute_typed _ _ _ Hmsg E)) as H.
  destruct (send_to_peer _ _ _ _ _) as [[x o] t]. intros [= <- <- _]. by split.
Qed.

Lemma binding_wire : wire_ok tid (create_binding_response_fast tid client).
Proof.
  destruct Hmsg as [[Ht1 Ht2] _]. fold tid in Ht1, Ht2. unfold create_binding_response_fast. split.
  - assert (Hu8 : ∀ x, in_u8 x → bytes_ok (put_u8 x)) by (intros x Hx; by apply Forall_singleton).
    assert (Haddr : ∀ ip, ipv4_ok ip → bytes_ok (put_u8 (Z.lxor (oct0 ip) 0x21) ++ put_u8 (Z.lxor (oct1 ip) 0x12)
      ++ put_u8 (Z.lxor (oct2 ip) 0xa4) ++ put_u8 (Z.lxor (oct3 ip) 0x42))).
    { intros ip (Ha & Hb & Hc & Hd). repeat (apply bytes_ok_app; split); apply Hu8;
        [by apply (as_u8_xor _ 0x21)|by apply (as_u8_xor _ 0x12)|by apply (as_u8_xor _ 0xa4)|by apply (as_u8_xor _ 0x42)]. }
    do 3 (apply bytes_ok_app; split; [apply put_u16_ok || apply put_u32_ok|]).
    apply bytes_ok_app. split; [done|]. do 2 (apply bytes_ok_app; split; [apply put_u16_ok|]).
    destruct client as [ip p|]; do 2 (apply bytes_ok_app; split; [apply Hu8; unfold_words; lia|]);
      [|apply put_u16_ok]. apply bytes_ok_app. split; [apply put_u16_ok|]. apply Haddr, Hclient.
  - rewrite !length_app. rewrite Ht1. by destruct client.
  - match goal with |- slice (_ ++ _ ++ _ ++ _ ++ ?rest) 8 20 = _ => change (take 12 (tid ++ rest) = tid) end.
    rewrite take_app_le, take_ge by lia. done.
Qed.
End handlers.

Section entry.
Context `{CR : Crypto} `{CL : !CryptoLaws} `{HO : HashOrder}.

Lemma process_message_typed env msg client s r out s' :
  typed_msg msg → addr_ok client → srv_ok s → ipv4_ok (external_addr (allocation_table s)) →
  process_message env msg client s = Ret (r, out, s') → reply_ok (transaction_id (header msg)) r out.
Proof.
  intros Hm Hc Hs He. unfold process_message.
  destruct (bool_decide _ && _); [intros [= <- <- _]; apply reply_ok_none|].
  destruct (negb _ && _); [intros [= <- <- _]; apply reply_ok_none|].
  destruct (method (header msg)); try (intros [= <- <- _]; apply reply_ok_none).
  - intros [= <- <- _]. by apply reply_ok_response, binding_wire.
  - by apply handle_allocate_typed.
  - by apply handle_refresh_typed.
  - intros H. injection H as H. by eapply handle_send_typed.
  - by apply handle_create_permission_typed.
  - by apply handle_channel_bind_typed.
Qed.

(** ** Parsed requests *)

Lemma msg_ok_typed m : msg_ok m → typed_msg m.
Proof.
  intros (Ht & Ha & _). split; [done|]. eapply Forall_impl; [exact Ha|]. by intros a (_ & H & _).
Qed.

Definition magic_bytes : list Z := [0x21; 0x12; 0xA4; 0x42].
Definition has_magic (data : list Z) : Prop := slice data 4 8 = magic_bytes.

Lemma parsed_tid data m : Message_parse data = Some m → has_magic data → transaction_id (header m) = slice data 8 20.
Proof.
  unfold Message_parse, has_magic. case_decide as Hl; [done|].
  destruct (MessageHeader_parse data) as [h|] eqn:E; simpl_bind; [|done]. case_decide; [done|].
  destruct (parse_attributes _ _ _ _ _) as [[l|]|]; [|done..]. intros [= <-] Hm. cbn [header].
  unfold MessageHeader_parse in E. rewrite decide_False in E by done.
  assert (Hb : byte_at data 4 = 0x21 ∧ byte_at data 5 = 0x12 ∧ byte_at data 6 = 0xA4 ∧ byte_at data 7 = 0x42).
  { do 8 (destruct data as [|? data]; [cbn [length] in Hl; lia|]). unfold slice, magic_bytes in Hm. cbn in Hm. by simplify_eq. }
  destruct Hb as (H4 & H5 & H6 & H7). rewrite H4, H5, H6, H7 in E. cbn [Z.eqb Pos.eqb andb] in E.
  destruct (method_of_u16 _); simpl_bind; [|done]. destruct (class_of_u16 _); simpl_bind; [|done]. by simplify_eq.
Qed.

(** A message without the cookie is read as RFC 3489 with the transaction id
    four bytes early, the last four bytes of the sixteen being dropped, so the
    answer does not carry the id the client sent. *)
Lemma legacy_tid data m :
  Message_parse data = Some m → ¬ has_magic data → (20 ≤ length data)%nat → transaction_id (header m) = slice data 4 16.
Proof.
  unfold Message_parse, has_magic. intros H Hm Hl. rewrite decide_False in H by lia.
  destruct (MessageHeader_parse data) as [h|] eqn:E; simpl_bind; [|done]. case_decide; [done|].
  destruct (parse_attributes _ _ _ _ _) as [[l|]|]; [|done..]. simplify_eq. cbn [header].
  unfold MessageHeader_parse in E. rewrite decide_False in E by lia.
  destruct (_ && _ && _ && _) eqn:Eb.
  - exfalso. apply Hm. do 8 (destruct data as [|? data]; [cbn [length] in Hl; lia|]). unfold byte_at in Eb. cbn [nth] in Eb.
    bool_to_prop. by subst.
  - rewrite decide_False in E by lia.
    destruct (method_of_u16 _); simpl_bind; [|done]. destruct (class_of_u16 _); simpl_bind; [|done]. by simplify_eq.
Qed.

Lemma raw_attributes_typed fuel data off end_ acc l :
  bytes_ok data → Forall (λ a, bytes_ok (value a)) acc → raw_attributes fuel data off end_ acc = Some l →
  Forall (λ a, bytes_ok (value a)) l.
Proof.
  intros Hd. revert off acc. induction fuel as [|f IH]; intros off acc Ha; cbn [raw_attributes]; [done|].
  case_decide; [|by intros [= <-]]. case_decide; [|by intros [= <-]]. apply IH.
  apply list.Forall_app. split; [done|]. apply Forall_singleton. by apply bytes_ok_slice.
Qed.

Lemma raw_parse_typed data m : bytes_ok data → raw_parse data = Some m → typed_msg m ∧ transaction_id (header m) = slice data 8 20.
Proof.
  intros Hd. unfold raw_parse. case_decide as Hl; [done|].
  destruct (_ && _ && _ && _ && _ && _); [|done]. destruct (raw_method _); simpl_bind; [|done].
  destruct (raw_attributes _ _ _ _ _) as [l|] eqn:E; simpl_bind; [|done]. intros [= <-]. split; [|done].
  split; cbn [header transaction_id attributes].
  - split; [|by apply bytes_ok_slice]. unfold slice. rewrite length_take, length_drop. lia.
  - by eapply raw_attributes_typed.
Qed.

Lemma channel_data_packets data client s : bytes_ok data → Forall packet_ok (handle_channel_data data client s).
Proof.
  intros Hd. unfold handle_channel_data. case_decide; [constructor|].
  destruct (get_allocation_by_client _ _) as [a|]; [|constructor].
  destruct (get_by_channel _ _ _); [|constructor]. destruct (relay a); [|constructor].
  apply Forall_singleton. by apply bytes_ok_slice.
Qed.
End entry.

(** ** Properties *)

(** C29. The wire is typed: whatever bytes arrive, over UDP, DTLS or a stream,
    a response is a sequence of bytes and a whole number of 32-bit words long,
    it carries the transaction id of the request when the request has the
    magic cookie, and every datagram sent on behalf of the request is a
    sequence of bytes. *)
Theorem replies_well_typed `{CR : Crypto} `{CL : !CryptoLaws} `{HO : HashOrder} env data client s r out s' :
  srv_ok s → bytes_ok data → addr_ok client → ipv4_ok (external_addr (allocation_table s)) →
  handle_udp_message env data client s = Ret (r, out, s') ∨
  handle_tcp_message env data client s = Ret (r, out, s') →
  Forall packet_ok out ∧
  match r with
  | None => True
  | Some resp => bytes_ok resp ∧ (length resp mod 4 = 0)%nat ∧ (has_magic data → slice resp 8 20 = slice data 8 20)
  end.
Proof.
  intros Hs Hd Hc He H.
  assert (Hmsg : ∀ m, typed_msg m → (has_magic data → transaction_id (header m) = slice data 8 20) →
    process_message env m client s = Ret (r, out, s') →
    Forall packet_ok out ∧ match r with None => True | Some resp =>
      bytes_ok resp ∧ (length resp mod 4 = 0)%nat ∧ (has_magic data → slice resp 8 20 = slice data 8 20) end).
  { intros m Hm Ht Hp. destruct (process_message_typed _ _ _ _ _ _ _ Hm Hc Hs He Hp) as [Hr Ho].
    split; [done|]. destruct r as [resp|]; [|done]. destruct Hr as [H1 H2 H3]. split_and!; [done..|].
    intros Hmag. rewrite H3. auto. }
  assert (Hpm : ∀ m, Message_parse data = Some m → typed_msg m ∧ (has_magic data → transaction_id (header m) = slice data 8 20)).
  { intros m E. split; [by eapply msg_ok_typed, Message_parse_ok|by apply parsed_tid]. }
  destruct H as [H|H].
  - unfold handle_udp_message in H. case_decide; [by simplify_eq; split; [constructor|]|].
    destruct (is_channel_data_frame data); [simplify_eq; split; [by apply channel_data_packets|done]|].
    destruct (Message_parse data) as [m|] eqn:E; [by destruct (Hpm m eq_refl) as [H1 H2]; apply (Hmsg m)|].
    destruct (raw_parse data) as [m|] eqn:E2; [|by simplify_eq; split; [constructor|]].
    destruct (raw_parse_typed _ _ Hd E2) as [H1 H2]. by apply (Hmsg m).
  - unfold handle_tcp_message in H.
    destruct (is_channel_data_frame data); [simplify_eq; split; [by apply channel_data_packets|done]|].
    destruct (Message_parse data) as [m|] eqn:E; [|by simplify_eq; split; [constructor|]].
    destruct (Hpm m eq_refl) as [H1 H2]. by apply (Hmsg m).
Qed.

Lemma replies_well_typed_witness :
  let data := Message_encode (request Allocate []) in
  ∃ resp out s', @handle_udp_message toy_crypto map_order sample_env data sample_client sample_server = Ret (Some resp, out, s') ∧
    bytes_ok resp ∧ slice resp 8 20 = seqZ 1 12.
Proof.
  intros data.
  destruct (@handle_udp_message toy_crypto map_order sample_env data sample_client sample_server)
    as [[[[resp|] out] s']|] eqn:E; [|exfalso; vm_compute in E; discriminate..].
  exists resp, out, s'. split; [reflexivity|].
  destruct (@replies_well_typed toy_crypto toy_laws map_order sample_env data sample_client sample_server (Some resp) out s')
    as (_ & H1 & _ & H2).
  - apply sample_server_ok.
  - apply (bool_decide_unpack _). vm_compute. exact I.
  - split; [|vm_compute; split; congruence]. cbv. repeat split; congruence.
  - cbv. repeat split; congruence.
  - left. exact E.
  - split; [exact H1|]. rewrite H2; vm_compute; reflexivity.
Defined.
