(* ===== verification/System.v ===== *)
(** * The server as a running system (src/server.rs)

    The transports drive the handlers of Server: [step] is one atomic action
    of the running server (a datagram or frame handled, a tick of a background
    task, a connection coming or going, a turn of a relay task); connection
    loops of the stream and DTLS listeners are functions of what the socket
    yields; the UDP listener's worker pool is a transition system of queues. *)

From S2P Require Import Prelude RustStd StunMessage Errors Ports Channels Bandwidth Auth Alloc Framing Crypto Server ServerSpec.
From stdpp Require Import relations.
Local Open Scope Z_scope.

(** ** Atomic actions *)

(** What a relay task can see.  Its queue is never sent to: no code of the
    server uses the sender kept in the allocation. *)
Definition external_event (ev : TaskEvent) : Prop :=
  match ev with TaskMessage _ => False | _ => True end.

Section steps.
Context `{CR : Crypto} `{HO : HashOrder}.

(** What goes on besides the requests. *)
Inductive background (s : TurnServer) : list Packet → TurnServer → Prop :=
| bg_listen_udp sock : background s [] (set_table (set_main_socket sock (allocation_table s)) s)
| bg_connect client sender :
    background s [] (set_table (register_client_sender client sender (allocation_table s)) s)
| bg_disconnect client : background s [] (set_table (unregister_client_sender client (allocation_table s)) s)
| bg_nonce_cleanup now : background s [] (nonce_cleanup_tick now s)
| bg_channel_cleanup now : background s [] (channel_cleanup_tick now s)
| bg_allocation_cleanup now weak : background s [] (allocation_cleanup_tick now weak s)
| bg_relay_continue h task nanos io ev st out :
    tasks (allocation_table s) !! h = Some task → external_event ev →
    relay_task_step nanos io ev task (client_transports (allocation_table s)) (channel_table s)
      (stats (allocation_table s)) = (Continue, st, out) →
    background s out (set_table (set_stats st (allocation_table s)) s)
| bg_relay_break h task nanos io ev st out :
    tasks (allocation_table s) !! h = Some task → external_event ev →
    relay_task_step nanos io ev task (client_transports (allocation_table s)) (channel_table s)
      (stats (allocation_table s)) = (Break, st, out) →
    background s out (set_table (set_tasks (delete h (tasks (allocation_table s)))
                                           (next_task (allocation_table s)) (allocation_table s)) s).

Inductive step (s : TurnServer) : list Packet → TurnServer → Prop :=
| step_udp env data client r out s' :
    handle_udp_message env data client s = Ret (r, out, s') → step s out s'
| step_stream env data client r out s' :
    handle_tcp_message env data client s = Ret (r, out, s') → step s out s'
| step_dtls env data client r out s' :
    handle_dtls_message env data client s = Ret (r, out, s') → step s out s'
| step_background out s' : background s out s' → step s out s'.

(** The states the server can reach, with everything sent on the way. *)
Inductive reachable (s0 : TurnServer) : list Packet → TurnServer → Prop :=
| reach_init : reachable s0 [] s0
| reach_step out1 out2 s s' :
    reachable s0 out1 s → step s out2 s' → reachable s0 (out1 ++ out2) s'.

(** ** Connection loops *)

(** What one [read_buf] yields; [BufferLimit] is the capacity check failing. *)
Inductive ReadEvent :=
| ReadData (chunk : list Z)
| ReadEof
| ReadError
| BufferLimit.

Inductive ConnStatus := Open (buf : list Z) (next : nat) | WriteFailed.

(** The [while let] over the buffer: frame [n] is handled with [env n], and
    [wok n] says whether the write of its response succeeds.  Yields the
    status, the bytes written, the datagrams sent and the server. *)
Fixpoint serve_buffer (fuel : nat) (env : nat → MsgEnv) (wok : nat → bool) (n : nat) (buf : list Z)
    (client : SocketAddr) (s : TurnServer)
    : outcome (ConnStatus * list (list Z) * list Packet * TurnServer) :=
  match fuel with
  | O => Ret (Open buf n, [], [], s)
  | S fuel =>
    match extract_stream_frame buf with
    | None => Ret (Open buf n, [], [], s)
    | Some (frame, rest) =>
      '(r, out, s) ← handle_tcp_message (env n) frame client s;
      match r with
      | None =>
        '(st, w, out', s) ← serve_buffer fuel env wok (S n) rest client s;
        Ret (st, w, out ++ out', s)
      | Some resp =>
        bytes ← write_stream_frame resp;
        if wok n then
          '(st, w, out', s) ← serve_buffer fuel env wok (S n) rest client s;
          Ret (st, bytes :: w, out ++ out', s)
        else Ret (WriteFailed, [], out, s)
      end
    end
  end.

Definition unregister (client : SocketAddr) (s : TurnServer) : TurnServer :=
  set_table (unregister_client_sender client (allocation_table s)) s.

Fixpoint stream_loop (env : nat → MsgEnv) (wok : nat → bool) (n : nat) (buf : list Z)
    (events : list ReadEvent) (client : SocketAddr) (s : TurnServer)
    : outcome (list (list Z) * list Packet * TurnServer) :=
  match events with
  | ReadData chunk :: events =>
    '(st, w, out, s) ← serve_buffer (S (length (buf ++ chunk))) env wok n (buf ++ chunk) client s;
    match st with
    | WriteFailed => Ret (w, out, unregister client s)
    | Open buf n =>
      '(w', out', s) ← stream_loop env wok n buf events client s;
      Ret (w ++ w', out ++ out', s)
    end
  | _ => Ret ([], [], unregister client s)
  end.

(** One accepted TCP connection. *)
Definition tcp_connection (conn : Z) (env : nat → MsgEnv) (wok : nat → bool)
    (events : list ReadEvent) (client : SocketAddr) (s : TurnServer)
    : outcome (list (list Z) * list Packet * TurnServer) :=
  let s := set_table (register_client_sender client (StreamClientPacketSender conn) (allocation_table s)) s in
  stream_loop env wok 0 [] events client s.

(** One accepted TLS connection; [handshake] is the result of the TLS accept. *)
Definition tls_connection (handshake : bool) (conn : Z) (env : nat → MsgEnv) (wok : nat → bool)
    (events : list ReadEvent) (client : SocketAddr) (s : TurnServer)
    : outcome (list (list Z) * list Packet * TurnServer) :=
  if handshake then
    let s := set_table (register_client_sender client (StreamClientPacketSender conn) (allocation_table s)) s in
    stream_loop env wok 0 [] events client s
  else Ret ([], [], s).

(** The DTLS loop: one record, one message. *)
Fixpoint dtls_loop (env : nat → MsgEnv) (wok : nat → bool) (n : nat) (records : list (list Z))
    (client : SocketAddr) (s : TurnServer) : outcome (list (list Z) * list Packet * TurnServer) :=
  match records with
  | [] | [] :: _ => Ret ([], [], unregister client s)
  | data :: records =>
    '(r, out, s) ← handle_dtls_message (env n) data client s;
    match r with
    | None =>
      '(w, out', s) ← dtls_loop env wok (S n) records client s; Ret (w, out ++ out', s)
    | Some resp =>
      if wok n then
        '(w, out', s) ← dtls_loop env wok (S n) records client s; Ret (resp :: w, out ++ out', s)
      else Ret ([], out, unregister client s)
    end
  end.

Definition dtls_connection (conn : Z) (env : nat → MsgEnv) (wok : nat → bool) (records : list (list Z))
    (client : SocketAddr) (s : TurnServer) : outcome (list (list Z) * list Packet * TurnServer) :=
  let s := set_table (register_client_sender client (DtlsClientPacketSender conn) (allocation_table s)) s in
  dtls_loop env wok 0 records client s.
End steps.

(** ** The UDP worker pool *)

Section workers.
(** [hash] is [DefaultHasher] on the address, [num_workers] the pool size. *)
Context (hash : SocketAddr → Z) (num_workers : Z).

Definition WORKER_QUEUE : nat := Z.to_nat 1024.

Record Pool := mkPool {
  queues : gmap Z (list (list Z * SocketAddr));
  handled : list (list Z * SocketAddr)
}.

Definition worker_of (client : SocketAddr) : Z := hash client mod num_workers.
Definition queue (p : Pool) (w : Z) : list (list Z * SocketAddr) := default [] (queues p !! w).

(** [try_send]: a full queue drops the datagram. *)
Definition dispatch (d : list Z) (client : SocketAddr) (p : Pool) : Pool :=
  let w := worker_of client in
  if decide (length (queue p w) < WORKER_QUEUE)%nat
  then mkPool (<[w := queue p w ++ [(d, client)]]> (queues p)) (handled p)
  else p.

(** Worker [w] takes the next datagram of its queue. *)
Definition work (w : Z) (p : Pool) : Pool :=
  match queue p w with
  | [] => p
  | x :: rest => mkPool (<[w := rest]> (queues p)) (handled p ++ [x])
  end.

Inductive PoolEvent := Receive (d : list Z) (client : SocketAddr) | Work (w : Z).

Definition pool_event (p : Pool) (e : PoolEvent) : Pool :=
  match e with Receive d c => dispatch d c p | Work w => work w p end.
Definition run_pool (p : Pool) (es : list PoolEvent) : Pool := fold_left pool_event es p.

Definition received (es : list PoolEvent) : list (list Z * SocketAddr) :=
  omap (λ e, match e with Receive d c => Some (d, c) | Work _ => None end) es.

Definition of_client (c : SocketAddr) (l : list (list Z * SocketAddr)) : list (list Z) :=
  omap (λ x, if decide (x.2 = c) then Some x.1 else None) l.
End workers.

(** ** Lemmas: every action keeps the server invariant *)

Section inv.
Context `{CR : Crypto} `{HO : HashOrder}.

Lemma srv_ok_transports m r s :
  srv_ok s → srv_ok (set_table (set_transports m r (allocation_table s)) s).
Proof.
  intros Hs. apply srv_ok_same; [done| |done]. destruct (so_table _ Hs) as [Hc Hn].
  split; [by apply core_transports|done].
Qed.

Lemma channel_cleanup_keeps now s : srv_ok s → srv_ok (channel_cleanup_tick now s).
Proof.
  intros Hs. split; cbn; [apply Hs|apply cleanup_channels_ok, Hs|apply Hs|].
  intros k id [b [Hl _]%map_lookup_filter_Some]. by eapply (so_bound _ Hs).
Qed.

Lemma allocation_cleanup_keeps now weak s : srv_ok s → srv_ok (allocation_cleanup_tick now weak s).
Proof.
  intros Hs. unfold allocation_cleanup_tick.
  pose proof (cleanup_spec now weak (Some (channel_table s)) (allocation_table s) (so_table _ Hs)) as H.
  destruct (cleanup_expired now weak _ _) as [[c ch] t]. destruct H as (Hok & Hall & _ & Hch).
  destruct (Hch _ eq_refl) as (ct & -> & Hco & Hlk). clear Hch.
  assert (Hsub : ∀ k a, allocations t !! k = Some a → allocations (allocation_table s) !! k = Some a).
  { intros k a. rewrite Hall. by intros [? _]%map_lookup_filter_Some. }
  split; cbn.
  - done.
  - apply Hco, Hs.
  - intros k1 a1 k2 a2 H1%Hsub H2%Hsub. by eapply (so_unique _ Hs).
  - intros k id Hb. rewrite Hlk in Hb. case_decide as Hk; [by destruct Hb|].
    apply (so_bound _ Hs) in Hb as [a Ha]. exists a. rewrite Hall. apply map_lookup_filter_Some.
    split; [done|]. apply not_true_iff_false. intros He. apply Hk, elem_of_expired_keys. eauto.
Qed.

(** A turn of a relay task counts what it relayed and nothing else. *)
Lemma relay_step_active nanos io ev task reg ch st c st' out :
  relay_task_step nanos io ev task reg ch st = (c, st', out) →
  active_allocations st' = active_allocations st.
Proof. destruct ev as [[[? ?]|]|[]|]; cbn; intros; by simplify_eq. Qed.

Lemma background_keeps s out s' : srv_ok s → background s out s' → srv_ok s'.
Proof.
  intros Hs Hst. destruct Hst.
  - by apply srv_ok_transports.
  - by apply srv_ok_transports.
  - by apply srv_ok_transports.
  - by apply srv_ok_nonces.
  - by apply channel_cleanup_keeps.
  - by apply allocation_cleanup_keeps.
  - apply srv_ok_same; [done| |done]. apply stats_ok; [by eapply relay_step_active|apply Hs].
  - apply srv_ok_same; [done| |done]. destruct (so_table _ Hs) as [Hc Hn].
    split; [by apply core_task_ends|done].
Qed.

Lemma step_keeps s out s' : srv_ok s → step s out s' → srv_ok s'.
Proof.
  intros Hs Hst. destruct Hst.
  - by eapply handle_udp_keeps.
  - by eapply handle_tcp_keeps.
  - by eapply handle_udp_keeps.
  - by eapply background_keeps.
Qed.

Lemma reachable_keeps s0 out s : srv_ok s0 → reachable s0 out s → srv_ok s.
Proof. intros H0. induction 1 as [|out1 out2 s s' _ IH Hst]; [done|]. by eapply step_keeps. Qed.

(** ** Lemmas: a connection handles the frames of its stream in order *)

Fixpoint serve_frames (env : nat → MsgEnv) (wok : nat → bool) (n : nat) (frames : list (list Z))
    (client : SocketAddr) (s : TurnServer)
    : outcome (option nat * list (list Z) * list Packet * TurnServer) :=
  match frames with
  | [] => Ret (Some n, [], [], s)
  | frame :: frames =>
    '(r, out, s) ← handle_tcp_message (env n) frame client s;
    match r with
    | None =>
      '(st, w, out', s) ← serve_frames env wok (S n) frames client s;
      Ret (st, w, out ++ out', s)
    | Some resp =>
      bytes ← write_stream_frame resp;
      if wok n then
        '(st, w, out', s) ← serve_frames env wok (S n) frames client s;
        Ret (st, bytes :: w, out ++ out', s)
      else Ret (None, [], out, s)
    end
  end.

Definition conn_status (buf : list Z) (o : option nat) : ConnStatus :=
  match o with Some n => Open buf n | None => WriteFailed end.

Lemma serve_buffer_frames fuel env wok n buf client s :
  bytes_ok buf → (length buf < fuel)%nat →
  serve_buffer fuel env wok n buf client s =
  ('(st, w, out, s) ← serve_frames env wok n (drain buf).1 client s;
   Ret (conn_status (drain buf).2 st, w, out, s)).
Proof.
  revert n buf s. induction fuel as [|fuel IH]; intros n buf s Hb Hf; [lia|]. cbn [serve_buffer].
  rewrite drain_eq by done. destruct (extract_stream_frame buf) as [[frame rest]|] eqn:E; [|done].
  apply extract_length in E as (_ & ? & ? & ?); [|done]. cbn [fst snd serve_frames].
  destruct (handle_tcp_message (env n) frame client s) as [[[r out] s1]|]; [|done]. simpl_bind.
  destruct r as [resp|].
  - destruct (write_stream_frame resp); [|done]. simpl_bind. destruct (wok n); [|done].
    rewrite IH by (done || lia).
    by destruct (serve_frames env wok (S n) (drain rest).1 client s1) as [[[[st w] out'] s2]|].
  - rewrite IH by (done || lia).
    by destruct (serve_frames env wok (S n) (drain rest).1 client s1) as [[[[st w] out'] s2]|].
Qed.

Lemma serve_frames_app env wok n l1 l2 client s :
  serve_frames env wok n (l1 ++ l2) client s =
  ('(st, w, out, s) ← serve_frames env wok n l1 client s;
   match st with
   | None => Ret (None, w, out, s)
   | Some n => '(st, w', out', s) ← serve_frames env wok n l2 client s; Ret (st, w ++ w', out ++ out', s)
   end).
Proof.
  revert n s. induction l1 as [|f l1 IH]; intros n s; cbn [serve_frames app].
  { simpl_bind. by destruct (serve_frames env wok n l2 client s) as [[[[st w] out] s1]|]. }
  destruct (handle_tcp_message (env n) f client s) as [[[r out] s1]|]; [|done]. simpl_bind.
  destruct r as [resp|].
  - destruct (write_stream_frame resp); [|done]. simpl_bind. destruct (wok n); [|done]. rewrite IH.
    destruct (serve_frames env wok (S n) l1 client s1) as [[[[[n'|] w] out'] s2]|]; simpl_bind; [|done..].
    destruct (serve_frames env wok n' l2 client s2) as [[[[st w'] out''] s3]|]; simpl_bind; [|done].
    by rewrite app_assoc.
  - rewrite IH.
    destruct (serve_frames env wok (S n) l1 client s1) as [[[[[n'|] w] out'] s2]|]; simpl_bind; [|done..].
    destruct (serve_frames env wok n' l2 client s2) as [[[[st w'] out''] s3]|]; simpl_bind; [|done].
    by rewrite app_assoc.
Qed.

Lemma stream_loop_frames env wok n buf chunks ending client s :
  bytes_ok buf → extract_stream_frame buf = None → Forall bytes_ok chunks →
  (∀ e, ending = ReadData e → False) →
  stream_loop env wok n buf (map ReadData chunks ++ [ending]) client s =
  ('(_, w, out, s) ← serve_frames env wok n (drain (buf ++ concat chunks)).1 client s;
   Ret (w, out, unregister client s)).
Proof.
  intros Hb Hn Hc Hend. revert n buf s Hb Hn. induction Hc as [|c chunks Hc Hcs IH]; intros n buf s Hb Hn.
  - cbn [map app concat stream_loop]. rewrite app_nil_r, drain_eq, Hn by done. cbn.
    destruct ending as [e| | |]; [by destruct (Hend e)|done..].
  - cbn [map app concat stream_loop].
    assert (Hbc : bytes_ok (buf ++ c)) by (by apply bytes_ok_app).
    rewrite serve_buffer_frames by (done || lia). rewrite app_assoc.
    rewrite (drain_app (buf ++ c)) by (done || by apply bytes_ok_concat). cbn [fst].
    rewrite serve_frames_app.
    destruct (drain_spec (buf ++ c) Hbc) as (_ & Hnone & Hok).
    destruct (serve_frames env wok n (drain (buf ++ c)).1 client s) as [[[[[n'|] w] out] s1]|];
      simpl_bind; cbn [conn_status]; [|done..].
    rewrite IH by done.
    by destruct (serve_frames env wok n' _ client s1) as [[[[st w'] out'] s2]|].
Qed.
End inv.

(** ** Lemmas: the worker pool *)

Section pool.
Context (hash : SocketAddr → Z) (num_workers : Z).

Lemma of_client_app c l1 l2 : of_client c (l1 ++ l2) = of_client c l1 ++ of_client c l2.
Proof. unfold of_client. apply omap_app. Qed.

(** Only datagrams of the worker's own clients wait in its queue. *)
Definition queues_ok (p : Pool) : Prop :=
  ∀ w x, x ∈ queue p w → worker_of hash num_workers x.2 = w.

Lemma queue_insert p w l h w' :
  queue (mkPool (<[w := l]> (queues p)) h) w' = if decide (w' = w) then l else queue p w'.
Proof.
  unfold queue. cbn. case_decide; [subst; by rewrite lookup_insert_eq|by rewrite lookup_insert_ne].
Qed.

Lemma pool_event_queues_ok p e : queues_ok p → queues_ok (pool_event hash num_workers p e).
Proof.
  intros Hp. destruct e as [d c|w]; cbn [pool_event]; unfold dispatch, work.
  - case_decide; [|done]. intros w' x. rewrite queue_insert. case_decide; [|apply Hp].
    subst. rewrite elem_of_app, list_elem_of_singleton. intros [Hx| ->]; [by apply Hp|done].
  - destruct (queue p w) as [|x rest] eqn:E; [done|]. intros w' y. rewrite queue_insert.
    case_decide; [|apply Hp]. subst. intros Hy. apply Hp. rewrite E. by right.
Qed.

Lemma of_client_other p w c :
  queues_ok p → w ≠ worker_of hash num_workers c → of_client c (queue p w) = [].
Proof.
  intros Hp Hw. specialize (Hp w). unfold of_client. induction (queue p w) as [|x l IH]; [done|]. cbn.
  rewrite decide_False.
  - apply IH. intros y Hy. apply Hp. by right.
  - intros <-. destruct Hw. symmetry. apply Hp. by left.
Qed.

(** What has been handled and what still waits for a client. *)
Definition stream_of (c : SocketAddr) (p : Pool) : list (list Z) :=
  of_client c (handled p) ++ of_client c (queue p (worker_of hash num_workers c)).

Lemma pool_event_stream p e c :
  queues_ok p →
  stream_of c (pool_event hash num_workers p e) = stream_of c p ∨
  ∃ d, e = Receive d c ∧ stream_of c (pool_event hash num_workers p e) = stream_of c p ++ [d].
Proof.
  intros Hp. unfold stream_of. destruct e as [d c'|w]; cbn [pool_event]; unfold dispatch, work.
  - case_decide; [|by left]. cbn [handled]. rewrite queue_insert. case_decide as Hw; [|by left].
    rewrite of_client_app, app_assoc, <- Hw. cbn. destruct (decide (c' = c)) as [-> |].
    + right. eauto.
    + left. cbn. by rewrite app_nil_r.
  - destruct (queue p w) as [|x rest] eqn:E; [by left|]. left. cbn [handled]. rewrite queue_insert.
    case_decide as Hw.
    + rewrite Hw, E, of_client_app, <- app_assoc. f_equal. unfold of_client. cbn. by case_decide.
    + assert (Hx : of_client c [x] = []).
      { pose proof (of_client_other p w c Hp) as Ho. rewrite E in Ho. unfold of_client in *. cbn in *.
        case_decide; [|done]. discriminate Ho. by intros ->. }
      by rewrite of_client_app, Hx, app_nil_r.
Qed.
Lemma run_pool_stream p es c :
  queues_ok p →
  ∃ extra, stream_of c (run_pool hash num_workers p es) = stream_of c p ++ extra ∧
           extra `sublist_of` of_client c (received es).
Proof.
  revert p. induction es as [|e es IH]; intros p Hp; cbn.
  { exists []. rewrite app_nil_r. split; [done|constructor]. }
  destruct (IH (pool_event hash num_workers p e) (pool_event_queues_ok p e Hp)) as (extra & E & Hsub).
  unfold run_pool in E. destruct (pool_event_stream p e c Hp) as [Hs|(d & -> & Hs)].
  - exists extra. rewrite E, Hs. split; [done|]. destruct e as [d c'|w]; [|done].
    cbn. case_decide; [by constructor|done].
  - exists (d :: extra). rewrite E, Hs, <- app_assoc. split; [done|]. cbn.
    rewrite decide_True by done. by constructor.
Qed.
End pool.

(** ** Properties *)

(** C1. Every state the server reaches is consistent: starting from a
    well-formed server, after any sequence of datagrams, frames, ticks,
    connections and relay events, the allocation table leaks nothing and
    double-books nothing, no client has two allocations, every channel binding
    sits under its own key and belongs to a live allocation. *)
Theorem reachable_states_ok `{CR : Crypto} `{HO : HashOrder} s0 out s :
  srv_ok s0 → reachable s0 out s → srv_ok s.
Proof. apply reachable_keeps. Qed.

(** The challenge, the signed Allocate and a cleanup: a state with one allocation. *)
Definition after_datagram (m : Message) (s : TurnServer) : TurnServer :=
  match @handle_udp_message toy_crypto map_order sample_env (Message_encode m) sample_client s with
  | Ret (_, _, s') => s'
  | Panic => s
  end.
Definition busy_server : TurnServer :=
  nonce_cleanup_tick 5 (after_datagram (signed_request Allocate []) (after_datagram (request Allocate []) sample_server)).

Lemma reachable_states_ok_witness :
  srv_ok busy_server ∧ size (allocations (allocation_table busy_server)) = 1%nat.
Proof.
  split; [|vm_compute; reflexivity].
  apply (@reachable_states_ok toy_crypto map_order sample_server ((([] ++ []) ++ []) ++ [])).
  - apply sample_server_ok.
  - assert (Hstep : ∀ m s,
      match @handle_udp_message toy_crypto map_order sample_env (Message_encode m) sample_client s with
      | Ret (_, [], _) => true
      | _ => false
      end = true → @step toy_crypto map_order s [] (after_datagram m s)).
    { intros m s H. unfold after_datagram.
      destruct (handle_udp_message _ _ _ _) as [[[r [|]] s']|] eqn:E; try discriminate. eapply step_udp. exact E. }
    eapply reach_step; [eapply reach_step; [eapply reach_step; [apply reach_init|]|]|apply step_background, bg_nonce_cleanup];
      apply Hstep; vm_compute; reflexivity.
Defined.

(** C24. What a stream connection does depends only on the bytes: two TCP
    connections that deliver the same bytes, cut into reads in any two ways,
    write the same responses, send the same datagrams and leave the server in
    the same state, and that is what handling the frames of the stream one by
    one in order does; at the end the client's transport is unregistered. *)
Theorem tcp_segmentation_independent `{CR : Crypto} `{HO : HashOrder} conn env wok chunks chunks' ending client s :
  Forall bytes_ok chunks → Forall bytes_ok chunks' → concat chunks = concat chunks' →
  (∀ e, ending = ReadData e → False) →
  tcp_connection conn env wok (map ReadData chunks ++ [ending]) client s =
  tcp_connection conn env wok (map ReadData chunks' ++ [ending]) client s ∧
  tcp_connection conn env wok (map ReadData chunks ++ [ending]) client s =
  ('(_, w, out, s) ← serve_frames env wok 0 (drain (concat chunks)).1 client
      (set_table (register_client_sender client (StreamClientPacketSender conn) (allocation_table s)) s);
   Ret (w, out, unregister client s)).
Proof.
  intros Hc Hc' E Hend. unfold tcp_connection.
  rewrite !stream_loop_frames by (done || constructor). cbn [app]. by rewrite E.
Qed.

Lemma tcp_segmentation_independent_witness :
  @tcp_connection toy_crypto map_order 1 (λ _, mkEnv 0 0 (seqZ 0 16) bind_ok_env [] (Ok 0)) (λ _, true)
    (map ReadData [Message_encode sample_msg] ++ [ReadEof]) sample_client
    (with_port_range_auth_disabled 0 (mkIpv4 10 0 0 1) "r" 50000 50009) =
  @tcp_connection toy_crypto map_order 1 (λ _, mkEnv 0 0 (seqZ 0 16) bind_ok_env [] (Ok 0)) (λ _, true)
    (map ReadData [take 5 (Message_encode sample_msg); drop 5 (Message_encode sample_msg)] ++ [ReadEof])
    sample_client (with_port_range_auth_disabled 0 (mkIpv4 10 0 0 1) "r" 50000 50009).
Proof.
  refine (proj1 (@tcp_segmentation_independent toy_crypto map_order 1 _ (λ _, true) [Message_encode sample_msg]
    [take 5 (Message_encode sample_msg); drop 5 (Message_encode sample_msg)] ReadEof sample_client _ _ _ _ _)).
  - apply (bool_decide_unpack _). vm_compute. exact I.
  - apply (bool_decide_unpack _). vm_compute. exact I.
  - vm_compute. reflexivity.
  - discriminate.
Defined.


(** The quota can be overrun: [create_allocation] reads the counter before
    the bind suspends it and counts only afterwards, so two Allocate requests
    of different clients that interleave there both pass a quota of one. *)
Theorem quota_check_races :
  let t := with_port_range_and_bind_addr 0 (mkIpv4 203 0 113 5) (mkIpv4 10 0 0 5) "r" 50000 50003
             (Some 1) None in
  let c1 := SaV4 (mkIpv4 198 51 100 7) 4000 in
  let c2 := SaV4 (mkIpv4 198 51 100 8) 4000 in
  quota_reached t = false ∧
  ∃ p1 pa1 p2 pa2,
    bind_loop (bind_attempts bind_ok_env) (bind_addr t) MAX_ATTEMPTS None (port_allocator t) = Ret (Ok p1, pa1) ∧
    bind_loop (bind_attempts bind_ok_env) (bind_addr t) MAX_ATTEMPTS None pa1 = Ret (Ok p2, pa2) ∧
    let t1 := (install_allocation bind_ok_env c1 (from_secs 600) p1 (set_ports pa2 t)).2 in
    let t2 := (install_allocation bind_ok_env c2 (from_secs 600) p2 t1).2 in
    max_concurrent_allocations t2 = Some 1 ∧ size (allocations t2) = 2%nat.
Proof.
  split; [reflexivity|]. eexists _, _, _, _. split; [vm_compute; reflexivity|].
  split; [vm_compute; reflexivity|]. vm_compute. split; reflexivity.
Qed.
