(* ===== verification/TurnSpec.v ===== *)
(** * What the server promises: an abstract TURN server (src/server.rs, src/allocation.rs)

    The specification knows clients and their sessions, and nothing of tables,
    ports, sockets, tasks, trackers, nonces or transports: a session is a
    relayed address with a lifetime, the peers it may send to and its channels.
    [spec_step] is what may happen to it; [client_step] is what one client may
    cause.  [abs] reads the sessions off a server state, and the server of
    System is shown to do nothing else. *)

From S2P Require Import Prelude RustStd StunMessage Errors Ports Channels Bandwidth Auth Alloc Framing Crypto.
From S2P Require Import Server ServerSpec System.
Local Open Scope Z_scope.

(** ** The specification *)

(** A channel: its peer, and since when and for how long it is bound. *)
Record Binding := mkBound { bd_peer : SocketAddr; bd_since : Z; bd_life : Z }.

Record Session := mkSession {
  ss_relayed : SocketAddr;
  ss_since : Z;
  ss_life : Z;
  ss_permissions : gset IpAddr;
  ss_channels : gmap Z Binding
}.

Record Spec := mkSpec {
  sp_external : Ipv4Addr;
  sp_bind : Ipv4Addr;
  sp_quota : option Z;
  sp_max_life : option Z;
  sp_ports : Z * Z;
  sessions : gmap SocketAddr Session
}.

Definition set_sessions (m : gmap SocketAddr Session) (σ : Spec) : Spec :=
  mkSpec (sp_external σ) (sp_bind σ) (sp_quota σ) (sp_max_life σ) (sp_ports σ) m.

Definition outlived (now since life : Z) : bool := life <? elapsed now since.

Definition refreshed (life : Z) (x : Session) : Session :=
  mkSession (ss_relayed x) (ss_since x) life (ss_permissions x) (ss_channels x).
Definition permitted (ips : list IpAddr) (x : Session) : Session :=
  mkSession (ss_relayed x) (ss_since x) (ss_life x) (list_to_set ips ∪ ss_permissions x) (ss_channels x).
Definition bound (id : Z) (b : Binding) (x : Session) : Session :=
  mkSession (ss_relayed x) (ss_since x) (ss_life x) (ss_permissions x) (<[id := b]> (ss_channels x)).
Definition drop_channels (now : Z) (x : Session) : Session :=
  mkSession (ss_relayed x) (ss_since x) (ss_life x) (ss_permissions x)
    (filter (λ '(_, b), outlived now (bd_since b) (bd_life b) = false) (ss_channels x)).

(** The socket a session sends from. *)
Definition relay_socket (σ : Spec) (x : Session) : SocketAddr := SaV4 (sp_bind σ) (sa_port (ss_relayed x)).

(** A channel may be bound when its number is free or already names the peer;
    a fresh binding lives ten minutes. *)
Definition may_bind (now : Z) (old : option Binding) (peer : SocketAddr) (b : Binding) : Prop :=
  match old with
  | None => b = mkBound peer now (from_secs 600)
  | Some b' => bd_peer b' = peer ∧ b = mkBound peer now (bd_life b')
  end.

(** What a message of client [c] may do. *)
Inductive client_step (c : SocketAddr) (σ : Spec) : list Packet → Spec → Prop :=
| cl_nothing : client_step c σ [] σ
| cl_allocate port now life :
    in_u16 port → (sp_ports σ).1 ≤ port ≤ (sp_ports σ).2 →
    (∀ c' x, c' ≠ c → sessions σ !! c' = Some x → ss_relayed x ≠ SaV4 (sp_external σ) port) →
    (∀ m, sp_max_life σ = Some m → life ≤ from_secs m) →
    (∀ q, sp_quota σ = Some q → Z.of_nat (size (<[c := mkSession (SaV4 (sp_external σ) port) now life ∅ ∅]> (sessions σ))) ≤ q) →
    client_step c σ [] (set_sessions (<[c := mkSession (SaV4 (sp_external σ) port) now life ∅ ∅]> (sessions σ)) σ)
| cl_release : client_step c σ [] (set_sessions (delete c (sessions σ)) σ)
| cl_refresh x life :
    sessions σ !! c = Some x →
    client_step c σ [] (set_sessions (<[c := refreshed life x]> (sessions σ)) σ)
| cl_permit x ips :
    sessions σ !! c = Some x →
    client_step c σ [] (set_sessions (<[c := permitted ips x]> (sessions σ)) σ)
| cl_bind x id now peer b :
    sessions σ !! c = Some x → may_bind now (ss_channels x !! id) peer b →
    client_step c σ [] (set_sessions (<[c := bound id b x]> (sessions σ)) σ)
| cl_send x peer data :
    sessions σ !! c = Some x → sa_ip peer ∈ ss_permissions x →
    client_step c σ [ToPeer (relay_socket σ x) peer data] σ
| cl_channel_data x id b data :
    sessions σ !! c = Some x → ss_channels x !! id = Some b →
    client_step c σ [ToPeer (relay_socket σ x) (bd_peer b) data] σ.

(** How a peer's datagram is wrapped for the client of the session. *)
Definition wrapped (x : Session) (peer : SocketAddr) (data payload : list Z) : Prop :=
  (∃ id b, ss_channels x !! id = Some b ∧ bd_peer b = peer ∧ payload = channel_data_frame id data) ∨
  ((∀ id b, ss_channels x !! id = Some b → bd_peer b ≠ peer) ∧
   ∃ nanos, payload = build_data_indication nanos peer data).

Inductive spec_step (σ : Spec) : list Packet → Spec → Prop :=
| sp_client c out σ' : client_step c σ out σ' → spec_step σ out σ'
| sp_deliver c x snd peer data payload :
    sessions σ !! c = Some x → wrapped x peer data payload →
    spec_step σ [ToClient snd c payload] σ
| sp_expire now :
    spec_step σ [] (set_sessions (filter (λ '(_, x), outlived now (ss_since x) (ss_life x) = false) (sessions σ)) σ)
| sp_expire_channels now :
    spec_step σ [] (set_sessions (drop_channels now <$> sessions σ) σ).

Inductive spec_run (σ0 : Spec) : list Packet → Spec → Prop :=
| run_init : spec_run σ0 [] σ0
| run_step out1 out2 σ σ' :
    spec_run σ0 out1 σ → spec_step σ out2 σ' → spec_run σ0 (out1 ++ out2) σ'.

(** ** The abstraction function *)

Definition binding_of (b : ChannelBinding) : Binding :=
  mkBound (cb_peer_addr b) (cb_created_at b) (cb_lifetime b).

(** The channels of each relayed address. *)
Definition by_relayed (ch : ChannelTable) : gmap SocketAddr (gmap Z ChannelBinding) :=
  map_curry (M1:=gmap SocketAddr) (M2:=gmap Z) (M12:=gmap (SocketAddr * Z)) (channels ch).

Definition channels_of (ch : ChannelTable) (k : SocketAddr) : gmap Z Binding :=
  binding_of <$> default ∅ (by_relayed ch !! k).

Definition session_of (ch : ChannelTable) (k : SocketAddr) (a : Allocation) : Session :=
  mkSession k (created_at a) (lifetime a) (permissions a) (channels_of ch k).

Definition sessions_of (m : gmap SocketAddr Allocation) (ch : ChannelTable) : gmap SocketAddr Session :=
  list_to_map ((λ '(k, a), (client_addr a, session_of ch k a)) <$> map_to_list m).

Definition abs (s : TurnServer) : Spec :=
  let t := allocation_table s in
  mkSpec (external_addr t) (bind_addr t) (max_concurrent_allocations t) (max_allocation_duration_secs t)
    (pool_range (port_allocator t)) (sessions_of (allocations t) (channel_table s)).

(** ** Lemmas: reading sessions *)

Lemma channels_of_lookup ch k id : channels_of ch k !! id = binding_of <$> channels ch !! (k, id).
Proof.
  unfold channels_of. rewrite lookup_fmap. f_equal.
  rewrite <- (lookup_map_curry (M1:=gmap SocketAddr) (M2:=gmap Z) (MC:=gmap (SocketAddr * Z)) (channels ch) k id).
  unfold by_relayed. by destruct (map_curry (channels ch) !! k).
Qed.

(** Sessions are read off one allocation per client. *)
Definition one_each (m : gmap SocketAddr Allocation) : Prop :=
  ∀ k1 a1 k2 a2, m !! k1 = Some a1 → m !! k2 = Some a2 → client_addr a1 = client_addr a2 → k1 = k2.

Lemma sessions_nodup m ch :
  one_each m → NoDup ((λ '(k, a), (client_addr a, session_of ch k a)) <$> map_to_list m).*1.
Proof.
  intros Hu. rewrite <- list_fmap_compose.
  apply NoDup_fmap_2_strong; [|apply NoDup_map_to_list].
  intros [k1 a1] [k2 a2] H1%elem_of_map_to_list H2%elem_of_map_to_list E. cbn in E.
  assert (k1 = k2) as -> by eauto. by simplify_eq.
Qed.

Lemma sessions_lookup m ch c x :
  one_each m →
  sessions_of m ch !! c = Some x ↔ ∃ k a, m !! k = Some a ∧ client_addr a = c ∧ x = session_of ch k a.
Proof.
  intros Hu. unfold sessions_of. rewrite <- elem_of_list_to_map by (by apply sessions_nodup).
  rewrite list_elem_of_fmap. split.
  - intros ([k a] & [= -> ->] & H%elem_of_map_to_list). eauto.
  - intros (k & a & H & <- & ->). exists (k, a). by rewrite elem_of_map_to_list.
Qed.

Lemma sessions_size m ch : one_each m → size (sessions_of m ch) = size m.
Proof.
  intros Hu. unfold sessions_of. rewrite map_size_list_to_map by (by apply sessions_nodup).
  by rewrite length_fmap, length_map_to_list.
Qed.

Lemma one_each_delete k m : one_each m → one_each (delete k m).
Proof. intros Hu k1 a1 k2 a2 [_ H1]%lookup_delete_Some [_ H2]%lookup_delete_Some. by apply Hu. Qed.

Lemma sessions_insert m ch k a :
  m !! k = None → one_each (<[k := a]> m) →
  sessions_of (<[k := a]> m) ch = <[client_addr a := session_of ch k a]> (sessions_of m ch).
Proof.
  intros Hk Hu. unfold sessions_of. erewrite list_to_map_proper.
  3: { apply fmap_Permutation, map_to_list_insert, Hk. } 2: by apply sessions_nodup.
  by rewrite fmap_cons, list_to_map_cons.
Qed.

Lemma sessions_none m ch c : (∀ k a, m !! k = Some a → client_addr a ≠ c) → one_each m → sessions_of m ch !! c = None.
Proof.
  intros Hno Hu. apply eq_None_not_Some. intros [x (k & a & Ha & Hc & _)%sessions_lookup]; [|done].
  by eapply Hno.
Qed.

Lemma sessions_split m ch k a :
  one_each m → m !! k = Some a →
  sessions_of m ch = <[client_addr a := session_of ch k a]> (sessions_of (delete k m) ch) ∧
  sessions_of (delete k m) ch !! client_addr a = None.
Proof.
  intros Hu Ha. rewrite <- (insert_delete_id m k a Ha) at 1. split.
  - apply sessions_insert; [apply lookup_delete_eq|]. by rewrite insert_delete_id.
  - apply sessions_none; [|by apply one_each_delete].
    intros k' a' [Hne Hl]%lookup_delete_Some E. apply Hne. by eapply Hu.
Qed.

Lemma sessions_delete m ch k a :
  one_each m → m !! k = Some a → sessions_of (delete k m) ch = delete (client_addr a) (sessions_of m ch).
Proof.
  intros Hu Ha. destruct (sessions_split m ch k a Hu Ha) as [-> Hn]. by rewrite delete_insert_id.
Qed.

Lemma sessions_update m ch k a b :
  one_each m → m !! k = Some a → client_addr b = client_addr a →
  sessions_of (<[k := b]> m) ch = <[client_addr a := session_of ch k b]> (sessions_of m ch).
Proof.
  intros Hu Ha E. rewrite <- insert_delete_eq, sessions_insert, E.
  - destruct (sessions_split m ch k a Hu Ha) as [-> _]. by rewrite insert_insert_eq.
  - apply lookup_delete_eq.
  - rewrite insert_delete_eq.
    assert (Hb : ∀ k' a', <[k:=b]> m !! k' = Some a' → ∃ a0, m !! k' = Some a0 ∧ client_addr a0 = client_addr a').
    { intros k' a' [[<- <-]|[_ ?]]%lookup_insert_Some; eauto. }
    intros k1 a1 k2 a2 (? & H1 & E1)%Hb (? & H2 & E2)%Hb ?. eapply Hu; [done..|congruence].
Qed.

Lemma sessions_channels m ch ch' :
  (∀ k a, m !! k = Some a → channels_of ch' k = channels_of ch k) → sessions_of m ch' = sessions_of m ch.
Proof.
  intros H. unfold sessions_of. f_equal. apply list_fmap_ext. intros i [k a] Hl.
  apply list_elem_of_lookup_2, elem_of_map_to_list in Hl. unfold session_of. by erewrite H.
Qed.

Lemma channels_of_ext ch ch' k :
  (∀ id, channels ch' !! (k, id) = channels ch !! (k, id)) → channels_of ch' k = channels_of ch k.
Proof. intros H. apply map_eq. intros id. by rewrite !channels_of_lookup, H. Qed.

Lemma channels_of_unbound ch k : (∀ id, channels ch !! (k, id) = None) → channels_of ch k = ∅.
Proof. intros H. apply map_eq. intros id. by rewrite channels_of_lookup, H, lookup_empty. Qed.

(** The channels of one relayed address changed. *)
Lemma sessions_rebind m ch ch' k a :
  one_each m → m !! k = Some a → (∀ k' id, k' ≠ k → channels ch' !! (k', id) = channels ch !! (k', id)) →
  sessions_of m ch' = <[client_addr a := session_of ch' k a]> (sessions_of m ch).
Proof.
  intros Hu Ha Hch. destruct (sessions_split m ch k a Hu Ha) as [-> _].
  destruct (sessions_split m ch' k a Hu Ha) as [-> _]. rewrite insert_insert_eq. f_equal.
  apply sessions_channels. intros k' a' [Hne _]%lookup_delete_Some. apply channels_of_ext. auto.
Qed.

Lemma sessions_filter m ch now :
  one_each m →
  sessions_of (filter (λ '(_, a), Allocation_is_expired now a = false) m) ch =
  filter (λ '(_, x), outlived now (ss_since x) (ss_life x) = false) (sessions_of m ch).
Proof.
  intros Hu. apply map_eq. intros c. apply option_eq. intros x.
  assert (Hf : one_each (filter (λ '(_, a), Allocation_is_expired now a = false) m)).
  { intros k1 a1 k2 a2 [H1 _]%map_lookup_filter_Some [H2 _]%map_lookup_filter_Some. by apply Hu. }
  rewrite sessions_lookup, map_lookup_filter_Some, sessions_lookup by done.
  setoid_rewrite map_lookup_filter_Some. split.
  - intros (k & a & [Ha He] & Hc & ->). split; [by exists k, a|done].
  - intros [(k & a & Ha & Hc & ->) He]. by exists k, a.
Qed.

Lemma drop_channels_of now ch k :
  channels_of (ChannelTable_cleanup_expired now ch).2 k =
  filter (λ '(_, b), outlived now (bd_since b) (bd_life b) = false) (channels_of ch k).
Proof.
  apply map_eq. intros id. apply option_eq. intros b.
  rewrite map_lookup_filter_Some, !channels_of_lookup, !fmap_Some. cbn.
  setoid_rewrite map_lookup_filter_Some. split.
  - intros (b' & [Hb He] & ->). split; [by exists b'|done].
  - intros [(b' & Hb & ->) He]. by exists b'.
Qed.

Lemma sessions_drop_channels m ch now :
  one_each m → sessions_of m (ChannelTable_cleanup_expired now ch).2 = drop_channels now <$> sessions_of m ch.
Proof.
  intros Hu. apply map_eq. intros c. apply option_eq. intros x. rewrite lookup_fmap, fmap_Some.
  assert (E : ∀ k a, session_of (ChannelTable_cleanup_expired now ch).2 k a = drop_channels now (session_of ch k a)).
  { intros k a. unfold session_of, drop_channels. cbn [ss_channels ss_relayed ss_since ss_life ss_permissions].
    by rewrite drop_channels_of. }
  rewrite sessions_lookup by done. setoid_rewrite (sessions_lookup m ch c _ Hu). setoid_rewrite E. naive_solver.
Qed.

(** ** Lemmas: the operations on sessions *)

Section refine.
Context `{CR : Crypto} `{HO : HashOrder}.

Lemma abs_eq s s' m :
  table_params (allocation_table s') = table_params (allocation_table s) →
  sessions_of (allocations (allocation_table s')) (channel_table s') = m →
  abs s' = set_sessions m (abs s).
Proof.
  unfold table_params. intros [= H1 H2 H3 H4 H5 H6] <-. unfold abs, set_sessions. cbn.
  unfold range. by rewrite H1, H2, H3, H4, H5, H6.
Qed.

Lemma abs_same s s' :
  table_params (allocation_table s') = table_params (allocation_table s) →
  sessions_of (allocations (allocation_table s')) (channel_table s') = sessions (abs s) →
  abs s' = abs s.
Proof. intros Hp Hs. rewrite (abs_eq s s' _ Hp Hs). by destruct (abs s). Qed.

Lemma srv_one_each s : srv_ok s → one_each (allocations (allocation_table s)).
Proof. intros Hs. exact (so_unique _ Hs). Qed.

(** The session of a client, by any iteration order. *)
Lemma session_Some s c k :
  srv_ok s → find_allocation_by_client (allocation_table s) c = Some k →
  ∃ a, allocations (allocation_table s) !! k = Some a ∧ client_addr a = c ∧ relayed_addr a = k ∧
       entry_by_client (allocation_table s) c = Some (k, a) ∧
       sessions (abs s) !! c = Some (session_of (channel_table s) k a).
Proof.
  intros Hs Hf. destruct (find_allocation_Some s c k Hs Hf) as (a & Ha & Hc & Hr & He). exists a.
  split_and!; try done. cbn. apply sessions_lookup; [by apply srv_one_each|]. eauto.
Qed.

Lemma session_None s c :
  srv_ok s → find_allocation_by_client (allocation_table s) c = None → sessions (abs s) !! c = None.
Proof.
  intros Hs Hf. apply sessions_none; [|by apply srv_one_each]. by apply find_allocation_None.
Qed.

Lemma drop_abs weak k a s :
  srv_ok s → allocations (allocation_table s) !! k = Some a →
  abs (drop_allocation weak k s) = set_sessions (delete (client_addr a) (sessions (abs s))) (abs s).
Proof.
  intros Hs Ha. destruct (drop_allocation_spec weak k s Hs) as (_ & Hall & _); [by eexists|].
  assert (Hch : channel_table (drop_allocation weak k s) = (remove_for_relayed k (channel_table s)).2).
  { unfold drop_allocation, remove_allocation. by rewrite Ha. }
  apply abs_eq.
  - unfold drop_allocation. pose proof (remove_params weak k (Some (channel_table s)) (allocation_table s)) as Hp.
    destruct (remove_allocation weak k _ _) as [[r ch] t]. exact Hp.
  - rewrite Hall, Hch. cbn [abs sessions]. rewrite <- (sessions_delete _ _ k a (srv_one_each _ Hs) Ha).
    apply sessions_channels. intros k' a' [Hne _]%lookup_delete_Some. apply channels_of_ext. intros id.
    rewrite remove_for_relayed_lookup. by rewrite decide_False.
Qed.

(** An update of one allocation in place. *)
Lemma update_abs s t k a b :
  srv_ok s → allocations (allocation_table s) !! k = Some a → client_addr b = client_addr a →
  table_params t = table_params (allocation_table s) →
  allocations t = <[k := b]> (allocations (allocation_table s)) →
  abs (set_table t s) =
  set_sessions (<[client_addr a := session_of (channel_table s) k b]> (sessions (abs s))) (abs s).
Proof.
  intros Hs Ha Hc Hp E. apply abs_eq; [done|]. cbn [set_table allocation_table channel_table]. rewrite E.
  by apply sessions_update; [apply srv_one_each|..].
Qed.

Lemma same_abs s t :
  table_params t = table_params (allocation_table s) →
  allocations t = allocations (allocation_table s) → abs (set_table t s) = abs s.
Proof. intros Hp E. apply abs_same; [done|]. cbn [set_table allocation_table channel_table]. by rewrite E. Qed.

(** Creating an allocation for a client that has none. *)
Lemma create_abs env c life s r t :
  srv_ok s → (∀ k a, allocations (allocation_table s) !! k = Some a → client_addr a ≠ c) →
  create_allocation env c life (allocation_table s) = Ret (r, t) →
  match r with
  | Err _ => abs (set_table t s) = abs s
  | Ok a =>
    ∃ port now secs, let x := mkSession (SaV4 (sp_external (abs s)) port) now secs ∅ ∅ in
    abs (set_table t s) = set_sessions (<[c := x]> (sessions (abs s))) (abs s) ∧ in_u16 port ∧
    (sp_ports (abs s)).1 ≤ port ≤ (sp_ports (abs s)).2 ∧
    (∀ c' y, sessions (abs s) !! c' = Some y → ss_relayed y ≠ ss_relayed x) ∧
    (∀ m, sp_max_life (abs s) = Some m → secs ≤ from_secs m) ∧
    (∀ q, sp_quota (abs s) = Some q → Z.of_nat (size (sessions (abs s))) < q)
  end.
Proof.
  intros Hs Hno E. destruct (create_spec env c life (allocation_table s) (so_table _ Hs))
    as (r' & t' & E' & Hok & He & Hb & Hm & H). rewrite E' in E. simplify_eq.
  pose proof (create_params _ _ _ _ _ _ E') as Hp. destruct r as [a|e]; [|by apply same_abs, H].
  destruct H as (Hq & Hfresh & Hall & Hc & Hcr & Hperm & Hl).
  destruct (tc_entry _ (proj1 Hok) (relayed_addr a) a) as (p & h & Hk & Hport & _).
  { rewrite Hall. apply lookup_insert_eq. }
  assert (Hrg : (sp_ports (abs s)).1 ≤ p ≤ (sp_ports (abs s)).2).
  { assert (Hin : p ∈ ports (port_allocator t)).
    { apply (tc_port _ (proj1 Hok)). rewrite <- Hk, Hall, lookup_insert_eq. by eexists. }
    apply elem_of_ports in Hin as [Hr _]; [|exact (tc_pool _ (proj1 Hok))].
    unfold table_params in Hp. injection Hp as _ _ _ _ E1 E2. cbn. lia. }
  exists p, (created_at a), (lifetime a). cbn zeta. split_and!.
  - apply abs_eq; [done|]. cbn [set_table allocation_table channel_table]. rewrite Hall.
    rewrite sessions_insert, Hc; [|done|].
    + cbn [abs sessions sp_external]. f_equal. unfold session_of. rewrite Hperm, Hk, He. f_equal.
      apply channels_of_unbound. intros id. apply eq_None_not_Some. intros Hb'%(so_bound _ Hs).
      rewrite Hk, He in Hfresh. rewrite Hfresh in Hb'. by destruct Hb'.
    + intros k1 a1 k2 a2 [[<- <-]|[_ H1]]%lookup_insert_Some [[<- <-]|[_ H2]]%lookup_insert_Some Ecl;
        [done|by destruct (Hno _ _ H2); congruence|by destruct (Hno _ _ H1); congruence|].
      by eapply (so_unique _ Hs).
  - done.
  - apply Hrg.
  - apply Hrg.
  - intros c' y (k & b & Hb' & _ & ->)%sessions_lookup; [|by apply srv_one_each]. cbn.
    intros ->. rewrite Hk, He in Hfresh. congruence.
  - intros m Hm'. cbn in Hm'. rewrite Hl. unfold effective_lifetime. rewrite Hm'.
    unfold from_secs, NANOS. destruct (Z.ltb_spec m match life with Some l => l | None => 600 end); lia.
  - intros q Hq'. cbn in Hq'. cbn [abs sessions]. rewrite sessions_size by (by apply srv_one_each).
    unfold quota_reached in Hq. rewrite Hq' in Hq. apply Z.leb_gt in Hq.
    by rewrite (proj2 (so_table _ Hs)) in Hq.
Qed.

(** ** Lemmas: each handler is one operation of its client *)

Lemma abs_nonces n s : abs (set_nonces n s) = abs s.
Proof. done. Qed.

Lemma abs_auth env msg client s r s' :
  srv_ok s → verify_turn_auth env msg client s = Ret (r, s') → srv_ok s' ∧ abs s' = abs s.
Proof.
  intros Hs H. destruct (auth_keeps_tables _ _ _ _ _ _ H) as [n ->]. split; [by apply srv_ok_nonces|done].
Qed.

(** The authentication that opens a handler. *)
Ltac after_auth H Hs :=
  match type of H with context [verify_turn_auth ?env ?msg ?client ?s] =>
    let Ea := fresh "Ea" in let E := fresh "Eabs" in
    destruct (verify_turn_auth env msg client s) as [[[name|resp] s1]|] eqn:Ea; [| |done]; simpl_bind;
    destruct (abs_auth _ _ _ _ _ _ Hs Ea) as [Hs0 E]; rewrite <- E; clear E Ea Hs;
    [|simplify_eq; constructor]
  end.

Lemma allocate_refines env msg client s r out s' :
  srv_ok s → handle_allocate env msg client s = Ret (r, out, s') → client_step client (abs s) out (abs s').
Proof.
  intros Hs H. unfold handle_allocate in H. after_auth H Hs.
  destruct (get_lifetime msg) as [life|]; [|done]. simpl_bind.
  set (s2 := match find_allocation_by_client _ _ with Some _ => _ | None => _ end) in H.
  assert (Hs2 : srv_ok s2 ∧ (∀ k a, allocations (allocation_table s2) !! k = Some a → client_addr a ≠ client) ∧
    abs s2 = set_sessions (delete client (sessions (abs s1))) (abs s1)).
  { unfold s2. destruct (find_allocation_by_client _ client) as [k|] eqn:Ef.
    - destruct (session_Some s1 client k Hs0 Ef) as (a & Ha & Hcl & _ & _ & _).
      destruct (drop_allocation_spec (env_weak env) k s1 Hs0) as (? & Hall & _); [by eexists|].
      split; [done|]. split; [|rewrite <- Hcl; by apply drop_abs].
      rewrite Hall. intros k' a' [Hne Ha']%lookup_delete_Some Hcl'.
      apply Hne. eapply (so_unique _ Hs0); [done..|congruence].
    - split; [done|]. split; [by apply find_allocation_None|].
      rewrite delete_id by (by apply session_None). by destruct (abs s1). }
  clearbody s2. destruct Hs2 as (Hs2 & Hno & Ea).
  destruct (create_allocation _ _ _ _) as [[rr t]|] eqn:Ec; [|done]. simpl_bind.
  pose proof (create_abs _ _ _ _ _ _ Hs2 Hno Ec) as Hc. destruct rr as [a|e].
  - destruct (sign_response _ _ _ _); simpl_bind; [|done]. simplify_eq.
    destruct Hc as (port & now & secs & -> & Hp & Hrg & Hfree & Hl & Hq). rewrite Ea in *. cbn [set_sessions sessions sp_external] in *.
    rewrite insert_delete_eq. change (set_sessions ?m (set_sessions _ ?σ)) with (set_sessions m σ).
    apply cl_allocate; [done|done| |done|].
    + intros c' x Hne Hx. apply (Hfree c'). by rewrite lookup_delete_ne.
    + intros q Hq'. specialize (Hq q Hq'). rewrite <- insert_delete_eq.
      rewrite map_size_insert_None by apply lookup_delete_eq. lia.
  - destruct (allocate_error e). injection H as <- <- <-. rewrite Hc, Ea. constructor.
Qed.

Lemma refresh_refines env msg client s r out s' :
  srv_ok s → handle_refresh env msg client s = Ret (r, out, s') → client_step client (abs s) out (abs s').
Proof.
  intros Hs H. unfold handle_refresh in H. after_auth H Hs.
  destruct (get_lifetime msg) as [life|]; [|done]. simpl_bind.
  destruct (find_allocation_by_client _ client) as [k|] eqn:Ef; [|simplify_eq; constructor].
  destruct (session_Some s1 client k Hs0 Ef) as (a & Ha & Hcl & _ & _ & Hx).
  assert (Hop : ∀ s2, s2 = (if life =? 0 then (true, drop_allocation (env_weak env) k s1)
     else let '(r, t) := refresh_allocation k life (allocation_table s1) in (is_ok r, set_table t s1)).2 →
     client_step client (abs s1) [] (abs s2)).
  { intros s2 ->. destruct (life =? 0).
    - cbn [snd]. rewrite (drop_abs _ k a s1 Hs0 Ha), Hcl. constructor.
    - unfold refresh_allocation. rewrite Ha. cbn [snd].
      rewrite (update_abs s1 _ k a (set_lifetime (from_secs life) a) Hs0 Ha) by done. rewrite Hcl.
      by apply (cl_refresh _ _ (session_of (channel_table s1) k a) (from_secs life)). }
  destruct (if life =? 0 then _ else _) as [ok s2]. specialize (Hop s2 eq_refl).
  destruct ok; cbn [negb] in H; [|by simplify_eq].
  destruct (sign_response _ _ _ _); simpl_bind; by simplify_eq.
Qed.

Lemma permission_refines env msg client s r out s' :
  srv_ok s → handle_create_permission env msg client s = Ret (r, out, s') →
  client_step client (abs s) out (abs s').
Proof.
  intros Hs H. unfold handle_create_permission in H. after_auth H Hs.
  destruct (find_allocation_by_client _ client) as [k|] eqn:Ef; [|simplify_eq; constructor].
  destruct (session_Some s1 client k Hs0 Ef) as (a & Ha & Hcl & _ & He & Hx).
  destruct (bool_decide (peers_of msg = [])); [simplify_eq; constructor|].
  unfold add_permissions in H. rewrite He in H. cbn [negb] in H.
  destruct (sign_response _ _ _ _); simpl_bind; [|done]. simplify_eq.
  rewrite (update_abs s1 _ k a (permit (map sa_ip (peers_of msg)) a) Hs0 Ha) by done.
  replace (session_of (channel_table s1) k (permit (map sa_ip (peers_of msg)) a))
    with (permitted (map sa_ip (peers_of msg)) (session_of (channel_table s1) k a)); [by apply cl_permit|].
  unfold session_of, permitted. cbn [ss_permissions ss_relayed ss_since ss_life ss_channels]. f_equal.
  apply set_eq. intros ip. rewrite permit_elem. set_solver.
Qed.

Lemma channel_bind_refines env msg client s r out s' :
  srv_ok s → handle_channel_bind env msg client s = Ret (r, out, s') → client_step client (abs s) out (abs s').
Proof.
  intros Hs H. unfold handle_channel_bind in H. after_auth H Hs.
  destruct (find_allocation_by_client _ client) as [k|] eqn:Ef; [|simplify_eq; constructor].
  destruct (session_Some s1 client k Hs0 Ef) as (a & Ha & Hcl & _ & He & Hx).
  destruct (get_attribute msg PEER_ADDRESS) as [pa|]; [|simplify_eq; constructor].
  destruct (get_attribute msg CHANNEL_NUMBER) as [ca|]; [|simplify_eq; constructor].
  destruct (index (value ca) 0) as [b0|]; [|done]. simpl_bind.
  destruct (index (value ca) 1) as [b1|]; [|done]. simpl_bind.
  set (id := be16 b0 b1) in H. set (peer := match decode_xor_address _ _ _ with Some _ => _ | None => _ end) in H.
  assert (Hop : client_step client (abs s1) []
    (abs (set_channel_table (ChannelTable_bind (env_now env) id peer k (channel_table s1)).2 s1))).
  2:{ destruct (ChannelTable_bind _ _ _ _ _) as [rb c']. cbn [snd] in Hop.
      destruct (is_ok rb); [|by simplify_eq]. destruct (sign_response _ _ _ _); simpl_bind; by simplify_eq. }
  clear H. unfold ChannelTable_bind.
  assert (Hset : ∀ b, abs (set_channel_table (set_channels (channel_table s1)
      (<[(k, id) := b]> (channels (channel_table s1)))) s1) =
    set_sessions (<[client := bound id (binding_of b) (session_of (channel_table s1) k a)]> (sessions (abs s1))) (abs s1)).
  { intros b. apply abs_eq; [done|]. cbn [set_channel_table allocation_table channel_table abs sessions].
    rewrite (sessions_rebind _ (channel_table s1) _ k a (srv_one_each _ Hs0) Ha), Hcl.
    - f_equal. unfold session_of, bound. cbn [ss_permissions ss_relayed ss_since ss_life ss_channels]. f_equal.
      apply map_eq. intros id'. rewrite channels_of_lookup. cbn [set_channels channels].
      destruct (decide (id' = id)) as [-> |]; [by rewrite !lookup_insert_eq|].
      rewrite !lookup_insert_ne by congruence. by rewrite channels_of_lookup.
    - intros k' id' Hne. cbn. rewrite lookup_insert_ne; congruence. }
  destruct (channels (channel_table s1) !! (k, id)) as [b|] eqn:Eb; [case_decide as Hp|]; cbn [snd].
  - rewrite Hset. eapply (cl_bind _ _ _ id); [done|]. cbn [session_of ss_channels].
    rewrite channels_of_lookup, Eb. split; [done|]. unfold binding_of. cbn. by rewrite Hp.
  - destruct s1. constructor.
  - rewrite Hset. eapply (cl_bind _ _ _ id); [done|]. cbn [session_of ss_channels].
    rewrite channels_of_lookup, Eb. done.
Qed.

(** The relay socket of an allocation is the one of its session. *)
Lemma socket_of_session s k a r :
  srv_ok s → allocations (allocation_table s) !! k = Some a → relay a = Some r →
  socket r = relay_socket (abs s) (session_of (channel_table s) k a).
Proof.
  intros Hs Ha Hr. destruct (tc_entry _ (proj1 (so_table _ Hs)) k a Ha) as (p & h & -> & _ & _ & _ & E & _).
  rewrite E in Hr. by simplify_eq.
Qed.

Lemma send_refines env msg client s r out s' :
  srv_ok s → handle_send env msg client s = (r, out, s') → client_step client (abs s) out (abs s').
Proof.
  intros Hs H. unfold handle_send in H.
  destruct (find_allocation_by_client _ client) as [k|] eqn:Ef; [|simplify_eq; constructor].
  destruct (session_Some s client k Hs Ef) as (a & Ha & Hcl & _ & He & Hx).
  destruct (get_attribute msg PEER_ADDRESS) as [pa|]; [|simplify_eq; constructor].
  destruct (decode_xor_address _ _ _) as [peer|]; [|simplify_eq; constructor].
  destruct (get_attribute msg DATA) as [da|]; [|simplify_eq; constructor].
  unfold send_to_peer in H. rewrite He in H.
  destruct (bool_decide _) eqn:Hp; cbn [negb] in H; [|injection H as <- <- <-; rewrite same_abs by done; constructor].
  bool_to_prop. destruct (relay a) as [rl|] eqn:Hr;
    [|injection H as <- <- <-; rewrite same_abs by done; constructor].
  assert (Hop : client_step client (abs s) [ToPeer (socket rl) peer (value da)] (abs s)).
  { rewrite (socket_of_session s k a rl Hs Ha Hr). by apply cl_send. }
  destruct (env_io env); injection H as <- <- <-; [|by rewrite same_abs by done].
  rewrite (update_abs s _ k a (count_forwarded (Z.of_nat (length (value da))) a) Hs Ha) by done.
  change (session_of _ k (count_forwarded _ a)) with (session_of (channel_table s) k a).
  rewrite Hcl, insert_id by done. by destruct (abs s).
Qed.

Lemma channel_data_refines data client s :
  srv_ok s → client_step client (abs s) (handle_channel_data data client s) (abs s).
Proof.
  intros Hs. unfold handle_channel_data. case_decide; [constructor|].
  unfold get_allocation_by_client. destruct (entry_by_client _ client) as [[k a]|] eqn:Ee; [|constructor].
  cbn [mbind option_bind]. destruct (entry_relayed s client k a Hs Ee) as (Ha & Hcl & Hra). rewrite Hra.
  unfold get_by_channel. destruct (channels (channel_table s) !! _) as [b|] eqn:Eb; [|constructor].
  destruct (relay a) as [rl|] eqn:Hr; [|constructor].
  rewrite (socket_of_session s k a rl Hs Ha Hr).
  change (cb_peer_addr b) with (bd_peer (binding_of b)). eapply cl_channel_data.
  - cbn. apply sessions_lookup; [by apply srv_one_each|]. by exists k, a.
  - cbn. by rewrite channels_of_lookup, Eb.
Qed.

Lemma process_refines env msg client s r out s' :
  srv_ok s → process_message env msg client s = Ret (r, out, s') → client_step client (abs s) out (abs s').
Proof.
  intros Hs H. unfold process_message in H.
  destruct (bool_decide _ && negb (stun_enabled s)); [simplify_eq; constructor|].
  destruct (negb _ && negb (turn_enabled s)); [simplify_eq; constructor|].
  destruct (method (header msg)); try (simplify_eq; constructor).
  - by eapply allocate_refines.
  - by eapply refresh_refines.
  - injection H as H. by eapply send_refines.
  - by eapply permission_refines.
  - by eapply channel_bind_refines.
Qed.

Lemma stream_refines env data client s r out s' :
  srv_ok s → handle_tcp_message env data client s = Ret (r, out, s') → client_step client (abs s) out (abs s').
Proof.
  intros Hs H. unfold handle_tcp_message in H.
  destruct (is_channel_data_frame data); [simplify_eq; by apply channel_data_refines|].
  destruct (Message_parse data); [by eapply process_refines|simplify_eq; constructor].
Qed.

Lemma datagram_refines env data client s r out s' :
  srv_ok s → handle_udp_message env data client s = Ret (r, out, s') → client_step client (abs s) out (abs s').
Proof.
  intros Hs H. unfold handle_udp_message in H. case_decide; [simplify_eq; constructor|].
  destruct (is_channel_data_frame data); [simplify_eq; by apply channel_data_refines|].
  destruct (Message_parse data); [by eapply process_refines|].
  destruct (raw_parse data); [by eapply process_refines|simplify_eq; constructor].
Qed.

(** ** Lemmas: the background *)

Lemma relay_refines h task nanos io ev c st out s :
  srv_ok s → tasks (allocation_table s) !! h = Some task → external_event ev →
  relay_task_step nanos io ev task (client_transports (allocation_table s)) (channel_table s)
    (stats (allocation_table s)) = (c, st, out) →
  spec_step (abs s) out (abs s).
Proof.
  intros Hs Ht Hev H. assert (Hnop : spec_step (abs s) [] (abs s)) by (eapply (sp_client _ (task_client task)); constructor).
  destruct ev as [[[data peer]|e]|m|]; [|by simplify_eq/=|done|by simplify_eq/=].
  cbn [relay_task_step] in H. injection H as <- <- <-.
  destruct (tc_task _ (proj1 (so_table _ Hs)) h task Ht) as (a & r & Ha & Hr & Hh).
  destruct (tc_entry _ (proj1 (so_table _ Hs)) _ a Ha) as (p & h' & Hk & _ & _ & _ & E & _ & Htask).
  rewrite E in Hr. injection Hr as <-. cbn in Hh. subst h'. specialize (Htask task Ht).
  unfold relay_peer_data. set (eff := normalize_peer_addr_for_client _ _ _).
  set (payload := match get_by_peer_for_relayed _ _ _ with Some _ => _ | None => _ end).
  assert (Hd : ∀ snd, spec_step (abs s) [ToClient snd (task_client task) payload] (abs s)).
  { intros snd. eapply (sp_deliver _ _ (session_of (channel_table s) (task_relayed task) a) snd eff data).
    - cbn. apply sessions_lookup; [by apply srv_one_each|]. exists (task_relayed task), a. split_and!; [done| |done].
      by rewrite Htask.
    - unfold wrapped, payload. cbn [session_of ss_channels].
      destruct (get_by_peer_for_relayed _ _ _) as [n|] eqn:Eg.
      + left. apply get_by_peer_for_relayed_sound in Eg as (b & Hb & Hp). exists n, (binding_of b).
        unfold get_by_channel in Hb. by rewrite channels_of_lookup, Hb.
      + right. split; [|by eexists]. intros id b. rewrite channels_of_lookup. intros (b' & Hb & ->)%fmap_Some.
        cbn. by eapply get_by_peer_for_relayed_None. }
  unfold send_to_client. destruct (client_senders _ !! _); [apply Hd|].
  destruct (default_sender _); [apply Hd|exact Hnop].
Qed.

Lemma channel_cleanup_refines now s : srv_ok s → spec_step (abs s) [] (abs (channel_cleanup_tick now s)).
Proof.
  intros Hs. unfold channel_cleanup_tick.
  rewrite (abs_eq s (set_channel_table (ChannelTable_cleanup_expired now (channel_table s)).2 s)
    (drop_channels now <$> sessions (abs s))); [constructor|done|].
  cbn -[ChannelTable_cleanup_expired]. by apply sessions_drop_channels, srv_one_each.
Qed.

Lemma allocation_cleanup_refines now weak s :
  srv_ok s → spec_step (abs s) [] (abs (allocation_cleanup_tick now weak s)).
Proof.
  intros Hs. unfold allocation_cleanup_tick.
  pose proof (cleanup_spec now weak (Some (channel_table s)) (allocation_table s) (so_table _ Hs)) as H.
  pose proof (cleanup_params now weak (Some (channel_table s)) (allocation_table s)) as Hp.
  destruct (cleanup_expired now weak _ _) as [[c ch] t]. destruct H as (_ & Hall & _ & Hch).
  destruct (Hch _ eq_refl) as (ct & -> & _ & Hlk). clear Hch.
  rewrite (abs_eq s (set_table t (set_channel_table ct s))
    (filter (λ '(_, x), outlived now (ss_since x) (ss_life x) = false) (sessions (abs s))));
    [constructor|done|].
  cbn [set_table set_channel_table allocation_table channel_table abs sessions]. rewrite Hall.
  rewrite <- sessions_filter by (by apply srv_one_each). apply sessions_channels.
  intros k a [Ha He]%map_lookup_filter_Some. apply channels_of_ext. intros id. rewrite Hlk.
  rewrite decide_False; [done|]. rewrite elem_of_expired_keys. intros (a' & Ha' & He'). congruence.
Qed.

Lemma background_refines s out s' : srv_ok s → background s out s' → spec_step (abs s) out (abs s').
Proof.
  intros Hs Hst. pose proof (λ c, sp_client (abs s) c [] (abs s) (cl_nothing c (abs s))) as Hnop. destruct Hst.
  - rewrite same_abs by done. apply (Hnop sock).
  - rewrite same_abs by done. apply (Hnop client).
  - rewrite same_abs by done. apply (Hnop client).
  - apply (Hnop (SaV4 (mkIpv4 0 0 0 0) 0)).
  - by apply channel_cleanup_refines.
  - by apply allocation_cleanup_refines.
  - rewrite same_abs by done. by eapply relay_refines.
  - rewrite same_abs by done. by eapply relay_refines.
Qed.

Lemma step_refines s out s' : srv_ok s → step s out s' → spec_step (abs s) out (abs s').
Proof.
  intros Hs Hst. destruct Hst.
  - eapply sp_client. by eapply datagram_refines.
  - eapply sp_client. by eapply stream_refines.
  - eapply sp_client. by eapply datagram_refines.
  - by apply background_refines.
Qed.

Lemma run_refines s0 out s : srv_ok s0 → reachable s0 out s → spec_run (abs s0) out (abs s).
Proof.
  intros H0. induction 1 as [|out1 out2 s s' Hr IH Hst]; [constructor|].
  eapply run_step; [exact IH|]. apply step_refines; [|done]. by eapply reachable_keeps.
Qed.
End refine.

(** ** Lemmas: the specification itself *)

Lemma client_step_others c σ out σ' c' :
  client_step c σ out σ' → c' ≠ c → sessions σ' !! c' = sessions σ !! c'.
Proof.
  intros Hst Hne. destruct Hst; cbn [set_sessions sessions]; try done;
    (by rewrite lookup_insert_ne) || by rewrite lookup_delete_ne.
Qed.

Lemma client_step_out c σ out σ' pk :
  client_step c σ out σ' → pk ∈ out →
  ∃ x peer data, sessions σ !! c = Some x ∧ pk = ToPeer (relay_socket σ x) peer data ∧
    (sa_ip peer ∈ ss_permissions x ∨ ∃ id b, ss_channels x !! id = Some b ∧ bd_peer b = peer).
Proof.
  intros Hst Hin. destruct Hst; try (by apply not_elem_of_nil in Hin);
    apply list_elem_of_singleton in Hin as ->.
  - exists x, peer, data. auto.
  - exists x, (bd_peer b), data. eauto 10.
Qed.

(** A session table no run of the specification leaves. *)
Record spec_ok (σ : Spec) : Prop := {
  sk_address : ∀ c x, sessions σ !! c = Some x →
    ∃ p, ss_relayed x = SaV4 (sp_external σ) p ∧ (sp_ports σ).1 ≤ p ≤ (sp_ports σ).2;
  sk_relays : ∀ c1 x1 c2 x2, sessions σ !! c1 = Some x1 → sessions σ !! c2 = Some x2 →
    ss_relayed x1 = ss_relayed x2 → c1 = c2;
  sk_channels : ∀ c x id b, sessions σ !! c = Some x → ss_channels x !! id = Some b → bd_life b = from_secs 600;
  sk_quota : ∀ q, sp_quota σ = Some q → Z.of_nat (size (sessions σ)) ≤ Z.max 0 q
}.

(** One session replaced by one with the same relayed address. *)
Lemma spec_ok_update σ c x y :
  spec_ok σ → sessions σ !! c = Some x → ss_relayed y = ss_relayed x →
  (∀ id b, ss_channels y !! id = Some b → bd_life b = from_secs 600) →
  spec_ok (set_sessions (<[c := y]> (sessions σ)) σ).
Proof.
  intros [Ha Hr Hc Hq] Hx Hy Hch. split; cbn [set_sessions sessions sp_quota sp_external sp_ports].
  - intros c' x' [[<- <-]|[_ Hl]]%lookup_insert_Some; [rewrite Hy|]; eauto.
  - assert (Hb : ∀ c' x', <[c := y]> (sessions σ) !! c' = Some x' →
      ∃ x0, sessions σ !! c' = Some x0 ∧ ss_relayed x0 = ss_relayed x').
    { intros c' x' [[<- <-]|[_ ?]]%lookup_insert_Some; eauto. }
    intros c1 x1 c2 x2 (? & H1 & E1)%Hb (? & H2 & E2)%Hb E. eapply Hr; [done..|congruence].
  - intros c' x' id b [[<- <-]|[_ Hl]]%lookup_insert_Some; eauto.
  - intros q Hq'. rewrite map_size_insert_Some by (by eexists). by apply Hq.
Qed.

Lemma spec_ok_shrink σ m :
  spec_ok σ →
  (∀ c x, m !! c = Some x → ∃ y, sessions σ !! c = Some y ∧ ss_relayed x = ss_relayed y ∧ ss_channels x ⊆ ss_channels y) →
  (size m ≤ size (sessions σ))%nat → spec_ok (set_sessions m σ).
Proof.
  intros [Ha Hr Hc Hq] Hm Hsz. split; cbn [set_sessions sessions sp_quota sp_external sp_ports].
  - intros c x (y & Hy & -> & _)%Hm. eauto.
  - intros c1 x1 c2 x2 (y1 & H1 & E1 & _)%Hm (y2 & H2 & E2 & _)%Hm E. eapply Hr; [done..|congruence].
  - intros c x id b (y & Hy & _ & Hsub)%Hm Hb. eapply Hc; [done|]. by eapply lookup_weaken.
  - intros q Hq'. specialize (Hq q Hq'). lia.
Qed.

Lemma client_step_ok c σ out σ' : spec_ok σ → client_step c σ out σ' → spec_ok σ'.
Proof.
  intros Hok Hst. destruct Hst as [|port now life Hp Hrg Hfree Hl Hq| |x life Hx|x ips Hx|x id now peer b Hx Hb|?|?].
  - done.
  - split; cbn [set_sessions sessions sp_quota sp_external sp_ports]; [| | |intros q Hq'; specialize (Hq q Hq'); lia].
    + intros c' x [[<- <-]|[_ Hx]]%lookup_insert_Some; [by exists port|by eapply (sk_address _ Hok)].
    + intros c1 x1 c2 x2 [[<- <-]|[? H1]]%lookup_insert_Some [[<- <-]|[? H2]]%lookup_insert_Some E;
        [done|by destruct (Hfree c2 x2)|by destruct (Hfree c1 x1)|by eapply (sk_relays _ Hok)].
    + intros c' x id b [[<- <-]|[_ Hx]]%lookup_insert_Some; [done|by apply (sk_channels _ Hok c')].
  - apply spec_ok_shrink; [done| |by apply map_subseteq_size, delete_subseteq].
    intros c' x [_ Hx]%lookup_delete_Some. eauto.
  - apply (spec_ok_update _ _ x); [done..|]. intros id b. exact (sk_channels _ Hok c x id b Hx).
  - apply (spec_ok_update _ _ x); [done..|]. intros id b. exact (sk_channels _ Hok c x id b Hx).
  - apply (spec_ok_update _ _ x); [done..|]. intros id' b'. cbn [bound ss_channels]. intros [[<- <-]|[_ Hl]]%lookup_insert_Some.
    + destruct (ss_channels x !! id) as [b0|] eqn:E; cbn in Hb.
      * destruct Hb as [_ ->]. exact (sk_channels _ Hok c x id b0 Hx E).
      * by rewrite Hb.
    + exact (sk_channels _ Hok c x id' b' Hx Hl).
  - done.
  - done.
Qed.

Lemma spec_step_ok σ out σ' : spec_ok σ → spec_step σ out σ' → spec_ok σ'.
Proof.
  intros Hok Hst. destruct Hst as [c out σ' Hst|?|now|now]; [by eapply client_step_ok|done|..].
  - apply spec_ok_shrink; [done| |apply map_subseteq_size, map_filter_subseteq].
    intros c x [Hx _]%map_lookup_filter_Some. eauto.
  - apply spec_ok_shrink; [done| |by rewrite map_size_fmap].
    intros c x. rewrite lookup_fmap, fmap_Some. intros (y & Hy & ->). exists y. split_and!; try done.
    apply map_filter_subseteq.
Qed.

Lemma spec_run_ok σ0 out σ : spec_ok σ0 → spec_run σ0 out σ → spec_ok σ.
Proof. intros H0. induction 1; [done|]. by eapply spec_step_ok. Qed.

Lemma spec_ok_empty s : allocations (allocation_table s) = ∅ → spec_ok (abs s).
Proof.
  intros He. assert (sessions (abs s) = ∅) as E by (cbn; by rewrite He).
  split; rewrite E; try (intros ?*; by rewrite lookup_empty). intros q _. rewrite map_size_empty. lia.
Qed.

(** What a run never changes: the external address, the quota and the port range. *)
Lemma spec_run_params σ0 out σ :
  spec_run σ0 out σ →
  sp_external σ = sp_external σ0 ∧ sp_quota σ = sp_quota σ0 ∧ sp_ports σ = sp_ports σ0.
Proof.
  induction 1 as [|o1 o2 σ σ' _ IH Hst]; [done|].
  destruct Hst as [c o σ' Hc| | |]; [by destruct Hc|done..].
Qed.

(** Addresses that differ in a port of the range alone are no more than the ports. *)
Lemma addresses_bound {A} (m : gmap SocketAddr A) ext lo hi :
  lo ≤ hi + 1 → (∀ k a, m !! k = Some a → ∃ p, k = SaV4 ext p ∧ lo ≤ p ≤ hi) →
  Z.of_nat (size m) ≤ hi - lo + 1.
Proof.
  intros Hle Hm. set (l := SaV4 ext <$> seqZ lo (hi - lo + 1)).
  assert (Hsub : dom m ⊆ list_to_set (C:=gset SocketAddr) l).
  { intros k [a (p & -> & Hp)%Hm]%elem_of_dom. apply elem_of_list_to_set, list_elem_of_fmap_2, elem_of_seqZ. lia. }
  apply subseteq_size in Hsub. rewrite size_dom, size_list_to_set in Hsub.
  - unfold l in Hsub. rewrite length_fmap, length_seqZ in Hsub. lia.
  - apply NoDup_fmap_2; [by intros ?? [=]|apply NoDup_seqZ].
Qed.

(** ** A run for the witnesses: challenge, Allocate, cleanup, ChannelBind *)

Definition bind_request : Message :=
  signed_request ChannelBind
    [mkAttr CHANNEL_NUMBER [0x40; 0; 0; 0]; mkAttr PEER_ADDRESS (encode_xor_address peer_a MAGIC (seqZ 1 12))].
Definition bound_server : TurnServer := after_datagram bind_request busy_server.

Lemma datagram_step m s :
  match @handle_udp_message toy_crypto map_order sample_env (Message_encode m) sample_client s with
  | Ret (_, [], _) => true
  | _ => false
  end = true → @step toy_crypto map_order s [] (after_datagram m s).
Proof.
  intros H. unfold after_datagram.
  destruct (handle_udp_message _ _ _ _) as [[[r [|]] s']|] eqn:E; try discriminate. eapply step_udp. exact E.
Qed.

Lemma busy_reachable : @reachable toy_crypto map_order sample_server ((([] ++ []) ++ []) ++ []) busy_server.
Proof.
  eapply reach_step; [eapply reach_step; [eapply reach_step; [apply reach_init|]|]|apply step_background, bg_nonce_cleanup];
    apply datagram_step; vm_compute; reflexivity.
Qed.

Lemma bound_reachable : @reachable toy_crypto map_order sample_server (((([] ++ []) ++ []) ++ []) ++ []) bound_server.
Proof. eapply reach_step; [apply busy_reachable|]. apply datagram_step. vm_compute. reflexivity. Qed.

(** ** Properties *)

(** C2. The server refines the abstract TURN server: whatever the sequence of
    datagrams, frames, ticks, connections and relay events, what the server
    sends and the sessions it holds are those of a run of the specification
    from the same sessions. *)
Theorem server_refines_spec `{CR : Crypto} `{HO : HashOrder} s0 out s :
  srv_ok s0 → reachable s0 out s → spec_run (abs s0) out (abs s).
Proof. apply run_refines. Qed.

Lemma server_refines_spec_witness :
  spec_run (abs sample_server) ((([] ++ []) ++ []) ++ []) (abs busy_server) ∧
  size (sessions (abs sample_server)) = 0%nat ∧ size (sessions (abs busy_server)) = 1%nat.
Proof.
  split; [|split; vm_compute; reflexivity].
  apply (@server_refines_spec toy_crypto map_order); [apply sample_server_ok|].
  apply busy_reachable.
Defined.

(** C14. A message does one thing, and to its sender only: handling a datagram of
    [client] is one operation of the specification on that client's session;
    the sessions of all other clients are untouched, and everything sent
    leaves from the client's own relay address, for a peer it has a permission
    for or a channel to. *)
Theorem datagram_acts_on_its_client `{CR : Crypto} `{HO : HashOrder} env data client s r out s' :
  srv_ok s → handle_udp_message env data client s = Ret (r, out, s') →
  client_step client (abs s) out (abs s') ∧
  (∀ c, c ≠ client → sessions (abs s') !! c = sessions (abs s) !! c) ∧
  (∀ pk, pk ∈ out → ∃ x peer d, sessions (abs s) !! client = Some x ∧
     pk = ToPeer (relay_socket (abs s) x) peer d ∧
     (sa_ip peer ∈ ss_permissions x ∨ ∃ id b, ss_channels x !! id = Some b ∧ bd_peer b = peer)).
Proof.
  intros Hs H. pose proof (datagram_refines _ _ _ _ _ _ _ Hs H) as Hst.
  split; [done|]. split; [intros c; by apply (client_step_others _ _ _ _ _ Hst)|intros pk; by apply (client_step_out _ _ _ _ pk Hst)].
Qed.

Definition other_client : SocketAddr := SaV4 (mkIpv4 198 51 100 8) 4001.

Lemma datagram_acts_on_its_client_witness :
  ∃ r s', @handle_udp_message toy_crypto map_order sample_env (Message_encode (request Allocate [])) other_client
            busy_server = Ret (r, [], s') ∧
    sessions (abs s') !! sample_client = sessions (abs busy_server) !! sample_client.
Proof.
  destruct (@handle_udp_message toy_crypto map_order sample_env (Message_encode (request Allocate [])) other_client
    busy_server) as [[[r out] s']|] eqn:E; [|exfalso; vm_compute in E; discriminate].
  destruct (@datagram_acts_on_its_client toy_crypto map_order sample_env (Message_encode (request Allocate []))
    other_client busy_server r out s' (@reachable_keeps toy_crypto map_order _ _ _ sample_server_ok busy_reachable) E) as (_ & Hoth & _).
  exists r, s'. assert (out = []) as ->.
  { assert (match @handle_udp_message toy_crypto map_order sample_env (Message_encode (request Allocate [])) other_client
            busy_server with Ret (_, [], _) => true | _ => false end = true) as Hb by (vm_compute; reflexivity).
    rewrite E in Hb. by destruct out. }
  split; [reflexivity|]. apply Hoth. discriminate.
Defined.

(** C30. Bounds that hold in every run: starting without allocations, at every
    moment every relay address is the external address with a port of the
    range the server was started with, distinct clients have distinct relay
    addresses, there are no more allocations than the range has ports and no
    more than the quota allows, and every channel is one of an allocation and
    has a lifetime of exactly ten minutes. *)
Theorem runs_stay_in_bounds `{CR : Crypto} `{HO : HashOrder} s0 out s :
  srv_ok s0 → allocations (allocation_table s0) = ∅ → reachable s0 out s →
  let t0 := allocation_table s0 in
  let m := allocations (allocation_table s) in
  let lo := min_port (port_allocator t0) in
  let hi := max_port (port_allocator t0) in
  (∀ k a, m !! k = Some a → relayed_addr a = k ∧ ∃ p, k = SaV4 (external_addr t0) p ∧ lo ≤ p ≤ hi) ∧
  (∀ k1 a1 k2 a2, m !! k1 = Some a1 → m !! k2 = Some a2 →
     client_addr a1 ≠ client_addr a2 ↔ relayed_addr a1 ≠ relayed_addr a2) ∧
  Z.of_nat (size m) ≤ hi - lo + 1 ∧
  (∀ q, max_concurrent_allocations t0 = Some q → Z.of_nat (size m) ≤ Z.max 0 q) ∧
  (∀ k id b, channels (channel_table s) !! (k, id) = Some b → is_Some (m !! k) ∧ cb_lifetime b = from_secs 600).
Proof.
  intros H0 Hempty Hr. cbv zeta. pose proof (reachable_keeps s0 out s H0 Hr) as Hs.
  pose proof (run_refines s0 out s H0 Hr) as Hrun. pose proof (spec_run_params _ _ _ Hrun) as (Hext & Hquota & Hports).
  assert (Hok : spec_ok (abs s)) by (eapply spec_run_ok; [by apply spec_ok_empty|exact Hrun]).
  assert (Hle : min_port (port_allocator (allocation_table s0)) ≤ max_port (port_allocator (allocation_table s0)) + 1).
  { pose proof (ok_range _ (tc_pool _ (proj1 (so_table _ H0)))). lia. }
  set (t := allocation_table s) in *.
  assert (Hkey : ∀ k a, allocations t !! k = Some a → relayed_addr a = k ∧
    sessions (abs s) !! client_addr a = Some (session_of (channel_table s) k a)).
  { intros k a Ha. split; [by destruct (tc_entry _ (proj1 (so_table _ Hs)) k a Ha) as (? & ? & _ & _ & ? & _)|].
    cbn. apply sessions_lookup; [by apply srv_one_each|eauto]. }
  assert (Haddr : ∀ k a, allocations t !! k = Some a → ∃ p, k = SaV4 (sp_external (abs s0)) p ∧
    (sp_ports (abs s0)).1 ≤ p ≤ (sp_ports (abs s0)).2).
  { intros k a [_ Hx]%Hkey. rewrite <- Hext, <- Hports. exact (sk_address _ Hok _ _ Hx). }
  split_and!.
  - intros k a Ha. split; [by apply Hkey|by eapply Haddr].
  - intros k1 a1 k2 a2 H1 H2. destruct (Hkey _ _ H1) as [-> _], (Hkey _ _ H2) as [-> _]. split; intros Hn E; apply Hn.
    + subst k2. congruence.
    + by eapply (so_unique _ Hs).
  - eapply addresses_bound; [exact Hle|exact Haddr].
  - intros q Hq. rewrite <- (sessions_size _ (channel_table s)) by (by apply srv_one_each).
    apply (sk_quota _ Hok q). by rewrite Hquota.
  - intros k id b Hb. destruct (so_bound _ Hs k id) as [a Ha]; [by eexists|]. split; [by eexists|].
    apply (sk_channels _ Hok (client_addr a) (session_of (channel_table s) k a) id (binding_of b)).
    + by apply Hkey.
    + cbn. by rewrite channels_of_lookup, Hb.
Qed.

Lemma runs_stay_in_bounds_witness :
  (∃ p, sample_relayed = SaV4 (external_addr (allocation_table sample_server)) p ∧ 50000 ≤ p ≤ 50003) ∧
  Z.of_nat (size (allocations (allocation_table bound_server))) ≤ 4 ∧
  ∃ b, channels (channel_table bound_server) !! (sample_relayed, 0x4000) = Some b ∧ cb_lifetime b = from_secs 600.
Proof.
  pose proof (@runs_stay_in_bounds toy_crypto map_order sample_server _ bound_server sample_server_ok eq_refl
    bound_reachable) as (Ha & _ & Hn & _ & Hc).
  split; [|split].
  - destruct (allocations (allocation_table bound_server) !! sample_relayed) as [a|] eqn:E.
    + exact (proj2 (Ha _ _ E)).
    + exfalso. assert (Hb : bool_decide (is_Some (allocations (allocation_table bound_server) !! sample_relayed)) = true)
        by (vm_compute; reflexivity). rewrite E in Hb. discriminate.
  - exact Hn.
  - destruct (channels (channel_table bound_server) !! (sample_relayed, 0x4000)) as [b|] eqn:E.
    + exists b. split; [reflexivity|]. apply (Hc _ _ _ E).
    + exfalso. assert (Hb : bool_decide (is_Some (channels (channel_table bound_server) !! (sample_relayed, 0x4000))) = true)
        by (vm_compute; reflexivity). rewrite E in Hb. discriminate.
Defined.
