(* ===== verification/HandlerRace.v ===== *)
(** * Concurrent requests (src/server.rs, src/allocation.rs)

    Server runs a request handler in one step.  In the program the handlers of
    different tasks interleave: each takes one lock at a time and suspends at
    [await].  Here a handler is a [proc], the sequence of its atomic sections
    (what it does under one lock, or one call of the port allocator), and any
    number of them run interleaved with each other and with the background.

    [alone] runs one with nothing in between and is shown to be the handler of
    Server; RaceSafety has the interleavings.

    Authentication is one atomic section: the only thing it writes, a fresh
    nonce, does not depend on what it read. *)

From S2P Require Import Prelude RustStd StunMessage Errors Ports Channels Bandwidth Auth Alloc Framing Crypto.
From S2P Require Import Server ServerSpec System.
Local Open Scope Z_scope.

(** ** Procs *)

Inductive proc (A : Type) : Type :=
| Done (a : A)
| Atomic {B : Type} (op : TurnServer → outcome (B * TurnServer)) (k : B → proc A).
Arguments Done {A} a.
Arguments Atomic {A B} op k.

#[global] Instance proc_ret : MRet proc := λ A a, Done a.
#[global] Instance proc_bind : MBind proc := λ A B f,
  fix go (p : proc A) : proc B :=
    match p with
    | Done a => f a
    | Atomic op k => Atomic op (λ b, go (k b))
    end.

(** A section that changes the server, one that only reads it, and a
    computation that may panic. *)
Definition update {B} (op : TurnServer → outcome (B * TurnServer)) : proc B := Atomic op Done.
Definition reads {B} (f : TurnServer → B) : proc B := Atomic (λ s, Ret (f s, s)) Done.
Definition tries {B} (f : TurnServer → outcome B) : proc B :=
  Atomic (λ s, b ← f s; Ret (b, s)) Done.

Fixpoint alone {A} (p : proc A) (s : TurnServer) : outcome (A * TurnServer) :=
  match p with
  | Done a => Ret (a, s)
  | Atomic op k => '(b, s) ← op s; alone (k b) s
  end.

(** A section on the allocation table. *)
Definition on_table {B} (f : AllocationTable PortAllocator → B * AllocationTable PortAllocator) : proc B :=
  update (λ s, let '(b, t) := f (allocation_table s) in Ret (b, set_table t s)).

(** ** The operations of the table, section by section *)

(** [port_allocator.allocate()] and [port_allocator.release(port)]. *)
Definition take_port (a : BindAttempt) : proc (option Z) :=
  update (λ s, '(port, p) ← pool_allocate (draw1 a) (draw2 a) (alloc_weak a) (port_allocator (allocation_table s));
               Ret (port, set_table (set_ports p (allocation_table s)) s)).
Definition return_port (a : BindAttempt) (port : Z) : proc bool :=
  on_table (λ t, let '(b, p) := pool_release (release_weak a) port (port_allocator t) in (b, set_ports p t)).

(** The bind loop: the bind itself suspends between taking a port and, when it
    fails, returning it. *)
Fixpoint bind_loop_c (env : nat → BindAttempt) (bind : Ipv4Addr) (left : nat)
    (last : option (SocketAddr * string)) : proc (result Z Error) :=
  match left with
  | O =>
    Done match last with
         | Some (addr, source) => Err (RelayBindFailed addr source)
         | None => Err RelayPortExhausted
         end
  | S left' =>
    let a := env (MAX_ATTEMPTS - left)%nat in
    port ← take_port a;
    match port with
    | None => Done (Err RelayPortExhausted)
    | Some port =>
      match bind_result a with
      | Ok _ => Done (Ok port)
      | Err e =>
        _ ← return_port a port;
        bind_loop_c env bind left' (Some (SaV4 bind port, e))
      end
    end
  end.

(** The write lock of [create_allocation]: enter, count, track. *)
Definition enter_allocation (env : CreateEnv) (a : Allocation) (t : AllocationTable PortAllocator)
    : AllocationTable PortAllocator :=
  let t := set_allocations (<[relayed_addr a := a]> (allocations t)) t in
  let t := set_stats (count_created (stats t)) t in
  set_bandwidth (register_allocation (tracker_now env) (sa_string (relayed_addr a)) None (bandwidth_manager t)) t.

Definition create_allocation_c (env : CreateEnv) (client : SocketAddr) (requested : option Z)
    : proc (result Allocation Error) :=
  full ← reads (λ s, quota_reached (allocation_table s));
  if (full : bool) then Done (Err Errors.AllocationQuotaReached) else
  '(life, bind, external) ← reads (λ s, let t := allocation_table s in
     (from_secs (effective_lifetime requested t), bind_addr t, external_addr t));
  r ← bind_loop_c (bind_attempts env) bind MAX_ATTEMPTS None;
  match r with
  | Err e => Done (Err e)
  | Ok port =>
    let relay_bind := SaV4 bind port in
    let relayed := SaV4 external port in
    main ← reads (λ s, main_socket (allocation_table s));
    _ ← match main with
        | None => on_table (λ t, (tt, set_transports (main_socket t)
                    (set_default_sender (UdpClientPacketSender relay_bind) (client_transports t)) t))
        | Some _ => Done tt
        end;
    r ← on_table (spawn_allocation_task client relay_bind relayed);
    let a := with_relay (create_now env) (getrandom 12 (id_nanos env)) relayed client life client relayed r in
    _ ← on_table (λ t, (tt, enter_allocation env a t));
    Done (Ok a)
  end.

(** The counters of the allocation a datagram was sent for, which may have left
    the table since: they are shared by [Arc], so they are found by the task
    that only this allocation has. *)
Definition count_if_same (k : SocketAddr) (h n : Z) (t : AllocationTable PortAllocator)
    : AllocationTable PortAllocator :=
  let t := set_stats (count_relayed n (stats t)) t in
  match allocations t !! k with
  | Some a =>
    match relay a with
    | Some r => if decide (task_handle r = h)
                then set_allocations (<[k := count_forwarded n a]> (allocations t)) t else t
    | None => t
    end
  | None => t
  end.

(** ** The handlers, section by section *)

Definition answer_c : Type := option (list Z) * list Packet.

Section handlers.
Context `{CR : Crypto} `{HO : HashOrder}.

(** [send_to_peer]: the lookup under the lock, the send, the counters. *)
Definition send_to_peer_c (io : result Z string) (client peer : SocketAddr) (data : list Z)
    : proc (list Packet) :=
  e ← reads (λ s, entry_by_client (allocation_table s) client);
  match e with
  | None => Done []
  | Some (k, a) =>
    if negb (bool_decide (sa_ip peer ∈ permissions a)) then Done [] else
    match relay a with
    | None => Done []
    | Some r =>
      let sent := [ToPeer (socket r) peer data] in
      match io with
      | Err _ => Done sent
      | Ok _ => _ ← on_table (λ t, (tt, count_if_same k (task_handle r) (Z.of_nat (length data)) t)); Done sent
      end
    end
  end.

Definition drop_c (weak : list bool) (k : SocketAddr) : proc unit :=
  update (λ s, Ret (tt, drop_allocation weak k s)).

Definition handle_allocate_c (env : MsgEnv) (msg : Message) (client : SocketAddr) : proc answer_c :=
  auth ← update (verify_turn_auth env msg client);
  match auth with
  | Err resp => Done (Some resp, [])
  | Ok name =>
    life ← tries (λ _, get_lifetime msg);
    old ← reads (λ s, find_allocation_by_client (allocation_table s) client);
    _ ← match old with Some k => drop_c (env_weak env) k | None => Done tt end;
    r ← create_allocation_c (env_create env) client (Some life);
    match r with
    | Err e =>
      let '(code, reason) := allocate_error e in
      resp ← reads (create_error_response_bytes_with_reason msg code reason);
      Done (Some resp, [])
    | Ok a =>
      response ← tries (λ s, sign_response env name (allocate_success msg (relayed_addr a) client life s) s);
      Done (Some (Message_encode response), [])
    end
  end.

Definition mismatch_c (msg : Message) : proc answer_c :=
  resp ← reads (create_error_response_bytes msg AllocationMismatch);
  Done (Some resp, []).

Definition handle_refresh_c (env : MsgEnv) (msg : Message) (client : SocketAddr) : proc answer_c :=
  auth ← update (verify_turn_auth env msg client);
  match auth with
  | Err resp => Done (Some resp, [])
  | Ok name =>
    life ← tries (λ _, get_lifetime msg);
    found ← reads (λ s, find_allocation_by_client (allocation_table s) client);
    match found with
    | None => mismatch_c msg
    | Some relayed =>
      ok ← (if life =? 0 then _ ← drop_c (env_weak env) relayed; Done true
            else r ← on_table (refresh_allocation relayed life); Done (is_ok r));
      if negb ok then mismatch_c msg else
      response ← tries (sign_response env name
        (add_attribute (create_success_response (header msg)) (mkAttr LIFETIME (put_u32 life))));
      Done (Some (Message_encode response), [])
    end
  end.

Definition handle_create_permission_c (env : MsgEnv) (msg : Message) (client : SocketAddr) : proc answer_c :=
  auth ← update (verify_turn_auth env msg client);
  match auth with
  | Err resp => Done (Some resp, [])
  | Ok name =>
    found ← reads (λ s, find_allocation_by_client (allocation_table s) client);
    match found with
    | None => mismatch_c msg
    | Some _ =>
      let peers := peers_of msg in
      if bool_decide (peers = []) then
        resp ← reads (create_error_response_bytes msg BadRequest); Done (Some resp, [])
      else
      added ← on_table (add_permissions client peers);
      if negb added then mismatch_c msg else
      response ← tries (sign_response env name (create_success_response (header msg)));
      Done (Some (Message_encode response), [])
    end
  end.

Definition handle_channel_bind_c (env : MsgEnv) (msg : Message) (client : SocketAddr) : proc answer_c :=
  auth ← update (verify_turn_auth env msg client);
  match auth with
  | Err resp => Done (Some resp, [])
  | Ok name =>
    found ← reads (λ s, find_allocation_by_client (allocation_table s) client);
    match found, get_attribute msg PEER_ADDRESS, get_attribute msg CHANNEL_NUMBER with
    | Some relayed, Some peer_attr, Some channel_attr =>
      let peer := match decode_xor_address (value peer_attr) MAGIC_COOKIE (transaction_id (header msg)) with
                  | Some a => a
                  | None => SaV4 (mkIpv4 0 0 0 0) 0
                  end in
      channel_num ← tries (λ _, b0 ← index (value channel_attr) 0; b1 ← index (value channel_attr) 1;
                                Ret (be16 b0 b1));
      r ← update (λ s, let '(r, c) := ChannelTable_bind (env_now env) channel_num peer relayed (channel_table s) in
                       Ret (r, set_channel_table c s));
      if is_ok r then
        response ← tries (sign_response env name (create_success_response (header msg)));
        Done (Some (Message_encode response), [])
      else
        resp ← reads (create_error_response_bytes_with_reason msg BadRequest
                        "Channel number already bound for this allocation");
        Done (Some resp, [])
    | _, _, _ => Done (None, [])
    end
  end.

Definition handle_send_c (env : MsgEnv) (msg : Message) (client : SocketAddr) : proc answer_c :=
  found ← reads (λ s, find_allocation_by_client (allocation_table s) client);
  match found with
  | None => Done (None, [])
  | Some _ =>
    match get_attribute msg PEER_ADDRESS with
    | None => Done (None, [])
    | Some peer_attr =>
      match decode_xor_address (value peer_attr) MAGIC_COOKIE (transaction_id (header msg)) with
      | None => Done (None, [])
      | Some peer =>
        match get_attribute msg DATA with
        | None => Done (None, [])
        | Some data_attr =>
          out ← send_to_peer_c (env_io env) client peer (value data_attr);
          Done (None, out)
        end
      end
    end
  end.

Definition process_message_c (env : MsgEnv) (msg : Message) (client : SocketAddr) : proc answer_c :=
  let m := method (header msg) in
  '(stun, turn) ← reads (λ s, (stun_enabled s, turn_enabled s));
  if bool_decide (m = Binding) && negb stun then Done (None, []) else
  if negb (bool_decide (m = Binding)) && negb turn then Done (None, []) else
  match m with
  | Binding => Done (handle_binding msg client, [])
  | Allocate => handle_allocate_c env msg client
  | Refresh => handle_refresh_c env msg client
  | CreatePermission => handle_create_permission_c env msg client
  | ChannelBind => handle_channel_bind_c env msg client
  | Send => handle_send_c env msg client
  | _ => Done (None, [])
  end.

(** [handle_channel_data]: the allocation, then its channel. *)
Definition handle_channel_data_c (data : list Z) (client : SocketAddr) : proc answer_c :=
  if decide (length data < 4)%nat then Done (None, []) else
  let channel_num := be16 (byte_at data 0) (byte_at data 1) in
  let data_len := Z.to_nat (be16 (byte_at data 2) (byte_at data 3)) in
  let payload := slice data 4 (4 + Nat.min data_len (length data - 4)) in
  found ← reads (λ s, get_allocation_by_client (allocation_table s) client);
  match found with
  | None => Done (None, [])
  | Some a =>
    bound ← reads (λ s, get_by_channel (channel_table s) (relayed_addr a) channel_num);
    match bound with
    | None => Done (None, [])
    | Some channel =>
      match relay a with
      | Some r => Done (None, [ToPeer (socket r) (cb_peer_addr channel) payload])
      | None => Done (None, [])
      end
    end
  end.

Definition handle_tcp_message_c (env : MsgEnv) (data : list Z) (client : SocketAddr) : proc answer_c :=
  if is_channel_data_frame data then handle_channel_data_c data client else
  match Message_parse data with
  | Some msg => process_message_c env msg client
  | None => Done (None, [])
  end.

Definition handle_udp_message_c (env : MsgEnv) (data : list Z) (client : SocketAddr) : proc answer_c :=
  if decide (length data < 4)%nat then Done (None, []) else
  if is_channel_data_frame data then handle_channel_data_c data client else
  match Message_parse data with
  | Some msg => process_message_c env msg client
  | None =>
    match raw_parse data with
    | Some msg => process_message_c env msg client
    | None => Done (None, [])
    end
  end.
End handlers.

(** ** Lemmas: a request alone *)

Lemma alone_bind {A B} (p : proc A) (k : A → proc B) s :
  alone (p ≫= k) s = ('(a, s) ← alone p s; alone (k a) s).
Proof.
  revert s. induction p as [a|C op j IH]; intros s; [done|]. cbn.
  destruct (op s) as [[b s']|]; [|done]. cbn. apply IH.
Qed.

Lemma alone_on_table {B} (f : AllocationTable PortAllocator → B * AllocationTable PortAllocator) s :
  alone (on_table f) s = Ret ((f (allocation_table s)).1, set_table (f (allocation_table s)).2 s).
Proof. cbn. by destruct (f (allocation_table s)). Qed.

Lemma set_table_twice t1 t2 s : set_table t1 (set_table t2 s) = set_table t1 s.
Proof. done. Qed.
Lemma set_table_id s : set_table (allocation_table s) s = s.
Proof. by destruct s. Qed.
Lemma set_ports_id (t : AllocationTable PortAllocator) : set_ports (port_allocator t) t = t.
Proof. by destruct t. Qed.

Lemma alone_bind_loop env bind left last s :
  alone (bind_loop_c env bind left last) s =
  ('(r, p) ← bind_loop env bind left last (port_allocator (allocation_table s));
   Ret (r, set_table (set_ports p (allocation_table s)) s)).
Proof.
  revert last s. induction left as [|left IH]; intros last s; cbn [bind_loop_c bind_loop].
  { simpl_bind. by rewrite set_ports_id, set_table_id. }
  rewrite alone_bind. unfold take_port. cbn [alone update].
  destruct (pool_allocate _ _ _ _) as [[[port|] p]|]; [|done..]. simpl_bind.
  destruct (bind_result _) as [|e]; [done|]. rewrite alone_bind. unfold return_port. rewrite alone_on_table.
  cbn [set_table allocation_table set_ports port_allocator].
  destruct (pool_release _ _ _) as [b p']. simpl_bind. rewrite IH. cbn [fst snd].
  destruct (bind_loop _ _ _ _ _) as [[r p'']|]; [|done]. simpl_bind. done.
Qed.

Lemma alone_create env client life s :
  alone (create_allocation_c env client life) s =
  ('(r, t) ← create_allocation env client life (allocation_table s); Ret (r, set_table t s)).
Proof.
  unfold create_allocation_c, create_allocation. rewrite alone_bind. cbn [alone reads]. simpl_bind.
  destruct (quota_reached _). { cbn. by rewrite set_table_id. }
  rewrite alone_bind. cbn [alone reads]. simpl_bind. rewrite alone_bind, alone_bind_loop.
  destruct (bind_loop _ _ _ _ _) as [[[port|e] p]|]; [|done..]. simpl_bind.
  rewrite alone_bind. cbn [alone reads]. simpl_bind. rewrite alone_bind.
  unfold install_allocation. cbn [set_table allocation_table set_ports main_socket].
  destruct (main_socket _) as [m|] eqn:Em; cbn [alone]; rewrite ?alone_on_table; simpl_bind;
    rewrite alone_bind, alone_on_table; simpl_bind; rewrite alone_bind, alone_on_table; simpl_bind.
  - done.
  - cbn [set_table allocation_table set_ports main_socket fst snd]. by rewrite Em.
Qed.

Section alone.
Context `{CR : Crypto} `{HO : HashOrder}.

(** Runs the first section of a proc. *)
Ltac run_section := rewrite alone_bind; cbn [alone update reads tries drop_c]; simpl_bind.

Lemma alone_mismatch msg s :
  alone (mismatch_c msg) s = Ret (Some (create_error_response_bytes msg AllocationMismatch s), [], s).
Proof. done. Qed.

Lemma alone_allocate env msg client s :
  alone (handle_allocate_c env msg client) s = handle_allocate env msg client s.
Proof.
  unfold handle_allocate_c, handle_allocate. run_section.
  destruct (verify_turn_auth env msg client s) as [[[name|resp] s1]|]; [|done..]. simpl_bind.
  run_section. destruct (get_lifetime msg) as [life|]; [|done]. simpl_bind.
  run_section. rewrite alone_bind.
  set (s2 := match find_allocation_by_client _ _ with Some _ => _ | None => s1 end).
  assert (alone match find_allocation_by_client (allocation_table s1) client with
    | Some k => drop_c (env_weak env) k | None => Done tt end s1 = Ret (tt, s2)) as ->
    by (unfold s2; by destruct (find_allocation_by_client _ _)).
  clearbody s2. simpl_bind. rewrite alone_bind, alone_create.
  destruct (create_allocation _ _ _ _) as [[[a|e] t]|]; [| |done]; simpl_bind.
  - run_section. by destruct (sign_response _ _ _ _).
  - by destruct (allocate_error e).
Qed.

Lemma alone_refresh env msg client s :
  alone (handle_refresh_c env msg client) s = handle_refresh env msg client s.
Proof.
  unfold handle_refresh_c, handle_refresh. run_section.
  destruct (verify_turn_auth env msg client s) as [[[name|resp] s1]|]; [|done..]. simpl_bind.
  run_section. destruct (get_lifetime msg) as [life|]; [|done]. simpl_bind.
  run_section. destruct (find_allocation_by_client _ _) as [k|]; [|done]. rewrite alone_bind.
  destruct (life =? 0).
  - run_section. cbn [negb]. run_section. by destruct (sign_response _ _ _ _).
  - run_section. rewrite alone_on_table. destruct (refresh_allocation _ _ _) as [r t]. simpl_bind. cbn [fst snd alone].
    destruct (is_ok r); cbn [negb]; [|done]. run_section. by destruct (sign_response _ _ _ _).
Qed.

Lemma alone_permission env msg client s :
  alone (handle_create_permission_c env msg client) s = handle_create_permission env msg client s.
Proof.
  unfold handle_create_permission_c, handle_create_permission. run_section.
  destruct (verify_turn_auth env msg client s) as [[[name|resp] s1]|]; [|done..]. simpl_bind.
  run_section. destruct (find_allocation_by_client _ _) as [k|]; [|done].
  destruct (bool_decide _); [done|]. rewrite alone_bind, alone_on_table.
  destruct (add_permissions _ _ _) as [added t]. simpl_bind. cbn [fst snd].
  destruct added; cbn [negb]; [|done]. run_section. by destruct (sign_response _ _ _ _).
Qed.

Lemma alone_channel_bind env msg client s :
  alone (handle_channel_bind_c env msg client) s = handle_channel_bind env msg client s.
Proof.
  unfold handle_channel_bind_c, handle_channel_bind. run_section.
  destruct (verify_turn_auth env msg client s) as [[[name|resp] s1]|]; [|done..]. simpl_bind.
  run_section. destruct (find_allocation_by_client _ _) as [k|]; [|done].
  destruct (get_attribute msg PEER_ADDRESS) as [pa|]; [|done].
  destruct (get_attribute msg CHANNEL_NUMBER) as [ca|]; [|done]. run_section.
  destruct (index (value ca) 0) as [b0|]; [|done]. simpl_bind.
  destruct (index (value ca) 1) as [b1|]; [|done]. simpl_bind. run_section.
  destruct (ChannelTable_bind _ _ _ _ _) as [r c]. simpl_bind. destruct (is_ok r); [|done].
  run_section. by destruct (sign_response _ _ _ _).
Qed.

Lemma alone_send env msg client s :
  alone (handle_send_c env msg client) s = Ret (handle_send env msg client s).
Proof.
  unfold handle_send_c, handle_send. run_section.
  destruct (find_allocation_by_client _ _) as [k|]; [|done].
  destruct (get_attribute msg PEER_ADDRESS) as [pa|]; [|done].
  destruct (decode_xor_address _ _ _) as [peer|]; [|done].
  destruct (get_attribute msg DATA) as [da|]; [|done]. rewrite alone_bind.
  unfold send_to_peer_c, send_to_peer. run_section.
  destruct (entry_by_client _ client) as [[k' a]|] eqn:E; [|by rewrite set_table_id].
  destruct (negb _); [by rewrite set_table_id|]. destruct (relay a) as [r|] eqn:Hr; [|by rewrite set_table_id].
  destruct (env_io env); [|by rewrite set_table_id]. rewrite alone_bind, alone_on_table. simpl_bind. cbn [fst snd].
  apply entry_by_client_Some in E as [Ha _]. unfold count_if_same. cbn [set_stats allocations].
  by rewrite Ha, Hr, decide_True.
Qed.

Lemma alone_process env msg client s :
  alone (process_message_c env msg client) s = process_message env msg client s.
Proof.
  unfold process_message_c, process_message. run_section.
  destruct (bool_decide _ && _); [done|]. destruct (negb _ && _); [done|].
  destruct (method (header msg)); try done.
  - apply alone_allocate.
  - apply alone_refresh.
  - apply alone_send.
  - apply alone_permission.
  - apply alone_channel_bind.
Qed.

Lemma alone_channel_data data client s :
  alone (handle_channel_data_c data client) s = Ret (None, handle_channel_data data client s, s).
Proof.
  unfold handle_channel_data_c, handle_channel_data. case_decide; [done|]. run_section.
  destruct (get_allocation_by_client _ _) as [a|]; [|done]. run_section.
  destruct (get_by_channel _ _ _) as [b|]; [|done]. by destruct (relay a).
Qed.

Lemma alone_tcp env data client s :
  alone (handle_tcp_message_c env data client) s = handle_tcp_message env data client s.
Proof.
  unfold handle_tcp_message_c, handle_tcp_message. destruct (is_channel_data_frame data).
  - apply alone_channel_data.
  - destruct (Message_parse data); [apply alone_process|done].
Qed.

Lemma alone_udp env data client s :
  alone (handle_udp_message_c env data client) s = handle_udp_message env data client s.
Proof.
  unfold handle_udp_message_c, handle_udp_message. case_decide; [done|].
  destruct (is_channel_data_frame data); [apply alone_channel_data|].
  destruct (Message_parse data); [apply alone_process|].
  destruct (raw_parse data); [apply alone_process|done].
Qed.
End alone.

(** ** Lemmas: how many sections a request has *)

(** At most [n] sections, whatever each of them finds. *)
Fixpoint within {A} (n : nat) (p : proc A) {struct p} : Prop :=
  match p with
  | Done _ => True
  | Atomic op k => match n with O => False | S n => ∀ b, within n (k b) end
  end.

(** The request after as many sections as there are servers in [ss], each of
    them the server the others have left for that section. *)
Fixpoint under {A} (ss : list TurnServer) (p : proc A) : outcome (proc A) :=
  match ss, p with
  | s :: ss, Atomic op k => '(b, _) ← op s; under ss (k b)
  | _, _ => Ret p
  end.

Lemma within_mono {A} n m (p : proc A) : (n ≤ m)%nat → within n p → within m p.
Proof.
  revert n m. induction p as [a|B op k IH]; intros n m Hle; [done|]. destruct n; [done|]. destruct m; [lia|].
  cbn. intros H b. eapply IH; [|apply H]. lia.
Qed.

Lemma within_bind {A B} n m (p : proc A) (k : A → proc B) :
  within n p → (∀ a, within m (k a)) → within (n + m) (p ≫= k).
Proof.
  revert n. induction p as [a|C op c IH]; intros n; cbn.
  - intros _ Hk. eapply within_mono; [|apply Hk]. lia.
  - destruct n as [|n]; [done|]. cbn. intros Hc Hk b. by apply IH.
Qed.

Lemma within_under {A} ss (p : proc A) :
  within (length ss) p → under ss p = Panic ∨ ∃ a, under ss p = Ret (Done a).
Proof.
  revert p. induction ss as [|s ss IH]; intros [a|B op k]; cbn;
    [by right; eexists|done|by right; eexists|].
  intros H. destruct (op s) as [[b s']|]; [|by left]. cbn. by apply IH.
Qed.

Lemma within_bind_loop env bind left last : within (2 * left) (bind_loop_c env bind left last).
Proof.
  revert last. induction left as [|left IH]; intros last; [done|].
  replace (2 * S left)%nat with (S (S (2 * left))) by lia. cbn.
  intros [port|]; [|done]. destruct (bind_result _); [done|]. cbn. intros _. apply IH.
Qed.

(** One turn through the tests of a handler. *)
Ltac within_next :=
  match goal with
  | |- True => exact I
  | |- within _ (Done _) => done
  | |- within _ (if ?b then _ else _) => destruct b
  | |- within _ (match ?x with _ => _ end) => destruct x
  | |- within _ (match ?x with _ => _ end ≫= _) => destruct x
  | |- ∀ _, _ => intros ?
  end.
Ltac within_few := repeat first [within_next | progress cbn].

Lemma within_create env client life : within 206 (create_allocation_c env client life).
Proof.
  unfold create_allocation_c. cbn [mbind proc_bind reads within]. intros full. within_next; [done|].
  cbn [mbind proc_bind reads within]. intros [[l bind] ext].
  apply (within_bind 200 4); [apply (within_bind_loop _ _ MAX_ATTEMPTS)|].
  intros r. within_few.
Qed.

Section within.
Context `{CR : Crypto} `{HO : HashOrder}.

Lemma within_allocate env msg client : within 211 (handle_allocate_c env msg client).
Proof.
  unfold handle_allocate_c. cbn [mbind proc_bind update tries within]. intros auth. within_next; [|done].
  cbn [mbind proc_bind reads tries within]. intros life old. apply (within_bind 1 207).
  - within_next; cbn; repeat within_next.
  - intros _. apply (within_bind 206 1); [apply within_create|]. intros r. within_next.
    + cbn. repeat within_next.
    + destruct (allocate_error e). cbn. repeat within_next.
Qed.

Lemma within_process env msg client : within 212 (process_message_c env msg client).
Proof.
  unfold process_message_c. cbn [mbind proc_bind reads within]. intros [stun turn].
  repeat (within_next; [done|]). destruct (method (header msg)); [done|apply within_allocate|..]; try done;
    (apply (within_mono 10); [lia|]).
  - unfold handle_refresh_c, mismatch_c. within_few.
  - unfold handle_create_permission_c, mismatch_c. within_few.
  - unfold handle_channel_bind_c. within_few.
  - unfold handle_send_c, send_to_peer_c. within_few.
Qed.

Lemma within_channel_data data client : within 212 (handle_channel_data_c data client).
Proof. apply (within_mono 2); [lia|]. unfold handle_channel_data_c. within_few. Qed.
End within.

(** ** Properties *)

(** C26. The one-step handlers are the requests that nothing interleaves with: run
    alone, the sections of a datagram's or a frame's handler give exactly the
    answer, the packets and the server of [handle_udp_message] and
    [handle_tcp_message], panics included. *)
Theorem request_alone_is_handler `{CR : Crypto} `{HO : HashOrder} env data client s :
  alone (handle_udp_message_c env data client) s = handle_udp_message env data client s ∧
  alone (handle_tcp_message_c env data client) s = handle_tcp_message env data client s.
Proof. split; [apply alone_udp|apply alone_tcp]. Qed.

(** C27. A request ends, whatever the others do: however they change the server
    between any two of its sections, and however often a bind fails, a datagram
    or a frame is answered, or its handler has panicked, after at most 212
    sections. *)
Theorem request_ends_under_interference `{CR : Crypto} `{HO : HashOrder} env data client ss :
  length ss = 212%nat →
  (under ss (handle_udp_message_c env data client) = Panic ∨
   ∃ a, under ss (handle_udp_message_c env data client) = Ret (Done a)) ∧
  (under ss (handle_tcp_message_c env data client) = Panic ∨
   ∃ a, under ss (handle_tcp_message_c env data client) = Ret (Done a)).
Proof.
  intros Hl. split; apply within_under; rewrite Hl; [unfold handle_udp_message_c|unfold handle_tcp_message_c];
    repeat (apply within_process || apply within_channel_data || within_next).
Qed.

Lemma request_ends_under_interference_witness :
  ∃ a, under (replicate 212 sample_server)
         (handle_udp_message_c (CR := toy_crypto) (HO := map_order) sample_env (Message_encode (request Allocate [])) sample_client)
       = Ret (Done a).
Proof.
  destruct (@request_ends_under_interference toy_crypto map_order sample_env (Message_encode (request Allocate []))
    sample_client (replicate 212 sample_server) eq_refl) as [[H|H] _]; [|exact H].
  exfalso. revert H. vm_compute. discriminate.
Defined.
