(* ===== verification/Panics.v ===== *)
(** * Which requests panic, and what a panic leaves behind (src/server.rs)

    A handler indexes and slices attribute values without looking at their
    length.  This file determines exactly which requests unwind, and shows with
    the sections of HandlerRace that one that does has changed nothing before:
    so the runs of System, in which such a request is no step, miss nothing. *)

From S2P Require Import Prelude RustStd StunMessage Errors Ports Channels Bandwidth Auth Alloc Framing Crypto.
From S2P Require Import Server ServerSpec System HandlerRace.
Local Open Scope Z_scope.

(** ** What an unwinding request leaves *)

(** The server when a proc, run alone, returns or unwinds. *)
Fixpoint left_by {A} (p : proc A) (s : TurnServer) : TurnServer :=
  match p with
  | Done _ => s
  | Atomic op k => match op s with Ret (b, s) => left_by (k b) s | Panic => s end
  end.

(** ** Authentication *)

Section panics.
Context `{CR : Crypto} `{CL : !CryptoLaws} `{HO : HashOrder}.

(** Everything authentication looks at before the MAC is right, and the
    MESSAGE-INTEGRITY is shorter than a MAC. *)
Definition integrity_too_short (env : MsgEnv) (msg : Message) (client : SocketAddr) (s : TurnServer) : Prop :=
  auth_disabled s = false ∧ acl_allows s client = true ∧
  ∃ na ua entry pw mi, get_attribute msg NONCE = Some na ∧ get_attribute msg USERNAME = Some ua ∧
    nonce_map s !! from_utf8_lossy (value na) = Some entry ∧
    as_secs (elapsed (env_now env) (nonce_created_at entry)) ≤ 600 ∧
    get_password_for_user (env_unix env) s (from_utf8_lossy (value ua)) = Some pw ∧
    get_attribute msg MESSAGE_INTEGRITY = Some mi ∧ (length (value mi) < 20)%nat.

Lemma auth_panics_iff env msg client s :
  verify_turn_auth env msg client s = Panic ↔ integrity_too_short env msg client s.
Proof.
  unfold verify_turn_auth, create_401_response, integrity_too_short. cbv beta zeta.
  destruct (auth_disabled s); [split; [done|by intros [? _]]|].
  destruct (acl_allows s client); cbn [negb]; [|split; [done|by intros (_ & ? & _)]].
  destruct (get_attribute msg NONCE) as [na|] eqn:En; [|split; [done|by intros (_ & _ & ? & ? & ? & ? & ? & ? & _)]].
  destruct (get_attribute msg USERNAME) as [ua|] eqn:Eu; [|split; [done|by intros (_ & _ & ? & ? & ? & ? & ? & _ & ? & _)]].
  split.
  - destruct (nonce_map s !! _) as [entry|] eqn:Ee; [|done].
    destruct (Z.ltb_spec 600 (as_secs (elapsed (env_now env) (nonce_created_at entry)))); [done|].
    destruct (get_password_for_user _ _ _) as [pw|] eqn:Ep; [|done].
    unfold verify_message_integrity. destruct (get_attribute msg MESSAGE_INTEGRITY) as [mi|] eqn:Em; cbn; [|done].
    rewrite slice_to_hmac. simpl_bind. unfold slice_to. case_decide as Hl; [simpl_bind; by destruct (negb _)|].
    intros _. split; [done|]. split; [done|]. exists na, ua, entry, pw, mi. split_and!; (done || lia).
  - intros (_ & _ & na' & ua' & entry & pw & mi & [= <-] & [= <-] & -> & Hage & Hpw & Hmi & Hl).
    destruct (Z.ltb_spec 600 (as_secs (elapsed (env_now env) (nonce_created_at entry)))); [lia|].
    rewrite Hpw. unfold verify_message_integrity. rewrite Hmi, slice_to_hmac. simpl_bind.
    unfold slice_to. by rewrite decide_False by lia.
Qed.

Lemma get_lifetime_panics_iff msg :
  get_lifetime msg = Panic ↔ ∃ a, get_attribute msg LIFETIME = Some a ∧ (length (value a) < 4)%nat.
Proof.
  unfold get_lifetime. destruct (get_attribute msg LIFETIME) as [a|]; [|split; [done|by intros (? & ? & _)]].
  case_decide; split; try done; [intros _; by exists a|]. intros (? & [= <-] & ?). lia.
Qed.

(** ** The handlers *)

(** A short LIFETIME in an accepted Allocate or Refresh, a short CHANNEL-NUMBER
    in an accepted ChannelBind of a client that has an allocation. *)
Definition attribute_too_short (msg : Message) (client : SocketAddr) (s : TurnServer) : Prop :=
  match method (header msg) with
  | Allocate | Refresh => ∃ a, get_attribute msg LIFETIME = Some a ∧ (length (value a) < 4)%nat
  | ChannelBind => is_Some (find_allocation_by_client (allocation_table s) client) ∧
      is_Some (get_attribute msg PEER_ADDRESS) ∧
      ∃ a, get_attribute msg CHANNEL_NUMBER = Some a ∧ (length (value a) < 2)%nat
  | _ => False
  end.

Definition accepted (env : MsgEnv) (msg : Message) (client : SocketAddr) (s : TurnServer) : Prop :=
  ∃ name, verify_turn_auth env msg client s = Ret (Ok name, s).

(** A handler that authenticates first panics there, or after. *)
Lemma auth_then_panics {A} env msg client s (k : string → TurnServer → outcome A) (d : list Z → TurnServer → A) (short : Prop) :
  (∀ name, verify_turn_auth env msg client s = Ret (Ok name, s) → k name s = Panic ↔ short) →
  ('(auth, s) ← verify_turn_auth env msg client s;
   match auth with Err resp => Ret (d resp s) | Ok name => k name s end) = Panic ↔
  integrity_too_short env msg client s ∨ accepted env msg client s ∧ short.
Proof.
  intros Hk. rewrite <- auth_panics_iff. unfold accepted.
  destruct (verify_turn_auth env msg client s) as [[[name|resp] s1]|] eqn:E; simpl_bind.
  - apply verify_ok_same in E as ->. rewrite (Hk name eq_refl). naive_solver.
  - naive_solver.
  - naive_solver.
Qed.

Lemma signed_no_panic env name r s : no_integrity (attributes r) → returns (sign_response env name r s).
Proof. intros H. destruct (sign_response_total env name r s H) as (r' & -> & _). by eexists. Qed.

Lemma handle_allocate_panics env msg client s :
  srv_ok s →
  handle_allocate env msg client s = Panic ↔
  integrity_too_short env msg client s ∨ accepted env msg client s ∧
    ∃ a, get_attribute msg LIFETIME = Some a ∧ (length (value a) < 4)%nat.
Proof.
  intros Hs. apply (auth_then_panics env msg client s _ (λ resp s, (Some resp, [], s))). intros name _.
  rewrite <- get_lifetime_panics_iff. destruct (get_lifetime msg) as [life|]; simpl_bind; [|done].
  split; [|done]. destruct (drop_old_spec (env_weak env) client s Hs) as (Hs2 & _).
  set (s2 := match find_allocation_by_client _ _ with Some _ => _ | None => s end) in *.
  destruct (create_spec (env_create env) client (Some life) _ (so_table _ Hs2)) as (r & t & -> & _). simpl_bind.
  destruct r as [a|e]; [|by destruct (allocate_error e)].
  destruct (signed_no_panic env name (allocate_success msg (relayed_addr a) client life (set_table t s2)) (set_table t s2))
    as [r ->]; [repeat constructor; discriminate|done].
Qed.

Lemma handle_refresh_panics env msg client s :
  handle_refresh env msg client s = Panic ↔
  integrity_too_short env msg client s ∨ accepted env msg client s ∧
    ∃ a, get_attribute msg LIFETIME = Some a ∧ (length (value a) < 4)%nat.
Proof.
  apply (auth_then_panics env msg client s _ (λ resp s, (Some resp, [], s))). intros name _.
  rewrite <- get_lifetime_panics_iff. destruct (get_lifetime msg) as [life|]; simpl_bind; [|done].
  split; [|done]. destruct (find_allocation_by_client _ _) as [k|]; [|done].
  match goal with |- context [let '(ok, s0) := ?e in _] => destruct e as [ok s'] end.
  destruct ok; cbn [negb]; [|done].
  match goal with |- context [sign_response env name ?r s'] => destruct (signed_no_panic env name r s') as [r' ->] end;
    [repeat constructor; discriminate|done].
Qed.

Lemma handle_permission_panics env msg client s :
  handle_create_permission env msg client s = Panic ↔
  integrity_too_short env msg client s ∨ accepted env msg client s ∧ False.
Proof.
  apply (auth_then_panics env msg client s _ (λ resp s, (Some resp, [], s))). intros name _. split; [|done].
  destruct (find_allocation_by_client _ _) as [k|]; [|done]. cbv zeta.
  destruct (bool_decide (peers_of msg = [])); [done|].
  destruct (add_permissions _ _ _) as [added t]. destruct added; cbn [negb]; [|done].
  destruct (signed_no_panic env name (create_success_response (header msg)) (set_table t s)) as [r ->]; [constructor|done].
Qed.

Lemma index_panics {A} (l : list A) (i : nat) : index l i = Panic ↔ (length l ≤ i)%nat.
Proof. unfold index. rewrite <- lookup_ge_None. by destruct (l !! i). Qed.

Lemma handle_channel_bind_panics env msg client s :
  handle_channel_bind env msg client s = Panic ↔
  integrity_too_short env msg client s ∨ accepted env msg client s ∧
    (is_Some (find_allocation_by_client (allocation_table s) client) ∧ is_Some (get_attribute msg PEER_ADDRESS) ∧
     ∃ a, get_attribute msg CHANNEL_NUMBER = Some a ∧ (length (value a) < 2)%nat).
Proof.
  apply (auth_then_panics env msg client s _ (λ resp s, (Some resp, [], s))). intros name _.
  destruct (find_allocation_by_client _ _) as [k|]; [|split; [done|by intros ([? ?] & _)]].
  destruct (get_attribute msg PEER_ADDRESS) as [pa|]; [|split; [done|by intros (_ & [? ?] & _)]].
  destruct (get_attribute msg CHANNEL_NUMBER) as [ca|]; [|split; [done|by intros (_ & _ & ? & ? & _)]].
  pose proof (index_panics (value ca) 0) as H0. pose proof (index_panics (value ca) 1) as H1.
  destruct (index (value ca) 0) as [b0|]; simpl_bind.
  2:{ split; [|done]. intros _. split; [done|]. split; [done|]. exists ca. split; [done|]. pose proof (proj1 H0 eq_refl). lia. }
  destruct (index (value ca) 1) as [b1|]; simpl_bind.
  2:{ split; [|done]. intros _. split; [done|]. split; [done|]. exists ca. split; [done|]. pose proof (proj1 H1 eq_refl). lia. }
  split.
  - destruct (ChannelTable_bind _ _ _ _ _) as [r c]. destruct (is_ok r); [|done].
    destruct (signed_no_panic env name (create_success_response (header msg)) (set_channel_table c s)) as [x ->]; [constructor|done].
  - intros (_ & _ & a & [= <-] & Hl). destruct H1 as [_ H1]. discriminate H1. lia.
Qed.

(** The requests that unwind. *)
Definition crashes (env : MsgEnv) (msg : Message) (client : SocketAddr) (s : TurnServer) : Prop :=
  needs_auth (method (header msg)) ∧ turn_enabled s = true ∧
  (integrity_too_short env msg client s ∨ accepted env msg client s ∧ attribute_too_short msg client s).

Lemma process_panics_iff env msg client s :
  srv_ok s → process_message env msg client s = Panic ↔ crashes env msg client s.
Proof.
  intros Hs. unfold process_message, crashes, attribute_too_short, needs_auth.
  destruct (method (header msg)) eqn:Em; cbn [negb andb bool_decide decide decide_rel Method_eq_dec];
    rewrite ?andb_false_r; destruct (turn_enabled s); cbn;
    try (split; [by repeat case_match|naive_solver]);
    rewrite ?bool_decide_eq_false_2 by done; cbn [negb andb].
  - rewrite handle_allocate_panics by done. naive_solver.
  - rewrite handle_refresh_panics. naive_solver.
  - rewrite handle_permission_panics. naive_solver.
  - rewrite handle_channel_bind_panics. naive_solver.
Qed.

(** ** What was changed before *)

Lemma auth_panic_traceless env msg client s :
  needs_auth (method (header msg)) → verify_turn_auth env msg client s = Panic →
  left_by (process_message_c env msg client) s = s.
Proof.
  intros Hm Hv. unfold process_message_c. cbn [mbind proc_bind reads left_by].
  destruct (bool_decide _ && _); [done|]. destruct (negb _ && _); [done|].
  destruct Hm as [-> | [-> | [-> | ->]]]; unfold handle_allocate_c, handle_refresh_c, handle_create_permission_c,
    handle_channel_bind_c; cbn [mbind proc_bind update left_by]; by rewrite Hv.
Qed.

Lemma attribute_panic_traceless env msg client s :
  accepted env msg client s → attribute_too_short msg client s →
  left_by (process_message_c env msg client) s = s.
Proof.
  intros [name Hv] Hs. unfold process_message_c. cbn [mbind proc_bind reads left_by].
  destruct (bool_decide _ && _); [done|]. destruct (negb _ && _); [done|].
  unfold attribute_too_short in Hs. destruct (method (header msg)); try done.
  - apply get_lifetime_panics_iff in Hs. unfold handle_allocate_c. cbn [mbind proc_bind update tries left_by].
    rewrite Hv. cbn [mbind proc_bind tries left_by]. by rewrite Hs.
  - apply get_lifetime_panics_iff in Hs. unfold handle_refresh_c. cbn [mbind proc_bind update tries left_by].
    rewrite Hv. cbn [mbind proc_bind tries left_by]. by rewrite Hs.
  - destruct Hs as ([k Hk] & [pa Hpa] & ca & Hca & Hl).
    unfold handle_channel_bind_c. cbn [mbind proc_bind update left_by]. rewrite Hv.
    cbn [mbind proc_bind reads left_by]. rewrite Hk, Hpa, Hca. cbn [mbind proc_bind tries left_by].
    destruct (value ca) as [|b0 [|b1 l]]; [done|done|cbn in Hl; lia].
Qed.
End panics.

(** ** Properties *)

(** C19. Exactly which requests unwind, and that they leave no trace.  With TURN
    enabled, a request that needs authentication panics its task exactly if
    everything authentication looks at before the MAC is right and its
    MESSAGE-INTEGRITY is shorter than 20 bytes, or it is accepted and its
    LIFETIME (Allocate, Refresh) is shorter than four bytes or its
    CHANNEL-NUMBER (ChannelBind with a peer address, of a client that has an
    allocation) shorter than two; no other request panics.  The sections that
    ran before the panic have changed nothing of the server. *)
Theorem panics_exactly `{CR : Crypto} `{CL : !CryptoLaws} `{HO : HashOrder} env msg client s :
  srv_ok s →
  (process_message env msg client s = Panic ↔ crashes env msg client s) ∧
  (process_message env msg client s = Panic → left_by (process_message_c env msg client) s = s).
Proof.
  intros Hs. split; [by apply process_panics_iff|]. rewrite process_panics_iff by done.
  intros (Hm & _ & [Hi|[Ha Ht]]); [|by eapply attribute_panic_traceless].
  apply auth_panic_traceless; [done|by apply auth_panics_iff].
Qed.

Lemma panics_exactly_witness :
  left_by (process_message_c (CR := toy_crypto) (HO := map_order) sample_env
    (request Refresh (credentials ++ [mkAttr MESSAGE_INTEGRITY [1; 2; 3; 4]])) sample_client) challenged = challenged.
Proof.
  refine (proj2 (@panics_exactly toy_crypto toy_laws map_order sample_env
    (request Refresh (credentials ++ [mkAttr MESSAGE_INTEGRITY [1; 2; 3; 4]])) sample_client challenged _) _).
  - apply srv_ok_nonces, sample_server_ok.
  - vm_compute. reflexivity.
Defined.
