(* ===== verification/RaceSafety.v ===== *)
(** * What interleaved requests cannot break, and what they can (src/server.rs, src/allocation.rs)

    The handlers of HandlerRace run interleaved, section by section, with each
    other and with the background ([cstep]).  The invariant is proved with a
    small ownership logic: a request in flight owns the port it has taken and
    the relay task it has spawned ([Flight]); [erase] is the table as it would be
    without the flights, over a port pool that is just a set, and satisfies the
    invariant of Alloc; [wp] is the weakest precondition of a proc under any
    interference that keeps it. *)

From S2P Require Import Prelude RustStd StunMessage Errors Ports Channels Bandwidth Auth Alloc Framing Crypto.
From S2P Require Import Server ServerSpec System HandlerRace.
From stdpp Require Import relations.
Local Open Scope Z_scope.

(** ** Flights and the invariant *)

(** What a request in flight owns: a port, and the task spawned on it with the
    client it serves. *)
Record Flight := mkFlight { fl_port : Z; fl_task : option (Z * SocketAddr) }.

(** A port pool that is just a set: the pool as it would be without the ports
    of the flights. *)
Record IdealPool := mkIdeal { ideal_range : Z * Z; ideal_ports : gset Z }.

Definition ideal_free (p : IdealPool) : list Z :=
  filter (λ q, q ∉ ideal_ports p) (seqZ (ideal_range p).1 ((ideal_range p).2 - (ideal_range p).1 + 1)).

Definition ideal_allocate (p : IdealPool) : outcome (option Z * IdealPool) :=
  match ideal_free p with
  | [] => Ret (None, p)
  | q :: _ => Ret (Some q, mkIdeal (ideal_range p) ({[q]} ∪ ideal_ports p))
  end.

#[global] Program Instance ideal_pool : PortPool IdealPool := {|
  pool_ok _ := True;
  pool_range := ideal_range;
  pool_ports := ideal_ports;
  pool_allocate _ _ _ p := ideal_allocate p;
  pool_release _ q p := (bool_decide (q ∈ ideal_ports p), mkIdeal (ideal_range p) (ideal_ports p ∖ {[q]}))
|}.
Next Obligation.
  intros r1 r2 weak p _. unfold ideal_allocate. destruct (ideal_free p) as [|q l] eqn:E; eexists _, _; (split; [done|]).
  - split_and!; try done. intros port Hp. apply dec_stable. intros Hn.
    assert (port ∈ ideal_free p) as Hin; [|rewrite E in Hin; by apply not_elem_of_nil in Hin].
    apply list_elem_of_filter. split; [done|]. apply elem_of_seqZ. lia.
  - assert (q ∈ ideal_free p) as [Hq Hr%elem_of_seqZ]%list_elem_of_filter by (rewrite E; by left).
    split_and!; (done || lia).
Qed.
Next Obligation. done. Qed.
Next Obligation. intros r1 r2 weak p r p'. unfold ideal_allocate. by destruct (ideal_free p); intros [= _ <-]. Qed.
Next Obligation. done. Qed.

Definition held (l : list Flight) : gset Z := list_to_set (fl_port <$> l).
Definition handles (l : list Flight) : list Z := omap (λ f, fst <$> fl_task f) l.

(** The table without what the flights hold. *)
Definition erase (l : list Flight) (t : AllocationTable PortAllocator) : AllocationTable IdealPool :=
  mkTable IdealPool (allocations t)
    (mkIdeal (pool_range (port_allocator t)) (pool_ports (port_allocator t) ∖ held l))
    (bind_addr t) (external_addr t) (table_realm t) (stats t) (max_concurrent_allocations t)
    (max_allocation_duration_secs t) (bandwidth_manager t) (main_socket t) (client_transports t)
    (filter (λ '(h, _), h ∉ handles l) (tasks t)) (next_task t).

(** A spawned task is of no allocation yet, and serves its flight. *)
Definition flight_ok (t : AllocationTable PortAllocator) (f : Flight) : Prop :=
  fl_port f ∈ pool_ports (port_allocator t) ∧ in_u16 (fl_port f) ∧
  ∀ h c, fl_task f = Some (h, c) →
    h < next_task t ∧
    (∀ k a r, allocations t !! k = Some a → relay a = Some r → task_handle r ≠ h) ∧
    (∀ task, tasks t !! h = Some task →
       task = mkTask c (SaV4 (bind_addr t) (fl_port f)) (SaV4 (external_addr t) (fl_port f))).

Record holds_core (l : list Flight) (t : AllocationTable PortAllocator) : Prop := {
  hc_core : table_core (erase l t);
  hc_pool : pool_ok (port_allocator t);
  hc_flights : Forall (flight_ok t) l;
  hc_ports : NoDup (fl_port <$> l);
  hc_handles : NoDup (handles l)
}.

Definition holds_table (l : list Flight) (t : AllocationTable PortAllocator) : Prop :=
  holds_core l t ∧ active_allocations (stats t) = Z.of_nat (size (allocations t)).

(** The core invariant is about what the pool says, not which pool it is. *)
Lemma core_transfer {P Q} `{PortPool P} `{PortPool Q} (t : AllocationTable P) (u : AllocationTable Q) :
  table_core t → Ports.pool_ok (port_allocator u) →
  pool_range (port_allocator u) = pool_range (port_allocator t) →
  pool_ports (port_allocator u) = pool_ports (port_allocator t) →
  allocations u = allocations t → external_addr u = external_addr t → bind_addr u = bind_addr t →
  trackers (bandwidth_manager u) = trackers (bandwidth_manager t) → tasks u = tasks t →
  next_task t ≤ next_task u → table_core u.
Proof.
  intros [Hp Hr He Hq Ht Hk Hf] Hok Er Ep Ea Ee Eb Et Es Hn.
  split; rewrite ?Er, ?Ep, ?Ea, ?Ee, ?Eb, ?Et, ?Es; try done.
  intros k a Ha. destruct (He k a Ha) as (p & h & -> & ? & ? & ? & ? & ? & ?). exists p, h.
  rewrite Ee, Eb, Es. split_and!; (done || lia).
Qed.

Lemma erase_nil_tasks t : tasks (erase [] t) = tasks t.
Proof. apply map_filter_id. intros i x _. apply not_elem_of_nil. Qed.
Lemma erase_nil_ports t : pool_ports (port_allocator (erase [] t)) = pool_ports (port_allocator t).
Proof. cbn [erase port_allocator pool_ports ideal_pool ideal_ports held fmap list_fmap list_to_set]. set_solver. Qed.

(** With nothing in flight this is the invariant of Alloc. *)
Lemma holds_table_nil t : holds_table [] t ↔ table_ok t.
Proof.
  unfold holds_table, table_ok. split; intros [Hc Hn]; (split; [|done]).
  - by apply (core_transfer (erase [] t) t); try done;
      [apply Hc|apply Hc|rewrite erase_nil_ports|rewrite erase_nil_tasks].
  - split; [|apply Hc|apply list.Forall_nil_2|apply NoDup_nil_2|apply NoDup_nil_2].
    apply (core_transfer t (erase [] t)); try done; [apply erase_nil_ports|apply erase_nil_tasks].
Qed.

(** ** Lemmas: what the sections do to the invariant *)

Lemma held_cons f l : held (f :: l) = {[fl_port f]} ∪ held l.
Proof. done. Qed.

Lemma elem_held p l : p ∈ held l ↔ ∃ f, f ∈ l ∧ fl_port f = p.
Proof. unfold held. rewrite elem_of_list_to_set, list_elem_of_fmap. naive_solver. Qed.

Lemma elem_handles h l : h ∈ handles l ↔ ∃ f c, f ∈ l ∧ fl_task f = Some (h, c).
Proof.
  unfold handles. rewrite list_elem_of_omap. split.
  - intros (f & Hf & E). destruct (fl_task f) as [[h' c]|] eqn:Et; [|done]. cbn in E. simplify_eq. eauto.
  - intros (f & c & Hf & E). exists f. by rewrite E.
Qed.

#[global] Instance holds_table_perm : Proper ((≡ₚ) ==> (=) ==> iff) holds_table.
Proof.
  assert (H : ∀ l l' t, l ≡ₚ l' → holds_table l t → holds_table l' t).
  { intros l l' t Hp [[Hc Hok Hf Hn Hh] Ha]. split; [|done].
    assert (Hhp : handles l ≡ₚ handles l') by (by apply omap_Permutation).
    split; [|done|by rewrite <- Hp|by rewrite <- Hp|by rewrite <- Hhp].
    apply (core_transfer (erase l t)); try done; cbn [erase port_allocator pool_ports ideal_pool ideal_ports tasks].
    - unfold held. by rewrite (fmap_Permutation fl_port _ _ Hp).
    - apply map_filter_ext. intros i x _. by rewrite Hhp. }
  intros l l' Hp t t' <-. split; apply H; [done|by symmetry].
Qed.

(** Sections that change nothing the flights and the core speak of. *)
Lemma flight_ok_mono t t' f :
  flight_ok t f →
  (fl_port f ∈ pool_ports (port_allocator t) → fl_port f ∈ pool_ports (port_allocator t')) →
  bind_addr t' = bind_addr t → external_addr t' = external_addr t → next_task t ≤ next_task t' →
  (∀ h k a r, h ∈ handles [f] → allocations t' !! k = Some a → relay a = Some r → task_handle r = h →
     ∃ k' a' r', allocations t !! k' = Some a' ∧ relay a' = Some r' ∧ task_handle r' = h) →
  (∀ h task, h ∈ handles [f] → tasks t' !! h = Some task → tasks t !! h = Some task) →
  flight_ok t' f.
Proof.
  intros (Hp & Hu & Ht) Hports Eb Ee Hn Ha Hs. split; [by apply Hports|]. split; [done|].
  intros h c E. destruct (Ht h c E) as (Hlt & Huse & Htask).
  assert (Hin : h ∈ handles [f]) by (apply elem_handles; exists f, c; split; [by left|done]).
  split; [lia|]. split.
  - intros k a r Hk Hr Eh. destruct (Ha h k a r Hin Hk Hr Eh) as (k' & a' & r' & ? & ? & ?). by eapply Huse.
  - intros task Hl. rewrite Eb, Ee. by apply Htask, Hs.
Qed.

Lemma flights_mono l t t' :
  Forall (flight_ok t) l →
  (∀ f, f ∈ l → fl_port f ∈ pool_ports (port_allocator t) → fl_port f ∈ pool_ports (port_allocator t')) →
  bind_addr t' = bind_addr t → external_addr t' = external_addr t → next_task t ≤ next_task t' →
  (∀ h k a r, h ∈ handles l → allocations t' !! k = Some a → relay a = Some r → task_handle r = h →
     ∃ k' a' r', allocations t !! k' = Some a' ∧ relay a' = Some r' ∧ task_handle r' = h) →
  (∀ h task, h ∈ handles l → tasks t' !! h = Some task → tasks t !! h = Some task) →
  Forall (flight_ok t') l.
Proof.
  rewrite !list.Forall_forall. intros H Hp Eb Ee Hn Ha Hs f Hf.
  assert (Hin : ∀ h, h ∈ handles [f] → h ∈ handles l).
  { intros h (f' & c & ->%list_elem_of_singleton & E)%elem_handles. apply elem_handles. eauto. }
  apply (flight_ok_mono t t' f); eauto.
Qed.

(** An update of one allocation in place, with the statistics. *)
Lemma holds_update l t s k a b :
  holds_table l t → allocations t !! k = Some a → same_identity a b →
  active_allocations s = active_allocations (stats t) →
  holds_table l (set_allocations (<[k := b]> (allocations t)) (set_stats s t)).
Proof.
  intros [[Hc Hok Hf Hn Hh] Ha] Hk Hi Hs. split.
  - split; [exact (core_update (erase l (set_stats s t)) k a b (core_stats s _ Hc) Hk Hi)|done| |done|done].
    apply (flights_mono l t); [done|done|done|done|cbn; lia| |done]. cbn. intros h k' a' r' _ Hk' Hr' E.
    apply lookup_insert_Some in Hk' as [[<- <-]|[_ Hk']]; [|by exists k', a', r'].
    destruct Hi as (_ & _ & _ & Er). exists k, a, r'. by rewrite Er.
  - cbn. by rewrite Hs, map_size_insert_Some by (by eexists).
Qed.

Lemma holds_core_stats l t s :
  holds_core l t → active_allocations s = Z.of_nat (size (allocations t)) → holds_table l (set_stats s t).
Proof.
  intros [Hc Hok Hf Hn Hh] Ha. split; [|done].
  split; [exact (core_stats s _ Hc)|done| |done|done]. apply (flights_mono l t); [done|done|done|done|cbn; lia| |done]. cbn. intros h k a ? _ ? ? ?. by repeat eexists.
Qed.

Lemma holds_stats l t s :
  active_allocations s = active_allocations (stats t) → holds_table l t → holds_table l (set_stats s t).
Proof. intros Hs [Hc Ha]. apply holds_core_stats; [done|]. by rewrite Hs. Qed.

Lemma holds_transports l t m r : holds_table l t → holds_table l (set_transports m r t).
Proof.
  intros [[Hc Hok Hf Hn Hh] Ha]. split; [|done].
  split; [exact (core_transports m r _ Hc)|done| |done|done].
  apply (flights_mono l t); [done|done|done|done|cbn; lia| |done]. cbn. intros h k a ? _ ? ? ?. by repeat eexists.
Qed.

Lemma holds_task_ends l t h :
  holds_table l t → holds_table l (set_tasks (delete h (tasks t)) (next_task t) t).
Proof.
  intros [[Hc Hok Hf Hn Hh] Ha]. split; [|done]. split; [|done| |done|done].
  - apply (core_transfer (set_tasks (delete h (tasks (erase l t))) (next_task t) (erase l t))); try done.
    + exact (core_task_ends h _ Hc).
    + cbn. by rewrite map_filter_delete.
  - apply (flights_mono l t); [done|done|done|done|cbn; lia|cbn; intros; by repeat eexists|]. cbn. by intros h' task _ [_ ?]%lookup_delete_Some.
Qed.

(** Removal: the released port is none of the flights'. *)
Lemma erase_release weak l k a m t :
  Ports.pool_ok (port_allocator t) →
  erase l (release_resources weak k a (set_allocations m t)) =
  release_resources weak k a (set_allocations m (erase l t)).
Proof.
  intros Hok. pose proof (pool_release_spec weak (sa_port k) (port_allocator t) Hok) as Hr.
  unfold release_resources. cbn [relay]. destruct (relay a) as [r|]; cbn -[pool_release pool_ports pool_range];
    destruct (pool_release weak (sa_port k) (port_allocator t)) as [b q]; destruct Hr as (_ & Hrng & _ & Hports);
    unfold erase, set_bandwidth, set_ports, set_tasks, set_allocations;
    cbn -[pool_release pool_ports pool_range filter]; cbn [pool_release ideal_pool snd ideal_range ideal_ports];
    rewrite Hrng, Hports, ?map_filter_delete; do 2 f_equal; apply set_eq; set_solver.
Qed.

Lemma holds_core_release weak l k a t :
  holds_core l t → allocations t !! k = Some a →
  holds_core l (release_resources weak k a (set_allocations (delete k (allocations t)) t)).
Proof.
  intros [Hc Hok Hf Hn Hh] Hk. pose proof (pool_release_spec weak (sa_port k) (port_allocator t) Hok) as Hr.
  destruct (tc_entry _ Hc k a Hk) as (p & h & -> & Hp & _ & _ & Er & _). cbn [sa_port] in Hr.
  assert (Hport : p ∉ held l).
  { assert (p ∈ pool_ports (port_allocator (erase l t))) as Hin by (apply (tc_port _ Hc); by eexists).
    cbn in Hin. set_solver. }
  split; [|..|done|done].
  - rewrite erase_release by done. exact (proj1 (core_release weak (erase l t) _ a Hc Hk)).
  - unfold release_resources. rewrite Er. cbn -[pool_release].
    destruct (pool_release weak p (port_allocator t)). apply Hr.
  - apply (flights_mono l t); [done|..].
    + intros f Hfl Hin. unfold release_resources. rewrite Er. cbn -[pool_release pool_ports].
      destruct (pool_release weak p (port_allocator t)) as [b q]. cbn [snd]. destruct Hr as (_ & _ & _ & ->).
      apply elem_of_difference. split; [done|]. intros E%elem_of_singleton. apply Hport, elem_held. eauto.
    + unfold release_resources. by rewrite Er.
    + unfold release_resources. by rewrite Er.
    + unfold release_resources. rewrite Er. cbn. lia.
    + unfold release_resources. rewrite Er. cbn. intros h' k' a' r' _ [_ ?]%lookup_delete_Some ? ?. by exists k', a', r'.
    + unfold release_resources. rewrite Er. cbn. by intros h' task _ [_ ?]%lookup_delete_Some.
Qed.

Lemma holds_remove weak k ch l t : holds_table l t → holds_table l (remove_allocation weak k ch t).2.
Proof.
  intros [Hc Ha]. unfold remove_allocation. destruct (allocations t !! k) as [a|] eqn:Hk; [|done]. cbn [snd].
  pose proof (holds_core_release weak l k a t Hc Hk) as Hc'.
  assert (Hok : table_ok (erase l t)) by (split; [apply Hc|done]).
  pose proof (remove_spec weak k ch (erase l t) Hok) as Hr. unfold remove_allocation in Hr.
  cbn [erase allocations] in Hr. rewrite Hk in Hr.
  rewrite <- (erase_release weak l k a (delete k (allocations t)) t (hc_pool _ _ Hc)) in Hr.
  destruct Hr as ([_ Hact] & _ & _). apply holds_core_stats; [exact Hc'|exact Hact].
Qed.

Lemma holds_drop_expired weak keys ch c l t :
  holds_core l t →
  let '(c', ch', t') := drop_expired weak keys ch c t in
  holds_core l t' ∧ drop_expired weak keys ch c (erase l t) = (c', ch', erase l t').
Proof.
  revert ch c t. induction keys as [|k keys IH]; intros ch c t Hc; cbn [drop_expired]; [done|].
  change (allocations (erase l t)) with (allocations t).
  destruct (allocations t !! k) as [a|] eqn:Hk; [|by apply IH].
  rewrite <- (erase_release weak l k a (delete k (allocations t)) t (hc_pool _ _ Hc)).
  apply IH. by apply holds_core_release.
Qed.

Lemma holds_cleanup `{HashOrder} now weak ch l t :
  holds_table l t → holds_table l (cleanup_expired now weak ch t).2.
Proof.
  intros [Hc Ha]. assert (Hok : table_ok (erase l t)) by (split; [apply Hc|done]).
  pose proof (cleanup_spec now weak ch (erase l t) Hok) as Hr. unfold cleanup_expired in *.
  change (expired_keys now (erase l t)) with (expired_keys now t) in Hr.
  pose proof (holds_drop_expired weak (expired_keys now t) ch 0 l t Hc) as Hd.
  destruct (drop_expired weak (expired_keys now t) ch 0 t) as [[c ch'] t']. destruct Hd as [Hc' E].
  rewrite E in Hr. destruct Hr as ([_ Hact] & _ & _). cbn [snd].
  destruct (0 <? c); [|split; [done|exact Hact]]. apply holds_core_stats; [exact Hc'|exact Hact].
Qed.

(** Taking a port begins a flight, returning it ends one. *)
Lemma holds_take_port a l t port p :
  holds_table l t → pool_allocate (draw1 a) (draw2 a) (alloc_weak a) (port_allocator t) = Ret (port, p) →
  match port with
  | Some port => holds_table (mkFlight port None :: l) (set_ports p t)
  | None => holds_table l (set_ports p t)
  end.
Proof.
  intros [[Hc Hok Hf Hn Hh] Ha] E.
  destruct (pool_allocate_spec (draw1 a) (draw2 a) (alloc_weak a) (port_allocator t) Hok)
    as (r & p' & E' & Hok' & Hrng & H). rewrite E in E'. injection E' as <- <-. destruct port as [q|].
  - destruct H as (Hin & Hfree & Hports). split; [|done].
    assert (Hq : q ∉ fl_port <$> l).
    { intros (f & -> & Hfl)%list_elem_of_fmap. rewrite list.Forall_forall in Hf. by destruct (Hf f Hfl). }
    split; [| |apply list.Forall_cons; split| |done].
    + apply (core_transfer (erase l t)); try done; cbn [erase port_allocator set_ports pool_ports pool_range ideal_pool
        ideal_ports ideal_range]. rewrite held_cons, Hports. cbn [fl_port]. set_solver.
    + done.
    + split; [cbn [fl_port port_allocator set_ports]; rewrite Hports; set_solver|]. split; [|done].
      pose proof (tc_range _ Hc) as Hr. cbn [erase port_allocator pool_range ideal_pool ideal_range] in Hr.
      cbn [fl_port]. unfold in_u16. lia.
    + apply (flights_mono l t); [done| |done|done|cbn; lia|cbn; intros; by repeat eexists|done].
      intros f _ Hp. cbn [port_allocator set_ports]. rewrite Hports. set_solver.
    + cbn. by constructor.
  - destruct H as [-> _]. by rewrite set_ports_id.
Qed.

Lemma holds_return_port weak port l t :
  holds_table (mkFlight port None :: l) t →
  holds_table l (set_ports (pool_release weak port (port_allocator t)).2 t).
Proof.
  intros [[Hc Hok Hf Hn Hh] Ha]. pose proof (pool_release_spec weak port (port_allocator t) Hok) as Hr.
  destruct (pool_release weak port (port_allocator t)) as [b q]. destruct Hr as (Hok' & Hrng & _ & Hports). cbn [snd].
  apply list.Forall_cons in Hf as [_ Hf]. cbn in Hn. apply NoDup_cons in Hn as [Hport Hn].
  split; [|done]. split; [|done| |done|done].
  - apply (core_transfer (erase (mkFlight port None :: l) t)); try done;
      cbn [erase port_allocator set_ports pool_ports pool_range ideal_pool ideal_ports ideal_range].
    rewrite held_cons, Hports. cbn [fl_port]. set_solver.
  - apply (flights_mono l t); [done| |done|done|cbn; lia|cbn; intros; by repeat eexists|done].
    intros f Hfl Hp. cbn [port_allocator set_ports]. rewrite Hports. apply elem_of_difference. split; [done|].
    intros E%elem_of_singleton. apply Hport, list_elem_of_fmap. eauto.
Qed.

(** Spawning the relay task; the task table stays below the next handle. *)
Lemma task_below l t h task : holds_core l t → tasks t !! h = Some task → h < next_task t.
Proof.
  intros [Hc Hok Hf Hn Hh] Hl. destruct (decide (h ∈ handles l)) as [(f & c & Hfl & E)%elem_handles|Hnot].
  - rewrite list.Forall_forall in Hf. destruct (Hf f Hfl) as (_ & _ & Ht). by destruct (Ht h c E).
  - destruct (tc_task _ Hc h task) as (a & r & Ha & Hr & <-).
    + cbn [erase tasks]. by apply map_lookup_filter_Some.
    + exact (core_handle_lt (erase l t) _ a r Hc Ha Hr).
Qed.

Lemma holds_spawn port client l t :
  holds_table (mkFlight port None :: l) t →
  let '(r, t') := spawn_allocation_task client (SaV4 (bind_addr t) port) (SaV4 (external_addr t) port) t in
  r = mkRelay (SaV4 (bind_addr t) port) (next_task t) ∧
  holds_table (mkFlight port (Some (next_task t, client)) :: l) t'.
Proof.
  intros [Hcore Ha]. pose proof (task_below _ _ (next_task t) (mkTask client client client) Hcore) as Hb.
  assert (Hnone : tasks t !! next_task t = None).
  { apply eq_None_not_Some. intros [task Hl]. pose proof (task_below _ _ _ _ Hcore Hl). lia. }
  clear Hb. destruct Hcore as [Hc Hok Hf Hn Hh]. cbn [spawn_allocation_task]. split; [done|]. split; [|done].
  assert (Hhn : next_task t ∉ handles l).
  { intros (f & c & Hfl & E)%elem_handles. rewrite list.Forall_forall in Hf.
    destruct (Hf f) as (_ & _ & Ht); [by right|]. destruct (Ht _ _ E) as [? _]. lia. }
  split; [|done| |done|by constructor].
  - apply (core_transfer (erase (mkFlight port None :: l) t)); try done; [|cbn; lia].
    cbn [erase tasks set_tasks]. apply map_eq. intros h. apply option_eq. intros task.
    rewrite !map_lookup_filter_Some. change (handles (mkFlight port (Some (next_task t, client)) :: l))
      with (next_task t :: handles l). change (handles (mkFlight port None :: l)) with (handles l).
    destruct (decide (h = next_task t)) as [-> |Hne].
    + rewrite Hnone. split; [|by intros [? _]]. intros [_ Hx]. exfalso. apply Hx. by left.
    + rewrite lookup_insert_ne by done. rewrite not_elem_of_cons. tauto.
  - apply list.Forall_cons in Hf as [Hport Hf]. apply list.Forall_cons. split.
    + destruct Hport as (Hp & Hu & _). split; [done|]. split; [done|]. intros h c [= <- <-]. cbn. split; [lia|]. split.
      * intros k a r Hk Hr. pose proof (core_handle_lt (erase (mkFlight port None :: l) t) k a r Hc Hk Hr) as Hlt.
        cbn in Hlt. lia.
      * intros task. rewrite lookup_insert_eq. by intros [= <-].
    + apply (flights_mono l t); [done|done|done|done|cbn; lia|cbn; intros; by repeat eexists|].
      cbn. intros h task Hin Hl. rewrite lookup_insert_ne in Hl; [done|]. intros <-. done.
Qed.

(** Entering the allocation ends the flight. *)
Lemma holds_enter env client port h a l t :
  holds_table (mkFlight port (Some (h, client)) :: l) t →
  relayed_addr a = SaV4 (external_addr t) port → client_addr a = client →
  five_tuple a = (client, SaV4 (external_addr t) port) →
  relay a = Some (mkRelay (SaV4 (bind_addr t) port) h) →
  holds_table l (enter_allocation env a t) ∧ allocations t !! SaV4 (external_addr t) port = None.
Proof.
  intros [[Hc Hok Hf Hn Hh] Ha] Era Ecl Eft Erel. set (f := mkFlight port (Some (h, client))) in *.
  apply list.Forall_cons in Hf as [(Hp & Hu & Ht) Hf]. destruct (Ht h client eq_refl) as (Hlt & Huse & Htask).
  cbn in Hn. apply NoDup_cons in Hn as [Hport Hn]. cbn in Hh. apply NoDup_cons in Hh as [Hhl Hh].
  assert (Hheld : port ∉ held l).
  { rewrite elem_held. intros (f' & Hf' & E). apply Hport, list_elem_of_fmap. eauto. }
  assert (Hfree : port ∉ pool_ports (port_allocator (erase (f :: l) t))).
  { cbn [erase port_allocator pool_ports ideal_pool ideal_ports]. rewrite held_cons. cbn [f fl_port]. set_solver. }
  assert (Hnone : allocations t !! SaV4 (external_addr t) port = None).
  { apply eq_None_not_Some. intros Hs. by apply Hfree, (tc_port _ Hc). }
  split; [|done]. unfold enter_allocation. rewrite Era. split.
  - split; [|done| |done|done].
    + apply (core_insert (erase (f :: l) t) (port_allocator (erase l t)) port client (tracker_now env) a
        _ _ _ h); try done; [| |].
      * cbn [erase port_allocator pool_ports ideal_pool ideal_ports]. rewrite held_cons. cbn [f fl_port] in *.
        apply set_eq. intros q. rewrite elem_of_union, !elem_of_difference, elem_of_union, elem_of_singleton.
        destruct (decide (q = port)) as [-> |]; naive_solver.
      * intros task [Hl _]%map_lookup_filter_Some. by apply Htask.
      * intros h' Hne. cbn [erase tasks set_bandwidth set_stats set_allocations]. apply option_eq. intros task.
        rewrite !map_lookup_filter_Some. change (handles (f :: l)) with (h :: handles l).
        rewrite not_elem_of_cons. tauto.
    + apply (flights_mono l t); [done|done|done|done|cbn; lia| |done]. cbn.
      intros h' k' a' r' Hin Hk' Hr' E. apply lookup_insert_Some in Hk' as [[<- <-]|[_ Hk']].
      * rewrite Erel in Hr'. simplify_eq. done.
      * by exists k', a', r'.
  - cbn. pose proof (table_size_bound _ Hc) as Hsz. cbn in Hsz.
    rewrite map_size_insert_None, Ha, as_u64_id by (done || (unfold_words; lia)). lia.
Qed.

(** ** Weakest preconditions under interference *)

Section wp.
Context (ext bnd : Ipv4Addr).

Definition holds (s : TurnServer) (l : list Flight) : Prop :=
  external_addr (allocation_table s) = ext ∧ bind_addr (allocation_table s) = bnd ∧
  holds_table l (allocation_table s).

(** Owning [l], the proc keeps the invariant whatever the others ([F]) own and
    do between its sections, and ends with a result and flights in [Q]; it
    panics only when it owns nothing. *)
Fixpoint wp {A} (p : proc A) (Q : A → list Flight → Prop) (l : list Flight) : Prop :=
  match p with
  | Done a => Q a l
  | Atomic op k =>
    ∀ s F, holds s (l ++ F) →
    match op s with
    | Ret (b, s') => ∃ l', holds s' (l' ++ F) ∧ wp (k b) Q l'
    | Panic => l = []
    end
  end.

Lemma wp_bind {A B} (p : proc A) (k : A → proc B) Q l :
  wp p (λ a l, wp (k a) Q l) l → wp (p ≫= k) Q l.
Proof.
  revert l. induction p as [a|C op j IH]; intros l; cbn; [done|]. intros H s F Hs. specialize (H s F Hs).
  destruct (op s) as [[b s']|]; [|done]. destruct H as (l' & Hs' & Hw). exists l'. split; [done|]. by apply IH.
Qed.

Lemma wp_mono {A} (p : proc A) (Q R : A → list Flight → Prop) l :
  (∀ a l, Q a l → R a l) → wp p Q l → wp p R l.
Proof.
  intros HQ. revert l. induction p as [a|C op j IH]; intros l; cbn; [apply HQ|]. intros H s F Hs.
  specialize (H s F Hs). destruct (op s) as [[b s']|]; [|done]. destruct H as (l' & Hs' & Hw). eauto.
Qed.

Lemma wp_reads {A} (f : TurnServer → A) Q l :
  (∀ s F, holds s (l ++ F) → Q (f s) l) → wp (reads f) Q l.
Proof. intros H s F Hs. exists l. split; [done|]. by eapply H. Qed.

Lemma wp_tries {A} (f : TurnServer → outcome A) (Q : A → list Flight → Prop) : (∀ a, Q a []) → wp (tries f) Q [].
Proof. intros H s F Hs. cbn. destruct (f s) as [a|]; cbn; [|done]. exists []. split; [done|apply H]. Qed.

Lemma wp_update {A} (op : TurnServer → outcome (A * TurnServer)) (Q : A → list Flight → Prop) :
  (∀ s F, holds s F → match op s with Ret (_, s') => holds s' F | Panic => True end) →
  (∀ a, Q a []) → wp (update op) Q [].
Proof.
  intros Hop HQ s F Hs. cbn. specialize (Hop s F Hs). destruct (op s) as [[a s']|]; [|done].
  exists []. split; [exact Hop|apply HQ].
Qed.

(** A section of the table that neither begins nor ends a flight. *)
Definition keeps (f : AllocationTable PortAllocator → AllocationTable PortAllocator) : Prop :=
  ∀ l t, holds_table l t →
    holds_table l (f t) ∧ external_addr (f t) = external_addr t ∧ bind_addr (f t) = bind_addr t.

Lemma wp_on_table {A} (f : AllocationTable PortAllocator → A * AllocationTable PortAllocator)
    (Q : A → list Flight → Prop) l :
  keeps (λ t, (f t).2) → (∀ a, Q a l) → wp (on_table f) Q l.
Proof.
  intros Hk HQ s F (He & Hb & Ht). cbn. specialize (Hk _ _ Ht). cbn beta in Hk.
  destruct (f (allocation_table s)) as [a t]. cbn in Hk. destruct Hk as (? & ? & ?).
  exists l. split; [|apply HQ]. split; [|split]; cbn; (done || congruence).
Qed.

Lemma keeps_transports m g :
  keeps (λ t, set_transports (m t) (g t) t).
Proof. intros l t Ht. split; [by apply holds_transports|done]. Qed.

Lemma keeps_refresh k secs : keeps (λ t, (refresh_allocation k secs t).2).
Proof.
  intros l t Ht. unfold refresh_allocation. destruct (allocations t !! k) as [a|] eqn:Ha; [|done]. split; [|done].
  by apply (holds_update l t (stats t) k a).
Qed.

Lemma keeps_permissions `{HO : HashOrder} c ps : keeps (λ t, (add_permissions c ps t).2).
Proof.
  intros l t Ht. unfold add_permissions. destruct (entry_by_client t c) as [[k a]|] eqn:E; [|done].
  apply entry_by_client_Some in E as [Ha _]. split; [|done]. by apply (holds_update l t (stats t) k a).
Qed.

Lemma keeps_count k h n : keeps (count_if_same k h n).
Proof.
  intros l t Ht. unfold count_if_same. cbn [set_stats allocations].
  destruct (allocations t !! k) as [a|] eqn:Ha; [|split; [by apply holds_stats|done]].
  destruct (relay a) as [r|]; [|split; [by apply holds_stats|done]].
  case_decide; [|split; [by apply holds_stats|done]].
  split; [|done]. by apply (holds_update l t _ k a).
Qed.

Lemma keeps_remove weak k ch : keeps (λ t, (remove_allocation weak k ch t).2).
Proof.
  intros l t Ht. split; [by apply holds_remove|]. pose proof (remove_params weak k ch t) as Hp. by injection Hp.
Qed.

Lemma holds_set_table s t l : holds s l → keeps t → holds (set_table (t (allocation_table s)) s) l.
Proof.
  intros (He & Hb & Ht) Hk. destruct (Hk _ _ Ht) as (? & ? & ?). split; [|split]; cbn; (done || congruence).
Qed.

(** ** Lemmas: the handlers own nothing when they end *)

Definition lands {A} (_ : A) (l : list Flight) : Prop := l = [].

Lemma wp_take_port a Q :
  (∀ port, Q (Some port) [mkFlight port None]) → Q None [] → wp (take_port a) Q [].
Proof.
  intros HS HN s F (He & Hb & Ht). cbn -[pool_allocate].
  destruct (pool_allocate_spec (draw1 a) (draw2 a) (alloc_weak a) _ (hc_pool _ _ (proj1 Ht)))
    as (r & p & E & _). rewrite E. cbn.
  pose proof (holds_take_port a F _ r p Ht E) as H. destruct r as [port|].
  - by exists [mkFlight port None].
  - by exists [].
Qed.

Lemma wp_return_port a port (Q : bool → list Flight → Prop) :
  (∀ b, Q b []) → wp (return_port a port) Q [mkFlight port None].
Proof.
  intros HQ s F (He & Hb & Ht). cbn -[pool_release].
  pose proof (holds_return_port (release_weak a) port F _ Ht) as H.
  destruct (pool_release (release_weak a) port _) as [b p]. by exists [].
Qed.

Lemma wp_bind_loop env left last :
  wp (bind_loop_c env bnd left last)
     (λ r l, match r with Ok port => l = [mkFlight port None] | Err _ => l = [] end) [].
Proof.
  revert last. induction left as [|left IH]; intros last; cbn [bind_loop_c]; [by destruct last as [[]|]|].
  apply wp_bind, wp_take_port; [|done]. intros port. destruct (bind_result _); [done|].
  apply wp_bind, wp_return_port. intros _. apply IH.
Qed.

Lemma wp_create env client life : wp (create_allocation_c env client life) lands [].
Proof.
  unfold create_allocation_c. apply wp_bind, wp_reads. intros s00 F00 _. clear F00. case_match; [done|].
  apply wp_bind, wp_reads. intros s F (He & Hb & _). rewrite He, Hb.
  apply wp_bind. eapply wp_mono; [|apply wp_bind_loop]. intros [port|e] l; cbn beta iota; intros ->; [|done].
  apply wp_bind, wp_reads. intros s0 F0 _. apply wp_bind.
  assert (Hset : ∀ Q : unit → list Flight → Prop, Q tt [mkFlight port None] →
    wp match main_socket (allocation_table s0) with
       | None => on_table (λ t, (tt, set_transports (main_socket t)
                  (set_default_sender (UdpClientPacketSender (SaV4 bnd port)) (client_transports t)) t))
       | Some _ => Done tt
       end Q [mkFlight port None]).
  { intros Q HQ. destruct (main_socket _); [done|]. apply wp_on_table; [|by intros []].
    apply (keeps_transports main_socket (λ t, set_default_sender (UdpClientPacketSender (SaV4 bnd port)) (client_transports t))). }
  apply Hset. apply wp_bind. intros s1 F1 (He1 & Hb1 & Ht1). cbn -[enter_allocation getrandom].
  rewrite <- Hb1, <- He1. pose proof (holds_spawn port client F1 _ Ht1) as Hsp. cbn in Hsp. destruct Hsp as [_ Hsp].
  exists [mkFlight port (Some (next_task (allocation_table s1), client))]. split; [done|].
  intros s2 F2 (He2 & Hb2 & Ht2). exists []. split; [|done]. rewrite He1, Hb1.
  destruct (holds_enter env client port (next_task (allocation_table s1))
    (with_relay (create_now env) (getrandom 12 (id_nanos env)) (SaV4 ext port) client
       (from_secs (effective_lifetime life (allocation_table s))) client (SaV4 ext port)
       (mkRelay (SaV4 bnd port) (next_task (allocation_table s1)))) F2 _ Ht2) as [Hent _];
    [by rewrite He2|done|by rewrite He2|by rewrite Hb2|].
  split; [|split]; [exact He2|exact Hb2|exact Hent].
Qed.

Section handlers.
Context `{CR : Crypto} `{HO : HashOrder}.

Lemma wp_auth env msg client (Q : result string (list Z) → list Flight → Prop) :
  (∀ r, Q r []) → wp (update (verify_turn_auth env msg client)) Q [].
Proof.
  apply wp_update. intros s F Hs. destruct (verify_turn_auth env msg client s) as [[r s']|] eqn:E; [|done].
  by destruct (auth_keeps_tables _ _ _ _ _ _ E) as [n ->].
Qed.

Lemma wp_drop weak k (Q : unit → list Flight → Prop) : Q tt [] → wp (drop_c weak k) Q [].
Proof.
  intros HQ. apply wp_update; [|by intros []]. intros s F Hs. unfold drop_allocation.
  pose proof (holds_set_table s _ F Hs (keeps_remove weak k (Some (channel_table s)))) as H.
  cbn beta in H. destruct (remove_allocation weak k _ _) as [[r ch] t]. by destruct ch.
Qed.

(** Steps of a proc that owns nothing. *)
Ltac wp_next :=
  lazymatch goal with
  | |- wp (Done _) _ _ => cbn beta iota delta [wp]; try reflexivity
  | |- wp (mbind _ _) _ _ => apply wp_bind
  | |- wp (update (verify_turn_auth _ _ _)) _ _ => apply wp_auth; intros [?|?]
  | |- wp (reads _) _ _ => apply wp_reads; intros ? ? _
  | |- wp (tries _) _ _ => apply wp_tries; intros ?
  | |- wp (drop_c _ _) _ _ => apply wp_drop
  | |- wp (mismatch_c _) _ _ => unfold mismatch_c
  | |- wp (match ?x with _ => _ end) _ _ => destruct x
  | |- wp (let '(_, _) := ?x in _) _ _ => destruct x
  end.

Lemma wp_allocate env msg client : wp (handle_allocate_c env msg client) lands [].
Proof.
  unfold handle_allocate_c. repeat wp_next.
  all: eapply wp_mono; [|apply wp_create]; intros [?|?] ? ->; repeat wp_next.
Qed.

Lemma wp_refresh env msg client : wp (handle_refresh_c env msg client) lands [].
Proof.
  unfold handle_refresh_c. repeat wp_next.
  all: apply wp_on_table; [apply keeps_refresh|intros r]; repeat wp_next.
Qed.

Lemma wp_permission env msg client : wp (handle_create_permission_c env msg client) lands [].
Proof.
  unfold handle_create_permission_c. repeat wp_next.
  apply wp_on_table; [apply keeps_permissions|intros r]; repeat wp_next.
Qed.

Lemma wp_channel_bind env msg client : wp (handle_channel_bind_c env msg client) lands [].
Proof.
  unfold handle_channel_bind_c. repeat wp_next. apply wp_update; [|intros r; repeat wp_next].
  intros s1 F1 Hs1. by destruct (ChannelTable_bind _ _ _ _ _).
Qed.

Lemma wp_send env msg client : wp (handle_send_c env msg client) lands [].
Proof.
  unfold handle_send_c, send_to_peer_c. repeat wp_next.
  apply wp_on_table; [apply keeps_count|intros r]; repeat wp_next.
Qed.

Lemma wp_process env msg client : wp (process_message_c env msg client) lands [].
Proof.
  unfold process_message_c. repeat wp_next.
  all: auto using wp_allocate, wp_refresh, wp_permission, wp_channel_bind, wp_send.
Qed.

Lemma wp_channel_data data client : wp (handle_channel_data_c data client) lands [].
Proof. unfold handle_channel_data_c. cbv zeta. repeat wp_next. Qed.

Lemma wp_tcp env data client : wp (handle_tcp_message_c env data client) lands [].
Proof. unfold handle_tcp_message_c. repeat wp_next; auto using wp_process, wp_channel_data. Qed.

Lemma wp_udp env data client : wp (handle_udp_message_c env data client) lands [].
Proof. unfold handle_udp_message_c. repeat wp_next; auto using wp_process, wp_channel_data. Qed.
End handlers.
End wp.

(** ** The concurrent server *)

(** The shared server and the requests in flight. *)
Record ServerWorld := mkServerWorld { srv : TurnServer; flying : list (proc answer_c) }.

Section world.
Context `{CR : Crypto} `{HO : HashOrder}.

(** A datagram or frame arrives; a request runs its next section, unwinds in it,
    or is answered; the background moves. *)
Inductive cstep (w : ServerWorld) : ServerWorld → Prop :=
| c_datagram env data client :
    cstep w (mkServerWorld (srv w) (flying w ++ [handle_udp_message_c env data client]))
| c_frame env data client :
    cstep w (mkServerWorld (srv w) (flying w ++ [handle_tcp_message_c env data client]))
| c_section i B (op : TurnServer → outcome (B * TurnServer)) k b s' :
    flying w !! i = Some (Atomic op k) → op (srv w) = Ret (b, s') →
    cstep w (mkServerWorld s' (<[i := k b]> (flying w)))
| c_unwind i B (op : TurnServer → outcome (B * TurnServer)) k :
    flying w !! i = Some (Atomic op k) → op (srv w) = Panic →
    cstep w (mkServerWorld (srv w) (delete i (flying w)))
| c_answer i a :
    flying w !! i = Some (Done a) → cstep w (mkServerWorld (srv w) (delete i (flying w)))
| c_background out s' :
    background (srv w) out s' → cstep w (mkServerWorld s' (flying w)).

(** ** A scheduler, to run examples *)

Inductive Event :=
| Arrive (env : MsgEnv) (data : list Z) (client : SocketAddr)
| Turn (i : nat)
| Sweep (now : Z).

Definition event (w : ServerWorld) (e : Event) : option ServerWorld :=
  match e with
  | Arrive env data client => Some (mkServerWorld (srv w) (flying w ++ [handle_udp_message_c env data client]))
  | Turn i =>
    match flying w !! i with
    | Some (Atomic op k) =>
      match op (srv w) with
      | Ret (b, s') => Some (mkServerWorld s' (<[i := k b]> (flying w)))
      | Panic => Some (mkServerWorld (srv w) (delete i (flying w)))
      end
    | Some (Done a) => Some (mkServerWorld (srv w) (delete i (flying w)))
    | None => None
    end
  | Sweep now => Some (mkServerWorld (allocation_cleanup_tick now [] (srv w)) (flying w))
  end.

Fixpoint events (w : ServerWorld) (es : list Event) : option ServerWorld :=
  match es with
  | [] => Some w
  | e :: es => w ← event w e; events w es
  end.

Lemma event_step w e w' : event w e = Some w' → cstep w w'.
Proof.
  destruct e as [env data client|i|now]; cbn [event].
  - intros [= <-]. constructor.
  - destruct (flying w !! i) as [[a|B op k]|] eqn:Ei; [| |done].
    + intros [= <-]. by eapply c_answer.
    + destruct (op (srv w)) as [[b s']|] eqn:Eo; intros [= <-]; [by eapply c_section|by eapply c_unwind].
  - intros [= <-]. eapply c_background. apply (bg_allocation_cleanup (srv w) now []).
Qed.

Lemma events_steps es w w' : events w es = Some w' → rtc cstep w w'.
Proof.
  revert w. induction es as [|e es IH]; intros w; cbn [events]; [by intros [= <-]|].
  destruct (event w e) as [w1|] eqn:E; [|done]. cbn. intros H. eapply rtc_l; [by eapply event_step|by apply IH].
Qed.

(** ** Lemmas: the invariant of the concurrent server *)

(** Each request owns its flights, and the server is the invariant of all. *)
Definition world_ok (ext bnd : Ipv4Addr) (w : ServerWorld) : Prop :=
  ∃ ls, Forall2 (λ p l, wp ext bnd p lands l) (flying w) ls ∧ holds ext bnd (srv w) (concat ls).

Lemma concat_update {A} (ls : list (list A)) i l :
  (i < length ls)%nat → concat (<[i := l]> ls) ≡ₚ l ++ concat (delete i ls).
Proof.
  intros Hi. rewrite insert_take_drop, delete_take_drop, !concat_app by done. cbn.
  by rewrite !app_assoc, (Permutation_app_comm _ l).
Qed.

Lemma concat_focus {A} (ls : list (list A)) i l :
  ls !! i = Some l → concat ls ≡ₚ l ++ concat (delete i ls).
Proof.
  intros Hi. rewrite <- (list_insert_id ls i l Hi) at 1. apply concat_update. by eapply lookup_lt_Some.
Qed.

Lemma holds_perm ext bnd s l l' : l ≡ₚ l' → holds ext bnd s l → holds ext bnd s l'.
Proof. intros Hp (He & Hb & Ht). split; [done|]. split; [done|]. by rewrite <- Hp. Qed.

Lemma background_holds ext bnd s out s' l : holds ext bnd s l → background s out s' → holds ext bnd s' l.
Proof.
  intros Hs Hb. destruct Hb as [sock|c snd|c|now|now|now weak|h task nanos io ev st out Ht _ E|h task nanos io ev st out Ht _ E].
  1-3: destruct Hs as (He & Hbn & Hs); (split; [done|]; split; [done|]); by apply holds_transports.
  - exact Hs.
  - exact Hs.
  - destruct Hs as (He & Hbn & Hs). unfold allocation_cleanup_tick.
    pose proof (holds_cleanup now weak (Some (channel_table s)) l _ Hs) as Hk.
    assert (Hp : external_addr (cleanup_expired now weak (Some (channel_table s)) (allocation_table s)).2 = ext ∧
      bind_addr (cleanup_expired now weak (Some (channel_table s)) (allocation_table s)).2 = bnd).
    { rewrite <- He, <- Hbn. by injection (cleanup_params now weak (Some (channel_table s)) (allocation_table s)). }
    destruct (cleanup_expired now weak _ _) as [[c ch] t]. destruct ch; (split; [apply Hp|]; split; [apply Hp|exact Hk]).
  - destruct Hs as (He & Hbn & Hs). split; [done|]. split; [done|]. apply holds_stats; [|done].
    by eapply relay_step_active.
  - destruct Hs as (He & Hbn & Hs). split; [done|]. split; [done|]. by apply holds_task_ends.
Qed.

Lemma cstep_ok ext bnd w w' : world_ok ext bnd w → cstep w w' → world_ok ext bnd w'.
Proof.
  intros (ls & Hw & Hs) Hst.
  assert (Hnew : ∀ p, wp ext bnd p lands [] → world_ok ext bnd (mkServerWorld (srv w) (flying w ++ [p]))).
  { intros p Hp. exists (ls ++ [[]]). cbn. split; [by apply Forall2_app, Forall2_cons|].
    rewrite concat_app. cbn. by rewrite !app_nil_r. }
  assert (Hend : ∀ i, ls !! i = Some [] → world_ok ext bnd (mkServerWorld (srv w) (delete i (flying w)))).
  { intros i Hi. exists (delete i ls). cbn. split; [by apply Forall2_delete|].
    eapply holds_perm; [|exact Hs]. by apply (concat_focus ls i []). }
  destruct Hst as [env data c|env data c|i B op k b s' Hi Ho|i B op k Hi Ho|i a Hi|out s' Hb].
  - apply Hnew, wp_udp.
  - apply Hnew, wp_tcp.
  - destruct (Forall2_lookup_l _ _ _ _ _ Hw Hi) as (l & Hl & Hwp).
    specialize (Hwp (srv w) (concat (delete i ls)) (holds_perm _ _ _ _ _ (concat_focus ls i l Hl) Hs)).
    rewrite Ho in Hwp. destruct Hwp as (l' & Hs' & Hwp). exists (<[i := l']> ls). cbn. split.
    + by apply Forall2_insert.
    + eapply holds_perm; [|exact Hs']. symmetry. apply concat_update. by eapply lookup_lt_Some.
  - destruct (Forall2_lookup_l _ _ _ _ _ Hw Hi) as (l & Hl & Hwp).
    specialize (Hwp (srv w) (concat (delete i ls)) (holds_perm _ _ _ _ _ (concat_focus ls i l Hl) Hs)).
    rewrite Ho in Hwp. apply Hend. by rewrite <- Hwp.
  - destruct (Forall2_lookup_l _ _ _ _ _ Hw Hi) as (l & Hl & Hwp). apply Hend. cbn in Hwp. by rewrite <- Hwp.
  - exists ls. split; [done|]. by eapply background_holds.
Qed.

Lemma csteps_ok ext bnd w w' : world_ok ext bnd w → rtc cstep w w' → world_ok ext bnd w'.
Proof. intros H0. induction 1; eauto using cstep_ok. Qed.
End world.

(** ** Properties *)

(** C7. Interleaving cannot leak or double-book: with any number of requests in
    flight, whose atomic sections interleave in any order with each other and
    with the background tasks, every allocation sits under its own relayed
    address with its port taken, no two share a relay task, the counter is the
    number of allocations; and whenever no request is in flight the table
    satisfies its full invariant, so no port, tracker or task is left over. *)
Theorem concurrent_requests_leak_nothing `{CR : Crypto} `{HO : HashOrder} s0 w :
  table_ok (allocation_table s0) → rtc cstep (mkServerWorld s0 []) w →
  let t := allocation_table (srv w) in
  (∀ k a, allocations t !! k = Some a →
     relayed_addr a = k ∧ ∃ p, k = SaV4 (external_addr t) p ∧ p ∈ ports (port_allocator t)) ∧
  (∀ k1 a1 r1 k2 a2 r2, allocations t !! k1 = Some a1 → relay a1 = Some r1 →
     allocations t !! k2 = Some a2 → relay a2 = Some r2 → task_handle r1 = task_handle r2 → k1 = k2) ∧
  active_allocations (stats t) = Z.of_nat (size (allocations t)) ∧
  (Forall (λ p, ∃ a, p = Done a) (flying w) → table_ok t).
Proof.
  intros H0 Hr. set (e := external_addr (allocation_table s0)). set (b := bind_addr (allocation_table s0)).
  destruct (csteps_ok e b (mkServerWorld s0 []) w) as (ls & Hw & _ & _ & Ht); [|done|].
  { exists []. split; [constructor|]. split; [done|]. split; [done|]. by apply holds_table_nil. }
  cbn zeta. pose proof Ht as [[Hc _ _ _ _] Ha]. split_and!.
  - intros k a Hk. destruct (tc_entry _ Hc k a Hk) as (p & h & -> & _ & -> & _).
    split; [done|]. exists p. split; [done|].
    assert (p ∈ pool_ports (port_allocator (erase (concat ls) (allocation_table (srv w))))) as Hp
      by (apply (tc_port _ Hc); by eexists). cbn in Hp. set_solver.
  - exact (tc_handle _ Hc).
  - done.
  - intros Hd. apply holds_table_nil. replace (concat ls) with (@nil Flight) in Ht; [done|].
    clear -Hw Hd. induction Hw as [|p l ps ls Hp _ IH]; [done|]. apply list.Forall_cons in Hd as [[a ->] Hd].
    cbn in *. rewrite Hp. by apply IH.
Qed.

(** One client, then another, on a server with authentication off. *)
Definition open_server (lo hi : Z) : TurnServer :=
  with_port_range_auth_disabled 0 (mkIpv4 203 0 113 5) "realm" lo hi.
Definition second_client : SocketAddr := SaV4 (mkIpv4 198 51 100 8) 4001.
Definition arrive (m : Message) (client : SocketAddr) : Event := Arrive sample_env (Message_encode m) client.
Definition turns (n i : nat) : list Event := repeat (Turn i) n.
Definition quiet (w : ServerWorld) : bool :=
  forallb (λ p, match p with Done _ => true | Atomic _ _ => false end) (flying w).

Lemma quiet_done w : quiet w = true → Forall (λ p, ∃ a, p = Done a) (flying w).
Proof.
  intros H. apply list.Forall_forall. intros p Hp. unfold quiet in H. rewrite forallb_forall in H.
  specialize (H p). rewrite <- list_elem_of_In in H. specialize (H Hp). destruct p; [by eexists|done].
Qed.

(** Two Allocate requests, section by section in turn. *)
Definition two_allocates : list Event :=
  arrive (request Allocate []) sample_client :: arrive (request Allocate []) second_client ::
  concat (repeat [Turn 0; Turn 1] 12).

Lemma open_server_ok lo hi : 0 ≤ lo ≤ hi → hi ≤ 65535 → hi - lo < 65535 → table_ok (allocation_table (open_server lo hi)).
Proof. intros. by apply new_table_ok. Qed.

Definition run_open (lo hi : Z) (es : list Event) : ServerWorld :=
  default (mkServerWorld (open_server lo hi) []) (@events toy_crypto map_order (mkServerWorld (open_server lo hi) []) es).

(** The events all happen. *)
Definition runs (lo hi : Z) (es : list Event) : bool :=
  match @events toy_crypto map_order (mkServerWorld (open_server lo hi) []) es with Some _ => true | None => false end.

Lemma run_open_steps lo hi es :
  runs lo hi es = true →
  rtc (@cstep toy_crypto map_order) (mkServerWorld (open_server lo hi) []) (run_open lo hi es).
Proof.
  unfold runs, run_open. destruct (events _ es) as [w|] eqn:E; [|done]. intros _. by eapply events_steps.
Qed.

Lemma events_snoc w es e : @events toy_crypto map_order w (es ++ [e]) =
  match @events toy_crypto map_order w es with
  | Some w1 => @event toy_crypto map_order w1 e
  | None => None
  end.
Proof.
  revert w. induction es as [|e' es IH]; intros w; cbn [events app].
  - by destruct (event w e) as [w1|].
  - destruct (event w e') as [w1|]; [apply IH|done].
Qed.

(** The last event of a run that goes through. *)
Lemma run_open_last lo hi es e :
  runs lo hi (es ++ [e]) = true →
  @cstep toy_crypto map_order (run_open lo hi es) (run_open lo hi (es ++ [e])).
Proof.
  unfold runs, run_open. rewrite events_snoc. destruct (events _ es) as [w|]; [|done].
  destruct (event w e) as [w'|] eqn:E; [|done]. intros _. by eapply event_step.
Qed.

Lemma concurrent_requests_leak_nothing_witness :
  let w := run_open 50000 50003 two_allocates in
  size (allocations (allocation_table (srv w))) = 2%nat ∧ table_ok (allocation_table (srv w)).
Proof.
  split; [vm_compute; reflexivity|].
  apply (@concurrent_requests_leak_nothing toy_crypto map_order (open_server 50000 50003)).
  - apply open_server_ok; lia.
  - apply run_open_steps. vm_compute. reflexivity.
  - apply quiet_done. vm_compute. reflexivity.
Defined.

Definition refresh_zero : Message := request Refresh [mkAttr LIFETIME (put_u32 0)].
Definition bind_channel : Message :=
  request ChannelBind
    [mkAttr CHANNEL_NUMBER [0x40; 0; 0; 0]; mkAttr PEER_ADDRESS (encode_xor_address peer_a MAGIC (seqZ 1 12))].

(** The only port of the server goes from one client to the other while a
    request of the first is between its lookup and its next section. *)
Definition port_changes_hands (m : Message) (before after : nat) : list Event :=
  (arrive (request Allocate []) sample_client :: turns 13 0 ++
   arrive m sample_client :: turns before 0 ++
   Sweep (from_secs 601) ::
   arrive (request Allocate []) second_client :: turns 12 1) ++ turns after 0.

Definition owner (w : ServerWorld) (relayed : SocketAddr) : option SocketAddr :=
  client_addr <$> allocations (allocation_table (srv w)) !! relayed.

(** C35. Interleaving does break the isolation of clients: a request looks its
    allocation up by client, lets go of the lock, and then acts on the relayed
    address it found.  Here the allocation expires in between and its port goes
    to another client; the next section, of the first client's Refresh with
    lifetime 0, deletes the other client's allocation. *)
Theorem stale_refresh_deletes_other_client :
  let w := run_open 50000 50000 (port_changes_hands refresh_zero 4 0) in
  let w' := run_open 50000 50000 (port_changes_hands refresh_zero 4 1) in
  rtc (@cstep toy_crypto map_order) (mkServerWorld (open_server 50000 50000) []) w ∧
  owner w sample_relayed = Some second_client ∧
  @cstep toy_crypto map_order w w' ∧ owner w' sample_relayed = None.
Proof.
  cbv zeta. split; [apply run_open_steps; vm_compute; reflexivity|].
  split; [vm_compute; reflexivity|]. split; [|vm_compute; reflexivity].
  unfold port_changes_hands. change (turns 0 0) with (@nil Event). change (turns 1 0) with [Turn 0].
  rewrite app_nil_r. apply run_open_last.
  vm_compute. reflexivity.
Qed.

(** In the same way a ChannelBind that loses the race binds a channel for
    somebody else: afterwards the other client, who never sent a ChannelBind,
    owns the relayed address, and its channel 0x4000 leads to the peer the first
    client named; had the port not been taken again, the binding would belong
    to no allocation at all. *)
Theorem stale_bind_crosses_clients :
  let w := run_open 50000 50000 (port_changes_hands bind_channel 3 4) in
  rtc (@cstep toy_crypto map_order) (mkServerWorld (open_server 50000 50000) []) w ∧
  quiet w = true ∧ owner w sample_relayed = Some second_client ∧
  cb_peer_addr <$> get_by_channel (channel_table (srv w)) sample_relayed 0x4000 = Some peer_a.
Proof.
  cbv zeta. split; [apply run_open_steps; vm_compute; reflexivity|].
  split; [vm_compute; reflexivity|]. split; [vm_compute; reflexivity|vm_compute; reflexivity].
Qed.
