(* ===== verification/Listeners.v ===== *)
(** * Listeners and background tasks (src/server.rs, [run_udp], [run_tcp], [run_tls], [run_dtls])

    What a listener starts, how long it accepts, and what the UDP worker pool
    does with each datagram.  A listener's socket is what it yields: the result
    of the bind and the results of the accepts or receives so far.  A panic
    unwinds the task it happens in, so it ends a UDP worker for good; the pool
    of System, which keeps the order, is run here with the handlers. *)

From S2P Require Import Prelude RustStd RustText StunMessage Errors Ports Channels Bandwidth Auth Alloc Framing Crypto.
From S2P Require Import Server ServerSpec System.
From Stdlib Require Import String.
Local Open Scope Z_scope.

(** ** Background tasks *)

Inductive Task :=
| NonceCleanup | ChannelCleanup | AllocationCleanup
| StatsDump (interval_secs : Z) (skip_if_no_change : bool).

#[global] Instance Task_eq_dec : EqDecision Task.
Proof. solve_decision. Defined.

(** [in_runtime] is [Handle::try_current().is_ok()]. *)
Definition start_nonce_cleanup_task (in_runtime : bool) : list Task :=
  if in_runtime then [NonceCleanup] else [].
Definition start_channel_cleanup_task (in_runtime : bool) : list Task :=
  if in_runtime then [ChannelCleanup] else [].
Definition start_allocation_cleanup_task (in_runtime : bool) : list Task :=
  if in_runtime then [AllocationCleanup] else [].
Definition spawn_stats_dump (in_runtime : bool) (interval_secs : Z) (skip : bool) : list Task :=
  if interval_secs =? 0 then [] else if in_runtime then [StatsDump interval_secs skip] else [].

(** What every constructor of the server starts. *)
Definition constructor_tasks (in_runtime : bool) : list Task :=
  start_nonce_cleanup_task in_runtime ++ start_channel_cleanup_task in_runtime ++
  start_allocation_cleanup_task in_runtime.

(** ** Stream listeners *)

(** The accept loop: the connections it spawns, and the error that ends it. *)
Fixpoint accept_loop (accepts : list (result (Z * SocketAddr) string))
    : list (Z * SocketAddr) * option string :=
  match accepts with
  | [] => ([], None)
  | Ok c :: accepts => let '(cs, e) := accept_loop accepts in (c :: cs, e)
  | Err e :: _ => ([], Some e)
  end.

(** A listener: [None] while it serves, [Some e] when it returned [Err(e)]. *)
Definition run_listener (bind : result unit string) (accepts : list (result (Z * SocketAddr) string))
    : list (Z * SocketAddr) * option string :=
  match bind with Err e => ([], Some e) | Ok _ => accept_loop accepts end.
Definition run_tcp := run_listener.
Definition run_tls := run_listener.
Definition run_dtls := run_listener.

(** How a failed TLS handshake is logged: [true] for the debug level. *)
Inductive ErrorKind := UnexpectedEof | ConnectionAborted | ConnectionReset | OtherKind.
Definition is_tls_handshake_eof (kind : ErrorKind) (text : string) : bool :=
  match kind with
  | UnexpectedEof | ConnectionAborted | ConnectionReset => true
  | OtherKind => contains_str (str_to_ascii_lowercase text) "eof"
  end.

(** ** The UDP listener *)

Definition num_workers_of (cpus : Z) : Z := Z.max cpus 4.

(** What [run_udp] starts: its tasks, then, if the socket binds, the workers and
    the receive loop on that socket. *)
Definition run_udp (bind : result unit string) (cpus : Z) (socket : SocketAddr) (s : TurnServer)
    : list Task * result Z string * TurnServer :=
  let tasks := start_nonce_cleanup_task true ++ start_channel_cleanup_task true ++
               start_allocation_cleanup_task true ++
               spawn_stats_dump true (stats_dump_interval_secs s) (stats_dump_skip_if_no_change s) in
  match bind with
  | Err e => (tasks, Err e, s)
  | Ok _ => (tasks, Ok (num_workers_of cpus),
             set_table (set_main_socket socket (allocation_table s)) s)
  end.

Section udp.
Context `{CR : Crypto} `{HO : HashOrder}.
Context (hash : SocketAddr → Z) (num_workers : Z).

(** The listener at work: the queues, the workers that have unwound, the shared
    server, and what was sent. *)
Record Udp := mkUdp {
  udp_pool : Pool;
  dead_workers : gset Z;
  udp_server : TurnServer;
  replies : list (list Z * SocketAddr);
  relayed : list Packet
}.

Inductive UdpEvent :=
| Recv (r : result (list Z * SocketAddr) string)
| Serve (w : Z) (env : MsgEnv).

Definition clear_queue (w : Z) (p : Pool) : Pool := mkPool (<[w := []]> (queues p)) (handled p).

(** The receive loop goes on after an error; [try_send] to a worker that is
    gone fails like one to a full queue. *)
Definition udp_receive (r : result (list Z * SocketAddr) string) (u : Udp) : Udp :=
  match r with
  | Err _ => u
  | Ok (data, client) =>
    if decide (worker_of hash num_workers client ∈ dead_workers u) then u else
    mkUdp (dispatch hash num_workers data client (udp_pool u)) (dead_workers u) (udp_server u)
          (replies u) (relayed u)
  end.

(** One turn of a worker's loop. *)
Definition udp_serve (w : Z) (env : MsgEnv) (u : Udp) : Udp :=
  if decide (w ∈ dead_workers u) then u else
  match queue (udp_pool u) w with
  | [] => u
  | (data, client) :: _ =>
    match handle_udp_message env data client (udp_server u) with
    | Ret (r, out, s) =>
      mkUdp (work w (udp_pool u)) (dead_workers u) s
        (replies u ++ match r with Some resp => [(resp, client)] | None => [] end) (relayed u ++ out)
    | Panic => mkUdp (clear_queue w (work w (udp_pool u))) ({[w]} ∪ dead_workers u) (udp_server u)
                     (replies u) (relayed u)
    end
  end.

Definition udp_event (u : Udp) (e : UdpEvent) : Udp :=
  match e with Recv r => udp_receive r u | Serve w env => udp_serve w env u end.
Definition run_events (u : Udp) (es : list UdpEvent) : Udp := fold_left udp_event es u.

Definition udp_start (s : TurnServer) : Udp := mkUdp (mkPool ∅ []) ∅ s [] [].

(** ** Lemmas *)

(** Queues hold only datagrams of their own worker's clients. *)
Definition udp_ok (u : Udp) : Prop := queues_ok hash num_workers (udp_pool u).

Lemma work_ok w p : queues_ok hash num_workers p → queues_ok hash num_workers (work w p).
Proof. apply (pool_event_queues_ok hash num_workers p (Work w)). Qed.

Lemma clear_queue_ok w p : queues_ok hash num_workers p → queues_ok hash num_workers (clear_queue w p).
Proof.
  intros Hp w' x. unfold clear_queue. rewrite queue_insert. case_decide; [by intros ?%elem_of_nil|apply Hp].
Qed.

Lemma udp_event_ok u e : udp_ok u → udp_ok (udp_event u e).
Proof.
  unfold udp_ok. intros Hu. destruct e as [[[d c]|er]|w env]; cbn [udp_event udp_receive]; [| |].
  - case_decide; [done|]. exact (pool_event_queues_ok hash num_workers (udp_pool u) (Receive d c) Hu).
  - done.
  - unfold udp_serve. case_decide; [done|]. destruct (queue (udp_pool u) w) as [|[d c] q]; [done|].
    destruct (handle_udp_message env d c (udp_server u)) as [[[r out] s]|]; cbn [udp_pool].
    + by apply work_ok.
    + by apply clear_queue_ok, work_ok.
Qed.

Lemma dead_stays u e w : w ∈ dead_workers u → w ∈ dead_workers (udp_event u e).
Proof.
  intros Hw. destruct e as [[[d c]|er]|w' env]; cbn [udp_event udp_receive]; [by case_decide|done|].
  unfold udp_serve. case_decide; [done|]. destruct (queue _ w') as [|[d c] q]; [done|].
  destruct (handle_udp_message env d c (udp_server u)) as [[[r out] s]|]; cbn; set_solver.
Qed.

(** The replies to the clients of a worker that is gone. *)
Definition replies_to_worker (w : Z) (u : Udp) : list (list Z * SocketAddr) :=
  filter (λ r, worker_of hash num_workers r.2 = w) (replies u).

Lemma dead_silent u e w :
  udp_ok u → w ∈ dead_workers u → replies_to_worker w (udp_event u e) = replies_to_worker w u.
Proof.
  intros Hu Hw. destruct e as [[[d c]|er]|w' env]; cbn [udp_event udp_receive]; [by case_decide|done|].
  unfold udp_serve. case_decide as Hd; [done|]. destruct (queue (udp_pool u) w') as [|[d c] q] eqn:Eq; [done|].
  destruct (handle_udp_message env d c (udp_server u)) as [[[[resp|] out] s]|]; [| |done];
    unfold replies_to_worker; cbn [replies]; [|by rewrite app_nil_r].
  rewrite filter_app, filter_cons_False, app_nil_r; [done|].
  cbn [snd]. intros E. assert (Hin : (d, c) ∈ queue (udp_pool u) w') by (rewrite Eq; by left).
  apply Hu in Hin. cbn in Hin. congruence.
Qed.
End udp.

(** ** What the listener promises

    The datagrams that arrived, the ones bound for a worker, and a server that
    handles datagrams one after the other: the reply goes to the datagram's own
    client, and a panic leaves no trace. *)
Definition udp_received (es : list UdpEvent) : list (list Z * SocketAddr) :=
  omap (λ e, match e with Recv (Ok x) => Some x | _ => None end) es.
Definition turn_envs (es : list UdpEvent) : list MsgEnv :=
  omap (λ e, match e with Serve _ env => Some env | _ => None end) es.

Section spec.
Context `{CR : Crypto} `{HO : HashOrder}.

Definition Served : Type := TurnServer * list (list Z * SocketAddr) * list Packet.
Definition serve_one (st : Served) (x : MsgEnv * (list Z * SocketAddr)) : Served :=
  let '(env, (data, client)) := x in
  let '(s, sent, out) := st in
  match handle_udp_message env data client s with
  | Ret (r, pk, s') => (s', sent ++ match r with Some resp => [(resp, client)] | None => [] end, out ++ pk)
  | Panic => st
  end.
Definition serve_all (xs : list (MsgEnv * (list Z * SocketAddr))) (s : TurnServer) : Served :=
  fold_left serve_one xs (s, [], []).

Definition served (u : Udp) : Served := (udp_server u, replies u, relayed u).
End spec.

Definition for_worker (hash : SocketAddr → Z) (n w : Z) (es : list UdpEvent) : list (list Z * SocketAddr) :=
  filter (λ x, worker_of hash n x.2 = w) (udp_received es).

Section run.
Context `{CR : Crypto} `{HO : HashOrder}.
Context (hash : SocketAddr → Z) (n : Z).

Lemma run_events_snoc u es e :
  run_events hash n u (es ++ [e]) = udp_event hash n (run_events hash n u es) e.
Proof. apply fold_left_app. Qed.

Lemma udp_received_app es es' : udp_received (es ++ es') = udp_received es ++ udp_received es'.
Proof. apply omap_app. Qed.
Lemma turn_envs_app es es' : turn_envs (es ++ es') = turn_envs es ++ turn_envs es'.
Proof. apply omap_app. Qed.
Lemma for_worker_app w es es' : for_worker hash n w (es ++ es') = for_worker hash n w es ++ for_worker hash n w es'.
Proof. unfold for_worker. by rewrite udp_received_app, filter_app. Qed.

Lemma udp_start_ok s : udp_ok hash n (udp_start s).
Proof. intros w x. unfold queue. cbn. rewrite lookup_empty. by intros ?%elem_of_nil. Qed.

(** A turn handles the head of the queue as [serve_one] does. *)
Lemma udp_serve_turn w env u x q :
  w ∉ dead_workers u → queue (udp_pool u) w = x :: q →
  let u' := udp_serve w env u in
  handled (udp_pool u') = handled (udp_pool u) ++ [x] ∧
  served u' = serve_one (served u) (env, x) ∧
  queue (udp_pool u') w = (if decide (w ∈ dead_workers u') then [] else q) ∧
  (w ∈ dead_workers u' ↔ handle_udp_message env x.1 x.2 (udp_server u) = Panic) ∧
  ∀ w', w' ≠ w → queue (udp_pool u') w' = queue (udp_pool u) w' ∧
                 (w' ∈ dead_workers u' ↔ w' ∈ dead_workers u).
Proof.
  intros Hw Hq u'. subst u'. unfold udp_serve. rewrite decide_False, Hq by done. destruct x as [d c]. cbn [fst snd].
  unfold served, serve_one.
  destruct (handle_udp_message env d c (udp_server u)) as [[[r out] s]|] eqn:E;
    cbn [udp_pool dead_workers udp_server replies relayed]; unfold work, clear_queue; rewrite Hq; cbn [handled].
  - split; [done|]. split; [done|]. rewrite decide_False, queue_insert, decide_True by done. split; [done|].
    split; [done|]. intros w' Hn. by rewrite queue_insert, decide_False.
  - split; [done|]. split; [done|]. rewrite decide_True, queue_insert, decide_True by set_solver. split; [done|].
    split; [split; [done|set_solver]|]. intros w' Hn. rewrite !queue_insert, !decide_False by done.
    split; [done|set_solver].
Qed.

Lemma udp_serve_idle w env u :
  w ∈ dead_workers u ∨ queue (udp_pool u) w = [] → udp_serve w env u = u.
Proof. unfold udp_serve. intros [H|H]; [by rewrite decide_True|]. case_decide; [done|]. by rewrite H. Qed.

(** The case analysis of a turn: nothing to do, or the head of the queue. *)
Lemma udp_serve_cases w env u :
  udp_serve w env u = u ∨ ∃ x q, queue (udp_pool u) w = x :: q ∧ w ∉ dead_workers u.
Proof.
  destruct (decide (w ∈ dead_workers u)); [left; apply udp_serve_idle; by left|].
  destruct (queue (udp_pool u) w) as [|x q] eqn:E; [left; apply udp_serve_idle; by right|]. right. eauto.
Qed.

(** What has happened is the sequential handling of the datagrams in the order
    the workers took them, each with what its turn observed. *)
Lemma udp_event_served u e xs s :
  xs.*2 = handled (udp_pool u) → served u = serve_all xs s →
  ∃ ys, (ys.*1) `sublist_of` turn_envs [e] ∧ (xs ++ ys).*2 = handled (udp_pool (udp_event hash n u e)) ∧
        served (udp_event hash n u e) = serve_all (xs ++ ys) s.
Proof.
  intros Hx Hs. destruct e as [[[d c]|er]|w env]; cbn [udp_event udp_receive].
  - exists []. rewrite app_nil_r. split; [constructor|]. case_decide; [done|]. cbn [udp_pool]. unfold dispatch.
    case_decide; done.
  - exists []. by rewrite app_nil_r.
  - destruct (udp_serve_cases w env u) as [->|(x & q & Hq & Hw)].
    { exists []. rewrite app_nil_r. split; [apply sublist_nil_l|done]. }
    destruct (udp_serve_turn w env u x q Hw Hq) as (Hh & Hv & _). exists [(env, x)].
    split; [done|]. split; [by rewrite fmap_app, Hx, Hh|]. unfold serve_all in *. by rewrite fold_left_app, <- Hs.
Qed.

Lemma run_events_served s es :
  ∃ xs, (xs.*1) `sublist_of` turn_envs es ∧ xs.*2 = handled (udp_pool (run_events hash n (udp_start s) es)) ∧
        served (run_events hash n (udp_start s) es) = serve_all xs s.
Proof.
  induction es as [|e es (xs & Ht & Hx & Hs)] using rev_ind; [by exists []|].
  destruct (udp_event_served _ e xs s Hx Hs) as (ys & Hy & Hx' & Hs'). exists (xs ++ ys).
  rewrite run_events_snoc, turn_envs_app. split; [rewrite fmap_app; by apply sublist_app|].
  by split.
Qed.
Lemma run_events_ok u es : udp_ok hash n u → udp_ok hash n (run_events hash n u es).
Proof. revert u. induction es as [|e es IH]; intros u Hu; [done|]. cbn. apply IH. by apply udp_event_ok. Qed.

(** Handling datagrams one after the other is a run of the server's actions. *)
Lemma serve_all_reachable xs s :
  let '(s', _, out) := serve_all xs s in reachable s out s'.
Proof.
  induction xs as [|[env [d c]] xs IH] using rev_ind; [constructor|].
  unfold serve_all in *. rewrite fold_left_app. destruct (fold_left serve_one xs (s, [], [])) as [[s1 sent] out].
  cbn. destruct (handle_udp_message env d c s1) as [[[r pk] s2]|] eqn:E; [|done].
  eapply reach_step; [exact IH|]. by eapply step_udp.
Qed.

(** *** Order and loss per client *)

Lemma clear_queue_stream c w p :
  stream_of hash n c (clear_queue w p) `sublist_of` stream_of hash n c p.
Proof.
  unfold stream_of, clear_queue. cbn [handled]. rewrite queue_insert. apply sublist_app; [done|].
  case_decide; [apply sublist_nil_l|done].
Qed.

Lemma clear_queue_stream_other c w p :
  w ≠ worker_of hash n c → stream_of hash n c (clear_queue w p) = stream_of hash n c p.
Proof. intros Hw. unfold stream_of, clear_queue. cbn [handled]. by rewrite queue_insert, decide_False. Qed.

Lemma work_stream c w p : queues_ok hash n p → stream_of hash n c (work w p) = stream_of hash n c p.
Proof. intros Hp. by destruct (pool_event_stream hash n p (Work w) c Hp) as [H|(d & ? & _)]. Qed.

Lemma dispatch_stream c d c' p :
  queues_ok hash n p →
  stream_of hash n c (dispatch hash n d c' p) `sublist_of` stream_of hash n c p ++ of_client c [(d, c')].
Proof.
  intros Hp. destruct (pool_event_stream hash n p (Receive d c') c Hp) as [H|(d' & [= <- ->] & H)];
    cbn [pool_event] in H; rewrite H.
  - by apply sublist_inserts_r.
  - cbn. by rewrite decide_True.
Qed.

Lemma dispatch_stream_exact c d c' p :
  queues_ok hash n p →
  worker_of hash n c' ≠ worker_of hash n c ∨ (List.length (queue p (worker_of hash n c)) < WORKER_QUEUE)%nat →
  stream_of hash n c (dispatch hash n d c' p) = stream_of hash n c p ++ of_client c [(d, c')].
Proof.
  intros Hp Hl. destruct (decide (worker_of hash n c' = worker_of hash n c)) as [E|E].
  - destruct Hl as [Hl|Hl]; [done|]. unfold stream_of, dispatch. rewrite E, decide_True by done. cbn [handled].
    by rewrite queue_insert, decide_True, of_client_app, app_assoc.
  - destruct (pool_event_stream hash n p (Receive d c') c Hp) as [H|(d' & [= _ ->] & _)]; [|done].
    cbn [pool_event] in H. rewrite H. cbn. rewrite decide_False by (by intros ->). by rewrite app_nil_r.
Qed.

Lemma udp_event_stream u e c :
  udp_ok hash n u →
  stream_of hash n c (udp_pool (udp_event hash n u e)) `sublist_of`
    stream_of hash n c (udp_pool u) ++ of_client c (udp_received [e]).
Proof.
  intros Hu. destruct e as [[[d c']|er]|w env]; cbn [udp_event udp_receive].
  - case_decide; [by apply sublist_inserts_r|]. by apply dispatch_stream.
  - by apply sublist_inserts_r.
  - rewrite app_nil_r. unfold udp_serve. case_decide; [done|]. destruct (queue (udp_pool u) w) as [|[d c'] q]; [done|].
    destruct (handle_udp_message env d c' (udp_server u)) as [[[r out] s]|]; cbn [udp_pool].
    + by rewrite work_stream.
    + etrans; [apply clear_queue_stream|]. by rewrite work_stream.
Qed.

(** Nothing is lost for a client whose worker lives and has room. *)
Lemma udp_event_exact u e c :
  udp_ok hash n u → worker_of hash n c ∉ dead_workers (udp_event hash n u e) →
  for_worker hash n (worker_of hash n c) [e] = [] ∨
    (List.length (queue (udp_pool u) (worker_of hash n c)) < WORKER_QUEUE)%nat →
  stream_of hash n c (udp_pool (udp_event hash n u e)) =
    stream_of hash n c (udp_pool u) ++ of_client c (udp_received [e]).
Proof.
  intros Hu Hd Hl. destruct e as [[[d c']|er]|w env]; cbn [udp_event udp_receive] in *.
  - assert (Hw : worker_of hash n c' ≠ worker_of hash n c ∨
                 (List.length (queue (udp_pool u) (worker_of hash n c)) < WORKER_QUEUE)%nat).
    { destruct Hl as [Hl|Hl]; [left|by right]. intros E. unfold for_worker in Hl. cbn in Hl.
      rewrite decide_True in Hl; done. }
    case_decide as Hc; [|by apply dispatch_stream_exact].
    cbn. rewrite decide_False by congruence. by rewrite app_nil_r.
  - by rewrite app_nil_r.
  - rewrite app_nil_r. revert Hd. unfold udp_serve. case_decide; [done|].
    destruct (queue (udp_pool u) w) as [|[d c'] q]; [done|].
    destruct (handle_udp_message env d c' (udp_server u)) as [[[r out] s]|]; cbn [udp_pool dead_workers]; intros Hd.
    + by apply work_stream.
    + rewrite clear_queue_stream_other by set_solver. by apply work_stream.
Qed.

Lemma udp_event_queue_length u e w :
  (List.length (queue (udp_pool (udp_event hash n u e)) w) ≤
   List.length (queue (udp_pool u) w) + List.length (for_worker hash n w [e]))%nat.
Proof.
  destruct e as [[[d c']|er]|w' env]; cbn [udp_event udp_receive].
  - case_decide; [lia|]. cbn [udp_pool]. unfold dispatch. case_decide; [|lia]. rewrite queue_insert.
    case_decide as E; [|lia]. unfold for_worker. cbn. rewrite E, decide_True, length_app by done. cbn. lia.
  - lia.
  - unfold for_worker. cbn [udp_received omap list_omap filter List.length].
    destruct (udp_serve_cases w' env u) as [->|(x & q & Hq & Hw)]; [lia|].
    destruct (udp_serve_turn w' env u x q Hw Hq) as (_ & _ & Hq' & _ & Ho).
    destruct (decide (w = w')) as [->|Hn]; [|rewrite (proj1 (Ho w Hn)); lia].
    rewrite Hq', Hq. case_decide; cbn; lia.
Qed.

Lemma run_events_queue_length s es w :
  (List.length (queue (udp_pool (run_events hash n (udp_start s) es)) w) ≤ List.length (for_worker hash n w es))%nat.
Proof.
  induction es as [|e es IH] using rev_ind; [unfold queue; cbn; by rewrite lookup_empty|].
  rewrite run_events_snoc, for_worker_app, length_app.
  pose proof (udp_event_queue_length (run_events hash n (udp_start s) es) e w). lia.
Qed.

Lemma run_events_stream s es c :
  let u := run_events hash n (udp_start s) es in
  stream_of hash n c (udp_pool u) `sublist_of` of_client c (udp_received es) ∧
  (worker_of hash n c ∉ dead_workers u →
   (List.length (for_worker hash n (worker_of hash n c) es) ≤ WORKER_QUEUE)%nat →
   stream_of hash n c (udp_pool u) = of_client c (udp_received es)).
Proof.
  cbv zeta. induction es as [|e es [IH1 IH2]] using rev_ind.
  { unfold stream_of, queue. cbn. by rewrite lookup_empty. }
  rewrite run_events_snoc, udp_received_app, of_client_app, for_worker_app, length_app.
  assert (Hu : udp_ok hash n (run_events hash n (udp_start s) es)) by apply run_events_ok, udp_start_ok.
  split.
  - etrans; [by apply udp_event_stream|]. by apply sublist_app.
  - intros Hd Hl. rewrite udp_event_exact; [|done|done|].
    + f_equal. apply IH2; [|lia]. intros H. by apply Hd, dead_stays.
    + pose proof (run_events_queue_length s es (worker_of hash n c)).
      destruct (for_worker hash n (worker_of hash n c) [e]); [by left|]. right. cbn in Hl. lia.
Qed.

Lemma accept_loop_app cs e rest : accept_loop (map Ok cs ++ Err e :: rest) = (cs, Some e).
Proof. induction cs as [|c cs IH]; [done|]. cbn. by rewrite IH. Qed.
Lemma accept_loop_all cs : accept_loop (map Ok cs) = (cs, None).
Proof. induction cs as [|c cs IH]; [done|]. cbn. by rewrite IH. Qed.

(** ** Properties *)

(** C34. A panic takes a worker down for good: when the datagram at the head of a
    worker's queue makes its handler panic, then whatever arrives and whoever
    is scheduled afterwards, no client of that worker ever gets another reply. *)
Theorem panic_silences_worker u w env data client q es :
  udp_ok hash n u → w ∉ dead_workers u → queue (udp_pool u) w = (data, client) :: q →
  handle_udp_message env data client (udp_server u) = Panic →
  let u' := run_events hash n (udp_serve w env u) es in
  w ∈ dead_workers u' ∧ replies_to_worker hash n w u' = replies_to_worker hash n w u.
Proof.
  intros Hu Hw Hq Hp. assert (Hd : w ∈ dead_workers (udp_serve w env u)).
  { unfold udp_serve. rewrite decide_False, Hq, Hp by done. cbn. set_solver. }
  assert (Hr : replies_to_worker hash n w (udp_serve w env u) = replies_to_worker hash n w u).
  { unfold udp_serve. by rewrite decide_False, Hq, Hp by done. }
  assert (Hu' : udp_ok hash n (udp_serve w env u)) by apply (udp_event_ok hash n u (Serve w env) Hu).
  cbv zeta. rewrite <- Hr. revert Hd Hu'. generalize (udp_serve w env u). clear -es.
  induction es as [|e es IH]; intros u Hd Hu; [done|].
  change (run_events hash n u (e :: es)) with (run_events hash n (udp_event hash n u e) es).
  destruct (IH (udp_event hash n u e)) as [H1 H2]; [by apply dead_stays|by apply udp_event_ok|].
  split; [exact H1|]. rewrite H2. by apply dead_silent.
Qed.

(** C33. The UDP listener serves every client in order, whatever the
    hash, the number of workers, the receive errors, the schedule and the
    panics: its server state, its replies (each to its own client) and what it
    relayed are those of handling, one after the other, the datagrams taken
    from the queues, each with what its turn observed; what was taken and
    what still waits for a client is what arrived from it, in order, up to
    drops; nothing is dropped for a client whose worker lives and was sent no
    more than its queue holds; and every turn of a live worker with something in its
    queue handles exactly the head of that queue and leaves the other queues
    alone, a panic alone ending the worker.  So the theorems of System hold of
    what the listener serves. *)
Theorem udp_listener_runs_server s es :
  let u := run_events hash n (udp_start s) es in
  (∃ xs, (xs.*1) `sublist_of` turn_envs es ∧ xs.*2 = handled (udp_pool u) ∧
         serve_all xs s = (udp_server u, replies u, relayed u)) ∧
  (∀ c, let waiting := queue (udp_pool u) (worker_of hash n c) in
        let stream := of_client c (handled (udp_pool u)) ++ of_client c waiting in
        stream `sublist_of` of_client c (udp_received es) ∧
        (worker_of hash n c ∉ dead_workers u →
         (List.length (for_worker hash n (worker_of hash n c) es) ≤ WORKER_QUEUE)%nat →
         stream = of_client c (udp_received es))) ∧
  (∀ w env x q, w ∉ dead_workers u → queue (udp_pool u) w = x :: q →
     let u' := run_events hash n (udp_start s) (es ++ [Serve w env]) in
     handled (udp_pool u') = handled (udp_pool u) ++ [x] ∧
     queue (udp_pool u') w = (if decide (w ∈ dead_workers u') then [] else q) ∧
     (w ∈ dead_workers u' ↔ handle_udp_message env x.1 x.2 (udp_server u) = Panic) ∧
     ∀ w', w' ≠ w → queue (udp_pool u') w' = queue (udp_pool u) w' ∧
                    (w' ∈ dead_workers u' ↔ w' ∈ dead_workers u)) ∧
  reachable s (relayed u) (udp_server u).
Proof.
  cbv zeta. split; [|split; [|split]].
  - destruct (run_events_served s es) as (xs & Ht & Hx & Hs). exists xs. done.
  - intros c. apply (run_events_stream s es c).
  - intros w env x q Hw Hq. rewrite run_events_snoc.
    destruct (udp_serve_turn w env _ x q Hw Hq) as (H1 & _ & H2). done.
  - destruct (run_events_served s es) as (xs & _ & _ & Hs). pose proof (serve_all_reachable xs s) as Hr.
    by rewrite <- Hs in Hr.
Qed.

(** An accept error ends a stream listener for good: it serves exactly the
    connections accepted before the first error and returns that error, while
    the UDP receive loop survives its errors unchanged. *)
Theorem accept_error_stops_listener accepts cs e :
  run_listener (Ok tt) accepts = (cs, e) →
  match e with
  | None => accepts = map Ok cs
  | Some e => ∃ rest, accepts = map Ok cs ++ Err e :: rest ∧
                      ∀ more, run_listener (Ok tt) (accepts ++ more) = (cs, Some e)
  end ∧ ∀ er u, udp_event hash n u (Recv (Err er)) = u.
Proof.
  cbn [run_listener]. intros H. split; [|done]. revert cs e H.
  induction accepts as [|[c|er] accepts IH]; intros cs e; cbn [accept_loop].
  - by intros [= <- <-].
  - destruct (accept_loop accepts) as [cs' e'] eqn:E. intros [= <- <-]. specialize (IH cs' e' eq_refl).
    destruct e' as [er|].
    + destruct IH as (rest & -> & Hm). exists rest. split; [done|]. intros more. cbn.
      unfold run_listener in Hm. by rewrite Hm.
    + cbn. by rewrite <- IH.
  - intros [= <- <-]. by exists accepts.
Qed.

End run.

Lemma accept_error_stops_listener_witness :
  ∃ rest, [Ok (1, sample_client); Err "EMFILE"%string; Ok (2, sample_client)] =
          map Ok [(1, sample_client)] ++ Err "EMFILE"%string :: rest.
Proof.
  destruct (@accept_error_stops_listener toy_crypto map_order (λ _, 0) 4
    [Ok (1, sample_client); Err "EMFILE"%string; Ok (2, sample_client)]
    [(1, sample_client)] (Some "EMFILE"%string) eq_refl) as [(rest & E & _) _].
  exists rest. exact E.
Defined.

(** Two clients of one worker, one of them served so far. *)
Definition two_clients : list UdpEvent :=
  [Recv (Ok (Message_encode (request Binding []), sample_client)); Recv (Err "ECONNRESET"%string);
   Recv (Ok (Message_encode (request Allocate []), peer_a)); Serve 0 sample_env].

Lemma udp_listener_runs_server_witness :
  let u := run_events (CR:=toy_crypto) (HO:=map_order) (λ _, 0) 4 (udp_start sample_server) two_clients in
  of_client peer_a (handled (udp_pool u)) ++ of_client peer_a (queue (udp_pool u) 0) =
    [Message_encode (request Allocate [])] ∧
  map snd (replies u) = [sample_client].
Proof.
  destruct (@udp_listener_runs_server toy_crypto map_order (λ _, 0) 4 sample_server two_clients) as (_ & H & _).
  destruct (H peer_a) as [_ E]. cbv zeta in E. split.
  - etransitivity; [apply E|reflexivity]; [|vm_compute; lia].
    apply (bool_decide_unpack _). vm_compute. exact I.
  - vm_compute. reflexivity.
Defined.

(** A challenged server whose first worker holds a request with a short
    MESSAGE-INTEGRITY, and a Binding request of another client behind it. *)
Definition short_request : Message :=
  request Refresh (credentials ++ [mkAttr MESSAGE_INTEGRITY [1; 2; 3; 4]]).
Definition attacked : Udp :=
  run_events (CR:=toy_crypto) (HO:=map_order) (λ _, 0) 4 (udp_start challenged)
    [Recv (Ok (Message_encode short_request, sample_client));
     Recv (Ok (Message_encode (request Binding []), SaV4 (mkIpv4 192 0 2 1) 9))].

Lemma attacked_ok : udp_ok (λ _, 0) 4 attacked.
Proof.
  apply run_events_ok, udp_start_ok.
Qed.

Lemma panic_silences_worker_witness :
  let u := run_events (CR:=toy_crypto) (HO:=map_order) (λ _, 0) 4 (udp_serve (CR:=toy_crypto) (HO:=map_order) 0 sample_env attacked)
    [Serve 0 sample_env; Recv (Ok (Message_encode (request Binding []), SaV4 (mkIpv4 192 0 2 1) 9)); Serve 0 sample_env] in
  0 ∈ dead_workers u.
Proof.
  refine (proj1 (@panic_silences_worker toy_crypto map_order (λ _, 0) 4 attacked 0 sample_env
    (Message_encode short_request) sample_client
    [(Message_encode (request Binding []), SaV4 (mkIpv4 192 0 2 1) 9)] _ attacked_ok _ _ _)).
  - apply (bool_decide_unpack _). vm_compute. exact I.
  - vm_compute. reflexivity.
  - vm_compute. reflexivity.
Defined.

(** One UDP listener takes over from another: [run_udp] makes its socket the
    default sender, so once a second listener is up, what peers send to a client
    without a sender of its own leaves from the second socket, also for the
    clients that talk to the first. *)
Theorem second_udp_listener_takes_over `{HO : HashOrder} cpus sock1 sock2 s h task nanos io data peer :
  let s2 := (run_udp (Ok tt) cpus sock2 (run_udp (Ok tt) cpus sock1 s).2).2 in
  tasks (allocation_table s2) !! h = Some task →
  client_senders (client_transports (allocation_table s2)) !! task_client task = None →
  ∀ pk, pk ∈ (relay_task_step nanos io (SocketRecv (Ok (data, peer))) task (client_transports (allocation_table s2))
                (channel_table s2) (stats (allocation_table s2))).2 →
  ∃ payload, pk = ToClient (UdpClientPacketSender sock2) (task_client task) payload.
Proof.
  cbn [run_udp snd]. intros _ Hno pk. cbn in Hno. unfold relay_task_step, relay_peer_data, send_to_client. cbn.
  rewrite Hno. intros ->%list_elem_of_singleton. eauto.
Qed.

Definition two_sockets : TurnServer :=
  (run_udp (Ok tt) 1 (SaV4 (mkIpv4 10 0 0 5) 3479) (run_udp (Ok tt) 1 (SaV4 (mkIpv4 10 0 0 5) 3478) busy_server).2).2.

Lemma second_udp_listener_takes_over_witness :
  ∃ task payload, tasks (allocation_table two_sockets) !! 0 = Some task ∧
    (@relay_task_step map_order 0 (Ok 0) (SocketRecv (Ok ([1], peer_a))) task
       (client_transports (allocation_table two_sockets)) (channel_table two_sockets)
       (stats (allocation_table two_sockets))).2 =
    [ToClient (UdpClientPacketSender (SaV4 (mkIpv4 10 0 0 5) 3479)) sample_client payload].
Proof.
  assert (Hl : ∃ pk, (@relay_task_step map_order 0 (Ok 0) (SocketRecv (Ok ([1], peer_a))) sample_task
       (client_transports (allocation_table two_sockets)) (channel_table two_sockets)
       (stats (allocation_table two_sockets))).2 = [pk]) by (eexists; vm_compute; reflexivity).
  destruct Hl as [pk Hl].
  destruct (@second_udp_listener_takes_over map_order 1 (SaV4 (mkIpv4 10 0 0 5) 3478) (SaV4 (mkIpv4 10 0 0 5) 3479)
    busy_server 0 sample_task 0 (Ok 0) [1] peer_a) with (pk := pk) as [payload Hp].
  - vm_compute. reflexivity.
  - vm_compute. reflexivity.
  - change (pk ∈ (@relay_task_step map_order 0 (Ok 0) (SocketRecv (Ok ([1], peer_a))) sample_task
       (client_transports (allocation_table two_sockets)) (channel_table two_sockets)
       (stats (allocation_table two_sockets))).2). rewrite Hl. by left.
  - exists sample_task, payload. split; [vm_compute; reflexivity|]. rewrite Hl, Hp. reflexivity.
Defined.

(** Every [run_udp] starts the background tasks again, before it binds: with [n]
    UDP listeners a server built inside the runtime has [n] statistics dumps and
    [n + 1] of each clean-up. *)
Theorem udp_listeners_repeat_tasks bind cpus sock s :
  (run_udp bind cpus sock s).1.1 =
  constructor_tasks true ++ spawn_stats_dump true (stats_dump_interval_secs s) (stats_dump_skip_if_no_change s).
Proof. by destruct bind. Qed.
