(* ===== verification/Delivery.v ===== *)
(** * From a peer to a client on a stream (src/allocation.rs, src/server.rs)

    The relay task wraps what a peer sends, the client's sender puts it on the
    connection, and the client cuts the byte stream into frames again: Alloc
    and Framing composed.  The reader is the server's own framing, which both
    ends of a TURN connection follow. *)

From S2P Require Import Prelude RustStd StunMessage Errors Ports Channels Bandwidth Auth Alloc Framing Crypto.
From S2P Require Import Server ServerSpec Typing System TurnSpec.
Local Open Scope Z_scope.

(** ** What a sender puts on its transport *)

(** The writer's lock is held for the whole frame. *)
Definition write_locked_stream_frame (data : list Z) : outcome (list Z) := write_stream_frame data.

(** [send_to_client] of the three senders. *)
Definition sent_bytes (sender : ClientPacketSender) (data : list Z) : outcome (list Z) :=
  match sender with
  | UdpClientPacketSender _ | DtlsClientPacketSender _ => Ret data
  | StreamClientPacketSender _ => write_locked_stream_frame data
  end.

(** The bytes a run of sends puts on a connection. *)
Fixpoint stream_bytes (pks : list Packet) : outcome (list Z) :=
  match pks with
  | [] => Ret []
  | ToClient sender _ data :: pks =>
    b ← sent_bytes sender data; rest ← stream_bytes pks; Ret (b ++ rest)
  | ToPeer _ _ _ :: pks => stream_bytes pks
  end.

(** ** What a peer sends *)

(** A datagram on the relay socket, with the clock and the channel table its
    turn of the relay task sees. *)
Record PeerDatagram := mkDatagram {
  pd_nanos : Z;
  pd_channels : ChannelTable;
  pd_data : list Z;
  pd_ip : Ipv4Addr;
  pd_port : Z
}.

Section delivery.
Context `{HO : HashOrder}.

Definition relay_turns (io : result Z string) (task : RelayTask) (reg : ClientTransportRegistry)
    (s : ServerStats) (ds : list PeerDatagram) : list Packet :=
  concat (map (λ d, (relay_task_step (pd_nanos d) io (SocketRecv (Ok (pd_data d, SaV4 (pd_ip d) (pd_port d))))
                       task reg (pd_channels d) s).2) ds).

(** The peer's address as the client knows it, and its channel. *)
Definition peer_as_seen (task : RelayTask) (d : PeerDatagram) : SocketAddr :=
  normalize_peer_addr_for_client (SaV4 (pd_ip d) (pd_port d)) (task_bind_addr task) (task_relayed task).
Definition peer_channel (task : RelayTask) (d : PeerDatagram) : option Z :=
  get_by_peer_for_relayed (pd_channels d) (task_relayed task) (peer_as_seen task d).

Definition peer_payload (task : RelayTask) (d : PeerDatagram) : list Z :=
  match peer_channel task d with
  | Some n => channel_data_frame n (pd_data d)
  | None => build_data_indication (pd_nanos d) (peer_as_seen task d) (pd_data d)
  end.

Definition datagram_ok (task : RelayTask) (d : PeerDatagram) : Prop :=
  ipv4_ok (pd_ip d) ∧ in_u16 (pd_port d) ∧ bytes_ok (pd_data d) ∧ Z.of_nat (length (pd_data d)) ≤ 65000 ∧
  ∀ n, peer_channel task d = Some n → is_channel_number n = true.

(** A frame that tells the client what the peer sent and from where. *)
Definition carries (task : RelayTask) (d : PeerDatagram) (frame : list Z) : Prop :=
  match peer_channel task d with
  | Some n => be16 (byte_at frame 0) (byte_at frame 1) = n ∧
              be16 (byte_at frame 2) (byte_at frame 3) = Z.of_nat (length (pd_data d)) ∧
              slice frame 4 (4 + length (pd_data d)) = pd_data d
  | None => ∃ m a, Message_parse frame = Some m ∧ method (header m) = Data ∧ event_type (header m) = Indication ∧
              get_attribute m PEER_ADDRESS = Some a ∧
              decode_xor_address (value a) MAGIC (transaction_id (header m)) = Some (peer_as_seen task d) ∧
              get_attribute m DATA = Some (mkAttr DATA (pd_data d))
  end.

(** ** Lemmas *)

Lemma relay_turns_packets io task reg s sender ds :
  client_senders reg !! task_client task = Some sender →
  relay_turns io task reg s ds = map (λ d, ToClient sender (task_client task) (peer_payload task d)) ds.
Proof.
  intros Hs. unfold relay_turns. induction ds as [|d ds IH]; [done|]. cbn [map concat]. rewrite IH.
  cbn [relay_task_step snd]. unfold relay_peer_data, send_to_client. by rewrite Hs.
Qed.

Lemma stream_bytes_frames conn client ps :
  Forall bytes_ok ps →
  stream_bytes (map (ToClient (StreamClientPacketSender conn) client) ps) = Ret (concat (map on_wire ps)).
Proof.
  induction 1 as [|p ps Hp _ IH]; [done|]. cbn [map stream_bytes sent_bytes concat]. rewrite IH.
  unfold write_locked_stream_frame. by rewrite write_stream_frame_total.
Qed.

Lemma channel_data_frame_ok n data :
  bytes_ok data → Z.of_nat (length data) ≤ 65535 → is_channel_number n = true →
  bytes_ok (channel_data_frame n data) ∧ channel_frame (channel_data_frame n data) ∧
  be16 (byte_at (channel_data_frame n data) 0) (byte_at (channel_data_frame n data) 1) = n ∧
  be16 (byte_at (channel_data_frame n data) 2) (byte_at (channel_data_frame n data) 3) = Z.of_nat (length data).
Proof.
  intros Hb Hl Hn. apply andb_true_iff in Hn as Hn'. rewrite !Z.leb_le in Hn'.
  assert (H : ∀ x, in_u16 x → be16 (as_u8 (Z.shiftr x 8)) (as_u8 (Z.land x 0xFF)) = x).
  { intros x Hx. change 0xFF with (Z.ones 8). rewrite Z.land_ones, Z.shiftr_div_pow2 by lia.
    unfold be16. word_lia. }
  assert (E1 : be16 (byte_at (channel_data_frame n data) 0) (byte_at (channel_data_frame n data) 1) = n)
    by (apply H; unfold_words; lia).
  assert (E2 : be16 (byte_at (channel_data_frame n data) 2) (byte_at (channel_data_frame n data) 3) = Z.of_nat (length data)).
  { unfold channel_data_frame. rewrite as_u16_id by (unfold_words; lia). apply H. unfold_words; lia. }
  split; [|split; [split; [|split]|by split]].
  - apply bytes_ok_app. split; [|done]. repeat constructor; word_lia.
  - cbn. lia.
  - by rewrite E1.
  - rewrite E2. cbn. lia.
Qed.

Lemma peer_as_seen_v4 task d ext rport :
  task_relayed task = SaV4 ext rport → ipv4_ok ext → ipv4_ok (pd_ip d) →
  ∃ ip, peer_as_seen task d = SaV4 ip (pd_port d) ∧ ipv4_ok ip.
Proof.
  intros Hr Hext Hip. unfold peer_as_seen, normalize_peer_addr_for_client. rewrite Hr. case_match; cbn; eauto.
Qed.

Lemma data_indication_frame nanos ip port data :
  ipv4_ok ip → in_u16 port → bytes_ok data → Z.of_nat (length data) ≤ 65000 →
  bytes_ok (build_data_indication nanos (SaV4 ip port) data) ∧
  stun_frame (build_data_indication nanos (SaV4 ip port) data).
Proof.
  intros Hip Hport Hb Hl. destruct (getrandom_from_ok 12 (as_u64 nanos)) as [Htl Htb]. split.
  - apply Message_encode_wire. split; [done|]. cbn [attributes].
    apply list.Forall_cons. split; [by apply encode_xor_address_ok|by apply Forall_singleton].
  - by apply encoded_message_frame, data_indication_ok.
Qed.

(** Each payload is one frame, and the frame as it is read, padding included,
    carries the datagram. *)
Lemma peer_payload_frame task d ext rport :
  task_relayed task = SaV4 ext rport → ipv4_ok ext → datagram_ok task d →
  bytes_ok (peer_payload task d) ∧ (stun_frame (peer_payload task d) ∨ channel_frame (peer_payload task d)) ∧
  carries task d (on_wire (peer_payload task d)).
Proof.
  intros Hr Hext (Hip & Hport & Hb & Hl & Hch). unfold peer_payload, carries.
  destruct (peer_channel task d) as [n|] eqn:En.
  - destruct (channel_data_frame_ok n (pd_data d)) as (H1 & H2 & H3 & H4); [done|lia|by apply Hch|].
    split; [done|]. split; [by right|]. unfold on_wire. set (pad := replicate _ _).
    assert (H0 : (4 ≤ length (channel_data_frame n (pd_data d)))%nat) by (cbn; lia).
    rewrite !byte_at_app_l by lia. split_and!; [done|done|].
    unfold slice, channel_data_frame. rewrite <- app_assoc. cbn [app drop].
    replace (4 + length (pd_data d) - 4)%nat with (length (pd_data d)) by lia. by rewrite drop_0, take_app_length.
  - destruct (peer_as_seen_v4 task d ext rport Hr Hext Hip) as (ip & E & Hi). rewrite E.
    destruct (data_indication_frame (pd_nanos d) ip (pd_port d) (pd_data d) Hi Hport Hb Hl) as [H1 H2].
    split; [done|]. split; [by left|]. rewrite on_wire_stun by done. by apply data_indication_parses.
Qed.

Lemma carried_frames task ds ext rport :
  task_relayed task = SaV4 ext rport → ipv4_ok ext → Forall (datagram_ok task) ds →
  Forall bytes_ok (map (peer_payload task) ds) ∧
  Forall (λ d, stun_frame d ∨ channel_frame d) (map (peer_payload task) ds) ∧
  Forall2 (carries task) ds (map on_wire (map (peer_payload task) ds)).
Proof.
  intros Hr Hext. induction 1 as [|d ds Hd _ (IH1 & IH2 & IH3)]; [by repeat constructor|].
  destruct (peer_payload_frame task d ext rport Hr Hext Hd) as (H1 & H2 & H3).
  cbn [map]. split_and!; by constructor.
Qed.
End delivery.

(** ** Properties *)

(** C16. From the peer to the client on a TCP or TLS connection: whatever the peers
    send to a relay address, in whatever order, with whatever channels the
    client has bound at each moment, the bytes the client's connection gets can
    be cut, however they are segmented, into exactly one frame per datagram, in
    the order they arrived at the relay, each with the peer (as a channel or as
    an address) and the very bytes it sent, provided the numbers of the client's
    channels are channel numbers. *)
Theorem stream_client_reads_peers `{HO : HashOrder} io task reg s conn ext rport ds :
  client_senders reg !! task_client task = Some (StreamClientPacketSender conn) →
  task_relayed task = SaV4 ext rport → ipv4_ok ext → Forall (datagram_ok task) ds →
  ∃ wire, stream_bytes (relay_turns io task reg s ds) = Ret wire ∧
    ∀ chunks, Forall bytes_ok chunks → concat chunks = wire →
      ∃ frames, read_loop [] chunks = (frames, []) ∧ Forall2 (carries task) ds frames.
Proof.
  intros Hs Hr Hext Hds. destruct (carried_frames task ds ext rport Hr Hext Hds) as (H1 & H2 & H3).
  exists (concat (map on_wire (map (peer_payload task) ds))). split.
  - rewrite (relay_turns_packets io task reg s _ ds Hs), <- (map_map (peer_payload task)). by apply stream_bytes_frames.
  - intros chunks Hc E. exists (map on_wire (map (peer_payload task) ds)). split; [|done].
    rewrite read_loop_drain by (done || constructor). cbn [app]. rewrite E. by apply drain_on_wire.
Qed.

(** Two peers of a client on a stream, one of them with a channel. *)
Definition sample_bound : ChannelTable :=
  (ChannelTable_bind 0 0x4000 peer_a sample_relayed ChannelTable_new).2.
Definition sample_datagrams : list PeerDatagram :=
  [mkDatagram 5 sample_bound [1; 2; 3] (mkIpv4 192 168 1 7) 5000;
   mkDatagram 6 sample_bound [4; 5; 6; 7; 8] (mkIpv4 192 0 2 77) 701].

Lemma sample_datagrams_ok : Forall (datagram_ok (HO := map_order) sample_task) sample_datagrams.
Proof.
  repeat constructor; try (unfold_words; cbn; lia); cbn; intros n; vm_compute; intros [= <-]; reflexivity.
Qed.

Lemma stream_client_reads_peers_witness :
  ∃ wire frames, stream_bytes (@relay_turns map_order (Ok 0) sample_task sample_registry ServerStats_default sample_datagrams) = Ret wire ∧
    read_loop [] [take 9 wire; drop 9 wire] = (frames, []) ∧ Forall2 (@carries map_order sample_task) sample_datagrams frames.
Proof.
  destruct (@stream_client_reads_peers map_order (Ok 0) sample_task sample_registry ServerStats_default 1
    (mkIpv4 203 0 113 5) 50000 sample_datagrams) as (wire & Hw & Hr); [reflexivity|reflexivity| |exact sample_datagrams_ok|].
  - unfold ipv4_ok; unfold_words; cbn; lia.
  - destruct (Hr [take 9 wire; drop 9 wire]) as (frames & H1 & H2).
    + assert (E : forallb (λ b, (0 <=? b) && (b <? 256)) match stream_bytes (@relay_turns map_order (Ok 0) sample_task
        sample_registry ServerStats_default sample_datagrams) with Ret w => w | Panic => [] end = true)
        by (vm_compute; reflexivity).
      rewrite Hw in E. assert (Hb : bytes_ok wire).
      { apply list.Forall_forall. intros x Hx. rewrite forallb_forall in E. specialize (E x).
        rewrite <- list_elem_of_In in E. specialize (E Hx). apply andb_true_iff in E. unfold_words. lia. }
      repeat constructor; [by apply Forall_take|by apply Forall_drop].
    + cbn. by rewrite app_nil_r, take_drop.
    + exists wire, frames. split; [exact Hw|]. split; [exact H1|exact H2].
Defined.

Definition bind_channel_one : Message :=
  signed_request ChannelBind
    [mkAttr CHANNEL_NUMBER [0; 1; 0; 0]; mkAttr PEER_ADDRESS (encode_xor_address peer_a MAGIC (seqZ 1 12))].
Definition stream_server : TurnServer :=
  set_table (register_client_sender sample_client (StreamClientPacketSender 1) (allocation_table busy_server)) busy_server.

(** Without that provision it fails: [handle_channel_bind] takes any number
    for a channel.  Here a client on a stream binds channel 1 and gets a success
    response; the three bytes its peer then sends put seven bytes on the
    connection that are no frame, and the Binding response written next comes
    out with its first sixteen bytes in somebody else's frame and the rest
    stuck in the buffer. *)
Theorem unchecked_channel_number_breaks_stream :
  ∃ resp m s1 wire answer,
    @handle_tcp_message toy_crypto map_order sample_env (Message_encode bind_channel_one) sample_client stream_server
      = Ret (Some resp, [], s1) ∧
    Message_parse resp = Some m ∧ event_type (header m) = Success ∧
    stream_bytes (@relay_turns map_order (Ok 0) sample_task (client_transports (allocation_table s1)) ServerStats_default
      [mkDatagram 5 (channel_table s1) [1; 2; 3] (mkIpv4 192 168 1 7) 5000]) = Ret wire ∧
    wire = [0; 1; 0; 3; 1; 2; 3] ∧
    handle_binding (request StunMessage.Binding []) sample_client = Some answer ∧
    read_loop [] [wire ++ answer] = ([wire ++ take 16 answer], drop 16 answer).
Proof.
  eexists _, _, _, _, _. split; [vm_compute; reflexivity|]. split; [vm_compute; reflexivity|].
  split; [reflexivity|]. split; [vm_compute; reflexivity|]. split; [reflexivity|].
  split; [vm_compute; reflexivity|]. vm_compute. reflexivity.
Qed.
