(* ===== verification/Admin.v ===== *)
(** * The HTTP admin interface (src/health.rs)

    Routes, the address filter, sessions, user and rule administration, the
    TURN REST endpoints and persistence of the user and rule tables.

    axum and tower are third-party: a request arrives here as the values its
    extractors produce (peer address, readable headers, cookies, query map,
    decoded body), and a response is what the handler hands back.  The shared
    [AuthManager] and the file system are the state; [AdminEnv] holds what a
    handler reads from outside. *)

From S2P Require Import Prelude RustStd RustText Config Crypto Auth ShortTerm Metrics Alloc.
From Stdlib Require Import Ascii String.
Local Open Scope string_scope.
Local Open Scope Z_scope.

(** ** Data *)

(** [serde_json::Value] *)
Inductive json :=
| JNull
| JBool (b : bool)
| JNum (n : Z)
| JStr (s : string)
| JArr (l : list json)
| JObj (fields : list (string * json)).

Record AdminState := mkAdmin { adm_username : option string; adm_password : option string }.
Record TurnRestState := mkTurnRest { rest_enabled : bool; credential_manager : option ShortTermCredentialManager }.

(** [AppState] less the shared [AuthManager] and the statistics callback,
    which are the state and the environment. *)
Record AppState := mkApp {
  app_admin : AdminState;
  app_turn_rest : TurnRestState;
  app_metrics : option MetricsInner;
  app_config_path : option string;
  app_external_ip : string;
  app_listen_configs : list ListenConfig;
  app_admin_acl : list string;
  app_trust_proxy : bool
}.

Record World := mkWorld { w_auth : AuthManager; w_fs : FileSystem }.

(** What a handler reads from outside: the Unix time, the monotonic clock, the
    server statistics, and how the file operations go. *)
Record AdminEnv := mkAdminEnv {
  adm_unix : Z;
  adm_now : Z;
  adm_stats : Z * Z * Z * Z;
  adm_readable : bool;
  adm_write : WriteIo
}.

Abbreviation CookieJar := (gmap string string).
Definition SESSION_COOKIE : string := "admin_session".
Definition SESSION_VALUE : string := "authenticated".

(** A [Set-Cookie] of the response: a value with its path, or a removal. *)
Inductive SetCookie := CookieSet (name value path : string) | CookieRemoval (name path : string).

Inductive Body :=
| BRedirect (url : string)
| BHtml (page : string)
| BText (text : string)
| BJson (v : json)
| BForbidden (text : string).
Record Response := mkResponse { cookies : list SetCookie; body : Body }.
Definition plain (b : Body) : Response := mkResponse [] b.

Record LoginForm := mkLogin { form_username : string; form_password : string }.
Record AddUserRequest := mkAddUser {
  au_username : string;
  au_password : string;
  au_user_type : string;
  au_max_allocations : option Z;
  au_expires_at : option Z;
  au_bandwidth_limit : option Z;
  au_ip_whitelist : option (list string);
  au_max_allocation_duration_secs : option Z
}.
Record UpdateUserRequest := mkUpdateUser {
  uu_username : string;
  uu_password : option string;
  uu_user_type : string;
  uu_max_allocations : option Z;
  uu_expires_at : option Z;
  uu_bandwidth_limit : option Z;
  uu_ip_whitelist : option (list string);
  uu_max_allocation_duration_secs : option Z
}.
Record AddAclRequest := mkAddAcl { aa_ip_range : string; aa_action : string; aa_priority : Z }.
Record UpdateAclRequest := mkUpdateAcl {
  ua_original_ip_range : string;
  ua_original_priority : Z;
  ua_ip_range : string;
  ua_action : string;
  ua_priority : Z
}.
Record TurnCredentialsRequest := mkCredsRequest { tc_username : string; tc_lifetime : option Z }.
Record IceServersQuery := mkIceQuery { iq_username : string; iq_lifetime : option Z }.

(** ** Sessions and the address filter *)

Definition check_auth (jar : CookieJar) (a : AdminState) : bool :=
  match adm_username a with
  | None => true
  | Some _ => match jar !! SESSION_COOKIE with Some v => str_eqb v SESSION_VALUE | None => false end
  end.

(** The address a request is judged by; the headers are present when they are
    there and readable as text. *)
Definition request_ip (st : AppState) (peer : SocketAddr) (x_forwarded_for x_real_ip : option string) : string :=
  if app_trust_proxy st then
    match x_forwarded_for with
    | Some s => trim (match split_on ","%char s with first :: _ => first | [] => "" end)
    | None =>
      match x_real_ip with
      | Some s => trim s
      | None => ip_string (sa_ip peer)
      end
    end
  else ip_string (sa_ip peer).

Definition acl_permits (st : AppState) (ip : string) : bool :=
  match app_admin_acl st with
  | [] => true
  | acl => existsb (λ range, ip_in_range ip range) acl
  end.

(** ** Saving *)

Definition user_type_name (t : UserType) : string :=
  match t with Temporary => "temporary" | Fixed => "fixed" | ApiKey => "api_key" end.
Definition action_name (a : AclAction) : string := match a with Allow => "Allow" | Deny => "Deny" end.

Definition config_of_user (u : User) : UserConfig :=
  mkUserConfig (username u) (password u) (user_type_name (user_type u)) (expires_at u)
    (Some (max_allocations u)) (bandwidth_limit u) (ip_whitelist u) (user_max_allocation_duration_secs u).
Definition config_of_rule (r : AclRule) : AclRuleConfig :=
  mkRuleConfig (ip_range r) (action_name (action r)) (Some (priority r)).

Section handlers.
Context `{CR : Crypto} `{HO : HashOrder} `{TO : Toml}.

(** The configuration that gets written: what the file holds, or the default
    when it is absent or cannot be loaded, with the current users and rules. *)
Definition config_to_save (env : AdminEnv) (path : string) (w : World) : Config :=
  let base := match w_fs w !! path with
              | Some _ => match Config_load (adm_readable env) path (w_fs w) with
                          | Some c => c
                          | None => Config_default
                          end
              | None => Config_default
              end in
  set_auth_config (mkAuthConfig (map config_of_user (list_users (w_auth w)))
                     (cfg_api_keys (auth base)) (map config_of_rule (list_acl_rules (w_auth w)))) base.

(** The result is only logged by the callers. *)
Definition save_config (env : AdminEnv) (st : AppState) (w : World) : bool * World :=
  match app_config_path st with
  | None => (true, w)
  | Some path =>
    let '(ok, fs) := Config_save (adm_write env) (config_to_save env path w) path (w_fs w) in
    (ok, mkWorld (w_auth w) fs)
  end.

Definition set_auth (am : AuthManager) (w : World) : World := mkWorld am (w_fs w).

(** ** Handlers *)

Definition unauthorized : Response :=
  plain (BJson (JObj [("success", JBool false); ("error", JStr "Unauthorized")])).

Definition root_handler : Response := plain (BRedirect "/console").

Definition console_handler (jar : CookieJar) (st : AppState) : Response :=
  if check_auth jar (app_admin st) then plain (BRedirect "/console/dashboard") else
  match adm_username (app_admin st) with
  | Some _ => plain (BHtml "login.html")
  | None => plain (BHtml "admin.html")
  end.

Definition dashboard_handler (jar : CookieJar) (st : AppState) : Response :=
  if negb (check_auth jar (app_admin st)) then plain (BHtml "redirect to /console")
  else plain (BHtml "admin.html").

Definition credentials_match (st : AppState) (form : LoginForm) : bool :=
  match adm_username (app_admin st), adm_password (app_admin st) with
  | Some u, Some p => str_eqb (form_username form) u && str_eqb (form_password form) p
  | _, _ => false
  end.

Definition session_cookie : SetCookie := CookieSet SESSION_COOKIE SESSION_VALUE "/".

Definition login_handler (st : AppState) (form : LoginForm) : Response :=
  if credentials_match st form then mkResponse [session_cookie] (BRedirect "/console/dashboard")
  else plain (BRedirect "/console?error=1").

Definition logout_handler : Response :=
  mkResponse [CookieRemoval SESSION_COOKIE "/"] (BRedirect "/console").

Definition api_login_handler (st : AppState) (form : LoginForm) : Response :=
  if credentials_match st form then
    mkResponse [session_cookie] (BJson (JObj [("success", JBool true); ("token", JStr "admin-token")]))
  else plain (BJson (JObj [("success", JBool false); ("error", JStr "Invalid credentials")])).

Definition opt_json {A} (f : A → json) (o : option A) : json :=
  match o with Some a => f a | None => JNull end.

(** [format!("{:?}", user_type)] and [format!("{:?}", action)] *)
Definition user_type_debug (t : UserType) : string :=
  match t with Temporary => "Temporary" | Fixed => "Fixed" | ApiKey => "ApiKey" end.

Definition user_json (u : User) : json :=
  JObj [("username", JStr (username u)); ("user_type", JStr (user_type_debug (user_type u)));
        ("max_allocations", JNum (max_allocations u)); ("expires_at", opt_json JNum (expires_at u));
        ("bandwidth_limit", opt_json JNum (bandwidth_limit u));
        ("max_allocation_duration_secs", opt_json JNum (user_max_allocation_duration_secs u));
        ("ip_whitelist", opt_json (λ l, JArr (map JStr l)) (ip_whitelist u))].

Definition rule_json (r : AclRule) : json :=
  JObj [("ip_range", JStr (ip_range r)); ("action", JStr (action_name (action r)));
        ("priority", JNum (priority r))].

Definition stats_fields (s : Z * Z * Z * Z) : list (string * json) :=
  let '(total, active, bytes, messages) := s in
  [("total_allocations", JNum total); ("active_allocations", JNum active);
   ("total_bytes_relayed", JNum bytes); ("total_messages", JNum messages)].

Definition stats_json_handler (env : AdminEnv) (jar : CookieJar) (st : AppState) (w : World) : Response :=
  if negb (check_auth jar (app_admin st)) then unauthorized else
  plain (BJson (JObj ([("status", JStr "ok"); ("realm", JStr (auth_realm (w_auth w)))] ++
    stats_fields (adm_stats env) ++
    [("users", JArr (map user_json (list_users (w_auth w))));
     ("acl_rules", JArr (map rule_json (list_acl_rules (w_auth w))))])%list)).

(** Answers that the configuration was reloaded and reads two counters. *)
Definition reload_handler (env : AdminEnv) (jar : CookieJar) (st : AppState) : Response :=
  if negb (check_auth jar (app_admin st)) then unauthorized else
  plain (BJson (JObj [("success", JBool true); ("message", JStr "Configuration reloaded");
                      ("stats", JObj (take 2 (stats_fields (adm_stats env))))])).

Definition health_proxy_handler (env : AdminEnv) : Response :=
  plain (BJson (JObj (("status", JStr "ok") :: stats_fields (adm_stats env)))).

(** ** User administration *)

Definition user_type_of (s : string) : UserType :=
  if str_eqb s "temporary" then Temporary else if str_eqb s "api_key" then ApiKey else Fixed.

Definition add_user_handler (env : AdminEnv) (jar : CookieJar) (st : AppState) (req : AddUserRequest)
    (w : World) : Response * World :=
  if negb (check_auth jar (app_admin st)) then (unauthorized, w) else
  let user := mkUser (au_username req) (au_password req) (user_type_of (au_user_type req)) (adm_unix env)
    (au_expires_at req) (default 10 (au_max_allocations req)) (au_bandwidth_limit req)
    (au_ip_whitelist req) (au_max_allocation_duration_secs req) in
  let w := set_auth (add_user user (w_auth w)) w in
  let '(_, w) := save_config env st w in
  (plain (BJson (JObj [("success", JBool true); ("message", JStr "User added");
     ("user", JObj [("username", JStr (au_username req)); ("user_type", JStr (au_user_type req));
                    ("max_allocations", JNum (default 10 (au_max_allocations req)))])])), w).

Definition delete_user_handler (env : AdminEnv) (jar : CookieJar) (st : AppState)
    (params : gmap string string) (w : World) : Response * World :=
  if negb (check_auth jar (app_admin st)) then (unauthorized, w) else
  let name := default "" (params !! "username") in
  let w := set_auth (remove_user name (w_auth w)) w in
  let '(_, w) := save_config env st w in
  (plain (BJson (JObj [("success", JBool true); ("message", JStr "User deleted")])), w).

Definition update_user_handler (env : AdminEnv) (jar : CookieJar) (st : AppState) (req : UpdateUserRequest)
    (w : World) : Response * World :=
  if negb (check_auth jar (app_admin st)) then (unauthorized, w) else
  let w := set_auth (remove_user (uu_username req) (w_auth w)) w in
  let user := mkUser (uu_username req) (default "" (uu_password req)) (user_type_of (uu_user_type req))
    (adm_unix env) (uu_expires_at req) (default 10 (uu_max_allocations req)) (uu_bandwidth_limit req)
    (uu_ip_whitelist req) (uu_max_allocation_duration_secs req) in
  let w := set_auth (add_user user (w_auth w)) w in
  let '(_, w) := save_config env st w in
  (plain (BJson (JObj [("success", JBool true); ("message", JStr "User updated");
     ("user", JObj [("username", JStr (uu_username req)); ("user_type", JStr (uu_user_type req));
                    ("max_allocations", JNum (default 10 (uu_max_allocations req)))])])), w).

(** ** Rule administration *)

Definition action_of (s : string) : AclAction := if str_eqb s "Allow" then Allow else Deny.

Definition rule_response (message ip_range action : string) (priority : Z) : Response :=
  plain (BJson (JObj [("success", JBool true); ("message", JStr message);
    ("rule", JObj [("ip_range", JStr ip_range); ("action", JStr action); ("priority", JNum priority)])])).

Definition add_acl_handler (env : AdminEnv) (jar : CookieJar) (st : AppState) (req : AddAclRequest)
    (w : World) : Response * World :=
  if negb (check_auth jar (app_admin st)) then (unauthorized, w) else
  let rule := mkRule (aa_ip_range req) (action_of (aa_action req)) (aa_priority req) in
  let w := set_auth (add_acl_rule rule (w_auth w)) w in
  let '(_, w) := save_config env st w in
  (rule_response "ACL rule added" (aa_ip_range req) (aa_action req) (aa_priority req), w).

Definition delete_acl_handler (env : AdminEnv) (jar : CookieJar) (st : AppState)
    (params : gmap string string) (w : World) : Response * World :=
  if negb (check_auth jar (app_admin st)) then (unauthorized, w) else
  let range := default "" (params !! "ip_range") in
  let prio := match params !! "priority" with Some s => default 0 (parse_uint U32_MAX s) | None => 0 end in
  let w := set_auth (remove_acl_rule range prio (w_auth w)) w in
  let '(_, w) := save_config env st w in
  (plain (BJson (JObj [("success", JBool true); ("message", JStr "ACL rule deleted")])), w).

Definition update_acl_handler (env : AdminEnv) (jar : CookieJar) (st : AppState) (req : UpdateAclRequest)
    (w : World) : Response * World :=
  if negb (check_auth jar (app_admin st)) then (unauthorized, w) else
  let w := set_auth (remove_acl_rule (ua_original_ip_range req) (ua_original_priority req) (w_auth w)) w in
  let rule := mkRule (ua_ip_range req) (action_of (ua_action req)) (ua_priority req) in
  let w := set_auth (add_acl_rule rule (w_auth w)) w in
  let '(_, w) := save_config env st w in
  (rule_response "ACL rule updated" (ua_ip_range req) (ua_action req) (ua_priority req), w).

(** ** TURN REST credentials *)

Definition ice_url (st : AppState) (l : ListenConfig) (port : Z) : list string :=
  let host := app_external_ip st ++ ":" ++ dec_string port in
  if str_eqb (protocol l) "udp" then ["turn:" ++ host]
  else if str_eqb (protocol l) "tcp" then ["turn:" ++ host ++ "?transport=tcp"]
  else if str_eqb (protocol l) "tls" then ["turns:" ++ host ++ "?transport=tcp"]
  else if str_eqb (protocol l) "dtls" then ["turns:" ++ host ++ "?transport=udp"]
  else [].

(** The loop over the listeners; the address is parsed before the protocol is
    looked at. *)
Fixpoint ice_urls (st : AppState) (ls : list ListenConfig) : outcome (list string) :=
  match ls with
  | [] => Ret []
  | l :: ls =>
    addr ← ListenConfig_addr l;
    rest ← ice_urls st ls;
    Ret (ice_url st l (sa_port addr) ++ rest)%list
  end.

Definition ice_servers_handler (env : AdminEnv) (st : AppState) (req : IceServersQuery) : outcome Response :=
  if negb (rest_enabled (app_turn_rest st)) then Ret (plain (BJson (JArr []))) else
  match credential_manager (app_turn_rest st) with
  | None => Ret (plain (BJson (JArr [])))
  | Some m =>
    let '(name, pw, _) := generate (adm_unix env) m (iq_username req) (iq_lifetime req) in
    urls ← ice_urls st (app_listen_configs st);
    Ret (plain (BJson (JArr [JObj [("urls", JArr (map JStr (dedup (sort_by str_leb urls))));
                                   ("username", JStr name); ("credential", JStr pw)]])))
  end.

Definition turn_credentials_handler (env : AdminEnv) (st : AppState) (req : TurnCredentialsRequest) : Response :=
  if negb (rest_enabled (app_turn_rest st)) then
    plain (BJson (JObj [("error", JStr "TURN REST API is not enabled"); ("success", JBool false)]))
  else
  match credential_manager (app_turn_rest st) with
  | None => plain (BJson (JObj [("error", JStr "TURN REST API credential manager not configured");
                                ("success", JBool false)]))
  | Some m =>
    let '(name, pw, expires) := generate (adm_unix env) m (tc_username req) (tc_lifetime req) in
    plain (BJson (JObj [("success", JBool true); ("username", JStr name); ("password", JStr pw);
                        ("expires", JNum expires)]))
  end.

(** The fallback text when no metrics are collected. *)
Definition basic_metrics (s : Z * Z * Z * Z) : string :=
  let '(total, active, bytes, messages) := s in
  prom_entry "turn_total_allocations" "Total number of allocations created" "counter" total ++
  prom_entry "turn_active_allocations" "Current number of active allocations" "gauge" active ++
  prom_entry "turn_total_bytes_relayed" "Total bytes relayed" "counter" bytes ++
  prom_entry "turn_total_messages" "Total messages relayed" "counter" messages.

Definition prometheus_metrics_handler (env : AdminEnv) (st : AppState) : Response :=
  plain (BText (match app_metrics st with
                | Some m => export_prometheus (adm_now env) m
                | None => basic_metrics (adm_stats env)
                end)).

(** The standalone health server has one route, with the same answer. *)
Definition health_handler (env : AdminEnv) : Response :=
  plain (BJson (JObj (("status", JStr "ok") :: stats_fields (adm_stats env)))).

(** ** Routes *)

(** A request that axum has routed and decoded, by handler. *)
Inductive Call :=
| GetHealth
| PostTurnCredentials (req : TurnCredentialsRequest)
| GetIceServers (req : IceServersQuery)
| GetRoot
| GetConsole
| GetDashboard
| PostLogin (form : LoginForm)
| GetStats
| PostReload
| PostApiLogin (form : LoginForm)
| PostUser (req : AddUserRequest)
| DeleteUser (params : gmap string string)
| PutUser (req : UpdateUserRequest)
| PostAcl (req : AddAclRequest)
| DeleteAcl (params : gmap string string)
| PutAcl (req : UpdateAclRequest)
| PostLogout
| GetMetrics.

Definition is_public (c : Call) : bool :=
  match c with GetHealth | PostTurnCredentials _ | GetIceServers _ => true | _ => false end.

Record Request := mkRequest {
  req_peer : SocketAddr;
  req_forwarded : option string;
  req_real_ip : option string;
  req_jar : CookieJar;
  req_call : Call
}.

Definition run_handler (env : AdminEnv) (st : AppState) (jar : CookieJar) (c : Call) (w : World)
    : outcome (Response * World) :=
  match c with
  | GetHealth => Ret (health_proxy_handler env, w)
  | PostTurnCredentials req => Ret (turn_credentials_handler env st req, w)
  | GetIceServers req => r ← ice_servers_handler env st req; Ret (r, w)
  | GetRoot => Ret (root_handler, w)
  | GetConsole => Ret (console_handler jar st, w)
  | GetDashboard => Ret (dashboard_handler jar st, w)
  | PostLogin form => Ret (login_handler st form, w)
  | GetStats => Ret (stats_json_handler env jar st w, w)
  | PostReload => Ret (reload_handler env jar st, w)
  | PostApiLogin form => Ret (api_login_handler st form, w)
  | PostUser req => Ret (add_user_handler env jar st req w)
  | DeleteUser params => Ret (delete_user_handler env jar st params w)
  | PutUser req => Ret (update_user_handler env jar st req w)
  | PostAcl req => Ret (add_acl_handler env jar st req w)
  | DeleteAcl params => Ret (delete_acl_handler env jar st params w)
  | PutAcl req => Ret (update_acl_handler env jar st req w)
  | PostLogout => Ret (logout_handler, w)
  | GetMetrics => Ret (prometheus_metrics_handler env st, w)
  end.

Definition admin_acl_middleware (env : AdminEnv) (st : AppState) (req : Request) (w : World)
    : outcome (Response * World) :=
  let ip := request_ip st (req_peer req) (req_forwarded req) (req_real_ip req) in
  if acl_permits st ip then run_handler env st (req_jar req) (req_call req) w
  else Ret (plain (BForbidden "Forbidden: admin access denied from this IP"), w).

(** The router: public routes skip the address filter. *)
Definition serve (env : AdminEnv) (st : AppState) (req : Request) (w : World) : outcome (Response * World) :=
  if is_public (req_call req) then run_handler env st (req_jar req) (req_call req) w
  else admin_acl_middleware env st req w.
End handlers.

(** [create_admin_routes], up to serving: the state the routes share. *)
Definition create_admin_routes (admin_user admin_pass : option string) (rest_on : bool)
    (rest_secret : option string) (rest_lifetime : Z) (metrics : option MetricsInner)
    (path : option string) (ext_ip : string) (listen : list ListenConfig) (acl : list string)
    (proxy : bool) : AppState :=
  let rest := if rest_on then
      let secret := default "default-secret-key" rest_secret in
      mkTurnRest true (Some (with_lifetime rest_lifetime (ShortTermCredentialManager_new secret)))
    else mkTurnRest false None in
  mkApp (mkAdmin admin_user admin_pass) rest metrics path ext_ip listen acl proxy.

(** What a browser keeps of a response. *)
Definition apply_cookie (jar : CookieJar) (c : SetCookie) : CookieJar :=
  match c with CookieSet n v _ => <[n := v]> jar | CookieRemoval n _ => delete n jar end.
Definition browser (jar : CookieJar) (r : Response) : CookieJar := fold_left apply_cookie (cookies r) jar.
