(* ===== verification/AdminSpec.v ===== *)
(** * Properties of the admin interface (src/health.rs)

    Who may change what through the HTTP interface, what the handlers do to
    the shared user and rule tables, and how the TURN side sees it. *)

From S2P Require Import Prelude RustStd RustText StunMessage Config Crypto Auth ShortTerm Metrics Alloc Server Admin.
From Stdlib Require Import Ascii String.
Local Open Scope string_scope.
Local Open Scope Z_scope.

(** ** The tables *)

(** Every user is filed under its own name and the rules are in priority order. *)
Record auth_ok (am : AuthManager) : Prop := {
  auth_keyed : ∀ k u, users am !! k = Some u → username u = k;
  auth_sorted : rules_sorted am
}.

Lemma auth_ok_new realm : auth_ok (AuthManager_new realm).
Proof. split; [intros k u H; cbn in H; by apply lookup_empty_Some in H|constructor]. Qed.

Lemma add_user_ok u am : auth_ok am → auth_ok (add_user u am).
Proof.
  intros [H1 H2]. split; [|done]. intros k v. cbn. intros [[<- <-]|[_ ?]]%lookup_insert_Some; [done|auto].
Qed.
Lemma remove_user_ok n am : auth_ok am → auth_ok (remove_user n am).
Proof. intros [H1 H2]. split; [|done]. intros k v. cbn. intros [_ ?]%lookup_delete_Some. auto. Qed.
Lemma add_acl_rule_ok r am : auth_ok am → auth_ok (add_acl_rule r am).
Proof. intros [H1 H2]. split; [exact H1|apply add_acl_rule_sorted]. Qed.
Lemma remove_acl_rule_ok range p am : auth_ok am → auth_ok (remove_acl_rule range p am).
Proof. intros [H1 H2]. split; [exact H1|by apply remove_acl_rule_sorted]. Qed.
#[export] Hint Resolve add_user_ok remove_user_ok add_acl_rule_ok remove_acl_rule_ok : miu.

Section spec.
Context `{CR : Crypto} `{HO : HashOrder} `{TO : Toml}.
Implicit Types (env : AdminEnv) (st : AppState) (w : World) (am : AuthManager).

Lemma save_config_auth env st w : w_auth (save_config env st w).2 = w_auth w.
Proof. unfold save_config. destruct (app_config_path st); [|done]. by destruct (Config_save _ _ _ _). Qed.

(** The change an authorised call makes to the tables. *)
Definition call_effect env (c : Call) : AuthManager → AuthManager :=
  match c with
  | PostUser r =>
    add_user (mkUser (au_username r) (au_password r) (user_type_of (au_user_type r)) (adm_unix env)
      (au_expires_at r) (default 10 (au_max_allocations r)) (au_bandwidth_limit r)
      (au_ip_whitelist r) (au_max_allocation_duration_secs r))
  | DeleteUser q => remove_user (default "" (q !! "username"))
  | PutUser r => λ am,
    add_user (mkUser (uu_username r) (default "" (uu_password r)) (user_type_of (uu_user_type r)) (adm_unix env)
      (uu_expires_at r) (default 10 (uu_max_allocations r)) (uu_bandwidth_limit r)
      (uu_ip_whitelist r) (uu_max_allocation_duration_secs r)) (remove_user (uu_username r) am)
  | PostAcl r => add_acl_rule (mkRule (aa_ip_range r) (action_of (aa_action r)) (aa_priority r))
  | DeleteAcl q =>
    remove_acl_rule (default "" (q !! "ip_range"))
      (match q !! "priority" with Some s => default 0 (parse_uint U32_MAX s) | None => 0 end)
  | PutAcl r => λ am,
    add_acl_rule (mkRule (ua_ip_range r) (action_of (ua_action r)) (ua_priority r))
      (remove_acl_rule (ua_original_ip_range r) (ua_original_priority r) am)
  | _ => id
  end.

Definition is_write (c : Call) : bool :=
  match c with
  | PostUser _ | DeleteUser _ | PutUser _ | PostAcl _ | DeleteAcl _ | PutAcl _ => true
  | _ => false
  end.

(** A handler either leaves the world alone or, for an authorised write,
    applies the change and saves. *)
Lemma run_handler_world env st jar c w r w' :
  run_handler env st jar c w = Ret (r, w') →
  w' = if is_write c && check_auth jar (app_admin st)
       then (save_config env st (set_auth (call_effect env c (w_auth w)) w)).2 else w.
Proof.
  destruct c; cbn [run_handler is_write andb]; try (by intros [= _ <-]);
    [by destruct (ice_servers_handler _ _ _); simpl_bind; intros ?; simplify_eq|..];
    [unfold add_user_handler|unfold delete_user_handler|unfold update_user_handler
    |unfold add_acl_handler|unfold delete_acl_handler|unfold update_acl_handler];
    destruct (check_auth jar (app_admin st)); cbn [negb]; try (by intros [= _ <-]);
    match goal with |- context [let '(_, _) := save_config ?e ?s ?x in _] =>
      let E := fresh in destruct (save_config e s x) as [ok w1] eqn:E; apply (f_equal snd) in E;
      intros [= _ <-]; symmetry; exact E end.
Qed.

Lemma serve_world env st req w r w' :
  serve env st req w = Ret (r, w') →
  w' = w ∨
  (is_write (req_call req) = true ∧ check_auth (req_jar req) (app_admin st) = true ∧
   acl_permits st (request_ip st (req_peer req) (req_forwarded req) (req_real_ip req)) = true ∧
   w' = (save_config env st (set_auth (call_effect env (req_call req) (w_auth w)) w)).2).
Proof.
  unfold serve, admin_acl_middleware. destruct (is_public (req_call req)) eqn:Ep.
  - intros H%run_handler_world. left. destruct (req_call req); done.
  - destruct (acl_permits _ _); [|by intros [= _ <-]; left].
    intros ->%run_handler_world.
    destruct (is_write (req_call req)), (check_auth (req_jar req) (app_admin st)); auto.
Qed.

(** A call without a session never looks at the tables or the files. *)
Lemma run_handler_blind env st jar c w r w' w2 :
  check_auth jar (app_admin st) = false →
  run_handler env st jar c w = Ret (r, w') → run_handler env st jar c w2 = Ret (r, w2).
Proof.
  intros Hc. destruct c; cbn [run_handler]; try (by intros [= <- _]);
    [by destruct (ice_servers_handler _ _ _); simpl_bind; intros ?; simplify_eq|..];
    [unfold stats_json_handler|unfold add_user_handler|unfold delete_user_handler|unfold update_user_handler
    |unfold add_acl_handler|unfold delete_acl_handler|unfold update_acl_handler];
    rewrite Hc; by intros [= <- _].
Qed.
End spec.

(** ** Properties *)

(** C13. Without a session, or from an address the admin ACL does not list, the
    interface is closed: the request changes neither the user and rule tables
    nor the configuration file, and its answer does not depend on them, so it
    reveals nothing either. *)
Theorem admin_gate `{CR : Crypto} `{HO : HashOrder} `{TO : Toml} env st req w r w' :
  (is_Some (adm_username (app_admin st)) ∧ req_jar req !! SESSION_COOKIE ≠ Some SESSION_VALUE) ∨
  (is_public (req_call req) = false ∧
   acl_permits st (request_ip st (req_peer req) (req_forwarded req) (req_real_ip req)) = false) →
  serve env st req w = Ret (r, w') →
  w' = w ∧ ∀ w2, serve env st req w2 = Ret (r, w2).
Proof.
  intros [[[u Hu] Hj]|[Hp Ha]] Hs.
  - assert (Hc : check_auth (req_jar req) (app_admin st) = false).
    { unfold check_auth. rewrite Hu. destruct (req_jar req !! SESSION_COOKIE) as [v|]; [|done].
      apply not_true_iff_false. rewrite str_eqb_eq. by intros ->. }
    split.
    + destruct (serve_world _ _ _ _ _ _ Hs) as [->|(_ & Hc' & _)]; [done|congruence].
    + intros w2. revert Hs. unfold serve, admin_acl_middleware.
      destruct (is_public (req_call req)); [by apply run_handler_blind|].
      destruct (acl_permits _ _); [by apply run_handler_blind|by intros [= <- _]].
  - revert Hs. unfold serve, admin_acl_middleware. rewrite Hp, Ha. by intros [= <- <-].
Qed.

Definition sample_app : AppState :=
  create_admin_routes (Some "admin") (Some "s3cret") true (Some "key") 3600 None None "203.0.113.7"
    [mkListen "udp" "0.0.0.0:3478"; mkListen "tls" "0.0.0.0:5349"] ["127.0.0.1"; "10.0.0.0/8"] false.
Definition sample_env : AdminEnv := mkAdminEnv 1000 0 (0, 0, 0, 0) true Written.
Definition sample_world : World :=
  mkWorld (add_user (mkUser "alice" "pw" Fixed 0 None 10 None None None) (AuthManager_new "r")) ∅.
Definition local_peer : SocketAddr := SaV4 (mkIpv4 127 0 0 1) 5555.
Definition logged_in : CookieJar := {[SESSION_COOKIE := SESSION_VALUE]}.

Lemma admin_gate_witness :
  let r := unauthorized in
  let req := mkRequest local_peer None None ∅ (DeleteUser {["username" := "alice"]}) in
  @serve toy_crypto map_order (toy_toml []) sample_env sample_app req sample_world = Ret (r, sample_world) ∧
  ∀ w2, @serve toy_crypto map_order (toy_toml []) sample_env sample_app req w2 = Ret (r, w2).
Proof.
  intros r req.
  assert (E : @serve toy_crypto map_order (toy_toml []) sample_env sample_app req sample_world =
    Ret (r, sample_world)) by reflexivity.
  split; [exact E|].
  apply (@admin_gate toy_crypto map_order (toy_toml []) sample_env sample_app req sample_world r sample_world);
    [|exact E].
  left. split; [by eexists|]. done.
Defined.

(** The login grants a session exactly for the configured credentials, the
    session authorises, and logging out ends it. *)
Theorem session_lifecycle st jar form :
  (∃ u p, adm_username (app_admin st) = Some u ∧ adm_password (app_admin st) = Some p ∧
          form = mkLogin u p) →
  check_auth (browser jar (login_handler st form)) (app_admin st) = true ∧
  check_auth (browser jar (api_login_handler st form)) (app_admin st) = true ∧
  check_auth (browser (browser jar (login_handler st form)) logout_handler) (app_admin st) = false ∧
  (∀ form', form' ≠ form →
     browser jar (login_handler st form') = jar ∧ browser jar (api_login_handler st form') = jar).
Proof.
  intros (u & p & Hu & Hp & ->).
  assert (Hm : ∀ f, credentials_match st f = true ↔ f = mkLogin u p).
  { intros [n q]. unfold credentials_match. rewrite Hu, Hp, andb_true_iff, !str_eqb_eq. cbn.
    split; [by intros [-> ->]|by intros [= -> ->]]. }
  unfold login_handler, api_login_handler, check_auth. rewrite (proj2 (Hm (mkLogin u p)) eq_refl), Hu.
  cbn [browser cookies fold_left apply_cookie session_cookie logout_handler].
  rewrite lookup_insert_eq, lookup_delete_eq. split_and!; [done..|]. intros form' Hne.
  destruct (credentials_match st form') eqn:E; [by apply Hm in E|done].
Qed.

Lemma session_lifecycle_witness :
  check_auth (browser ∅ (login_handler sample_app (mkLogin "admin" "s3cret"))) (app_admin sample_app) = true ∧
  browser ∅ (login_handler sample_app (mkLogin "admin" "guess")) = ∅.
Proof.
  destruct (session_lifecycle sample_app ∅ (mkLogin "admin" "s3cret")) as (H1 & _ & _ & H2);
    [by exists "admin", "s3cret"|]. split; [exact H1|]. by apply (H2 (mkLogin "admin" "guess")).
Defined.

(** The session cookie is a constant: a client that never logged in and sends
    it is let through whatever the credentials are, and from an address the
    ACL lists it can set the password of any user. *)
Theorem session_cookie_forgeable `{CR : Crypto} `{HO : HashOrder} `{TO : Toml} env st peer name pw kind w :
  acl_permits st (request_ip st peer None None) = true →
  ∃ r w', serve env st (mkRequest peer None None {[SESSION_COOKIE := SESSION_VALUE]}
            (PostUser (mkAddUser name pw kind None None None None None))) w = Ret (r, w') ∧
    get_user_password 0 (w_auth w') name = Some pw.
Proof.
  intros Ha. unfold serve, admin_acl_middleware. cbn [is_public req_call req_peer req_forwarded req_real_ip req_jar].
  rewrite Ha. cbn [run_handler]. unfold add_user_handler.
  assert (Hc : check_auth {[SESSION_COOKIE := SESSION_VALUE]} (app_admin st) = true).
  { unfold check_auth. destruct (adm_username _); [|done]. by rewrite lookup_singleton_eq. }
  rewrite Hc. cbn [negb].
  match goal with |- context [save_config ?e ?s ?x] =>
    pose proof (save_config_auth e s x) as Hs; destruct (save_config e s x) as [ok w1] end.
  eexists _, _. split; [done|]. cbn in Hs. rewrite Hs. unfold get_user_password. cbn.
  by rewrite lookup_insert_eq.
Qed.

Lemma session_cookie_forgeable_witness :
  ∃ r w', @serve toy_crypto map_order (toy_toml []) sample_env sample_app
            (mkRequest local_peer None None logged_in
               (PostUser (mkAddUser "alice" "stolen" "fixed" None None None None None))) sample_world = Ret (r, w') ∧
    get_user_password 0 (w_auth w') "alice" = Some "stolen".
Proof.
  apply (@session_cookie_forgeable toy_crypto map_order (toy_toml []) sample_env sample_app local_peer
    "alice" "stolen" "fixed" sample_world). reflexivity.
Defined.

(** No request breaks the tables: users stay filed under their own names and
    rules in priority order, whatever is called and however saving goes. *)
Theorem admin_keeps_tables `{CR : Crypto} `{HO : HashOrder} `{TO : Toml} env st req w r w' :
  auth_ok (w_auth w) → serve env st req w = Ret (r, w') → auth_ok (w_auth w').
Proof.
  intros Hok Hs. destruct (serve_world _ _ _ _ _ _ Hs) as [->|(_ & _ & _ & ->)]; [done|].
  rewrite save_config_auth. cbn [set_auth w_auth].
  destruct (req_call req); cbn [call_effect]; auto with miu.
Qed.

Lemma admin_keeps_tables_witness :
  auth_ok (w_auth sample_world) ∧
  ∃ r w', @serve toy_crypto map_order (toy_toml []) sample_env sample_app
      (mkRequest local_peer None None logged_in (PostAcl (mkAddAcl "10.0.0.0/8" "Allow" 5))) sample_world = Ret (r, w') ∧
    auth_ok (w_auth w') ∧ acl_rules (w_auth w') = [mkRule "10.0.0.0/8" Allow 5].
Proof.
  assert (H0 : auth_ok (w_auth sample_world)) by (apply add_user_ok, auth_ok_new).
  split; [exact H0|]. eexists _, _. split; [reflexivity|]. split; [|reflexivity].
  eapply (@admin_keeps_tables toy_crypto map_order (toy_toml []) sample_env sample_app
    (mkRequest local_peer None None logged_in (PostAcl (mkAddAcl "10.0.0.0/8" "Allow" 5))) sample_world);
    [exact H0|reflexivity].
Defined.

(** The password TURN authentication uses for a user when the server shares
    the admin interface's tables. *)
Definition turn_password (unix : Z) (s : TurnServer) (w : World) (name : string) : option string :=
  get_password_for_user unix (set_auth_manager (w_auth w) s) name.

Definition global_password (s : TurnServer) : option string :=
  if str_eqb (srv_password s) "" then None else Some (srv_password s).

Lemma turn_password_lookup unix s w name :
  turn_password unix s w name =
  match users (w_auth w) !! name with
  | Some u => match expires_at u with
              | Some e => if e <? unix then global_password s else Some (password u)
              | None => Some (password u)
              end
  | None => global_password s
  end.
Proof.
  unfold turn_password, get_password_for_user, get_user_password, global_password. cbn.
  destruct (users (w_auth w) !! name) as [u|]; [|done]. simpl_bind.
  destruct (expires_at u) as [e|]; [|done]. by destruct (e <? unix).
Qed.

(** C20. User administration reaches TURN authentication at once: after an
    authorised call, a user that was added or updated authenticates with the
    password of the request until the account expires, a deleted user falls
    back to the server-wide password, and nobody else's password changes. *)
Theorem user_admin_visible `{CR : Crypto} `{HO : HashOrder} `{TO : Toml} env st req w r w' unix s name :
  check_auth (req_jar req) (app_admin st) = true →
  acl_permits st (request_ip st (req_peer req) (req_forwarded req) (req_real_ip req)) = true →
  serve env st req w = Ret (r, w') →
  let live e pw := match e with Some e => if e <? unix then global_password s else Some pw | None => Some pw end in
  turn_password unix s w' name =
  match req_call req with
  | PostUser q => if decide (name = au_username q) then live (au_expires_at q) (au_password q)
                  else turn_password unix s w name
  | PutUser q => if decide (name = uu_username q) then live (uu_expires_at q) (default "" (uu_password q))
                 else turn_password unix s w name
  | DeleteUser q => if decide (name = default "" (q !! "username")) then global_password s
                    else turn_password unix s w name
  | _ => turn_password unix s w name
  end.
Proof.
  intros Hc Ha Hs live.
  assert (Hw : is_write (req_call req) = true →
    w_auth w' = call_effect env (req_call req) (w_auth w)).
  { intros Hw. revert Hs. unfold serve, admin_acl_middleware. rewrite Ha.
    assert (is_public (req_call req) = false) as -> by (by destruct (req_call req)).
    intros ->%run_handler_world. rewrite Hw, Hc. cbn [andb]. by rewrite save_config_auth. }
  assert (Hn : is_write (req_call req) = false → w' = w).
  { intros Hf. destruct (serve_world _ _ _ _ _ _ Hs) as [->|(H & _)]; [done|congruence]. }
  destruct (req_call req) as [| | | | | | | | | |q|q|q|q|q|q| |]; cbn [is_write] in *; try (by rewrite Hn);
    specialize (Hw eq_refl); clear Hn; rewrite !turn_password_lookup, Hw; cbn [call_effect users add_user remove_user
      add_acl_rule remove_acl_rule username].
  - case_decide as E; [subst name; by rewrite lookup_insert_eq|by rewrite lookup_insert_ne].
  - case_decide as E; [subst name; by rewrite lookup_delete_eq|by rewrite lookup_delete_ne].
  - case_decide as E; [subst name; by rewrite lookup_insert_eq|].
    by rewrite lookup_insert_ne, lookup_delete_ne.
  - done.
  - done.
  - done.
Qed.

Definition sample_server : TurnServer :=
  with_port_range_limits_bind_address_and_password 0 (mkIpv4 203 0 113 7) (mkIpv4 0 0 0 0) "r" 50000 50009
    None None "global" false.

Lemma user_admin_visible_witness :
  ∃ r w', @serve toy_crypto map_order (toy_toml []) sample_env sample_app
      (mkRequest local_peer None None logged_in (DeleteUser {["username" := "alice"]})) sample_world = Ret (r, w') ∧
    turn_password 5 sample_server sample_world "alice" = Some "pw" ∧
    turn_password 5 sample_server w' "alice" = Some "global".
Proof.
  eexists _, _. split; [reflexivity|]. split; [reflexivity|].
  exact (@user_admin_visible toy_crypto map_order (toy_toml []) sample_env sample_app
    (mkRequest local_peer None None logged_in (DeleteUser {["username" := "alice"]})) sample_world _ _ 5
    sample_server "alice" eq_refl eq_refl eq_refl).
Defined.

(** An update that leaves the password out, which the console sends for
    [leave empty to keep unchanged], does not keep it: the user's password
    becomes the empty string. *)
Theorem update_without_password_clears_it `{CR : Crypto} `{HO : HashOrder} `{TO : Toml} env st peer jar q w unix s :
  check_auth jar (app_admin st) = true →
  acl_permits st (request_ip st peer None None) = true →
  uu_password q = None → uu_expires_at q = None →
  ∃ r w', serve env st (mkRequest peer None None jar (PutUser q)) w = Ret (r, w') ∧
    turn_password unix s w' (uu_username q) = Some "".
Proof.
  intros Hc Ha Hp He. unfold serve, admin_acl_middleware.
  cbn [is_public req_call req_peer req_forwarded req_real_ip req_jar]. rewrite Ha. cbn [run_handler].
  unfold update_user_handler. rewrite Hc, Hp, He. cbn [negb].
  match goal with |- context [save_config ?e ?s ?x] =>
    pose proof (save_config_auth e s x) as Hs; destruct (save_config e s x) as [ok w1] end.
  eexists _, _. split; [done|]. rewrite turn_password_lookup. cbn in Hs. rewrite Hs.
  cbn [users add_user remove_user username]. by rewrite lookup_insert_eq.
Qed.

Lemma update_without_password_clears_it_witness :
  ∃ r w', @serve toy_crypto map_order (toy_toml []) sample_env sample_app
      (mkRequest local_peer None None logged_in
         (PutUser (mkUpdateUser "alice" None "fixed" (Some 20) None None None None))) sample_world = Ret (r, w') ∧
    turn_password 5 sample_server w' "alice" = Some "".
Proof.
  apply (@update_without_password_clears_it toy_crypto map_order (toy_toml []) sample_env sample_app local_peer
    logged_in (mkUpdateUser "alice" None "fixed" (Some 20) None None None None) sample_world 5 sample_server);
    reflexivity.
Defined.

Definition forget_password (u : User) : User :=
  mkUser (username u) "" (user_type u) (user_created_at u) (expires_at u) (max_allocations u)
    (bandwidth_limit u) (ip_whitelist u) (user_max_allocation_duration_secs u).

(** C38. The answers of the interface disclose no password: two servers whose
    users differ in nothing but their passwords answer every request alike. *)
Theorem answers_hide_passwords `{CR : Crypto} `{HO : HashOrder} `{TO : Toml} env st req w1 w2 r1 r2 w1' w2' :
  map forget_password (list_users (w_auth w1)) = map forget_password (list_users (w_auth w2)) →
  acl_rules (w_auth w1) = acl_rules (w_auth w2) → auth_realm (w_auth w1) = auth_realm (w_auth w2) →
  serve env st req w1 = Ret (r1, w1') → serve env st req w2 = Ret (r2, w2') → r1 = r2.
Proof.
  intros Hu Hr Hm.
  assert (Hj : map user_json (list_users (w_auth w1)) = map user_json (list_users (w_auth w2))).
  { assert (E : ∀ l, map user_json l = map user_json (map forget_password l)).
    { intros l. rewrite map_map. apply map_ext. by intros []. }
    by rewrite (E (list_users (w_auth w1))), (E (list_users (w_auth w2))), Hu. }
  unfold serve, admin_acl_middleware.
  destruct (is_public (req_call req)) eqn:Ep; [|destruct (acl_permits _ _); [|by intros [= <- _] [= <- _]]];
    (destruct (req_call req); cbn [run_handler is_public] in *; try done; try (by intros [= <- _] [= <- _])).
  - destruct (ice_servers_handler _ _ _); simpl_bind; [by intros [= <- _] [= <- _]|done].
  - unfold stats_json_handler, list_acl_rules. rewrite Hj, Hr, Hm. by intros [= <- _] [= <- _].
  - unfold add_user_handler. destruct (check_auth _ _); cbn [negb]; repeat (case_match); intros; simplify_eq; done.
  - unfold delete_user_handler. destruct (check_auth _ _); cbn [negb]; repeat (case_match); intros; simplify_eq; done.
  - unfold update_user_handler. destruct (check_auth _ _); cbn [negb]; repeat (case_match); intros; simplify_eq; done.
  - unfold add_acl_handler. destruct (check_auth _ _); cbn [negb]; repeat (case_match); intros; simplify_eq; done.
  - unfold delete_acl_handler. destruct (check_auth _ _); cbn [negb]; repeat (case_match); intros; simplify_eq; done.
  - unfold update_acl_handler. destruct (check_auth _ _); cbn [negb]; repeat (case_match); intros; simplify_eq; done.
Qed.

Lemma answers_hide_passwords_witness :
  let w2 := mkWorld (add_user (mkUser "alice" "other" Fixed 0 None 10 None None None) (AuthManager_new "r")) ∅ in
  let req := mkRequest local_peer None None logged_in GetStats in
  ∃ r1 r2, @serve toy_crypto map_order (toy_toml []) sample_env sample_app req sample_world = Ret (r1, sample_world) ∧
    @serve toy_crypto map_order (toy_toml []) sample_env sample_app req w2 = Ret (r2, w2) ∧ r1 = r2.
Proof.
  intros w2 req. eexists _, _. split; [reflexivity|]. split; [reflexivity|].
  exact (@answers_hide_passwords toy_crypto map_order (toy_toml []) sample_env sample_app req sample_world w2
    _ _ _ _ eq_refl eq_refl eq_refl eq_refl eq_refl).
Defined.

Lemma ice_urls_spec st ls :
  Forall (λ l, is_Some (parse_socket_addr (address l))) ls →
  ∃ urls, ice_urls st ls = Ret urls ∧
    ∀ u, u ∈ urls ↔ ∃ l a, l ∈ ls ∧ parse_socket_addr (address l) = Some a ∧ u ∈ ice_url st l (sa_port a).
Proof.
  induction 1 as [|l ls [a Ha] _ (urls & IH & Hu)]; cbn [ice_urls].
  - exists []. split; [done|]. set_solver.
  - unfold ListenConfig_addr. rewrite Ha. simpl_bind. rewrite IH. simpl_bind.
    eexists. split; [done|]. intros u. rewrite elem_of_app, Hu. split.
    + intros [H|(l' & a' & ? & ? & ?)]; [exists l, a; set_solver|exists l', a'; set_solver].
    + intros (l' & a' & [->|Hl]%elem_of_cons & Ha' & H); [left; congruence|right; eauto].
Qed.

(** What the ICE endpoint hands out is usable: the list of URLs is sorted
    without repetition and has exactly the one of each listener with a known
    protocol, and the credential verifies until it expires. *)
Theorem ice_servers_usable `{CR : Crypto} env st req m :
  rest_enabled (app_turn_rest st) = true → credential_manager (app_turn_rest st) = Some m →
  Forall (λ l, is_Some (parse_socket_addr (address l))) (app_listen_configs st) →
  str_contains ":"%char (iq_username req) = false →
  ∃ urls name pw expires,
    ice_servers_handler env st req =
      Ret (plain (BJson (JArr [JObj [("urls", JArr (map JStr urls)); ("username", JStr name);
                                     ("credential", JStr pw)]]))) ∧
    StronglySorted (λ a b, str_leb a b = true ∧ a ≠ b) urls ∧
    (∀ u, u ∈ urls ↔ ∃ l a, l ∈ app_listen_configs st ∧ parse_socket_addr (address l) = Some a ∧
                            u ∈ ice_url st l (sa_port a)) ∧
    parse_username name = Some (expires, iq_username req) ∧
    (∀ now, verify now m name pw = (now <=? expires)).
Proof.
  intros He Hm Hl Hc. destruct (ice_urls_spec st _ Hl) as (urls & Hu & Hiff).
  pose proof (verify_generated (adm_unix env)) as Hv.
  unfold ice_servers_handler. rewrite He, Hm. cbn [negb].
  specialize (λ now, Hv now m (iq_username req) (iq_lifetime req)).
  pose proof (generate_parses (adm_unix env) m (iq_username req) (iq_lifetime req) Hc) as Hp.
  destruct (generate _ _ _ _) as [[name pw] expires].
  rewrite Hu. simpl_bind. exists (dedup (sort_by str_leb urls)), name, pw, expires. split_and!; [done| | |done|].
  - apply dedup_sorted, sort_by_sorted; [apply str_leb_trans|apply str_leb_total].
  - intros u. rewrite dedup_elem, sort_by_perm. apply Hiff.
  - intros now. by rewrite Hv, Hc.
Qed.

Lemma ice_servers_usable_witness :
  ∃ urls name pw expires,
    @ice_servers_handler toy_crypto sample_env sample_app (mkIceQuery "bob" (Some 60)) =
      Ret (plain (BJson (JArr [JObj [("urls", JArr (map JStr urls)); ("username", JStr name);
                                     ("credential", JStr pw)]]))) ∧
    parse_username name = Some (expires, "bob") ∧
    @verify toy_crypto 1060 (with_lifetime 3600 (ShortTermCredentialManager_new "key")) name pw = (1060 <=? expires).
Proof.
  destruct (@ice_servers_usable toy_crypto sample_env sample_app (mkIceQuery "bob" (Some 60))
    (with_lifetime 3600 (ShortTermCredentialManager_new "key")) eq_refl eq_refl)
    as (urls & name & pw & expires & H1 & _ & _ & H2 & H3); [repeat constructor; by eexists|reflexivity|].
  exists urls, name, pw, expires. split_and!; [exact H1|exact H2|apply H3].
Defined.
