(* ===== verification/OAuth.v ===== *)
(** * OAuth bearer tokens (src/oauth.rs)

    Validation of HS256 tokens with a hand-written JSON field search.  The
    base64 and HMAC-SHA256 crates are the parameters of [Jwt]; [JwtLaws] is
    what their documentation promises, and [toy_jwt] an instance with the real
    base64 alphabet.  [now] is the Unix time the call reads. *)

From S2P Require Import Prelude RustStd RustText.
From Stdlib Require Import Ascii String.
Local Open Scope string_scope.
Local Open Scope Z_scope.

Class Jwt := {
  base64_standard_encode : list Z → string;
  base64_standard_decode : string → option (list Z);
  hmac_sha256 : list Z → list Z → list Z
}.

(** Standard base64 text is some characters of the alphabet and padding to a
    multiple of four, and decodes to what was encoded. *)
Definition dq : ascii := "034"%char.
Definition base64_special : list ascii := ["-"; "_"; "."; "="]%char.
Definition lacks (cs : list ascii) (s : string) : Prop := Forall (λ c, str_contains c s = false) cs.
#[global] Instance lacks_dec cs s : Decision (lacks cs s).
Proof. unfold lacks. apply _. Defined.

Class JwtLaws `{Jwt} : Prop := {
  base64_roundtrip : ∀ b, bytes_ok b → base64_standard_decode (base64_standard_encode b) = Some b;
  base64_shape : ∀ b, bytes_ok b → ∃ text k, base64_standard_encode b = text ++ repeat_char k "="%char ∧
    lacks base64_special text ∧ (k < 4)%nat ∧ (String.length (base64_standard_encode b) mod 4 = 0)%nat;
  hmac_sha256_bytes : ∀ key data, bytes_ok (hmac_sha256 key data)
}.

(** ** Configuration and validator *)

Record OAuthConfig := mkOAuth { jwt_secret : string; issuer : string; audience : string; enabled : bool }.
Definition OAuthConfig_default : OAuthConfig := mkOAuth "" "" "" false.
Definition OAuthConfig_new (secret : string) : OAuthConfig := mkOAuth secret "" "" true.
Definition with_issuer (iss : string) (c : OAuthConfig) : OAuthConfig :=
  mkOAuth (jwt_secret c) iss (audience c) (enabled c).
Definition with_audience (aud : string) (c : OAuthConfig) : OAuthConfig :=
  mkOAuth (jwt_secret c) (issuer c) aud (enabled c).

Record OAuthValidator := mkValidator { config : OAuthConfig }.
Definition is_enabled (v : OAuthValidator) : bool := enabled (config v).

Record OAuthUserInfo := mkUserInfo { user_id : string; scopes : list string; info_expires_at : option Z }.

Definition extract_bearer_token (auth_header : string) : option string :=
  strip_prefix "Bearer " auth_header.

(** The value at the start of a text.  One that starts with [t] or [f] is cut
    at four or five bytes, which panics past the end and inside a character. *)
Definition json_value (rest : string) : outcome (option string) :=
  match rest with
  | EmptyString => Ret None
  | String ch _ =>
    if ascii_dec ch dq then
      after ← str_from rest 1;
      match find_char after [dq] with
      | None => Ret None
      | Some e => Some <$> str_to after e
      end
    else if orb (bool_decide (ch = "t"%char)) (bool_decide (ch = "f"%char)) then
      Some <$> str_to rest (if starts_with rest "true" then 4 else 5)
    else
      value ← str_to rest (default (String.length rest) (find_char rest [","; "}"]%char));
      Ret (Some (trim value))
  end.

(** The search takes the first place where the quoted name and a colon stand. *)
Definition extract_json_field (json field : string) : outcome (option string) :=
  let search := String dq field ++ String dq ":" in
  match str_find json search with
  | None => Ret None
  | Some start => rest ← str_from json (start + String.length search); json_value rest
  end.

Section validator.
Context `{JW : Jwt}.

Definition base64_decode (input : string) : option (list Z) :=
  let base64 := replace_char "_"%char "/"%char (replace_char "-"%char "+"%char input) in
  let padding := ((4 - String.length base64 mod 4) mod 4)%nat in
  base64_standard_decode (base64 ++ repeat_char padding "="%char).

Definition compute_hmac_sha256 (message key : string) : list Z :=
  hmac_sha256 (str_bytes key) (str_bytes message).

(** The expected value is absent from the configuration, or the claim equals it. *)
Definition claim_matches (expected : string) (claim : option string) : bool :=
  str_eqb expected "" || bool_decide (claim = Some expected).

Definition validate_token (now : Z) (v : OAuthValidator) (token : string) : outcome (option string) :=
  if negb (enabled (config v)) then Ret None else
  match split_on "."%char token with
  | [header; body; signature] =>
    match p ← base64_decode body; from_utf8 p with
    | None => Ret None
    | Some payload =>
      sub ← extract_json_field payload "sub";
      match sub with
      | None => Ret None
      | Some user =>
        exp_field ← extract_json_field payload "exp";
        match e ← exp_field; parse_uint U64_MAX e with
        | None => Ret None
        | Some exp =>
          iss ← extract_json_field payload "iss";
          aud ← extract_json_field payload "aud";
          if exp <? now then Ret None else
          if negb (claim_matches (issuer (config v)) iss) then Ret None else
          if negb (claim_matches (audience (config v)) aud) then Ret None else
          let expected_sig := compute_hmac_sha256 (header ++ "." ++ body) (jwt_secret (config v)) in
          match base64_decode signature with
          | None => Ret None
          | Some provided_sig =>
            if bool_decide (provided_sig = expected_sig) then Ret (Some user) else Ret None
          end
        end
      end
    end
  | _ => Ret None
  end.

Definition get_user_info (v : OAuthValidator) (token : string) : outcome (option OAuthUserInfo) :=
  if negb (enabled (config v)) then Ret None else
  match split_on "."%char token with
  | [_; body; _] =>
    match p ← base64_decode body; from_utf8 p with
    | None => Ret None
    | Some payload =>
      sub ← extract_json_field payload "sub";
      match sub with
      | None => Ret None
      | Some user =>
        scope ← extract_json_field payload "scope";
        exp_field ← extract_json_field payload "exp";
        Ret (Some (mkUserInfo user
          (match scope with Some s => split_on " "%char s | None => [] end)
          (e ← exp_field; parse_uint U64_MAX e)))
      end
    end
  | _ => Ret None
  end.
End validator.

(** ** Tokens as an issuer makes them

    A flat JSON object of string, number and boolean members, its base64url
    text without padding, and the token signed with a key. *)

Inductive claim := CStr (s : string) | CNum (n : Z) | CBool (b : bool).
Abbreviation claims := (list (string * claim)).

Definition claim_text (c : claim) : string :=
  match c with
  | CStr s => String dq (s ++ String dq "")
  | CNum n => dec_string n
  | CBool b => if b then "true" else "false"
  end.
Fixpoint members_text (cs : claims) : string :=
  match cs with
  | [] => "}"
  | (name, c) :: r =>
    String dq (name ++ String dq (String ":"%char (claim_text c ++
      match r with [] => "}" | _ => String ","%char (members_text r) end)))
  end.
Definition claims_text (cs : claims) : string := String "{"%char (members_text cs).

(** The value of the first member of that name, as the validator reads it. *)
Definition claim_value (c : claim) : string := match c with CStr s => s | c => claim_text c end.
Fixpoint claim_of (field : string) (cs : claims) : option string :=
  match cs with
  | [] => None
  | (name, c) :: r => if str_eqb name field then Some (claim_value c) else claim_of field r
  end.

(** Text that needs no escape in JSON quotes. *)
Definition plain_text (s : string) : bool :=
  utf8_valid (str_bytes s) && negb (str_contains dq s) && negb (str_contains "\"%char s).
Definition claim_ok (c : claim) : bool :=
  match c with
  | CStr s => plain_text s
  | CNum n => (0 <=? n) && (n <=? U64_MAX)
  | CBool _ => true
  end.
Definition claims_ok (cs : claims) : bool := forallb (λ '(name, c), plain_text name && claim_ok c) cs.

(** A name of letters: what the validator asks for. *)
Definition field_name (f : string) : Prop :=
  match f with String c _ => lacks [dq] f ∧ c ∉ [":"; ","; "}"]%char | EmptyString => False end.

Section tokens.
Context `{JW : Jwt}.

Definition strip_padding (s : string) : string := match split_on "="%char s with t :: _ => t | [] => "" end.
Definition base64url (b : list Z) : string :=
  replace_char "/"%char "_"%char (replace_char "+"%char "-"%char (strip_padding (base64_standard_encode b))).
Definition signing_input (header : string) (cs : claims) : string :=
  base64url (str_bytes header) ++ "." ++ base64url (str_bytes (claims_text cs)).
Definition issue_token (key header : string) (cs : claims) : string :=
  let input := signing_input header cs in
  input ++ "." ++ base64url (compute_hmac_sha256 input key).
End tokens.

(** What the claims alone say: subject and numeric expiry are there, the time
    has not passed, and issuer and audience are the configured ones. *)
Definition claims_accept (now : Z) (cfg : OAuthConfig) (cs : claims) : option string :=
  user ← claim_of "sub" cs;
  exp ← claim_of "exp" cs ≫= parse_uint U64_MAX;
  if (now <=? exp) && claim_matches (issuer cfg) (claim_of "iss" cs)
     && claim_matches (audience cfg) (claim_of "aud" cs)
  then Some user else None.

(** ** Lemmas: the field search on issued text *)

Section search.
Context (f : string).
Let pat : string := String dq f ++ String dq ":".

(** What stands after the first match. *)
Definition field_rest (s : string) : option string :=
  i ← str_find s pat; Some (str_drop (i + String.length pat) s).

Lemma field_rest_hit s : field_rest (pat ++ s) = Some s.
Proof.
  unfold field_rest, str_find. subst pat. rewrite !str_app_cons. cbn [find_pred].
  rewrite <- !str_app_cons, starts_with_app. simpl_bind. rewrite Nat.add_0_l. by rewrite str_drop_app.
Qed.
Lemma field_rest_skip c s : starts_with (String c s) pat = false → field_rest (String c s) = field_rest s.
Proof.
  intros H. unfold field_rest, str_find. cbn [find_pred]. rewrite H. by destruct (find_pred _ s).
Qed.
Lemma field_rest_other c s : c ≠ dq → field_rest (String c s) = field_rest s.
Proof.
  intros H. apply field_rest_skip. unfold starts_with, pat. rewrite str_app_cons. cbn [strip_prefix].
  by destruct (ascii_dec dq c).
Qed.
Lemma field_rest_plain s t : str_contains dq s = false → field_rest (s ++ t) = field_rest t.
Proof.
  induction s as [|c s IH]; [done|]. cbn [str_contains]. destruct (ascii_dec c dq); [done|].
  intros H. rewrite str_app_cons, field_rest_other by done. auto.
Qed.

(** Two quoted texts agree when one matches the other up to the quote. *)
Lemma strip_quoted g u x y r :
  str_contains dq g = false → str_contains dq u = false →
  strip_prefix (g ++ String dq x) (u ++ String dq y) = Some r → g = u ∧ strip_prefix x y = Some r.
Proof.
  revert u. induction g as [|a g IH]; intros [|b u] Hg Hu; rewrite ?str_app_nil, ?str_app_cons;
    cbn [strip_prefix str_contains] in *.
  - by destruct (ascii_dec dq dq).
  - destruct (ascii_dec b dq); [done|]. by destruct (ascii_dec dq b).
  - by destruct (ascii_dec a dq).
  - destruct (ascii_dec a dq), (ascii_dec b dq), (ascii_dec a b) as [->|]; try done.
    intros H. apply IH in H as [-> ?]; auto.
Qed.

Context (Hf : field_name f).

Lemma field_name_plain : str_contains dq f = false.
Proof. destruct f; [done|]. destruct Hf as [H _]. by inversion H. Qed.

(** A quote before one of the separators starts no match. *)
Lemma field_rest_close c s :
  c ∈ [":"; ","; "}"]%char → field_rest (String dq (String c s)) = field_rest (String c s).
Proof.
  intros Hc. apply field_rest_skip. unfold starts_with, pat. rewrite !str_app_cons. cbn [strip_prefix].
  destruct (ascii_dec dq dq); [|done]. destruct f as [|a g]; [done|]. rewrite str_app_cons. cbn [strip_prefix].
  destruct (ascii_dec a c) as [->|]; [|done]. by destruct Hf as [_ ?].
Qed.

(** A quoted text is passed over unless it is the name, followed by a colon. *)
Lemma field_rest_quoted u c s :
  str_contains dq u = false → c ∈ [":"; ","; "}"]%char → f ≠ u ∨ c ≠ ":"%char →
  field_rest (String dq (u ++ String dq (String c s))) = field_rest s.
Proof.
  intros Hu Hc Hne. rewrite field_rest_skip.
  - rewrite field_rest_plain, field_rest_close by done. apply field_rest_other.
    intros ->. revert Hc. by apply (bool_decide_eq_false_1 (dq ∈ _)).
  - unfold starts_with, pat. rewrite str_app_cons. cbn [strip_prefix]. destruct (ascii_dec dq dq); [|done].
    destruct (strip_prefix _ _) as [r|] eqn:E; [|done]. apply strip_quoted in E as [Hfu E]; [|apply field_name_plain|done].
    cbn [strip_prefix] in E. destruct (ascii_dec ":"%char c) as [<-|]; [|done]. by destruct Hne.
Qed.
End search.

(** ** Lemmas: values *)

Lemma utf8_valid_head b l : in_u8 b → utf8_valid (b :: l) = true → utf8_cont b = false.
Proof.
  intros Hb H. assert (Hw : utf8_width b ≠ 0%nat) by (intros E; cbn in H; by rewrite E in H).
  assert (Hall : (utf8_width b =? 0)%nat || negb (utf8_cont b) = true).
  { revert b Hb H Hw. intros b Hb _ _. revert b Hb. refine (byte_forall _ _). vm_compute. reflexivity. }
  apply orb_true_iff in Hall as [E%Nat.eqb_eq|E]; [done|]. by apply negb_true_iff in E.
Qed.

Lemma utf8_valid_app l k : utf8_valid l = true → utf8_valid k = true → utf8_valid (l ++ k)%list = true.
Proof.
  intros Hl Hk. revert l Hl.
  refine (well_founded_induction (well_founded_ltof _ (@List.length Z)) _ _). unfold ltof.
  intros [|b l] IH; [done|]. cbn [utf8_valid app]. destruct (utf8_width b) as [|[|[|[|[|w]]]]]; [done| | | | |done].
  - intros H. apply IH; [cbn; lia|done].
  - destruct l as [|c l]; [done|]. cbn [app]. intros [-> H]%andb_true_iff. cbn [andb]. apply IH; [cbn; lia|done].
  - destruct l as [|c [|d l]]; [done..|]. cbn [app]. intros [-> H]%andb_true_iff. cbn [andb]. apply IH; [cbn; lia|done].
  - destruct l as [|c [|d [|e l]]]; [done..|]. cbn [app]. intros [-> H]%andb_true_iff. cbn [andb]. apply IH; [cbn; lia|done].
Qed.

(** A slice that ends where ASCII text starts is on a character boundary. *)
Definition starts_char (s : string) : Prop :=
  match s with String c _ => utf8_cont (ascii_Z c) = false | EmptyString => True end.
Lemma str_to_app s t : starts_char t → str_to (s ++ t) (String.length s) = Ret s.
Proof.
  intros H. unfold str_to, is_char_boundary. rewrite str_drop_app, str_take_app.
  destruct t as [|c t]; [|cbn in H; by rewrite H]. rewrite str_app_nil_r, bool_decide_eq_true_2; done.
Qed.
Lemma str_from_starts s n c r : str_drop n s = String c r → utf8_cont (ascii_Z c) = false → str_from s n = Ret (String c r).
Proof. intros E H. unfold str_from, is_char_boundary. by rewrite E, H. Qed.

Lemma plain_starts s t : utf8_valid (str_bytes s) = true → starts_char t → starts_char (s ++ t).
Proof.
  destruct s as [|c s]; [done|]. intros H _. rewrite str_app_cons. cbn.
  eapply utf8_valid_head; [apply ascii_Z_range|exact H].
Qed.

(** The separators after a member. *)
Lemma value_str s c t :
  plain_text s = true → json_value (String dq (s ++ String dq (String c t))) = Ret (Some s).
Proof.
  unfold plain_text. intros [[Hu Hq%negb_true_iff]%andb_true_iff _]%andb_true_iff.
  cbn [json_value]. destruct (ascii_dec dq dq); [|done].
  pose proof (plain_starts s (String dq (String c t)) Hu eq_refl) as Hs.
  destruct (s ++ String dq (String c t)) as [|a r] eqn:E; [by destruct s|].
  rewrite (str_from_starts _ 1 a r) by done. simpl_bind. rewrite <- E.
  rewrite find_char_app by (by repeat constructor). by rewrite str_to_app.
Qed.

Lemma value_bool (b : bool) t : starts_char t → json_value ((if b then "true" else "false") ++ t) = Ret (Some (if b then "true" else "false")).
Proof.
  intros Ht. destruct b.
  - change (json_value ("true" ++ t)) with (Some <$> str_to ("true" ++ t) (String.length "true")).
    by rewrite str_to_app.
  - change (json_value ("false" ++ t)) with (Some <$> str_to ("false" ++ t) (String.length "false")).
    by rewrite str_to_app.
Qed.

Lemma value_num n c t :
  0 ≤ n ≤ U64_MAX → c ∈ [","; "}"]%char → json_value (dec_string n ++ String c t) = Ret (Some (dec_string n)).
Proof.
  intros Hn Hc.
  assert (Hstart : starts_char (String c t)).
  { repeat (apply elem_of_cons in Hc as [->|Hc]; [done|]). by apply elem_of_nil in Hc. }
  assert (Hfind : find_char (dec_string n ++ String c t) [","; "}"]%char = Some (String.length (dec_string n))).
  { apply find_char_app; [|done]. repeat constructor; by apply dec_string_contains. }
  assert (Hlt : n < 10 ^ 20) by lia.
  pose proof (trim_digits n ltac:(lia)) as Htrim. pose proof (str_to_app (dec_string n) _ Hstart) as Hto.
  unfold dec_string in *. destruct (dec_digits_head 20 n "") as (d & r & Hd & E); [lia|]. rewrite E in *.
  rewrite !str_app_cons in *. cbn [json_value].
  assert (Hne : ∀ x, is_digit x = false → digit_char d ≠ x).
  { intros x Hx <-. revert Hx. unfold is_digit, digit_char. rewrite ascii_Z_ascii by (unfold_words; lia).
    destruct (Z.leb_spec 48 (48 + d)), (Z.leb_spec (48 + d) 57); cbn; lia. }
  destruct (ascii_dec _ dq) as [H|_]; [by apply Hne in H|].
  rewrite !bool_decide_eq_false_2 by (by apply Hne). cbn [orb]. rewrite Hfind.
  cbn [from_option id]. rewrite Hto. simpl_bind. by rewrite Htrim.
Qed.

(** ** Lemmas: the search finds the members *)

Lemma value_claim c sep t :
  claim_ok c = true → sep ∈ [","; "}"]%char →
  json_value (claim_text c ++ String sep t) = Ret (Some (claim_value c)).
Proof.
  intros Hc Hsep. destruct c as [s|n|b]; cbn in Hc; cbn [claim_text claim_value].
  - rewrite str_app_cons, str_app_assoc, str_app_cons, str_app_nil. by apply value_str.
  - apply value_num; [bool_to_prop; lia|done].
  - apply value_bool. repeat (apply elem_of_cons in Hsep as [->|Hsep]; [done|]). by apply elem_of_nil in Hsep.
Qed.

(** The text after a value: the end of the object or the next member. *)
Definition tail_text (r : claims) : string :=
  match r with [] => "}" | _ => String ","%char (members_text r) end.
Lemma tail_text_sep r : ∃ sep t, tail_text r = String sep t ∧ sep ∈ [","; "}"]%char.
Proof. destruct r; eexists _, _; (split; [done|]); set_solver. Qed.

Lemma claim_starts c t : claim_ok c = true → starts_char t → starts_char (claim_text c ++ t).
Proof.
  intros Hc Ht. destruct c as [s|n|[]]; [done| |done..]. cbn [claim_text].
  unfold dec_string. destruct (dec_digits_head 20 n "") as (d & r & Hd & ->); [lia|]. rewrite str_app_cons. cbn.
  unfold digit_char. rewrite ascii_Z_ascii by (unfold_words; lia).
  assert (Hcont : ∀ b, in_u8 b → (128 <=? b) || negb (utf8_cont b) = true) by (apply byte_forall; vm_compute; reflexivity).
  specialize (Hcont (48 + d) ltac:(unfold_words; lia)). destruct (Z.leb_spec 128 (48 + d)); [lia|]. by apply negb_true_iff in Hcont.
Qed.

Section lookup.
Context (f : string) (Hf : field_name f).

Lemma field_rest_claim c r :
  claim_ok c = true → field_rest f (claim_text c ++ tail_text r) =
    match r with [] => None | _ => field_rest f (members_text r) end.
Proof.
  intros Hc. assert (Hend : field_rest f (tail_text r) = match r with [] => None | _ => field_rest f (members_text r) end).
  { destruct r; cbn [tail_text]; by rewrite field_rest_other. }
  destruct (tail_text_sep r) as (sep & t & E & Hsep).
  assert (Hne : sep ≠ dq ∧ sep ≠ ":"%char).
  { split; intros ->; revert Hsep; by apply (bool_decide_eq_false_1 (_ ∈ _)). }
  destruct c as [s|n|b]; cbn in Hc; cbn [claim_text].
  - apply andb_true_iff in Hc as [[_ Hq%negb_true_iff]%andb_true_iff _].
    rewrite str_app_cons, str_app_assoc, str_app_cons, str_app_nil, <- Hend, E.
    rewrite field_rest_quoted; [|done|done| |by right; apply Hne].
    + symmetry. by apply field_rest_other, Hne.
    + set_solver.
  - rewrite field_rest_plain by (by apply dec_string_contains). done.
  - rewrite field_rest_plain by (by destruct b). done.
Qed.

Lemma extract_members pre cs :
  claims_ok cs = true → pre = "{" ++ members_text cs →
  extract_json_field pre f = Ret (claim_of f cs).
Proof.
  intros Hok ->.
  assert (Hrest : match claim_of f cs with
    | None => field_rest f (members_text cs) = None
    | Some v => ∃ r, field_rest f (members_text cs) = Some r ∧ starts_char r ∧ json_value r = Ret (Some v)
    end).
  { induction cs as [|[name c] r IH]; [by cbn [claim_of members_text]; rewrite field_rest_other|].
    cbn [claims_ok forallb] in Hok. apply andb_true_iff in Hok as [[Hn Hc]%andb_true_iff Hr].
    cbn [claim_of members_text]. fold (tail_text r). unfold plain_text in Hn.
    apply andb_true_iff in Hn as [[_ Hq%negb_true_iff]%andb_true_iff _].
    destruct (tail_text_sep r) as (sep & t & E & Hsep).
    destruct (str_eqb name f) eqn:En.
    - apply str_eqb_eq in En as ->. exists (claim_text c ++ tail_text r). split; [|split].
      + pose proof (field_rest_hit f (claim_text c ++ tail_text r)) as H.
        by rewrite !str_app_cons, str_app_assoc, !str_app_cons, str_app_nil in H.
      + apply claim_starts; [done|]. rewrite E.
        repeat (apply elem_of_cons in Hsep as [->|Hsep]; [done|]). by apply elem_of_nil in Hsep.
      + rewrite E. by apply value_claim.
    - assert (Hne : f ≠ name) by (intros ->; by rewrite (proj2 (str_eqb_eq name name) eq_refl) in En).
      rewrite field_rest_quoted; [|done|done|set_solver|by left]. rewrite field_rest_claim by done.
      destruct r; [done|]. by apply IH. }
  assert (Hskip : field_rest f ("{" ++ members_text cs) = field_rest f (members_text cs)) by (by apply field_rest_other).
  rewrite <- Hskip in Hrest. unfold field_rest in Hrest. unfold extract_json_field.
  destruct (str_find _ _) as [i|]; simpl_bind; destruct (claim_of f cs) as [v|]; [|done|by destruct Hrest as (? & ? & _)|done].
  destruct Hrest as (r & [= Hr] & Hst & Hv).
  destruct r as [|a r]; [done|]. erewrite str_from_starts; [exact Hv|exact Hr|exact Hst].
Qed.
End lookup.

(** ** Lemmas: tokens *)

Lemma replace_char_length a b s : String.length (replace_char a b s) = String.length s.
Proof. induction s as [|c s IH]; [done|]. cbn. by rewrite IH. Qed.
Lemma replace_char_contains a b c s :
  b ≠ c → str_contains c s = false → str_contains c (replace_char a b s) = false.
Proof.
  intros Hb. induction s as [|x s IH]; [done|]. cbn. destruct (ascii_dec x c); [done|]. intros H.
  destruct (ascii_dec x a); [by destruct (ascii_dec b c); [|auto]|]. destruct (ascii_dec x c); [done|auto].
Qed.
Lemma replace_back a b s : str_contains a s = false → replace_char a b (replace_char b a s) = s.
Proof.
  induction s as [|c s IH]; [done|]. cbn. destruct (ascii_dec c a); [done|]. intros H.
  rewrite (IH H). destruct (ascii_dec c b) as [->|]; [by destruct (ascii_dec a a)|by destruct (ascii_dec c a)].
Qed.

Lemma utf8_valid_str s t :
  utf8_valid (str_bytes s) = true → utf8_valid (str_bytes t) = true → utf8_valid (str_bytes (s ++ t)) = true.
Proof. intros. rewrite str_bytes_app. by apply utf8_valid_app. Qed.
Lemma utf8_valid_cons c s :
  ascii_Z c < 128 → utf8_valid (str_bytes s) = true → utf8_valid (str_bytes (String c s)) = true.
Proof. intros Hc Hs. cbn. unfold utf8_width. by destruct (Z.ltb_spec (ascii_Z c) 128); [|lia]. Qed.

Lemma utf8_valid_dec n : utf8_valid (str_bytes (dec_string n)) = true.
Proof.
  unfold dec_string. assert (H0 : utf8_valid (str_bytes "") = true) by done.
  revert H0. generalize "" as s. revert n. generalize 20%nat. intros k. induction k as [|k IH]; intros n s Hs; [done|].
  cbn [dec_digits]. assert (Hm : 0 ≤ n mod 10 < 10) by (apply Z.mod_pos_bound; lia).
  assert (utf8_valid (str_bytes (String (digit_char (n mod 10)) s)) = true).
  { apply utf8_valid_cons; [|done]. unfold digit_char. rewrite ascii_Z_ascii by (unfold_words; lia). lia. }
  destruct (n <? 10); [done|]. by apply IH.
Qed.

Lemma claims_text_utf8 cs : claims_ok cs = true → from_utf8 (str_bytes (claims_text cs)) = Some (claims_text cs).
Proof.
  intros Hok. unfold from_utf8. rewrite bytes_str_bytes.
  enough (utf8_valid (str_bytes (claims_text cs)) = true) as -> by done.
  unfold claims_text. apply utf8_valid_cons; [vm_compute; reflexivity|].
  induction cs as [|[name c] r IH]; [done|]. cbn [claims_ok forallb] in Hok.
  apply andb_true_iff in Hok as [[[[Hn _]%andb_true_iff _]%andb_true_iff Hc]%andb_true_iff Hr]. cbn [members_text].
  assert (Ht : utf8_valid (str_bytes (tail_text r)) = true).
  { unfold tail_text. destruct r; [done|]. apply utf8_valid_cons; [vm_compute; reflexivity|auto]. }
  apply utf8_valid_cons; [vm_compute; reflexivity|]. apply utf8_valid_str; [done|].
  apply utf8_valid_cons; [vm_compute; reflexivity|]. apply utf8_valid_cons; [vm_compute; reflexivity|].
  apply utf8_valid_str; [|exact Ht]. destruct c as [s|n|[]]; [|apply utf8_valid_dec|done..].
  apply utf8_valid_cons; [vm_compute; reflexivity|]. apply utf8_valid_str; [|done].
  cbn in Hc. by apply andb_true_iff in Hc as [[? _]%andb_true_iff _].
Qed.


Lemma lacks_elem cs s c : lacks cs s → c ∈ cs → str_contains c s = false.
Proof. unfold lacks. rewrite list.Forall_forall. auto. Qed.

Lemma strip_padding_shape text k :
  lacks base64_special text → strip_padding (text ++ repeat_char k "="%char) = text.
Proof.
  intros Hl. pose proof (lacks_elem _ _ "="%char Hl ltac:(set_solver)) as Heq.
  unfold strip_padding. destruct k as [|k]; cbn [repeat_char].
  - by rewrite str_app_nil_r, split_on_none.
  - by rewrite split_on_app.
Qed.

Section encoding.
Context `{JL : JwtLaws}.

Lemma base64url_nodot b : bytes_ok b → str_contains "."%char (base64url b) = false.
Proof.
  intros Hb. destruct (base64_shape b Hb) as (text & k & E & Hl & _). unfold base64url. rewrite E, strip_padding_shape by done.
  repeat (apply replace_char_contains; [done|]). apply (lacks_elem _ _ _ Hl). set_solver.
Qed.

Lemma base64url_roundtrip b : bytes_ok b → base64_decode (base64url b) = Some b.
Proof.
  intros Hb. destruct (base64_shape b Hb) as (text & k & E & Hl & Hk & Hlen).
  pose proof (lacks_elem _ _ "-"%char Hl ltac:(set_solver)) as Hm.
  pose proof (lacks_elem _ _ "_"%char Hl ltac:(set_solver)) as Hu.
  unfold base64_decode, base64url. rewrite E, strip_padding_shape by done.
  assert (Hback : replace_char "_"%char "/"%char (replace_char "-"%char "+"%char
    (replace_char "/"%char "_"%char (replace_char "+"%char "-"%char text))) = text).
  { rewrite <- (replace_back "_"%char "/"%char text Hu) at 2. f_equal.
    assert (Hcomm : ∀ s, replace_char "-"%char "+"%char (replace_char "/"%char "_"%char s) =
                         replace_char "/"%char "_"%char (replace_char "-"%char "+"%char s)).
    { intros s. induction s as [|c s IH]; [done|]. cbn [replace_char]. rewrite IH. f_equal.
      destruct (ascii_dec c "/"%char) as [->|]; [done|]. destruct (ascii_dec c "-"%char) as [->|]; [done|].
      by destruct (ascii_dec c "/"%char), (ascii_dec c "-"%char). }
    rewrite Hcomm. by rewrite (replace_back "-"%char "+"%char). }
  rewrite Hback. rewrite E, str_length_app in Hlen.
  assert (Hpad : ((4 - String.length text mod 4) mod 4 = k)%nat).
  { assert (Hrep : String.length (repeat_char k "="%char) = k) by (clear; induction k; cbn; congruence).
    rewrite Hrep in Hlen. clear - Hk Hlen. revert Hlen. generalize (String.length text). intros n Hlen.
    pose proof (Nat.Div0.div_mod n 4). pose proof (Nat.mod_upper_bound n 4).
    pose proof (Nat.Div0.div_mod (n + k) 4). pose proof (Nat.Div0.div_mod (4 - n mod 4) 4).
    pose proof (Nat.mod_upper_bound (4 - n mod 4) 4). nia. }
  rewrite Hpad, <- E. by apply base64_roundtrip.
Qed.

Lemma token_split h p s :
  str_contains "."%char h = false → str_contains "."%char p = false → str_contains "."%char s = false →
  split_on "."%char (h ++ "." ++ p ++ "." ++ s) = [h; p; s].
Proof.
  intros Hh Hp Hs. rewrite !str_app_cons, !str_app_nil.
  by rewrite split_on_app, split_on_app, split_on_none.
Qed.

Lemma payload_decoded cs :
  claims_ok cs = true →
  (p ← base64_decode (base64url (str_bytes (claims_text cs))); from_utf8 p) = Some (claims_text cs).
Proof.
  intros Hok. rewrite base64url_roundtrip by apply str_bytes_ok. simpl_bind. by apply claims_text_utf8.
Qed.
End encoding.

Lemma extract_claim f cs : field_name f → claims_ok cs = true → extract_json_field (claims_text cs) f = Ret (claim_of f cs).
Proof. intros Hf Hok. by apply (extract_members f Hf). Qed.

(** ** A concrete instance: standard base64, and a checksum for the MAC *)

Definition sextet_char (d : Z) : ascii :=
  Z_ascii (if d <? 26 then 65 + d else if d <? 52 then 71 + d else if d <? 62 then d - 4 else if d =? 62 then 43 else 47).
Definition sextet_val (c : ascii) : option Z :=
  let b := ascii_Z c in
  if (65 <=? b) && (b <=? 90) then Some (b - 65) else
  if (97 <=? b) && (b <=? 122) then Some (b - 71) else
  if (48 <=? b) && (b <=? 57) then Some (b + 4) else
  if b =? 43 then Some 62 else if b =? 47 then Some 63 else None.

Fixpoint encode64 (l : list Z) : string :=
  match l with
  | [] => ""
  | [a] => String (sextet_char (a / 4)) (String (sextet_char (a mod 4 * 16)) "==")
  | [a; b] =>
    String (sextet_char (a / 4)) (String (sextet_char (a mod 4 * 16 + b / 16))
      (String (sextet_char (b mod 16 * 4)) "="))
  | a :: b :: c :: r =>
    String (sextet_char (a / 4)) (String (sextet_char (a mod 4 * 16 + b / 16))
      (String (sextet_char (b mod 16 * 4 + c / 64)) (String (sextet_char (c mod 64)) (encode64 r))))
  end.
Fixpoint decode64 (s : string) : option (list Z) :=
  match s with
  | EmptyString => Some []
  | String w (String x (String y (String z r))) =>
    a ← sextet_val w; b ← sextet_val x;
    if ascii_dec z "="%char then
      if decide (r ≠ "") then None else
      if ascii_dec y "="%char then
        if b mod 16 =? 0 then Some [a * 4 + b / 16] else None
      else
        c ← sextet_val y;
        if c mod 4 =? 0 then Some [a * 4 + b / 16; b mod 16 * 16 + c / 4] else None
    else
      c ← sextet_val y; d ← sextet_val z; t ← decode64 r;
      Some (a * 4 + b / 16 :: b mod 16 * 16 + c / 4 :: c mod 4 * 64 + d :: t)
  | _ => None
  end.

Definition toy_jwt : Jwt := {|
  base64_standard_encode := encode64;
  base64_standard_decode := decode64;
  hmac_sha256 key data := map as_u8 [foldr (λ b h, h * 31 + b) 7 (key ++ data)%list; Z.of_nat (List.length data)]
|}.

Example hello_base64 : @base64_decode toy_jwt "aGVsbG8" = Some (str_bytes "hello").
Proof. reflexivity. Qed.

Lemma sextet_ok d :
  0 ≤ d < 64 → sextet_val (sextet_char d) = Some d ∧ sextet_char d ∉ base64_special.
Proof.
  intros Hd.
  assert (H : ∀ b, in_u8 b → (64 <=? b) || (bool_decide (sextet_val (sextet_char b) = Some b)
    && bool_decide (sextet_char b ∉ base64_special)) = true) by (apply byte_forall; vm_compute; reflexivity).
  specialize (H d ltac:(unfold_words; lia)). destruct (Z.leb_spec 64 d); [lia|]. cbn [orb] in H.
  by bool_to_prop.
Qed.

(** Three bytes at a time. *)
Lemma triple_ind (P : list Z → Prop) :
  P [] → (∀ a, P [a]) → (∀ a b, P [a; b]) → (∀ a b c r, P r → P (a :: b :: c :: r)) → ∀ l, P l.
Proof.
  intros H0 H1 H2 H3. refine (well_founded_induction (well_founded_ltof _ (@List.length Z)) _ _). unfold ltof.
  intros [|a [|b [|c r]]] IH; auto. apply H3, IH. cbn. lia.
Qed.

Ltac inv_bytes := unfold bytes_ok in *; repeat match goal with H : Forall _ (_ :: _) |- _ => apply list.Forall_cons in H as [? ?] end.

Lemma sextet_not d c : 0 ≤ d < 64 → c ∈ base64_special → sextet_char d ≠ c.
Proof. intros Hd Hc E. apply (sextet_ok d Hd). by rewrite E. Qed.

(** Lists of words equal entry by entry. *)
Lemma some_cons (x y : Z) l k : x = y → Some l = Some k → Some (x :: l) = Some (y :: k).
Proof. by intros -> [= ->]. Qed.
Ltac list_words := repeat (apply some_cons; [word_lia|]).

Lemma sextet_val_char d : 0 ≤ d < 64 → sextet_val (sextet_char d) = Some d.
Proof. intros Hd. by apply sextet_ok. Qed.

Lemma decode64_encode64 l : bytes_ok l → decode64 (encode64 l) = Some l.
Proof.
  induction l as [|a|a b|a b c r IH] using triple_ind; intros Hl; [done| | |]; inv_bytes; cbn [encode64 decode64].
  - rewrite !sextet_val_char by word_lia. simpl_bind.
    destruct (ascii_dec "=" "="); [|done]. destruct (decide ("" ≠ "")) as [E|_]; [by destruct E|].
    destruct (Z.eqb_spec ((a mod 4 * 16) mod 16) 0); [|word_lia]. by list_words.
  - rewrite !sextet_val_char by word_lia. simpl_bind.
    destruct (ascii_dec "=" "="); [|done]. destruct (decide ("" ≠ "")) as [E|_]; [by destruct E|].
    destruct (ascii_dec (sextet_char _) "=") as [E|_]; [by apply sextet_not in E; [|word_lia|set_solver]|].
    destruct (Z.eqb_spec ((b mod 16 * 4) mod 4) 0); [|word_lia]. by list_words.
  - rewrite !sextet_val_char by word_lia. simpl_bind.
    destruct (ascii_dec (sextet_char (c mod 64)) "=") as [E|_]; [by apply sextet_not in E; [|word_lia|set_solver]|].
    rewrite IH by done. simpl_bind. by list_words.
Qed.

Lemma lacks_cons cs c s : c ∉ cs → lacks cs s → lacks cs (String c s).
Proof.
  unfold lacks. rewrite !list.Forall_forall. intros Hc Hs x Hx. cbn. destruct (ascii_dec c x) as [->|]; [done|auto].
Qed.

Lemma toy_jwt_laws : @JwtLaws toy_jwt.
Proof.
  split.
  - apply decode64_encode64.
  - intros l. cbn [base64_standard_encode toy_jwt].
    assert (Hnil : lacks base64_special "") by (by apply (bool_decide_eq_true_1 (lacks _ _))).
    assert (Hs : ∀ d s, 0 ≤ d < 64 → lacks base64_special s → lacks base64_special (String (sextet_char d) s)).
    { intros d s Hd. apply lacks_cons. by apply sextet_ok. }
    induction l as [|a|a b|a b c r IH] using triple_ind; intros Hl; inv_bytes; cbn [encode64].
    + exists "", 0%nat. split; [done|]. split; [done|]. split; [lia|done].
    + exists (String (sextet_char (a / 4)) (String (sextet_char (a mod 4 * 16)) "")), 2%nat.
      split; [done|]. split; [|split; [lia|done]]. repeat (apply Hs; [word_lia|]). done.
    + exists (String (sextet_char (a / 4)) (String (sextet_char (a mod 4 * 16 + b / 16)) (String (sextet_char (b mod 16 * 4)) ""))), 1%nat.
      split; [done|]. split; [|split; [lia|done]]. repeat (apply Hs; [word_lia|]). done.
    + destruct IH as (text & k & E & Ht & Hk & Hlen); [done|]. rewrite E in *.
      eexists (String _ (String _ (String _ (String _ text)))), k. split; [by rewrite !str_app_cons|].
      split; [repeat (apply Hs; [word_lia|]); done|]. split; [done|].
      cbn [String.length]. replace (S (S (S (S (String.length (text ++ repeat_char k "="%char))))))%nat
        with (String.length (text ++ repeat_char k "="%char) + 1 * 4)%nat by lia. by rewrite Nat.Div0.mod_add.
  - intros key data. cbn [hmac_sha256 toy_jwt]. repeat constructor; word_lia.
Qed.

(** ** Properties *)

(** On the text of a flat JSON object the hand-written search is JSON
    member access: for every member name the validator can ask for, it gives
    the value of the first member of that name (string contents, digits or
    boolean), nothing when there is none, and it does not panic.  Names and
    string values hold no quote and no backslash. *)
Theorem field_search_is_lookup f cs :
  field_name f → claims_ok cs = true → extract_json_field (claims_text cs) f = Ret (claim_of f cs).
Proof. apply extract_claim. Qed.

Definition sample_claims : claims :=
  [("sub", CStr "exp"); ("scope", CStr "a b"); ("admin", CBool false); ("exp", CNum 2000000000); ("iss", CStr "me")].

Lemma field_search_is_lookup_witness :
  extract_json_field (claims_text sample_claims) "exp" = Ret (Some "2000000000") ∧
  extract_json_field (claims_text sample_claims) "aud" = Ret None.
Proof.
  split; (rewrite field_search_is_lookup; [reflexivity| |reflexivity]);
    (split; [by repeat constructor|by apply (bool_decide_eq_false_1 (_ ∈ _))]).
Defined.

(** The members the validator asks for. *)
Lemma field_names : Forall field_name ["sub"; "exp"; "iss"; "aud"; "scope"].
Proof. repeat constructor; by apply (bool_decide_eq_false_1 (_ ∈ _)). Qed.
Lemma field_named i f : ["sub"; "exp"; "iss"; "aud"; "scope"] !! i = Some f → field_name f.
Proof. intros H. apply list_elem_of_lookup_2 in H. pose proof field_names as F. rewrite list.Forall_forall in F. auto. Qed.

(** C23. The validator decides issued tokens by their claims and the key: a
    token made from a header and flat claims is accepted, for its subject,
    exactly when the validator is enabled, the claims name a subject, an
    expiry that is a number and not before now, and the configured issuer and
    audience, and the MAC under the issuing key is the one under the
    validator's key.  It does not panic on such a token. *)
Theorem oauth_token_decision `{JL : JwtLaws} now v key header cs :
  claims_ok cs = true →
  validate_token now v (issue_token key header cs) =
  Ret (if enabled (config v) &&
          bool_decide (compute_hmac_sha256 (signing_input header cs) key =
                       compute_hmac_sha256 (signing_input header cs) (jwt_secret (config v)))
       then claims_accept now (config v) cs else None).
Proof.
  intros Hok. unfold validate_token. destruct (enabled (config v)); [|done]. cbn [negb andb].
  unfold issue_token, signing_input. rewrite !str_app_assoc.
  rewrite token_split by (apply base64url_nodot; (apply str_bytes_ok || apply hmac_sha256_bytes)).
  rewrite payload_decoded by done.
  rewrite (extract_claim "sub"), (extract_claim "exp"), (extract_claim "iss"), (extract_claim "aud")
    by (done || (by eapply (field_named 0)) || (by eapply (field_named 1)) || (by eapply (field_named 2)) || (by eapply (field_named 3))).
  rewrite base64url_roundtrip by apply hmac_sha256_bytes. unfold claims_accept. simpl_bind.
  destruct (claim_of "sub" cs) as [user|]; simpl_bind; [|by case_bool_decide].
  destruct (claim_of "exp" cs) as [e|]; simpl_bind; [|by case_bool_decide].
  destruct (parse_uint U64_MAX e) as [exp|]; simpl_bind; [|by case_bool_decide].
  destruct (Z.ltb_spec exp now), (Z.leb_spec now exp); try lia; cbn [andb]; [by case_bool_decide|].
  destruct (claim_matches (issuer _) _), (claim_matches (audience _) _); cbn [negb andb]; by case_bool_decide.
Qed.

Definition sample_validator : OAuthValidator := mkValidator (with_issuer "me" (OAuthConfig_new "my-secret-key")).

Lemma oauth_token_decision_witness :
  @validate_token toy_jwt 1999999999 sample_validator (@issue_token toy_jwt "my-secret-key" "{}" sample_claims)
    = Ret (Some "exp") ∧
  @validate_token toy_jwt 1999999999 sample_validator (@issue_token toy_jwt "wrong-secret" "{}" sample_claims)
    = Ret None.
Proof.
  split; (rewrite (@oauth_token_decision toy_jwt toy_jwt_laws) by reflexivity); vm_compute; reflexivity.
Defined.

(** A payload in which a member the validator asks for has a value that
    starts with t or f and ends within five bytes makes the validator panic,
    before it looks at expiry or signature: anybody can send such a token. *)
Theorem oauth_short_boolean_panics `{JL : JwtLaws} now v header signature :
  enabled (config v) = true → lacks ["."%char] header → lacks ["."%char] signature →
  validate_token now v
    (header ++ "." ++ base64url (str_bytes ("{" ++ String dq "sub" ++ String dq ":t}")) ++ "." ++ signature) = Panic.
Proof.
  intros He Hh Hs. unfold validate_token. rewrite He. cbn [negb].
  rewrite token_split by ((by apply lacks_elem with ["."%char]; [|set_solver]) || (apply base64url_nodot, str_bytes_ok)).
  rewrite base64url_roundtrip by apply str_bytes_ok. reflexivity.
Qed.

Lemma oauth_short_boolean_panics_witness :
  @validate_token toy_jwt 0 sample_validator ("x." ++ @base64url toy_jwt (str_bytes ("{" ++ String dq "sub" ++ String dq ":t}")) ++ ".y") = Panic.
Proof. apply (@oauth_short_boolean_panics toy_jwt toy_jwt_laws 0 sample_validator "x" "y"); by repeat constructor. Defined.

(** [get_user_info] reads the claims of any token of three parts: header
    and signature have no influence, expired and unsigned tokens included. *)
Theorem user_info_unauthenticated `{JL : JwtLaws} v header cs signature :
  enabled (config v) = true → claims_ok cs = true → lacks ["."%char] header → lacks ["."%char] signature →
  get_user_info v (header ++ "." ++ base64url (str_bytes (claims_text cs)) ++ "." ++ signature) =
  Ret (user ← claim_of "sub" cs;
       Some (mkUserInfo user (match claim_of "scope" cs with Some s => split_on " "%char s | None => [] end)
               (claim_of "exp" cs ≫= parse_uint U64_MAX))).
Proof.
  intros He Hok Hh Hs. unfold get_user_info. rewrite He. cbn [negb].
  rewrite token_split by ((by apply lacks_elem with ["."%char]; [|set_solver]) || (apply base64url_nodot, str_bytes_ok)).
  rewrite payload_decoded by done.
  rewrite (extract_claim "sub"), (extract_claim "exp"), (extract_claim "scope")
    by (done || (by eapply (field_named 0)) || (by eapply (field_named 1)) || (by eapply (field_named 4))).
  simpl_bind. by destruct (claim_of "sub" cs).
Qed.

Lemma user_info_unauthenticated_witness :
  @get_user_info toy_jwt sample_validator ("forged" ++ "." ++ @base64url toy_jwt (str_bytes (claims_text sample_claims)) ++ "." ++ "nothing")
  = Ret (Some (mkUserInfo "exp" ["a"; "b"] (Some 2000000000))).
Proof.
  rewrite (@user_info_unauthenticated toy_jwt toy_jwt_laws) by (done || (by repeat constructor)).
  vm_compute. reflexivity.
Defined.
