(* ===== verification/Sds.v ===== *)
(** * The SDS certificate client (src/sds.rs)

    Subscription to a TLS certificate over Envoy's xDS protocol, in its
    state-of-the-world and delta forms.  gRPC and protobuf are third-party: a
    stream is the list of what [stream.message()] yields, with whether the
    following [tx.send] succeeds, and decoding a [Secret] is the parameter of
    [Protobuf].  Errors are their messages. *)

From S2P Require Import Prelude RustStd RustText Config.
From Stdlib Require Import Ascii String.
Local Open Scope string_scope.
Local Open Scope Z_scope.

(** [?] on a [Result] *)
Definition rbind {A B E} (m : result A E) (f : A → result B E) : result B E :=
  match m with Ok a => f a | Err e => Err e end.
Notation "'do' x <- m ; k" := (rbind m (λ x, k))
  (at level 20, x pattern, m at level 100, k at level 200, right associativity).
Definition ok_or {A} (o : option A) (e : string) : result A string :=
  match o with Some a => Ok a | None => Err e end.

Definition quote : string := String "034"%char "".

(** ** Messages (proto/envoy) *)

Record Node := mkNode { node_id : string; node_cluster : string }.
Inductive Specifier := Filename (path : string) | InlineBytes (b : list Z) | InlineString (s : string).
Record DataSource := mkDataSource { specifier : option Specifier }.
Record TlsCertificate := mkTlsCertificate { certificate_chain : option DataSource; private_key : option DataSource }.
Record Secret := mkSecret { secret_name : string; secret_type : option TlsCertificate }.
Record Any := mkAny { any_type_url : string; any_value : list Z }.

Record DiscoveryRequest := mkDiscoveryRequest {
  dr_version_info : string;
  dr_node : option Node;
  dr_resource_names : list string;
  dr_type_url : string;
  dr_response_nonce : string
}.
Record DiscoveryResponse := mkDiscoveryResponse {
  version_info : string;
  resources : list Any;
  type_url : string;
  nonce : string
}.
Record DeltaDiscoveryRequest := mkDeltaRequest {
  ddr_node : option Node;
  ddr_type_url : string;
  ddr_subscribe : list string;
  ddr_unsubscribe : list string;
  ddr_initial_versions : gmap string string;
  ddr_response_nonce : string
}.
Record Resource := mkResource { res_version : string; res_any : option Any; res_name : string }.
Record DeltaDiscoveryResponse := mkDeltaResponse {
  system_version_info : string;
  delta_resources : list Resource;
  delta_type_url : string;
  delta_nonce : string;
  removed_resources : list string
}.

Class Protobuf := { decode_secret : list Z → result Secret string }.

(** ** The stream API *)

Definition SECRET_TYPE_URL : string := "type.googleapis.com/envoy.extensions.transport_sockets.tls.v3.Secret".
Definition SDS_STREAM_SECRETS_PATH : string := "/envoy.service.secret.v3.SecretDiscoveryService/StreamSecrets".
Definition ADS_STREAM_AGGREGATED_RESOURCES_PATH : string :=
  "/envoy.service.discovery.v3.AggregatedDiscoveryService/StreamAggregatedResources".
Definition SDS_DELTA_SECRETS_PATH : string := "/envoy.service.secret.v3.SecretDiscoveryService/DeltaSecrets".
Definition ADS_DELTA_AGGREGATED_RESOURCES_PATH : string :=
  "/envoy.service.discovery.v3.AggregatedDiscoveryService/DeltaAggregatedResources".
Definition DEFAULT_SDS_TIMEOUT_SECS : Z := 10.
Definition SDS_RECONNECT_DELAY_SECS : Z := 5.

Inductive XdsStreamApi := Ads | Sds | DeltaAds | DeltaSds.

Definition XdsStreamApi_from_config (c : CertificateConfig) : result XdsStreamApi string :=
  let api := default "ads" (sds_api c) in
  if str_eqb api "ads" then Ok Ads
  else if str_eqb api "sds" then Ok Sds
  else if str_eqb api "delta_ads" then Ok DeltaAds
  else if str_eqb api "delta_sds" then Ok DeltaSds
  else Err ("unsupported certificates.sds_api " ++ quote ++ api ++ quote ++ "; expected " ++ quote ++ "ads" ++ quote
            ++ ", " ++ quote ++ "sds" ++ quote ++ ", " ++ quote ++ "delta_ads" ++ quote ++ ", or " ++ quote
            ++ "delta_sds" ++ quote).

Definition api_path (a : XdsStreamApi) : string :=
  match a with
  | Ads => ADS_STREAM_AGGREGATED_RESOURCES_PATH
  | Sds => SDS_STREAM_SECRETS_PATH
  | DeltaAds => ADS_DELTA_AGGREGATED_RESOURCES_PATH
  | DeltaSds => SDS_DELTA_SECRETS_PATH
  end.
Definition api_str (a : XdsStreamApi) : string :=
  match a with Ads => "ads" | Sds => "sds" | DeltaAds => "delta_ads" | DeltaSds => "delta_sds" end.
Definition is_delta (a : XdsStreamApi) : bool := match a with DeltaAds | DeltaSds => true | _ => false end.

(** The generated clients, and the method each call ends in. *)
Inductive XdsStreamClient := ClientAds | ClientSds.
Definition XdsStreamClient_new (a : XdsStreamApi) : XdsStreamClient :=
  match a with Ads | DeltaAds => ClientAds | Sds | DeltaSds => ClientSds end.
Definition stream_resources (c : XdsStreamClient) : string :=
  match c with ClientAds => ADS_STREAM_AGGREGATED_RESOURCES_PATH | ClientSds => SDS_STREAM_SECRETS_PATH end.
Definition stream_delta_resources (c : XdsStreamClient) : string :=
  match c with ClientAds => ADS_DELTA_AGGREGATED_RESOURCES_PATH | ClientSds => SDS_DELTA_SECRETS_PATH end.

(** ** Subscriptions *)

Record SdsCertificate := mkSdsCert { cert_pem : string; key_pem : string; cert_version : string; cert_nonce : string }.

Record SdsSubscription := mkSub {
  endpoint : string;
  api : XdsStreamApi;
  resource_name : string;
  sub_node : Node;
  timeout : Z
}.

Definition normalize_endpoint (addr : string) : string :=
  if contains_str addr "://" then addr else "http://" ++ addr.

(** [HOSTNAME] and the content of /etc/hostname, when they can be read. *)
Definition system_hostname (env_hostname etc_hostname : option string) : option string :=
  let usable o := match o with
                  | Some v => let v := trim v in if str_eqb v "" then None else Some v
                  | None => None
                  end in
  match usable env_hostname with Some h => Some h | None => usable etc_hostname end.

Definition configured_or_hostname (env_hostname etc_hostname configured : option string) : string :=
  match configured with
  | Some v =>
    let v := trim v in
    if str_eqb v "" then default "miuturn" (system_hostname env_hostname etc_hostname) else v
  | None => default "miuturn" (system_hostname env_hostname etc_hostname)
  end.

Definition SdsSubscription_from_config (env_hostname etc_hostname : option string) (c : CertificateConfig)
    : result SdsSubscription string :=
  do addr <- ok_or (sds_address c) ("certificates.sds_address is required for source=" ++ quote ++ "sds" ++ quote);
  do name <- ok_or (sds_resource_name c) ("certificates.sds_resource_name is required for source=" ++ quote ++ "sds" ++ quote);
  do a <- XdsStreamApi_from_config c;
  Ok (mkSub (normalize_endpoint addr) a name
        (mkNode (configured_or_hostname env_hostname etc_hostname (sds_node_id c)) (default "" (sds_cluster c)))
        (from_secs (default DEFAULT_SDS_TIMEOUT_SECS (sds_timeout_secs c)))).

Definition initial_sotw_request (s : SdsSubscription) : DiscoveryRequest :=
  mkDiscoveryRequest "" (Some (sub_node s)) [resource_name s] SECRET_TYPE_URL "".
Definition ack_sotw_request (s : SdsSubscription) (r : DiscoveryResponse) : DiscoveryRequest :=
  mkDiscoveryRequest (version_info r) (Some (sub_node s)) [resource_name s] SECRET_TYPE_URL (nonce r).
Definition initial_delta_request (s : SdsSubscription) : DeltaDiscoveryRequest :=
  mkDeltaRequest (Some (sub_node s)) SECRET_TYPE_URL [resource_name s] [] ∅ "".
Definition ack_delta_request (s : SdsSubscription) (r : DeltaDiscoveryResponse) : DeltaDiscoveryRequest :=
  mkDeltaRequest (Some (sub_node s)) SECRET_TYPE_URL [] [] ∅ (delta_nonce r).

(** ** Extracting the certificate *)

Section extract.
Context `{PB : Protobuf} (fs : FileSystem).

Definition utf8_error : string := "invalid utf-8 sequence".
Definition read_error : string := "No such file or directory".

Definition data_source_to_string (d : option DataSource) (field_name : string) : result string string :=
  do d <- ok_or d ("SDS " ++ field_name ++ " is missing");
  match specifier d with
  | Some (InlineString v) => Ok v
  | Some (InlineBytes v) => ok_or (from_utf8 v) utf8_error
  | Some (Filename path) => do b <- ok_or (fs !! path) read_error; ok_or (from_utf8 b) utf8_error
  | None => Err ("SDS " ++ field_name ++ " has no data source specifier")
  end.

Definition extract_certificate_from_secret (s : Secret) : result (string * string) string :=
  match secret_type s with
  | None => Err ("SDS secret " ++ quote ++ secret_name s ++ quote ++ " is not a TLS certificate")
  | Some tls =>
    do chain <- data_source_to_string (certificate_chain tls) "tls_certificate.certificate_chain";
    do key <- data_source_to_string (private_key tls) "tls_certificate.private_key";
    Ok (chain, key)
  end.

(** The loop over the resources of a response. *)
Fixpoint first_secret (name version nonce : string) (l : list Any) : result (option SdsCertificate) string :=
  match l with
  | [] => Ok None
  | any :: l =>
    if negb (str_eqb (any_type_url any) SECRET_TYPE_URL) then first_secret name version nonce l else
    do secret <- decode_secret (any_value any);
    if negb (str_eqb (secret_name secret) name) then first_secret name version nonce l else
    do p <- extract_certificate_from_secret secret;
    Ok (Some (mkSdsCert p.1 p.2 version nonce))
  end.

Definition try_extract_certificate_from_sotw_response (name : string) (r : DiscoveryResponse)
    : result (option SdsCertificate) string :=
  if negb (str_eqb (type_url r) SECRET_TYPE_URL) then
    Err ("unexpected SDS DiscoveryResponse type_url " ++ quote ++ type_url r ++ quote)
  else first_secret name (version_info r) (nonce r) (resources r).

Fixpoint first_delta_secret (name version nonce : string) (l : list Resource)
    : result (option SdsCertificate) string :=
  match l with
  | [] => Ok None
  | res :: l =>
    match res_any res with
    | None => first_delta_secret name version nonce l
    | Some any =>
      if negb (str_eqb (any_type_url any) SECRET_TYPE_URL) then first_delta_secret name version nonce l else
      do secret <- decode_secret (any_value any);
      if negb (str_eqb (res_name res) name) && negb (str_eqb (secret_name secret) name)
      then first_delta_secret name version nonce l else
      do p <- extract_certificate_from_secret secret;
      let v := if str_eqb (res_version res) "" then version else res_version res in
      Ok (Some (mkSdsCert p.1 p.2 v nonce))
    end
  end.

Definition try_extract_certificate_from_delta_response (name : string) (r : DeltaDiscoveryResponse)
    : result (option SdsCertificate) string :=
  if negb (str_eqb (delta_type_url r) SECRET_TYPE_URL) then
    Err ("unexpected Delta SDS DiscoveryResponse type_url " ++ quote ++ delta_type_url r ++ quote)
  else if existsb (λ n, str_eqb n name) (removed_resources r) then Ok None
  else first_delta_secret name (system_version_info r) (delta_nonce r) (delta_resources r).
End extract.

(** ** The streams *)

(** What [stream.message()] yields: a response, with whether the [tx.send]
    after it would succeed, or an error.  The end of the list is the end of
    the stream. *)
Inductive Recv (R : Type) := RMsg (r : R) (send_ok : bool) | RErr (e : string).
Arguments RMsg {R} r send_ok.
Arguments RErr {R} e.

Definition send_error : string := "channel closed".

Section loops.
Context {R Q : Type} (extract : R → result (option SdsCertificate) string) (ack : R → Q).

(** [wait_for_certificate], with the acknowledgements it sends.  [deadline] is
    the number of messages that arrive before the timer fires. *)
Fixpoint wait_for_certificate (deadline : option nat) (timed_out closed : string) (l : list (Recv R))
    : result SdsCertificate string * list Q :=
  match deadline with
  | Some O => (Err timed_out, [])
  | _ =>
    match l with
    | [] => (Err closed, [])
    | RErr e :: _ => (Err e, [])
    | RMsg r send_ok :: l =>
      match extract r with
      | Err e => (Err e, [])
      | Ok (Some c) => (Ok c, [])
      | Ok None =>
        if send_ok then
          let '(res, acks) := wait_for_certificate (pred <$> deadline) timed_out closed l in (res, ack r :: acks)
        else (Err send_error, [])
      end
    end
  end.

(** The body of a watch: every certificate goes to [on_update], then the
    response is acknowledged.  [S] is what the callback changes. *)
Context {S : Type} (on_update : SdsCertificate → S → result unit string * S).

Fixpoint watch_loop (closed : string) (l : list (Recv R)) (s : S) : string * list Q * S :=
  match l with
  | [] => (closed, [], s)
  | RErr e :: _ => (e, [], s)
  | RMsg r send_ok :: l =>
    match extract r with
    | Err e => (e, [], s)
    | Ok c =>
      let '(u, s) := match c with Some c => on_update c s | None => (Ok tt, s) end in
      match u with
      | Err e => (e, [], s)
      | Ok _ =>
        if send_ok then let '(e, acks, s) := watch_loop closed l s in (e, ack r :: acks, s)
        else (send_error, [], s)
      end
    end
  end.
End loops.

(** A connection attempt: the channel or the call fails, or there is a stream. *)
Definition Session (R : Type) := result (list (Recv R)) string.
(** What the server offers on a connection, by the form of the subscription. *)
Record Remote := mkRemote { sotw : Session DiscoveryResponse; delta : Session DeltaDiscoveryResponse }.

Inductive XdsRequest := SotwRequest (r : DiscoveryRequest) | DeltaRequest (r : DeltaDiscoveryRequest).

Section client.
Context `{PB : Protobuf} (fs : FileSystem) (sub : SdsSubscription).

Definition secs_string (d : Z) : string := dec_string (as_secs d).

Definition fetch_sotw_sds_certificate_update (deadline : option nat) (ses : Session DiscoveryResponse)
    : result SdsCertificate string * list XdsRequest :=
  match ses with
  | Err e => (Err e, [])
  | Ok stream =>
    let '(r, acks) := wait_for_certificate
      (try_extract_certificate_from_sotw_response fs (resource_name sub)) (ack_sotw_request sub) deadline
      ("timed out after " ++ secs_string (timeout sub) ++ "s waiting for SDS resource " ++ quote ++ resource_name sub ++ quote)
      "SDS stream closed before sending the requested Secret" stream in
    (r, map SotwRequest (initial_sotw_request sub :: acks))
  end.

Definition fetch_delta_sds_certificate_update (deadline : option nat) (ses : Session DeltaDiscoveryResponse)
    : result SdsCertificate string * list XdsRequest :=
  match ses with
  | Err e => (Err e, [])
  | Ok stream =>
    let '(r, acks) := wait_for_certificate
      (try_extract_certificate_from_delta_response fs (resource_name sub)) (ack_delta_request sub) deadline
      ("timed out after " ++ secs_string (timeout sub) ++ "s waiting for Delta SDS resource " ++ quote ++ resource_name sub ++ quote)
      "Delta SDS stream closed before sending the requested Secret" stream in
    (r, map DeltaRequest (initial_delta_request sub :: acks))
  end.

Context {S : Type} (on_update : SdsCertificate → S → result unit string * S).

Definition watch_sotw_sds_certificates_once (ses : Session DiscoveryResponse) (s : S)
    : result unit string * list XdsRequest * S :=
  match ses with
  | Err e => (Err e, [], s)
  | Ok stream =>
    let '(e, acks, s) := watch_loop (try_extract_certificate_from_sotw_response fs (resource_name sub))
      (ack_sotw_request sub) on_update "SDS stream closed" stream s in
    (Err e, map SotwRequest (initial_sotw_request sub :: acks), s)
  end.

Definition watch_delta_sds_certificates_once (ses : Session DeltaDiscoveryResponse) (s : S)
    : result unit string * list XdsRequest * S :=
  match ses with
  | Err e => (Err e, [], s)
  | Ok stream =>
    let '(e, acks, s) := watch_loop (try_extract_certificate_from_delta_response fs (resource_name sub))
      (ack_delta_request sub) on_update "Delta SDS stream closed" stream s in
    (Err e, map DeltaRequest (initial_delta_request sub :: acks), s)
  end.

Definition watch_once (remote : Remote) (s : S) : result unit string * list XdsRequest * S :=
  if is_delta (api sub) then watch_delta_sds_certificates_once (delta remote) s
  else watch_sotw_sds_certificates_once (sotw remote) s.

(** The reconnect loop over the connections made so far: the requests of each
    and the seconds slept before the next. *)
Fixpoint watch_sessions (l : list Remote) (s : S) : list (list XdsRequest * Z) * S :=
  match l with
  | [] => ([], s)
  | remote :: l =>
    let '(r, reqs, s) := watch_once remote s in
    let sleep := match r with Err _ => SDS_RECONNECT_DELAY_SECS | Ok _ => 0 end in
    let '(rest, s) := watch_sessions l s in ((reqs, sleep) :: rest, s)
  end.
End client.

Section entry.
Context `{PB : Protobuf} (fs : FileSystem) (env_hostname etc_hostname : option string).

Definition fetch_sds_certificate_update (c : CertificateConfig) (deadline : option nat) (remote : Remote)
    : result SdsCertificate string :=
  do sub <- SdsSubscription_from_config env_hostname etc_hostname c;
  if is_delta (api sub) then (fetch_delta_sds_certificate_update fs sub deadline (delta remote)).1
  else (fetch_sotw_sds_certificate_update fs sub deadline (sotw remote)).1.

Definition fetch_sds_certificate (c : CertificateConfig) (deadline : option nat) (remote : Remote)
    : result (string * string) string :=
  do cert <- fetch_sds_certificate_update c deadline remote;
  Ok (cert_pem cert, key_pem cert).

(** [watch_sds_certificates] over the connections made so far. *)
Definition watch_sds_certificates {S} (c : CertificateConfig)
    (on_update : SdsCertificate → S → result unit string * S) (l : list Remote) (s : S)
    : result (list (list XdsRequest * Z) * S) string :=
  do sub <- SdsSubscription_from_config env_hostname etc_hostname c;
  Ok (watch_sessions fs sub on_update l s).
End entry.

(** ** Lemmas *)

Local Open Scope list_scope.
Local Open Scope Z_scope.

(** Every API talks to the method its path names. *)
Lemma api_path_is_rpc a :
  api_path a = (if is_delta a then stream_delta_resources else stream_resources) (XdsStreamClient_new a).
Proof. by destruct a. Qed.

Lemma api_config_roundtrip c a : sds_api c = Some (api_str a) → XdsStreamApi_from_config c = Ok a.
Proof. unfold XdsStreamApi_from_config. intros ->. by destruct a. Qed.

Lemma str_eqb_neq s t : negb (str_eqb s t) = true ↔ s ≠ t.
Proof. rewrite negb_true_iff, <- not_true_iff_false, str_eqb_eq. done. Qed.
Lemma str_eqb_refl' s t : negb (str_eqb s t) = false ↔ s = t.
Proof. by rewrite negb_false_iff, str_eqb_eq. Qed.

Section extract_spec.
Context `{PB : Protobuf} (fs : FileSystem).

(** A resource the search passes over: of another type, or another secret. *)
Definition passed_over (name : string) (any : Any) : Prop :=
  any_type_url any ≠ SECRET_TYPE_URL ∨
  ∃ s, decode_secret (any_value any) = Ok s ∧ secret_name s ≠ name.

Lemma first_secret_spec name v n l c :
  first_secret fs name v n l = Ok (Some c) ↔
  ∃ l1 any l2 s, l = l1 ++ any :: l2 ∧ Forall (passed_over name) l1 ∧
    any_type_url any = SECRET_TYPE_URL ∧ decode_secret (any_value any) = Ok s ∧ secret_name s = name ∧
    extract_certificate_from_secret fs s = Ok (cert_pem c, key_pem c) ∧ cert_version c = v ∧ cert_nonce c = n.
Proof.
  induction l as [|any l IH]; cbn [first_secret].
  { split; [done|]. intros ([|] & ? & ? & ? & ? & _); done. }
  assert (Hskip : passed_over name any →
    (∃ l1 a l2 s, l = l1 ++ a :: l2 ∧ Forall (passed_over name) l1 ∧
      any_type_url a = SECRET_TYPE_URL ∧ decode_secret (any_value a) = Ok s ∧ secret_name s = name ∧
      extract_certificate_from_secret fs s = Ok (cert_pem c, key_pem c) ∧ cert_version c = v ∧ cert_nonce c = n) ↔
    (∃ l1 a l2 s, any :: l = l1 ++ a :: l2 ∧ Forall (passed_over name) l1 ∧
      any_type_url a = SECRET_TYPE_URL ∧ decode_secret (any_value a) = Ok s ∧ secret_name s = name ∧
      extract_certificate_from_secret fs s = Ok (cert_pem c, key_pem c) ∧ cert_version c = v ∧ cert_nonce c = n)).
  { intros Hp. split.
    - intros (l1 & a & l2 & s & -> & Hf & H). exists (any :: l1), a, l2, s. split; [done|].
      split; [by constructor|done].
    - intros ([|x l1] & a & l2 & s & E & Hf & H1 & H2 & H3 & H).
      + injection E as -> ->. destruct Hp as [Hp|(s' & Hd & Hn)]; [done|congruence].
      + injection E as <- ->. apply list.Forall_cons in Hf as [_ Hf]. by exists l1, a, l2, s. }
  destruct (negb (str_eqb (any_type_url any) SECRET_TYPE_URL)) eqn:Et.
  { apply str_eqb_neq in Et. rewrite IH. apply Hskip. by left. }
  apply str_eqb_refl' in Et. destruct (decode_secret (any_value any)) as [s|e] eqn:Ed; cbn [rbind].
  - destruct (negb (str_eqb (secret_name s) name)) eqn:En.
    { apply str_eqb_neq in En. rewrite IH. apply Hskip. right. eauto. }
    apply str_eqb_refl' in En. split.
    + destruct (extract_certificate_from_secret fs s) as [[p k]|] eqn:Ex; [|done]. intros [= <-].
      by exists [], any, l, s.
    + intros ([|x l1] & a & l2 & s' & E & Hf & _ & Hd & _ & Hx & Hv & Hn).
      * injection E as <- <-. assert (s' = s) as -> by congruence. rewrite Hx. cbn.
        destruct c; cbn in *. by subst.
      * injection E as <- ->. apply list.Forall_cons in Hf as [[Hf|(s1 & H1 & H2)] _]; [done|congruence].
  - split; [done|]. intros ([|x l1] & a & l2 & s & E & Hf & _ & Hd & _).
    + injection E as <- <-. congruence.
    + injection E as <- ->. apply list.Forall_cons in Hf as [[Hf|(s1 & H1 & H2)] _]; [done|congruence].
Qed.
End extract_spec.

Section loop_spec.
Context {R Q : Type} (extract : R → result (option SdsCertificate) string) (ack : R → Q).

Lemma wait_spec deadline t cl l c acks :
  wait_for_certificate extract ack deadline t cl l = (Ok c, acks) ↔
  ∃ pre r b post, l = map (λ q, RMsg q true) pre ++ RMsg r b :: post ∧
    Forall (λ q, extract q = Ok None) pre ∧ extract r = Ok (Some c) ∧
    match deadline with Some d => (List.length pre < d)%nat | None => True end ∧ acks = map ack pre.
Proof.
  split.
  - revert deadline acks. induction l as [|x l IH]; intros deadline acks; cbn [wait_for_certificate].
    { by destruct deadline as [[|d]|]. }
    destruct deadline as [[|d]|]; [done|..];
      (destruct x as [r b|e]; [|done]); (destruct (extract r) as [[c'|]|e] eqn:E; [|destruct b; [|done]|done]);
      try (intros [= -> <-]; exists [], r, b, l; cbn; split_and!; auto; lia);
      (destruct (wait_for_certificate _ _ _ _ _ l) as [res acks'] eqn:Ew; intros [= -> <-];
       destruct (IH _ _ Ew) as (pre & q & b & post & -> & Hf & Hq & Hd & ->); cbn in Hd;
       exists (r :: pre), q, b, post; cbn; split_and!; auto; lia).
  - intros (pre & r & b & post & -> & Hf & Hr & Hd & ->). revert deadline Hd.
    induction Hf as [|q pre Hq Hf IH]; intros deadline Hd; cbn [map app wait_for_certificate].
    + destruct deadline as [[|d]|]; [cbn in Hd; lia|by rewrite Hr..].
    + cbn in Hd. destruct deadline as [[|d]|]; [lia|..]; rewrite Hq; rewrite IH by (cbn; lia || done); done.
Qed.

Context {S : Type} (on_update : SdsCertificate → S → result unit string * S).

(** Applying the certificates of a run of responses, all of them successfully. *)
Inductive applied : list R → S → S → Prop :=
| applied_nil s : applied [] s s
| applied_none r rs s s' : extract r = Ok None → applied rs s s' → applied (r :: rs) s s'
| applied_some r c rs s s1 s' :
    extract r = Ok (Some c) → on_update c s = (Ok tt, s1) → applied rs s1 s' → applied (r :: rs) s s'.

Lemma watch_loop_spec cl l s e acks s' :
  watch_loop extract ack on_update cl l s = (e, acks, s') →
  ∃ pre tail s1, l = map (λ q, RMsg q true) pre ++ tail ∧ acks = map ack pre ∧ applied pre s s1 ∧
    (s' = s1 ∨ ∃ r b post c, tail = RMsg r b :: post ∧ extract r = Ok (Some c) ∧ s' = (on_update c s1).2 ∧
       ((on_update c s1).1 ≠ Ok tt ∨ b = false)).
Proof.
  revert s acks. induction l as [|x l IH]; intros s acks; cbn [watch_loop].
  { intros [= <- <- <-]. exists [], [], s. split_and!; auto; constructor. }
  destruct x as [r b|er]; [|intros [= <- <- <-]; exists [], (RErr er :: l), s; split_and!; auto; constructor].
  destruct (extract r) as [[c|]|er] eqn:E.
  - destruct (on_update c s) as [[[]|er] s1] eqn:Eu; [destruct b|].
    + destruct (watch_loop _ _ _ _ l s1) as [[e' a'] s2] eqn:Ew. intros [= -> <- ->].
      destruct (IH _ _ Ew) as (pre & tail & s3 & -> & -> & Ha & Hs). exists (r :: pre), tail, s3.
      split_and!; [done|done|by econstructor|done].
    + intros [= <- <- <-]. exists [], (RMsg r false :: l), s. split_and!; [done|done|constructor|].
      right. exists r, false, l, c. rewrite Eu. auto.
    + intros [= <- <- <-]. exists [], (RMsg r b :: l), s. split_and!; [done|done|constructor|].
      right. exists r, b, l, c. rewrite Eu. cbn. split_and!; [done..|]. by left.
  - destruct b.
    + destruct (watch_loop _ _ _ _ l s) as [[e' a'] s2] eqn:Ew. intros [= -> <- ->].
      destruct (IH _ _ Ew) as (pre & tail & s3 & -> & -> & Ha & Hs). exists (r :: pre), tail, s3.
      split_and!; [done|done|by econstructor|done].
    + intros [= <- <- <-]. exists [], (RMsg r false :: l), s. split_and!; auto; constructor.
  - intros [= <- <- <-]. exists [], (RMsg r b :: l), s. split_and!; auto; constructor.
Qed.
End loop_spec.

Lemma watch_once_err `{PB : Protobuf} fs sub {S} (on_update : SdsCertificate → S → result unit string * S) remote s :
  ∃ e reqs s', watch_once fs sub on_update remote s = (Err e, reqs, s').
Proof.
  unfold watch_once, watch_delta_sds_certificates_once, watch_sotw_sds_certificates_once.
  destruct (is_delta (api sub)); [destruct (delta remote)|destruct (sotw remote)]; try (by eexists _, _, _);
    destruct (watch_loop _ _ _ _ _ _) as [[? ?] ?]; by eexists _, _, _.
Qed.

(** ** Properties *)

(** C40. A state-of-the-world fetch yields a certificate exactly when the stream
    carries one in time: some response has, as the first resource that is the
    requested secret, a certificate with readable chain and key, the responses
    before it had none, and each of those was acknowledged, in order, with its
    version and nonce; nothing else is sent. *)
Theorem sds_fetch_exact `{PB : Protobuf} fs sub deadline stream c reqs :
  fetch_sotw_sds_certificate_update fs sub deadline (Ok stream) = (Ok c, reqs) ↔
  ∃ pre r b post l1 any l2 s,
    stream = map (λ q, RMsg q true) pre ++ RMsg r b :: post ∧
    Forall (λ q, try_extract_certificate_from_sotw_response fs (resource_name sub) q = Ok None) pre ∧
    match deadline with Some d => (List.length pre < d)%nat | None => True end ∧
    type_url r = SECRET_TYPE_URL ∧ resources r = l1 ++ any :: l2 ∧ Forall (passed_over (resource_name sub)) l1 ∧
    any_type_url any = SECRET_TYPE_URL ∧ decode_secret (any_value any) = Ok s ∧
    secret_name s = resource_name sub ∧
    extract_certificate_from_secret fs s = Ok (cert_pem c, key_pem c) ∧
    cert_version c = version_info r ∧ cert_nonce c = nonce r ∧
    reqs = SotwRequest (initial_sotw_request sub) ::
           map (λ q, SotwRequest (mkDiscoveryRequest (version_info q) (Some (sub_node sub)) [resource_name sub]
                                    SECRET_TYPE_URL (nonce q))) pre.
Proof.
  unfold fetch_sotw_sds_certificate_update.
  destruct (wait_for_certificate _ _ _ _ _ stream) as [res acks] eqn:Ew.
  assert (Hx : ∀ r, try_extract_certificate_from_sotw_response fs (resource_name sub) r = Ok (Some c) ↔
    type_url r = SECRET_TYPE_URL ∧
    first_secret fs (resource_name sub) (version_info r) (nonce r) (resources r) = Ok (Some c)).
  { intros r. unfold try_extract_certificate_from_sotw_response.
    destruct (negb (str_eqb (type_url r) SECRET_TYPE_URL)) eqn:E;
      [apply str_eqb_neq in E|apply str_eqb_refl' in E]; naive_solver. }
  split.
  - intros [= -> <-]. apply wait_spec in Ew as (pre & r & b & post & -> & Hf & Hr & Hd & ->).
    apply Hx in Hr as [Ht (l1 & any & l2 & s & Hl & Hp & H)%first_secret_spec].
    exists pre, r, b, post, l1, any, l2, s. destruct H as (? & ? & ? & ? & ? & ?).
    split_and!; try done. cbn [map]. by rewrite map_map.
  - intros (pre & r & b & post & l1 & any & l2 & s & Hst & Hf & Hd & Ht & Hl & Hp & H1 & H2 & H3 & H4 & H5 & H6 & ->).
    assert (Hr : try_extract_certificate_from_sotw_response fs (resource_name sub) r = Ok (Some c)).
    { apply Hx. split; [done|]. apply first_secret_spec. by exists l1, any, l2, s. }
    pose proof (proj2 (wait_spec (try_extract_certificate_from_sotw_response fs (resource_name sub))
      (ack_sotw_request sub) deadline
      ("timed out after " ++ secs_string (timeout sub) ++ "s waiting for SDS resource " ++ quote ++ resource_name sub ++ quote)%string
      "SDS stream closed before sending the requested Secret" stream c (map (ack_sotw_request sub) pre))) as Hw.
    rewrite Ew in Hw. injection (Hw ltac:(by exists pre, r, b, post)) as -> ->. cbn [map]. by rewrite map_map.
Qed.

(** C36. A watch acknowledges a response only after its certificate has been
    applied, in the order received: the acknowledgements are those of a run of
    responses whose updates all succeeded, and at most one more update was
    tried, whose failure, or a closed channel, ended the stream without an
    acknowledgement.  Every stream ends in an error, so every reconnect waits. *)
Theorem sds_watch_applies_before_ack `{PB : Protobuf} {S} fs sub
    (on_update : SdsCertificate → S → result unit string * S) (stream : list (Recv DiscoveryResponse)) s r reqs s' :
  is_delta (api sub) = false →
  watch_once fs sub on_update (mkRemote (Ok stream) (Err "")) s = (r, reqs, s') →
  (∃ e, r = Err e) ∧
  ∃ pre tail s1,
    stream = map (λ q, RMsg q true) pre ++ tail ∧
    reqs = map SotwRequest (initial_sotw_request sub :: map (ack_sotw_request sub) pre) ∧
    applied (try_extract_certificate_from_sotw_response fs (resource_name sub)) on_update pre s s1 ∧
    (s' = s1 ∨ ∃ q b post c, tail = RMsg q b :: post ∧
       try_extract_certificate_from_sotw_response fs (resource_name sub) q = Ok (Some c) ∧
       s' = (on_update c s1).2 ∧ ((on_update c s1).1 ≠ Ok tt ∨ b = false)).
Proof.
  intros Hd. unfold watch_once, watch_sotw_sds_certificates_once. rewrite Hd. cbn [sotw].
  destruct (watch_loop _ _ _ _ stream s) as [[e acks] s2] eqn:Ew. intros [= <- <- <-].
  split; [by eexists|]. apply watch_loop_spec in Ew as (pre & tail & s1 & -> & -> & Ha & Hs).
  by exists pre, tail, s1.
Qed.

(** A decoder for the examples: the payload is one byte, the number of a
    secret whose chain names it. *)
Definition toy_protobuf : Protobuf := {|
  decode_secret b := match b with
    | [n] => Ok (mkSecret "turn-cert" (Some (mkTlsCertificate
               (Some (mkDataSource (Some (InlineString (dec_string n)))))
               (Some (mkDataSource (Some (InlineString "key")))))))
    | _ => Err "invalid"
    end |}.

Definition sample_sub : SdsSubscription := mkSub "http://sds" Ads "turn-cert" (mkNode "n" "") 0.
Definition sample_response (n : Z) : DiscoveryResponse :=
  mkDiscoveryResponse (dec_string n) [mkAny SECRET_TYPE_URL [n]] SECRET_TYPE_URL "x".
(** Keeps the chains it is given and refuses the chain "3". *)
Definition sample_update (c : SdsCertificate) (s : list string) : result unit string * list string :=
  if str_eqb (cert_pem c) "3" then (Err "refused", s) else (Ok tt, s ++ [cert_pem c]).

Lemma sds_watch_applies_before_ack_witness :
  let stream := [RMsg (sample_response 1) true; RMsg (sample_response 2) true; RMsg (sample_response 3) true] in
  ∃ e, @watch_once toy_protobuf ∅ sample_sub _ sample_update (mkRemote (Ok stream) (Err "")) [] =
    (Err e, map SotwRequest (initial_sotw_request sample_sub ::
       map (ack_sotw_request sample_sub) [sample_response 1; sample_response 2]), ["1"%string; "2"%string]) ∧
    ∃ pre tail, stream = map (λ q, RMsg q true) pre ++ tail ∧
      map SotwRequest (initial_sotw_request sample_sub ::
        map (ack_sotw_request sample_sub) [sample_response 1; sample_response 2]) =
      map SotwRequest (initial_sotw_request sample_sub :: map (ack_sotw_request sample_sub) pre).
Proof.
  intros stream. eexists.
  assert (E : @watch_once toy_protobuf ∅ sample_sub _ sample_update (mkRemote (Ok stream) (Err "")) [] =
    (Err "refused", map SotwRequest (initial_sotw_request sample_sub ::
       map (ack_sotw_request sample_sub) [sample_response 1; sample_response 2]), ["1"%string; "2"%string]))
    by (vm_compute; reflexivity).
  split; [exact E|].
  destruct (@sds_watch_applies_before_ack toy_protobuf _ ∅ sample_sub sample_update stream [] _ _ _ eq_refl E)
    as (_ & pre & tail & s1 & H1 & H2 & _). exists pre, tail. split; [exact H1|exact H2].
Defined.
