(* ===== verification/Tls.v ===== *)
(** * TLS and DTLS certificates (src/tls.rs)

    Loading certificates from files, from the ACME protocol with its cache, or
    from SDS with its cache, and the resolver whose certificate changes while
    the server runs.  PEM, DER, X.509, rustls, the DTLS crate and the ACME
    client are third-party: the parameters of [Pki] and the answers recorded in
    [TlsEnv].  Effects run in a state and error monad over the file system and
    the registry of watchers. *)

From S2P Require Import Prelude RustStd RustText Config Sds.
From Stdlib Require Import Ascii String.
Local Open Scope string_scope.
Local Open Scope Z_scope.

(** ** Third-party parameters *)

Inductive PrivateKeyKind := Pkcs1 | Pkcs8 | Sec1.
Inductive CryptoPrivateKeyKind := Ed25519 | Ecdsa256 | Rsa256.
Record DtlsCertificate := mkDtlsCert { dtls_chain : list (list Z); dtls_kind : CryptoPrivateKeyKind }.

#[global] Instance PrivateKeyKind_eq_dec : EqDecision PrivateKeyKind.
Proof. solve_decision. Defined.

Class Pki := {
  (** [pem::parse_many]: tags and contents *)
  pem_parse_many : list Z → result (list (string * list Z)) string;
  (** [pem::encode] *)
  pem_encode : string → list Z → string;
  (** [PrivateKeyDer::try_from] *)
  private_key_der_kind : list Z → result PrivateKeyKind string;
  (** [P256SecretKey::from_sec1_der] then [to_pkcs8_der] *)
  p256_sec1_to_pkcs8 : list Z → result (list Z) string;
  (** the [not_after] of a certificate, from [parse_x509_certificate] *)
  x509_not_after : list Z → result Z string;
  (** [with_single_cert] and [CertifiedKey::from_der]: does the key fit? *)
  single_cert_ok : list (list Z) → PrivateKeyKind → list Z → result unit string;
  certified_key_ok : list (list Z) → PrivateKeyKind → list Z → result unit string;
  (** [DtlsCertificate::from_pem] and [generate_self_signed] *)
  dtls_from_pem : string → result DtlsCertificate string;
  dtls_self_signed : list string → result DtlsCertificate string;
  (** rcgen's self-signed certificate and key *)
  rcgen_self_signed : string → result (list Z * list Z) string;
  (** [LetsEncrypt::Production.url()] and [LetsEncrypt::Staging.url()] *)
  letsencrypt_url : bool → string
}.

(** ** State and effects *)

Record TlsWorld := mkTlsWorld { tw_fs : FileSystem; tw_watchers : gset string }.

Definition IO (A : Type) : Type := TlsWorld → result A string * TlsWorld.
Definition io_ret {A} (a : A) : IO A := λ w, (Ok a, w).
Definition io_err {A} (e : string) : IO A := λ w, (Err e, w).
Definition io_lift {A} (r : result A string) : IO A := λ w, (r, w).
Definition io_bind {A B} (m : IO A) (f : A → IO B) : IO B :=
  λ w, match m w with (Ok a, w) => f a w | (Err e, w) => (Err e, w) end.
Notation "'let*' x := m 'in' k" := (io_bind m (λ x, k))
  (at level 10, x pattern, m at level 100, k at level 200).

Definition io_exists (path : string) : IO bool := λ w, (Ok (bool_decide (is_Some (tw_fs w !! path))), w).
Definition io_read (path : string) : IO (list Z) := λ w, (ok_or (tw_fs w !! path) read_error, w).
Definition write_error : string := "write failed".
Definition io_write (io : WriteIo) (path : string) (data : list Z) : IO unit := λ w,
  let '(ok, fs) := fs_write io path data (tw_fs w) in
  ((if ok then Ok tt else Err write_error), mkTlsWorld fs (tw_watchers w)).
Definition io_read_string (path : string) : IO string :=
  let* b := io_read path in io_lift (ok_or (from_utf8 b) utf8_error).

(** ** PEM *)

Record TlsConfig := mkTls {
  cert_der : list Z;
  cert_chain_der : list (list Z);
  key_der : list Z;
  key_kind : PrivateKeyKind
}.

Section pem.
Context `{PK : Pki}.

Definition parse_certificate_chain (pem : list Z) : result (list (list Z)) string :=
  do blocks <- pem_parse_many pem;
  let certs := map snd (List.filter (λ b, str_eqb (fst b) "CERTIFICATE") blocks) in
  match certs with
  | [] => Err "no CERTIFICATE blocks found in certificate PEM"
  | _ => Ok certs
  end.

(** The first block whose DER is a private key. *)
Fixpoint find_private_key (blocks : list (string * list Z)) (errors : list string)
    : result (list Z * PrivateKeyKind) string :=
  match blocks with
  | [] => Err ("no supported private key block found in key PEM; tried DER auto-detection (" ++ join "; " errors ++ ")")
  | (tag, der) :: blocks =>
    match private_key_der_kind der with
    | Ok kind => Ok (der, kind)
    | Err e => find_private_key blocks (errors ++ [(tag ++ ": " ++ e)%string])%list
    end
  end.
Definition parse_private_key (pem : list Z) : result (list Z * PrivateKeyKind) string :=
  do blocks <- pem_parse_many pem; find_private_key blocks [].

Definition from_pem (cert key : list Z) : result TlsConfig string :=
  do chain <- parse_certificate_chain cert;
  do k <- parse_private_key key;
  do leaf <- ok_or (head chain) "certificate chain is empty";
  Ok (mkTls leaf chain k.1 k.2).

Definition from_files (cert_path key_path : string) : IO TlsConfig :=
  let* cert := io_read cert_path in
  let* key := io_read key_path in
  io_lift (from_pem cert key).

Definition generate_self_signed (domain : string) : result TlsConfig string :=
  do p <- rcgen_self_signed domain;
  Ok (mkTls p.1 [p.1] p.2 Pkcs8).
Definition default_test_tls_config : result TlsConfig string := generate_self_signed "localhost".

(** A rustls key with its chain; a fixed server configuration has one. *)
Record CertifiedKey := mkCertified { ck_chain : list (list Z); ck_kind : PrivateKeyKind; ck_key : list Z }.

Definition into_server_config (c : TlsConfig) : result CertifiedKey string :=
  do _ <- single_cert_ok (cert_chain_der c) (key_kind c) (key_der c);
  Ok (mkCertified (cert_chain_der c) (key_kind c) (key_der c)).
Definition into_certified_key (c : TlsConfig) : result CertifiedKey string :=
  do _ <- certified_key_ok (cert_chain_der c) (key_kind c) (key_der c);
  Ok (mkCertified (cert_chain_der c) (key_kind c) (key_der c)).

(** [DynamicCertResolver]: the certificate handshakes get. *)
Definition update_from_pem (cert key : string) (resolver : CertifiedKey) : result unit string * CertifiedKey :=
  match (do c <- from_pem (str_bytes cert) (str_bytes key); into_certified_key c) with
  | Ok ck => (Ok tt, ck)
  | Err e => (Err e, resolver)
  end.

(** ** DTLS keys *)

Definition parse_dtls_pkcs8_private_key_der (der : list Z) : result (list Z) string :=
  do kind <- private_key_der_kind der;
  match kind with Pkcs8 => Ok der | _ => Err "private key DER is not PKCS#8" end.
Definition parse_dtls_p256_sec1_private_key_der (der : list Z) : result (list Z) string := p256_sec1_to_pkcs8 der.
Definition encode_dtls_private_key_pem (der : list Z) : string := pem_encode "PRIVATE_KEY" der.

Fixpoint find_dtls_key (blocks : list (string * list Z)) (errors : list string) : result string string :=
  match blocks with
  | [] => Err ("no supported DTLS private key block found; tried PKCS#8 and P-256 SEC1 (" ++ join "; " errors ++ ")")
  | (tag, der) :: blocks =>
    match parse_dtls_pkcs8_private_key_der der with
    | Ok k => Ok (encode_dtls_private_key_pem k)
    | Err e1 =>
      match parse_dtls_p256_sec1_private_key_der der with
      | Ok k => Ok (encode_dtls_private_key_pem k)
      | Err e2 => find_dtls_key blocks (errors ++ [(tag ++ " as PKCS#8: " ++ e1)%string; (tag ++ " as P-256 SEC1: " ++ e2)%string])%list
      end
    end
  end.
Definition normalize_dtls_private_key_pem (pem : list Z) : result string string :=
  do blocks <- pem_parse_many pem; find_dtls_key blocks [].

Definition dtls_certificate_from_pem (cert key : string) : result DtlsCertificate string :=
  do key <- normalize_dtls_private_key_pem (str_bytes key);
  do c <- dtls_from_pem (trim key ++ String "010"%char "" ++ trim cert);
  match dtls_kind c with
  | Rsa256 => Err ("DTLS does not support RSA private keys with the current dtls crate; " ++
                   "use ECDSA P-256 or Ed25519, or allow the self-signed DTLS fallback")
  | _ => Ok c
  end.

Definition default_self_signed_dtls_config (c : CertificateConfig) : result (list DtlsCertificate) string :=
  let ds := match domains c with [] => ["localhost"] | ds => ds end in
  do cert <- dtls_self_signed ds; Ok [cert].
End pem.

(** The HTTP-01 tokens with their key authorisations. *)
Abbreviation ChallengeStore := (gmap string string).

(** ** The cache *)

Definition DEFAULT_CACHE_DIR : string := "./cert-cache".
Definition DEFAULT_HTTP01_ADDRESS : string := "0.0.0.0:80".
Definition DEFAULT_RENEW_BEFORE_DAYS : Z := 30.

(** One character at a time: a sequence of bytes of one non-ASCII character
    gives one underscore. *)
Definition sanitize_char (c : ascii) : string :=
  let b := ascii_Z c in
  if ((48 <=? b) && (b <=? 57)) || ((65 <=? b) && (b <=? 90)) || ((97 <=? b) && (b <=? 122)) ||
     (b =? 46) || (b =? 45) then String c ""
  else if utf8_cont b then "" else "_".
Fixpoint sanitize_filename (s : string) : string :=
  match s with EmptyString => "" | String c s => sanitize_char c ++ sanitize_filename s end.

Definition cache_prefix (env : string) (ds : list string) : string :=
  "letsencrypt-" ++ env ++ "-" ++ join "-" (map sanitize_filename ds).

(** [Path::join] of a relative name *)
Fixpoint ends_with_slash (s : string) : bool :=
  match s with
  | EmptyString => false
  | String c EmptyString => if ascii_dec c "/"%char then true else false
  | String _ s => ends_with_slash s
  end.
Definition path_join (dir name : string) : string :=
  if str_eqb dir "" || ends_with_slash dir then dir ++ name else dir ++ "/" ++ name.

Definition as_i64 (x : Z) : Z := let y := as_u64 x in if y <? 2 ^ 63 then y else y - 2 ^ 64.
Definition i64_saturating_sub (x y : Z) : Z := Z.max (- 2 ^ 63) (Z.min (2 ^ 63 - 1) (x - y)).

Section cache.
Context `{PK : Pki}.

Definition renew_at (not_after days : Z) : Z :=
  i64_saturating_sub not_after (as_i64 (saturating_mul U64_MAX days 86400)).

(** [unix] is the time in seconds the check reads. *)
Definition cached_certificate_is_usable (unix : Z) (cert_path key_path : string) (days : Z) : IO bool :=
  let* e1 := io_exists cert_path in
  let* e2 := (if negb e1 then io_ret false else io_exists key_path) in
  if negb e1 || negb e2 then io_ret false else
  let* data := io_read cert_path in
  let* certs := io_lift (parse_certificate_chain data) in
  let* leaf := io_lift (ok_or (head certs) "certificate chain is empty") in
  let* not_after := io_lift (x509_not_after leaf) in
  io_ret (as_i64 unix <? renew_at not_after days).

Definition write_cached_certificate (io1 io2 : WriteIo) (cert_path key_path cert key : string) : IO unit :=
  let* _ := io_write io1 cert_path (str_bytes cert) in
  io_write io2 key_path (str_bytes key).

Definition read_cached (cert_path key_path : string) : IO (string * string) :=
  let* cert := io_read_string cert_path in
  let* key := io_read_string key_path in
  io_ret (cert, key).

(** The paths a set of names is cached under. *)
Definition cache_paths (dir prefix : string) : string * string :=
  (path_join dir (prefix ++ ".fullchain.pem"), path_join dir (prefix ++ ".privkey.pem")).

(** ** SDS certificates *)

(** What a load reads from outside. *)
Record TlsEnv := mkTlsEnv {
  te_unix : Z;
  te_mkdir : result unit string;
  te_write_cert : WriteIo;
  te_write_key : WriteIo;
  te_fetch : result (string * string) string
}.

Definition sds_cache_paths (env : TlsEnv) (c : CertificateConfig) : result (string * (string * string) * Z) string :=
  do name <- ok_or (sds_resource_name c) ("certificates.sds_resource_name is required for source=" ++ quote ++ "sds" ++ quote);
  let dir := default DEFAULT_CACHE_DIR (cache_dir c) in
  let days := default DEFAULT_RENEW_BEFORE_DAYS (renew_before_days c) in
  do _ <- te_mkdir env;
  Ok (name, cache_paths dir (cache_prefix "sds" [name]), days).

Definition load_sds_certificate (env : TlsEnv) (c : CertificateConfig) : IO (string * string) :=
  let* (name, (cp, kp), days) := io_lift (sds_cache_paths env c) in
  match te_fetch env with
  | Ok (cert, key) =>
    let* _ := io_lift (from_pem (str_bytes cert) (str_bytes key)) in
    let* _ := write_cached_certificate (te_write_cert env) (te_write_key env) cp kp cert key in
    io_ret (cert, key)
  | Err e =>
    let* usable := cached_certificate_is_usable (te_unix env) cp kp days in
    if usable then read_cached cp kp
    else io_err ("failed to fetch SDS certificate for resource " ++ quote ++ name ++ quote ++
                 " and no usable cache was found: " ++ e)
  end.

Definition sds_watcher_key (c : CertificateConfig) : result string string :=
  do addr <- ok_or (sds_address c) ("certificates.sds_address is required for source=" ++ quote ++ "sds" ++ quote);
  do name <- ok_or (sds_resource_name c) ("certificates.sds_resource_name is required for source=" ++ quote ++ "sds" ++ quote);
  Ok (addr ++ "|" ++ name).

Definition register_sds_watcher (key : string) : IO bool := λ w,
  (Ok (bool_decide (key ∉ tw_watchers w)), mkTlsWorld (tw_fs w) ({[key]} ∪ tw_watchers w)).

(** The two watchers' callbacks, on the resolver and the world; [io] is how the
    two writes of the cache go. *)
Definition tls_on_update (io : SdsCertificate → WriteIo * WriteIo) (cp kp : string) (c : SdsCertificate)
    (s : CertifiedKey * TlsWorld) : result unit string * (CertifiedKey * TlsWorld) :=
  let '(resolver, w) := s in
  match update_from_pem (Sds.cert_pem c) (Sds.key_pem c) resolver with
  | (Err e, resolver) => (Err e, (resolver, w))
  | (Ok _, resolver) =>
    let '(r, w) := write_cached_certificate (io c).1 (io c).2 cp kp (Sds.cert_pem c) (Sds.key_pem c) w in
    (r, (resolver, w))
  end.

Definition cache_on_update (io : SdsCertificate → WriteIo * WriteIo) (cp kp : string) (c : SdsCertificate)
    (w : TlsWorld) : result unit string * TlsWorld :=
  match from_pem (str_bytes (Sds.cert_pem c)) (str_bytes (Sds.key_pem c)) with
  | Err e => (Err e, w)
  | Ok _ => write_cached_certificate (io c).1 (io c).2 cp kp (Sds.cert_pem c) (Sds.key_pem c) w
  end.

(** Whether a watcher task is spawned, and the paths its callback writes. *)
Definition start_sds_watcher (env : TlsEnv) (c : CertificateConfig) : IO (option (string * string)) :=
  let* key := io_lift (sds_watcher_key c) in
  let* fresh := register_sds_watcher key in
  if negb fresh then io_ret None else
  let* (_, paths, _) := io_lift (sds_cache_paths env c) in
  io_ret (Some paths).
Definition start_sds_tls_watcher := start_sds_watcher.
Definition start_sds_cache_watcher := start_sds_watcher.

(** ** ACME *)

Inductive AuthorizationStatus := APending | AValid | AInvalid | ARevoked | AExpired | ADeactivated.
Inductive OrderStatus := OPending | OReady | OProcessing | OValid | OInvalid.
Definition authorization_status_debug (s : AuthorizationStatus) : string :=
  match s with APending => "Pending" | AValid => "Valid" | AInvalid => "Invalid" | ARevoked => "Revoked"
             | AExpired => "Expired" | ADeactivated => "Deactivated" end.
Definition order_status_debug (s : OrderStatus) : string :=
  match s with OPending => "Pending" | OReady => "Ready" | OProcessing => "Processing" | OValid => "Valid"
             | OInvalid => "Invalid" end.

(** One authorisation of an order: its status, its HTTP-01 challenge (token
    and key authorisation) and the answer of [set_ready]. *)
Record Authz := mkAuthz {
  authz_status : AuthorizationStatus;
  challenge : option (string * string);
  set_ready : result unit string
}.
Record Order := mkOrder {
  authorizations : list (result Authz string);
  poll_ready : result OrderStatus string;
  finalize : result string string;
  poll_certificate : result string string
}.

(** The loop over the authorisations.  The trace has, for every [set_ready],
    the token and the store as the challenge server then sees it. *)
Fixpoint answer_challenges (l : list (result Authz string)) (store : ChallengeStore)
    : result unit string * list (string * ChallengeStore) * ChallengeStore :=
  match l with
  | [] => (Ok tt, [], store)
  | Err e :: _ => (Err e, [], store)
  | Ok a :: l =>
    match authz_status a with
    | AValid => answer_challenges l store
    | APending =>
      match challenge a with
      | None => (Err "no http-01 challenge found", [], store)
      | Some (token, key_authorization) =>
        let store := <[token := key_authorization]> store in
        match set_ready a with
        | Err e => (Err e, [(token, store)], store)
        | Ok _ => let '(r, tr, s) := answer_challenges l store in (r, (token, store) :: tr, s)
        end
      end
    | s => (Err ("unexpected authorization status: " ++ authorization_status_debug s), [], store)
    end
  end.

(** Gives the private key and the chain. *)
Definition complete_http01_order (o : Order) (store : ChallengeStore)
    : result (string * string) string * list (string * ChallengeStore) * ChallengeStore :=
  let '(r, tr, store) := answer_challenges (authorizations o) store in
  (do _ <- r;
   do status <- poll_ready o;
   match status with
   | OReady => do key <- finalize o; do chain <- poll_certificate o; Ok (key, chain)
   | s => Err ("unexpected order status after HTTP-01: " ++ order_status_debug s)
   end, tr, store).

(** Status and body. *)
Definition http01_challenge_handler (store : ChallengeStore) (token : string) : Z * string :=
  match store !! token with Some v => (200, v) | None => (404, "challenge token not found") end.

Definition letsencrypt_directory_url (env : string) : result string string :=
  if str_eqb env "production" then Ok (letsencrypt_url true)
  else if str_eqb env "staging" then Ok (letsencrypt_url false)
  else Err ("unsupported certificates.environment " ++ quote ++ env ++ quote ++ "; expected " ++ quote ++
            "production" ++ quote ++ " or " ++ quote ++ "staging" ++ quote).

(** The ACME account: [ae_from_credentials] restores one from the stored
    credentials, [ae_create] registers a new one and gives its credentials. *)
Record AcmeEnv := mkAcmeEnv {
  ae_from_credentials : list Z → result unit string;
  ae_create : list string → string → result (list Z) string;
  ae_write_account : WriteIo;
  ae_new_order : list string → result Order string;
  ae_bind : SocketAddr → result unit string
}.

Definition load_or_create_account (ae : AcmeEnv) (c : CertificateConfig) (dir env url : string) : IO unit :=
  let path := path_join dir ("account-" ++ env ++ ".json") in
  let* e := io_exists path in
  if e then let* creds := io_read path in io_lift (ae_from_credentials ae creds)
  else
    let contacts := match email c with Some m => ["mailto:" ++ m] | None => [] end in
    let* creds := io_lift (ae_create ae contacts url) in
    io_write (ae_write_account ae) path creds.

(** The challenge server: once its address is bound it answers
    [http01_challenge_handler] from the store it shares with the order, until
    the sender it returned is used. *)
Definition start_http01_server (ae : AcmeEnv) (addr : SocketAddr) : IO unit := io_lift (ae_bind ae addr).

Definition provision_letsencrypt (te : TlsEnv) (ae : AcmeEnv) (c : CertificateConfig) : IO (string * string) :=
  if bool_decide (domains c = []) then io_err "certificates.domains must contain at least one domain" else
  let env := default "staging" (environment c) in
  let dir := default DEFAULT_CACHE_DIR (cache_dir c) in
  let days := default DEFAULT_RENEW_BEFORE_DAYS (renew_before_days c) in
  let* _ := io_lift (te_mkdir te) in
  let '(cp, kp) := cache_paths dir (cache_prefix env (domains c)) in
  let* usable := cached_certificate_is_usable (te_unix te) cp kp days in
  if usable then read_cached cp kp else
  let* url := io_lift (letsencrypt_directory_url env) in
  let* _ := load_or_create_account ae c dir env url in
  let* order := io_lift (ae_new_order ae (domains c)) in
  let* addr := io_lift (ok_or (parse_socket_addr (default DEFAULT_HTTP01_ADDRESS (http01_address c)))
                              "invalid socket address syntax") in
  let* _ := start_http01_server ae addr in
  let* (key, chain) := io_lift (complete_http01_order order ∅).1.1 in
  let* _ := io_write (te_write_cert te) cp (str_bytes chain) in
  let* _ := io_write (te_write_key te) kp (str_bytes key) in
  io_ret (chain, key).

(** ** Loading *)

Definition load_certificate_pem (te : TlsEnv) (ae : AcmeEnv) (c : CertificateConfig) : IO (string * string) :=
  if str_eqb (source c) "local" then
    let* cp := io_lift (ok_or (cert_path c) ("certificates.cert_path is required for source=" ++ quote ++ "local" ++ quote)) in
    let* kp := io_lift (ok_or (key_path c) ("certificates.key_path is required for source=" ++ quote ++ "local" ++ quote)) in
    read_cached cp kp
  else if str_eqb (source c) "letsencrypt" then provision_letsencrypt te ae c
  else if str_eqb (source c) "sds" then load_sds_certificate te c
  else io_err ("unsupported certificates.source " ++ quote ++ source c ++ quote ++ "; expected " ++ quote ++ "local" ++
               quote ++ ", " ++ quote ++ "letsencrypt" ++ quote ++ ", or " ++ quote ++ "sds" ++ quote).

(** A TLS configuration is one certificate, or a resolver with the paths its
    watcher writes, if one was started. *)
Inductive TlsServerConfig :=
| FixedCert (ck : CertifiedKey)
| DynamicCert (resolver : CertifiedKey) (watcher : option (string * string)).

Definition load_dynamic_sds_certificate_config (te : TlsEnv) (c : CertificateConfig) : IO TlsServerConfig :=
  let* (cert, key) := load_sds_certificate te c in
  let* t := io_lift (from_pem (str_bytes cert) (str_bytes key)) in
  let* ck := io_lift (into_certified_key t) in
  let* watcher := start_sds_tls_watcher te c in
  io_ret (DynamicCert ck watcher).

Definition load_certificate_config (te : TlsEnv) (ae : AcmeEnv) (c : CertificateConfig) : IO TlsServerConfig :=
  if str_eqb (source c) "sds" then load_dynamic_sds_certificate_config te c else
  let* (cert, key) := load_certificate_pem te ae c in
  let* t := io_lift (from_pem (str_bytes cert) (str_bytes key)) in
  let* ck := io_lift (into_server_config t) in
  io_ret (FixedCert ck).

Definition load_dtls_certificate_config_inner (te : TlsEnv) (ae : AcmeEnv) (c : CertificateConfig)
    : IO (list DtlsCertificate) :=
  let* (cert, key) := load_certificate_pem te ae c in
  let* certificate := io_lift (dtls_certificate_from_pem cert key) in
  let* _ := (if str_eqb (source c) "sds" then start_sds_cache_watcher te c else io_ret None) in
  io_ret [certificate].

Definition load_dtls_certificate_config (te : TlsEnv) (ae : AcmeEnv) (c : CertificateConfig)
    : IO (list DtlsCertificate) := λ w,
  match load_dtls_certificate_config_inner te ae c w with
  | (Ok cfg, w) => (Ok cfg, w)
  | (Err _, w) => (default_self_signed_dtls_config c, w)
  end.
End cache.

(** ** Lemmas: names and paths *)

Definition filename_char (c : ascii) : Prop := c ≠ "/"%char ∧ c ≠ "000"%char.

Fixpoint all_chars (P : ascii → Prop) (s : string) : Prop :=
  match s with EmptyString => True | String c s => P c ∧ all_chars P s end.

Lemma all_chars_app P s t : all_chars P (s ++ t) ↔ all_chars P s ∧ all_chars P t.
Proof. induction s as [|c s IH]; [cbn; tauto|]. rewrite str_app_cons. cbn. rewrite IH. tauto. Qed.

Lemma sanitize_char_ok c : all_chars filename_char (sanitize_char c).
Proof.
  unfold sanitize_char, filename_char. repeat case_match; cbn; auto; split; auto; try done.
  split; intros ->; done.
Qed.
Lemma sanitize_filename_ok s : all_chars filename_char (sanitize_filename s).
Proof. induction s as [|c s IH]; [done|]. cbn. apply all_chars_app. split; [apply sanitize_char_ok|done]. Qed.

Lemma join_chars P sep l : all_chars P sep → Forall (all_chars P) l → all_chars P (join sep l).
Proof.
  intros Hs. induction 1 as [|x l Hx Hl IH]; [done|]. destruct l as [|y l]; [done|].
  cbn [join] in *. rewrite !all_chars_app. auto.
Qed.

Lemma cache_prefix_ok env ds :
  all_chars filename_char env → all_chars filename_char (cache_prefix env ds).
Proof.
  intros He. unfold cache_prefix. rewrite !all_chars_app. split; [by repeat split|]. split; [done|].
  split; [by repeat split|]. apply join_chars; [by repeat split|].
  apply list.Forall_forall. intros x (d & -> & _)%list_elem_of_fmap. apply sanitize_filename_ok.
Qed.

Lemma cache_paths_differ dir prefix : (cache_paths dir prefix).1 ≠ (cache_paths dir prefix).2.
Proof.
  unfold cache_paths, path_join. cbn. destruct (_ || _); intros E; apply str_app_inj_l in E;
    try apply str_app_inj_l in E; try apply str_app_inj_l in E; done.
Qed.

(** ** Lemmas: time *)

Lemma as_i64_small x : 0 ≤ x < 2 ^ 63 → as_i64 x = x.
Proof.
  intros Hx. unfold as_i64. rewrite as_u64_id by (unfold_words; lia). by destruct (Z.ltb_spec x (2 ^ 63)); [|lia].
Qed.

Lemma renew_at_days t days :
  - 2 ^ 62 ≤ t < 2 ^ 63 → 0 ≤ days ≤ 10 ^ 12 → renew_at t days = t - days * 86400.
Proof.
  intros Ht Hd. unfold renew_at, saturating_mul. rewrite Z.min_r by lia.
  rewrite as_i64_small by lia. unfold i64_saturating_sub. lia.
Qed.

Section spec.
Context `{PK : Pki}.
Implicit Types (w : TlsWorld).

(** The expiry of the first certificate of a PEM file. *)
Definition pem_not_after (data : list Z) : result Z string :=
  do certs <- parse_certificate_chain data;
  do leaf <- ok_or (head certs) "certificate chain is empty";
  x509_not_after leaf.

Lemma usable_spec unix cp kp days w :
  cached_certificate_is_usable unix cp kp days w =
  (match tw_fs w !! cp, tw_fs w !! kp with
   | Some data, Some _ => do t <- pem_not_after data; Ok (as_i64 unix <? renew_at t days)
   | _, _ => Ok false
   end, w).
Proof.
  unfold cached_certificate_is_usable, io_bind, io_exists, io_read, io_lift, io_ret, pem_not_after.
  destruct (tw_fs w !! cp) as [data|] eqn:E1.
  - rewrite bool_decide_eq_true_2 by eauto. cbn [negb orb].
    destruct (tw_fs w !! kp) as [kd|] eqn:E2.
    + rewrite bool_decide_eq_true_2 by eauto. cbn [negb orb]. rewrite E1. cbn [ok_or].
      destruct (parse_certificate_chain data) as [certs|]; cbn [rbind]; [|done].
      destruct (head certs) as [leaf|]; cbn [ok_or rbind]; [|done]. by destruct (x509_not_after leaf).
    + rewrite bool_decide_eq_false_2 by (by intros []). done.
  - rewrite bool_decide_eq_false_2 by (by intros []). done.
Qed.

Lemma from_pem_chain cert key t : from_pem cert key = Ok t → ∃ leaf rest, parse_certificate_chain cert = Ok (leaf :: rest).
Proof.
  unfold from_pem. destruct (parse_certificate_chain cert) as [[|leaf rest]|]; cbn [rbind]; [|by eauto|done].
  destruct (parse_private_key key); done.
Qed.

Lemma read_cached_spec cp kp w cert key :
  tw_fs w !! cp = Some (str_bytes cert) → tw_fs w !! kp = Some (str_bytes key) →
  utf8_valid (str_bytes cert) = true → utf8_valid (str_bytes key) = true →
  read_cached cp kp w = (Ok (cert, key), w).
Proof.
  intros H1 H2 U1 U2. unfold read_cached, io_read_string, io_bind, io_read, io_lift, io_ret.
  rewrite H1. cbn [ok_or]. rewrite from_utf8_str by done. cbn [ok_or]. rewrite H2. cbn [ok_or].
  rewrite from_utf8_str by done. done.
Qed.

(** A fetched certificate that parses, and both writes. *)
Lemma load_fetched env c w cert key name cp kp days t :
  te_fetch env = Ok (cert, key) → sds_cache_paths env c = Ok (name, (cp, kp), days) →
  from_pem (str_bytes cert) (str_bytes key) = Ok t → te_write_cert env = Written →
  load_sds_certificate env c w =
  (match te_write_key env with Written => Ok (cert, key) | WriteError _ => Err write_error end,
   mkTlsWorld (fs_write (te_write_key env) kp (str_bytes key) (<[cp := str_bytes cert]> (tw_fs w))).2 (tw_watchers w)).
Proof.
  intros Hf Hp Ht Hw. unfold load_sds_certificate, io_bind, io_lift. rewrite Hp, Hf, Ht, Hw.
  unfold write_cached_certificate, io_bind, io_write, io_ret. cbn [fs_write tw_fs tw_watchers].
  by destruct (te_write_key env).
Qed.

Lemma load_cached env c w name cp kp days e data t :
  te_fetch env = Err e → sds_cache_paths env c = Ok (name, (cp, kp), days) →
  tw_fs w !! cp = Some data → is_Some (tw_fs w !! kp) → pem_not_after data = Ok t →
  as_i64 (te_unix env) < renew_at t days →
  load_sds_certificate env c w = read_cached cp kp w.
Proof.
  intros Hf Hp H1 [kd H2] Ht Hu. unfold load_sds_certificate, io_bind, io_lift. rewrite Hp, Hf, usable_spec, H1, H2, Ht.
  cbn [rbind]. by rewrite (proj2 (Z.ltb_lt _ _)).
Qed.
End spec.

(** What an SDS configuration resolves to when the cache directory is there. *)
Lemma sds_paths_eq env c name :
  sds_resource_name c = Some name → te_mkdir env = Ok tt →
  sds_cache_paths env c =
  Ok (name, cache_paths (default DEFAULT_CACHE_DIR (cache_dir c)) (cache_prefix "sds" [name]),
      default DEFAULT_RENEW_BEFORE_DAYS (renew_before_days c)).
Proof. intros H1 H2. unfold sds_cache_paths. by rewrite H1, H2. Qed.

(** ** Properties *)

(** C37. The SDS cache keeps the server startable: a certificate that was fetched
    and cached is what a later start without the SDS server gets back, as long
    as more than the renewal margin of its validity is left. *)
Theorem sds_cache_roundtrip `{PK : Pki} env1 env2 c name cert key t not_after e w :
  sds_resource_name c = Some name → te_mkdir env1 = Ok tt → te_mkdir env2 = Ok tt →
  te_fetch env1 = Ok (cert, key) → te_write_cert env1 = Written → te_write_key env1 = Written →
  from_pem (str_bytes cert) (str_bytes key) = Ok t →
  utf8_valid (str_bytes cert) = true → utf8_valid (str_bytes key) = true →
  te_fetch env2 = Err e → x509_not_after (cert_der t) = Ok not_after →
  let days := default DEFAULT_RENEW_BEFORE_DAYS (renew_before_days c) in
  0 ≤ te_unix env2 < 2 ^ 63 → - 2 ^ 62 ≤ not_after < 2 ^ 63 → 0 ≤ days ≤ 10 ^ 12 →
  te_unix env2 < not_after - days * 86400 →
  ∃ w', load_sds_certificate env1 c w = (Ok (cert, key), w') ∧
        load_sds_certificate env2 c w' = (Ok (cert, key), w').
Proof.
  intros Hn M1 M2 F1 W1 W2 Ht U1 U2 F2 Hx days Hu Ha Hd Hlt.
  pose proof (sds_paths_eq env1 c name Hn M1) as P1. pose proof (sds_paths_eq env2 c name Hn M2) as P2.
  set (paths := cache_paths _ _) in P1, P2. assert (Hne : paths.1 ≠ paths.2) by apply cache_paths_differ.
  destruct paths as [cp kp]. cbn in Hne. fold days in P1, P2.
  rewrite (load_fetched env1 c w cert key name cp kp days t) by done. rewrite W2.
  eexists. split; [done|]. cbn [fs_write snd].
  assert (Hleaf : pem_not_after (str_bytes cert) = Ok not_after).
  { unfold pem_not_after. unfold from_pem in Ht. destruct (parse_certificate_chain (str_bytes cert)) as [[|l r]|];
      cbn [rbind] in *; [by destruct (parse_private_key (str_bytes key))| |done].
    destruct (parse_private_key (str_bytes key)); [|done]. cbn in *. by simplify_eq. }
  rewrite (load_cached env2 c _ name cp kp days e (str_bytes cert) not_after).
  - apply read_cached_spec; cbn [tw_fs]; [by rewrite lookup_insert_ne, lookup_insert_eq|by rewrite lookup_insert_eq|done..].
  - done.
  - done.
  - cbn [tw_fs]. by rewrite lookup_insert_ne, lookup_insert_eq.
  - cbn [tw_fs]. rewrite lookup_insert_eq. eauto.
  - done.
  - by rewrite as_i64_small, renew_at_days.
Qed.

(** Writing the cache is not atomic: when the second write fails and leaves
    the old key, the next start without the SDS server takes the new chain
    with the old key. *)
Theorem sds_cache_torn_write `{PK : Pki} env1 env2 c name cert key old_key t not_after e w :
  sds_resource_name c = Some name → te_mkdir env1 = Ok tt → te_mkdir env2 = Ok tt →
  te_fetch env1 = Ok (cert, key) → te_write_cert env1 = Written →
  te_write_key env1 = WriteError (Some (str_bytes old_key)) →
  from_pem (str_bytes cert) (str_bytes key) = Ok t →
  utf8_valid (str_bytes cert) = true → utf8_valid (str_bytes old_key) = true →
  te_fetch env2 = Err e → pem_not_after (str_bytes cert) = Ok not_after →
  as_i64 (te_unix env2) < renew_at not_after (default DEFAULT_RENEW_BEFORE_DAYS (renew_before_days c)) →
  ∃ w', load_sds_certificate env1 c w = (Err write_error, w') ∧
        load_sds_certificate env2 c w' = (Ok (cert, old_key), w').
Proof.
  intros Hn M1 M2 F1 W1 W2 Ht U1 U2 F2 Hx Hlt. set (days := default _ _) in Hlt.
  pose proof (sds_paths_eq env1 c name Hn M1) as P1. pose proof (sds_paths_eq env2 c name Hn M2) as P2.
  set (paths := cache_paths _ _) in P1, P2. assert (Hne : paths.1 ≠ paths.2) by apply cache_paths_differ.
  destruct paths as [cp kp]. cbn in Hne. fold days in P1, P2.
  rewrite (load_fetched env1 c w cert key name cp kp days t) by done. rewrite W2.
  eexists. split; [done|]. cbn [fs_write snd].
  rewrite (load_cached env2 c _ name cp kp days e (str_bytes cert) not_after); [|done|done| | |done|done].
  - apply read_cached_spec; cbn [tw_fs]; [by rewrite lookup_insert_ne, lookup_insert_eq|by rewrite lookup_insert_eq|done..].
  - cbn [tw_fs]. by rewrite lookup_insert_ne, lookup_insert_eq.
  - cbn [tw_fs]. rewrite lookup_insert_eq. eauto.
Qed.

(** The certificate an update brings, if it parses and the key fits. *)
Definition usable_update `{PK : Pki} (c : SdsCertificate) : option CertifiedKey :=
  match (do t <- from_pem (str_bytes (Sds.cert_pem c)) (str_bytes (Sds.key_pem c)); into_certified_key t) with
  | Ok ck => Some ck
  | Err _ => None
  end.

(** Handshakes always get a good certificate: after any sequence of SDS
    updates, and however the cache writes go, the resolver serves the last
    certificate that parsed and whose key fits, or the one it started with;
    a broken update changes nothing. *)
Theorem resolver_serves_last_good `{PK : Pki} io cp kp (updates : list SdsCertificate) ck w :
  let step s c := (tls_on_update io cp kp c s).2 in
  (fold_left step updates (ck, w)).1 = default ck (last (omap usable_update updates)).
Proof.
  cbn zeta. revert ck w. induction updates as [|c l IH] using rev_ind; intros ck w; [done|].
  rewrite fold_left_app, omap_app. cbn [fold_left omap list_omap]. specialize (IH ck w).
  destruct (fold_left _ l (ck, w)) as [r w1] eqn:E. cbn [fst] in IH.
  assert (Hs : (tls_on_update io cp kp c (r, w1)).2.1 = default r (usable_update c)).
  { unfold tls_on_update, update_from_pem, usable_update.
    destruct (do t <- from_pem _ _; into_certified_key t) as [ck'|e]; [|done].
    by destruct (write_cached_certificate _ _ _ _ _ _ w1). }
  rewrite Hs. destruct (usable_update c) as [ck'|]; cbn [default from_option].
  - by rewrite last_snoc.
  - by rewrite app_nil_r.
Qed.

(** DTLS always comes up with exactly one certificate, never an RSA one from
    the configuration: the configured one when it loads and has a key DTLS
    supports, otherwise a self-signed one for the configured domains. *)
Theorem dtls_certificate_choice `{PK : Pki} te ae c w r w' :
  load_dtls_certificate_config te ae c w = (r, w') →
  (∃ cert key pem_key d w1,
     load_certificate_pem te ae c w = (Ok (cert, key), w1) ∧
     normalize_dtls_private_key_pem (str_bytes key) = Ok pem_key ∧
     dtls_from_pem (trim pem_key ++ String "010"%char "" ++ trim cert) = Ok d ∧ dtls_kind d ≠ Rsa256 ∧
     r = Ok [d]) ∨
  (∃ d, r = Ok [d] ∧
     dtls_self_signed (match domains c with [] => ["localhost"] | ds => ds end) = Ok d) ∨
  (∃ e, r = Err e ∧
     dtls_self_signed (match domains c with [] => ["localhost"] | ds => ds end) = Err e).
Proof.
  unfold load_dtls_certificate_config.
  destruct (load_dtls_certificate_config_inner te ae c w) as [[cfg|e] w1] eqn:Ei.
  - intros [= <- <-]. left. unfold load_dtls_certificate_config_inner, io_bind in Ei.
    destruct (load_certificate_pem te ae c w) as [[[cert key]|] w2] eqn:El; [|done].
    unfold io_lift, dtls_certificate_from_pem in Ei.
    destruct (normalize_dtls_private_key_pem (str_bytes key)) as [pk|] eqn:En; cbn [rbind] in Ei; [|done].
    destruct (dtls_from_pem _) as [d|] eqn:Ed; cbn [rbind] in Ei; [|done].
    exists cert, key, pk, d, w2. destruct (dtls_kind d) eqn:Ek; try done;
      (destruct ((if str_eqb (source c) "sds" then start_sds_cache_watcher te c else io_ret None) w2) as [[|] w3];
       [|done]); unfold io_ret in Ei; injection Ei as <- <-; by rewrite En, Ed.
  - intros [= <- <-]. right. unfold default_self_signed_dtls_config.
    destruct (dtls_self_signed _) as [d|e']; cbn; [left|right]; eauto.
Qed.

(** An authorisation of an order that stands or was made ready. *)
Definition order_step_ok (tr : list (string * ChallengeStore)) (x : result Authz string) : Prop :=
  ∃ a, x = Ok a ∧
    (authz_status a = AValid ∨
     authz_status a = APending ∧ set_ready a = Ok tt ∧
     ∃ token ka store, challenge a = Some (token, ka) ∧ (token, store) ∈ tr).

Lemma answer_challenges_trace l store r tr s :
  answer_challenges l store = (r, tr, s) →
  (∀ token st, (token, st) ∈ tr → ∃ a ka, Ok a ∈ l ∧ authz_status a = APending ∧
     challenge a = Some (token, ka) ∧ http01_challenge_handler st token = (200, ka)) ∧
  (r = Ok tt → Forall (order_step_ok tr) l).
Proof.
  revert store tr. induction l as [|x l IH]; intros store tr; cbn [answer_challenges].
  { intros [= <- <- <-]. split; [set_solver|constructor]. }
  destruct x as [a|e]; [|intros [= <- <- <-]; split; [set_solver|done]].
  destruct (authz_status a) eqn:Es; try (intros [= <- <- <-]; split; [set_solver|done]).
  - destruct (challenge a) as [[token ka]|] eqn:Ec; [|intros [= <- <- <-]; split; [set_solver|done]].
    set (st := <[token := ka]> store).
    assert (Hserve : http01_challenge_handler st token = (200, ka)).
    { unfold http01_challenge_handler, st. by rewrite lookup_insert_eq. }
    destruct (set_ready a) as [[]|e] eqn:Er.
    + destruct (answer_challenges l st) as [[r' tr'] s'] eqn:Ea. intros [= -> <- ->].
      destruct (IH _ _ Ea) as [H1 H2]. split.
      * intros tk st' [[= -> ->]|Hin]%elem_of_cons; [exists a, ka; set_solver|].
        destruct (H1 _ _ Hin) as (b & kb & ? & ?). exists b, kb. set_solver.
      * intros Hr. constructor.
        -- exists a. split; [done|]. right. split_and!; [done|done|]. exists token, ka, st. set_solver.
        -- eapply Forall_impl; [by apply H2|]. intros y (b & -> & [Hv|(? & ? & tk & kb & st' & ? & ?)]);
             exists b; (split; [done|]); [by left|right]. split_and!; [done|done|]. exists tk, kb, st'. set_solver.
    + intros [= <- <- <-]. split; [|done]. intros tk st' [[= -> ->]|Hin]%elem_of_cons; [|set_solver].
      exists a, ka. set_solver.
  - intros Ha. destruct (IH _ _ Ha) as [H1 H2]. split.
    + intros tk st Hin. destruct (H1 _ _ Hin) as (b & kb & ? & ?). exists b, kb. set_solver.
    + intros Hr. constructor; [|by apply H2]. exists a. auto.
Qed.

(** Every HTTP-01 challenge is answerable when the ACME server is told it is
    ready: at each [set_ready] the challenge server already serves, for that
    token, the key authorisation of a pending authorisation of the order; and
    an order is finalised only if every authorisation was valid already or was
    made ready this way and the server then reported the order ready. *)
Theorem acme_challenges_served (o : Order) store r tr s :
  complete_http01_order o store = (r, tr, s) →
  (∀ token st, (token, st) ∈ tr → ∃ a ka, Ok a ∈ authorizations o ∧ authz_status a = APending ∧
     challenge a = Some (token, ka) ∧ http01_challenge_handler st token = (200, ka)) ∧
  (∀ key chain, r = Ok (key, chain) →
     Forall (order_step_ok tr) (authorizations o) ∧ poll_ready o = Ok OReady ∧
     finalize o = Ok key ∧ poll_certificate o = Ok chain).
Proof.
  unfold complete_http01_order. destruct (answer_challenges _ store) as [[r' tr'] s'] eqn:Ea.
  intros [= <- <- <-]. destruct (answer_challenges_trace _ _ _ _ _ Ea) as [H1 H2]. split; [done|].
  intros key chain. destruct r' as [[]|]; cbn [rbind]; [|done].
  destruct (poll_ready o) as [[]|]; cbn [rbind]; try done.
  destruct (finalize o); cbn [rbind]; [|done]. destruct (poll_certificate o); cbn [rbind]; [|done].
  intros [= <- <-]. split_and!; auto.
Qed.

(** A margin so large that it overflows turns into none: the check then takes
    a cached certificate up to its last second. *)
Theorem huge_renewal_margin_ignored not_after days :
  - 2 ^ 62 ≤ not_after < 2 ^ 63 - 1 → 213503982334602 ≤ days →
  renew_at not_after days = not_after + 1.
Proof.
  intros Ht Hd. unfold renew_at, saturating_mul. rewrite Z.min_l by lia.
  change (as_i64 U64_MAX) with (-1). unfold i64_saturating_sub. lia.
Qed.

(** Cached files stay in the cache directory: whatever the domains or the
    resource name are, the file name has no path separator.  Different domain
    lists can share a file, though. *)
Theorem cache_names_confined env ds :
  all_chars filename_char env →
  all_chars filename_char (cache_prefix env ds) ∧
  cache_prefix env ["a-b.example"] = cache_prefix env ["a"; "b.example"].
Proof. intros H. split; [by apply cache_prefix_ok|done]. Qed.

(** At most one watcher runs per SDS address and resource: once one has been
    registered, a second start spawns nothing. *)
Theorem one_watcher_per_resource env1 env2 c w r w1 :
  start_sds_tls_watcher env1 c w = (r, w1) →
  (∃ key, sds_watcher_key c = Ok key) →
  start_sds_cache_watcher env2 c w1 = (Ok None, w1).
Proof.
  unfold start_sds_tls_watcher, start_sds_cache_watcher, start_sds_watcher, io_bind, io_lift, register_sds_watcher.
  intros H [key Hk]. rewrite Hk in *. cbn [tw_watchers tw_fs] in *.
  assert (Hin : key ∈ tw_watchers w1).
  { destruct (bool_decide (key ∉ tw_watchers w)); cbn [negb] in H; unfold io_ret in H;
      [destruct (sds_cache_paths env1 c) as [[[? ?] ?]|]|]; simplify_eq; cbn; set_solver. }
  rewrite bool_decide_eq_false_2 by auto. cbn [negb]. unfold io_ret. do 2 f_equal.
  destruct w1 as [fs ws]. cbn in *. f_equal. set_solver.
Qed.

(** ** A concrete certificate store, for the examples

    A PEM file is one block; its first byte is the kind of key or the number
    of seconds, in millions, the certificate is valid for. *)
Definition toy_pki : Pki := {|
  pem_parse_many b := match b with [] => Err "empty" | _ => Ok [("CERTIFICATE", b)] end;
  pem_encode tag der := tag ++ bytes_str der;
  private_key_der_kind der := match der with 107 :: _ => Ok Pkcs8 | _ => Err "not a key" end;
  p256_sec1_to_pkcs8 der := Err "not SEC1";
  x509_not_after der := match der with d :: _ => Ok (d * 1000000) | [] => Err "empty" end;
  single_cert_ok _ _ _ := Ok tt;
  certified_key_ok _ _ _ := Ok tt;
  dtls_from_pem s := Ok (mkDtlsCert [str_bytes s] Ecdsa256);
  dtls_self_signed ds := Ok (mkDtlsCert (map str_bytes ds) Ecdsa256);
  rcgen_self_signed d := Ok (str_bytes d, [107]);
  letsencrypt_url b := if b then "production" else "staging"
|}.

Definition sample_cert_config : CertificateConfig :=
  mkCertConfig "sds" None None [] None None None None None (Some "sds:1") None (Some "turn-cert") None None None.

Lemma sds_cache_roundtrip_witness :
  let env1 := mkTlsEnv 0 (Ok tt) Written Written (Ok ("chain", "key")) in
  let env2 := mkTlsEnv 1000 (Ok tt) Written Written (Err "refused") in
  ∃ w', @load_sds_certificate toy_pki env1 sample_cert_config (mkTlsWorld ∅ ∅) = (Ok ("chain", "key"), w') ∧
        @load_sds_certificate toy_pki env2 sample_cert_config w' = (Ok ("chain", "key"), w').
Proof.
  intros env1 env2.
  apply (@sds_cache_roundtrip toy_pki env1 env2 sample_cert_config "turn-cert" "chain" "key"
    (mkTls (str_bytes "chain") [str_bytes "chain"] (str_bytes "key") Pkcs8) 99000000 "refused" (mkTlsWorld ∅ ∅));
    try reflexivity; cbn; try lia; try done.
Defined.

Lemma sds_cache_torn_write_witness :
  let env1 := mkTlsEnv 0 (Ok tt) Written (WriteError (Some (str_bytes "kold"))) (Ok ("chain", "key")) in
  let env2 := mkTlsEnv 1000 (Ok tt) Written Written (Err "refused") in
  ∃ w', @load_sds_certificate toy_pki env1 sample_cert_config (mkTlsWorld ∅ ∅) = (Err write_error, w') ∧
        @load_sds_certificate toy_pki env2 sample_cert_config w' = (Ok ("chain", "kold"), w').
Proof.
  intros env1 env2.
  apply (@sds_cache_torn_write toy_pki env1 env2 sample_cert_config "turn-cert" "chain" "key" "kold"
    (mkTls (str_bytes "chain") [str_bytes "chain"] (str_bytes "key") Pkcs8) 99000000 "refused" (mkTlsWorld ∅ ∅));
    reflexivity.
Defined.

Lemma dtls_certificate_choice_witness :
  let te := mkTlsEnv 0 (Ok tt) Written Written (Err "refused") in
  let ae := mkAcmeEnv (λ _, Ok tt) (λ _ _, Ok []) Written (λ _, Err "no order") (λ _, Ok tt) in
  ∃ d w', @load_dtls_certificate_config toy_pki te ae sample_cert_config (mkTlsWorld ∅ ∅) = (Ok [d], w') ∧
    @dtls_self_signed toy_pki ["localhost"] = Ok d.
Proof.
  intros te ae. eexists _, _.
  assert (E : @load_dtls_certificate_config toy_pki te ae sample_cert_config (mkTlsWorld ∅ ∅) =
    (Ok [mkDtlsCert [str_bytes "localhost"] Ecdsa256], mkTlsWorld ∅ ∅)) by (vm_compute; reflexivity).
  split; [exact E|].
  destruct (@dtls_certificate_choice toy_pki te ae sample_cert_config _ _ _ E) as [H|[(d & [= <-] & H)|(e & [=] & _)]].
  - destruct H as (? & ? & ? & ? & ? & H & _). vm_compute in H. discriminate H.
  - exact H.
Defined.

Lemma acme_challenges_served_witness :
  let o := mkOrder [Ok (mkAuthz APending (Some ("tok", "tok.thumb")) (Ok tt)); Ok (mkAuthz AValid None (Ok tt))]
             (Ok OReady) (Ok "key") (Ok "chain") in
  ∃ tr s, complete_http01_order o ∅ = (Ok ("key", "chain"), tr, s) ∧
    Forall (order_step_ok tr) (authorizations o) ∧ poll_ready o = Ok OReady.
Proof.
  intros o. eexists _, _. split; [reflexivity|].
  destruct (acme_challenges_served o ∅ _ _ _ eq_refl) as [_ H].
  destruct (H "key" "chain" eq_refl) as (H1 & H2 & _). split; [exact H1|exact H2].
Defined.
