(* ===== verification/Startup.v ===== *)
(** * Start-up (src/main.rs)

    From the configuration file to the running parts: the server, the shared
    user and rule tables, the listeners and the admin interface.  Logging and
    the wait for Ctrl-C are left out; spawning a task is an entry of the
    result.  [StartEnv] holds what the run reads from outside. *)

From S2P Require Import Prelude RustStd RustText Serde StunMessage Channels Config Crypto Auth ShortTerm Metrics Alloc Ports.
From S2P Require Import Server ServerSpec System Admin AdminSpec Sds Tls.
From Stdlib Require Import Ascii String.
Local Open Scope string_scope.
Local Open Scope list_scope.
Local Open Scope Z_scope.

(** ** Data *)

(** [se_unix i] is the Unix time read for the [i]-th configured user. *)
Record StartEnv := mkStartEnv {
  se_config_var : option string;
  se_readable : bool;
  se_now : Z;
  se_unix : nat → Z;
  se_tls : TlsEnv;
  se_acme : AcmeEnv
}.

Inductive Listener :=
| RunUdp (addr : SocketAddr)
| RunTcp (addr : SocketAddr)
| RunTls (addr : SocketAddr) (cfg : TlsServerConfig)
| RunDtls (addr : SocketAddr) (cfg : list DtlsCertificate).

(** The tables are one shared object: the server holds them too. *)
Record Running := mkRunning {
  run_server : TurnServer;
  run_auth : AuthManager;
  run_listeners : list Listener;
  run_admin : option (SocketAddr * AppState)
}.

(** ** Tables from the configuration *)

Definition user_of_config (unix : Z) (c : UserConfig) : User :=
  mkUser (uc_username c) (uc_password c) (user_type_of (uc_user_type c)) unix (uc_expires_at c)
    (default 10 (uc_max_allocations c)) (uc_bandwidth_limit c) (uc_ip_whitelist c)
    (uc_max_allocation_duration_secs c).
Definition api_key_user (name : string) : User := mkUser name "" ApiKey 0 None 100 None None None.
Definition rule_of_config (c : AclRuleConfig) : AclRule :=
  mkRule (rc_ip_range c) (if eq_ignore_ascii_case (rc_action c) "allow" then Allow else Deny)
    (default 0 (rc_priority c)).

Section startup.
Context `{HO : HashOrder}.

Definition fill_auth (unix : nat → Z) (c : AuthConfig) (am : AuthManager) : AuthManager :=
  let am := fold_left (λ am u, add_user u am) (imap (λ i, user_of_config (unix i)) (cfg_users c)) am in
  let am := fold_left (λ am n, add_user (api_key_user n) am) (map snd (hash_iter (cfg_api_keys c))) am in
  fold_left (λ am r, add_acl_rule (rule_of_config r) am) (cfg_acl_rules c) am.

(** ** Configuration and server *)

Definition config_path (env : StartEnv) : string := default "miuturn.toml" (se_config_var env).

Definition startup_config `{TO : Toml} (env : StartEnv) (fs : FileSystem) : Config :=
  match Config_load (se_readable env) (config_path env) fs with
  | Some c => c
  | None => Config_default
  end.

Definition UNSPECIFIED : Ipv4Addr := mkIpv4 0 0 0 0.

(** The server before its tables are attached. *)
Definition build_server (now : Z) (c : Config) : TurnServer :=
  let sc := Config.server c in
  let relay := default UNSPECIFIED (parse_ipv4 (external_ip sc)) in
  let bind := default UNSPECIFIED (parse_ipv4 (default "0.0.0.0" (relay_bind_ip sc))) in
  set_protocol_enabled (cfg_stun_enabled sc) (cfg_turn_enabled sc)
    (set_server_name (cfg_server_name sc)
       (set_stats_dump_skip_if_no_change (cfg_stats_dump_skip_if_no_change sc)
          (set_stats_dump_interval (cfg_stats_dump_interval_secs sc)
             (with_port_range_limits_bind_address_and_password now relay bind (cfg_realm sc)
                (start_port sc) (end_port sc) (cfg_max_concurrent_allocations sc)
                (cfg_max_allocation_duration_secs sc) "password" false)))).

Definition has_listener (proto : string) (c : Config) : bool :=
  existsb (λ l, str_eqb (protocol l) proto) (listening (Config.server c)).

(** ** Listeners *)

Definition listener_of (tls : option TlsServerConfig) (dtls : option (list DtlsCertificate))
    (l : ListenConfig) (addr : SocketAddr) : list Listener :=
  if str_eqb (protocol l) "tcp" then [RunTcp addr]
  else if str_eqb (protocol l) "tls" then match tls with Some t => [RunTls addr t] | None => [] end
  else if str_eqb (protocol l) "dtls" then match dtls with Some t => [RunDtls addr t] | None => [] end
  else if str_eqb (protocol l) "udp" then [RunUdp addr]
  else [].

(** An address that does not parse panics, also for an unknown protocol. *)
Fixpoint start_listeners (tls : option TlsServerConfig) (dtls : option (list DtlsCertificate))
    (ls : list ListenConfig) : outcome (list Listener) :=
  match ls with
  | [] => Ret []
  | l :: ls =>
    addr ← ListenConfig_addr l;
    rest ← start_listeners tls dtls ls;
    Ret (listener_of tls dtls l addr ++ rest)
  end.

Definition start_admin (env : StartEnv) (c : Config) : option (SocketAddr * AppState) :=
  match http c with
  | None => None
  | Some h =>
    Some (default (SaV4 UNSPECIFIED 8080) (parse_socket_addr (http_address h)),
          create_admin_routes (admin_username h) (admin_password h) (default false (turn_rest_enabled h))
            (turn_rest_secret h) (default 3600 (turn_rest_default_lifetime h)) (Some (Metrics_new (se_now env)))
            (Some (config_path env)) (external_ip (Config.server c)) (listening (Config.server c))
            (admin_acl h) (default false (trust_proxy h)))
  end.

(** ** The run *)

Definition missing_certificates : string :=
  "a [certificates] section is required when TLS or DTLS is configured".

Section pki.
Context `{PK : Pki}.

(** The certificates the listeners need; the first failure ends the run. *)
Definition load_certificates (env : StartEnv) (c : Config)
    : IO (option TlsServerConfig * option (list DtlsCertificate)) :=
  let tls := has_listener "tls" c in
  let dtls := has_listener "dtls" c in
  if negb (tls || dtls) then io_ret (None, None) else
  let* cc := io_lift (ok_or (certificates c) missing_certificates) in
  let* t := (if tls then let* x := load_certificate_config (se_tls env) (se_acme env) cc in io_ret (Some x)
             else io_ret None) in
  let* d := (if dtls then let* x := load_dtls_certificate_config (se_tls env) (se_acme env) cc in io_ret (Some x)
             else io_ret None) in
  io_ret (t, d).

Definition main `{TO : Toml} (env : StartEnv) (w : TlsWorld) : outcome (result Running string * TlsWorld) :=
  let c := startup_config env (tw_fs w) in
  let server := build_server (se_now env) c in
  match load_certificates env c w with
  | (Err e, w) => Ret (Err e, w)
  | (Ok (tls, dtls), w) =>
    let am := fill_auth (se_unix env) (auth c) (AuthManager_new (cfg_realm (Config.server c))) in
    listeners ← start_listeners tls dtls (listening (Config.server c));
    Ret (Ok (mkRunning (set_auth_manager am server) am listeners (start_admin env c)), w)
  end.
End pki.
End startup.

(** ** Lemmas: the tables *)

Section tables.
Implicit Types (am : AuthManager) (u : User).

Lemma fold_users_shape (l : list User) am :
  acl_rules (fold_left (λ am u, add_user u am) l am) = acl_rules am ∧
  auth_realm (fold_left (λ am u, add_user u am) l am) = auth_realm am ∧
  (auth_ok am → auth_ok (fold_left (λ am u, add_user u am) l am)).
Proof.
  revert am. induction l as [|u l IH]; intros am; [done|]. cbn [fold_left].
  destruct (IH (add_user u am)) as (-> & -> & H). eauto with miu.
Qed.
Lemma fold_rules_shape (l : list AclRuleConfig) am :
  users (fold_left (λ am r, add_acl_rule (rule_of_config r) am) l am) = users am ∧
  auth_realm (fold_left (λ am r, add_acl_rule (rule_of_config r) am) l am) = auth_realm am ∧
  (auth_ok am → auth_ok (fold_left (λ am r, add_acl_rule (rule_of_config r) am) l am)).
Proof.
  revert am. induction l as [|r l IH]; intros am; [done|]. cbn [fold_left].
  destruct (IH (add_acl_rule (rule_of_config r) am)) as (-> & -> & H). eauto with miu.
Qed.

(** Users under other names are untouched by an insertion; the one under its
    name is there when no later one replaces it. *)
Lemma fold_users_other (l : list User) am name :
  name ∉ map username l → users (fold_left (λ am u, add_user u am) l am) !! name = users am !! name.
Proof.
  revert am. induction l as [|u l IH]; intros am; [done|]. cbn [fold_left map]. rewrite not_elem_of_cons.
  intros [Hne Hl]. rewrite IH by done. cbn. by rewrite lookup_insert_ne.
Qed.
Lemma fold_users_elem (l : list User) am u :
  u ∈ l → (∀ v, v ∈ l → username v = username u → v = u) →
  users (fold_left (λ am u, add_user u am) l am) !! username u = Some u.
Proof.
  revert am. induction l as [|v l IH]; intros am Hin Hun; [by apply elem_of_nil in Hin|]. cbn [fold_left].
  destruct (decide (u ∈ l)) as [Hl|Hl]; [apply IH; set_solver|].
  apply elem_of_cons in Hin as [->|?]; [|done]. rewrite fold_users_other; [cbn; apply lookup_insert_eq|].
  intros (v' & E & Hv%list_elem_of_In)%list_elem_of_In%in_map_iff. apply Hl.
  assert (Hv' : v' = v) by (apply Hun; [by right|done]). congruence.
Qed.

(** Rules that are in order are added back in that order. *)
Lemma fold_rules_sorted (l : list AclRuleConfig) am :
  StronglySorted (λ a b, rule_leb a b = true) (acl_rules am ++ map rule_of_config l) →
  acl_rules (fold_left (λ am r, add_acl_rule (rule_of_config r) am) l am) = acl_rules am ++ map rule_of_config l.
Proof.
  revert am. induction l as [|r l IH]; intros am Hs; [by rewrite app_nil_r|]. cbn [fold_left map].
  assert (E : acl_rules (add_acl_rule (rule_of_config r) am) = acl_rules am ++ [rule_of_config r]).
  { cbn [add_acl_rule acl_rules]. cbn [map] in Hs. change (rule_of_config r :: map rule_of_config l) with
      ([rule_of_config r] ++ map rule_of_config l) in Hs. rewrite app_assoc in Hs.
    apply StronglySorted_app in Hs as (_ & Hs & _). apply StronglySorted_app in Hs as (Hle & Hs & _).
    rewrite sort_by_snoc by done.
    assert (Hall : Forall (λ x, priority (rule_of_config r) ≤ priority x) (acl_rules am)).
    { apply list.Forall_forall. intros x Hx. specialize (Hle x (rule_of_config r) Hx ltac:(set_solver)).
      unfold rule_leb in Hle. by apply Z.leb_le in Hle. }
    rewrite (filter_bool_none (λ x, priority x <? priority (rule_of_config r))).
    - f_equal. clear -Hall. induction Hall as [|x l Hx _ IH]; [done|]. cbn [List.filter].
      destruct (Z.leb_spec (priority (rule_of_config r)) (priority x)); [by rewrite IH|lia].
    - eapply Forall_impl; [exact Hall|]. cbn. intros x ?. apply Z.ltb_ge. lia. }
  rewrite IH, E; [by rewrite <- app_assoc|]. rewrite E, <- app_assoc. exact Hs.
Qed.
End tables.

Section fill.
Context `{HO : HashOrder}.

Lemma fold_names_users (l : list string) am :
  fold_left (λ am n, add_user (api_key_user n) am) l am = fold_left (λ am u, add_user u am) (map api_key_user l) am.
Proof. revert am. induction l as [|n l IH]; intros am; [done|]. apply IH. Qed.

Lemma fill_auth_ok unix c am : auth_ok am → auth_ok (fill_auth unix c am).
Proof.
  intros H. unfold fill_auth. rewrite fold_names_users. apply fold_rules_shape, fold_users_shape, fold_users_shape. done.
Qed.

Lemma api_key_names c name : name ∈ map snd (hash_iter (cfg_api_keys c)) ↔ ∃ key, cfg_api_keys c !! key = Some name.
Proof.
  rewrite list_elem_of_In, in_map_iff. setoid_rewrite <- hash_iter_lookup. split.
  - intros ([k v] & <- & H%list_elem_of_In). eauto.
  - intros [k H%list_elem_of_In]. by exists (k, name).
Qed.

Lemma fill_auth_api unix c am key name :
  cfg_api_keys c !! key = Some name → users (fill_auth unix c am) !! name = Some (api_key_user name).
Proof.
  intros Hk. unfold fill_auth. rewrite (proj1 (fold_rules_shape _ _)), fold_names_users.
  apply (fold_users_elem _ _ (api_key_user name)).
  - apply list_elem_of_In, in_map, list_elem_of_In, api_key_names. eauto.
  - intros v (n & <- & _)%list_elem_of_In%in_map_iff. cbn. by intros ->.
Qed.

(** Every other user is the one the configuration gives. *)
Lemma fill_auth_user unix c am name :
  (∀ key, cfg_api_keys c !! key ≠ Some name) →
  users (fill_auth unix c am) !! name =
  users (fold_left (λ am u, add_user u am) (imap (λ i, user_of_config (unix i)) (cfg_users c)) am) !! name.
Proof.
  intros Hk. unfold fill_auth. rewrite (proj1 (fold_rules_shape _ _)), fold_names_users. apply fold_users_other.
  intros (u & E & (n & <- & Hn%list_elem_of_In)%in_map_iff)%list_elem_of_In%in_map_iff. cbn in E. subst n.
  apply api_key_names in Hn as [k Hn]. by apply (Hk k).
Qed.

Lemma fill_auth_rules unix c am :
  acl_rules (fill_auth unix c am) =
  acl_rules (fold_left (λ am r, add_acl_rule (rule_of_config r) am) (cfg_acl_rules c) am).
Proof.
  unfold fill_auth. rewrite fold_names_users.
  set (am2 := fold_left _ (map api_key_user _) _).
  assert (E : acl_rules am2 = acl_rules am) by (unfold am2; by rewrite !(proj1 (fold_users_shape _ _))).
  clearbody am2. revert am am2 E. induction (cfg_acl_rules c) as [|r l IH]; intros am am2 E; [done|]. cbn [fold_left].
  apply IH. cbn [add_acl_rule acl_rules]. by rewrite E.
Qed.
End fill.

(** A user and a rule survive being written and read, the time of creation apart. *)
Definition same_account (u v : User) : Prop :=
  username u = username v ∧ password u = password v ∧ user_type u = user_type v ∧ expires_at u = expires_at v ∧
  max_allocations u = max_allocations v ∧ bandwidth_limit u = bandwidth_limit v ∧
  ip_whitelist u = ip_whitelist v ∧ user_max_allocation_duration_secs u = user_max_allocation_duration_secs v.

Lemma user_config_roundtrip unix u : same_account (user_of_config unix (config_of_user u)) u.
Proof. destruct u as [? ? []]; by repeat split. Qed.
Lemma rule_config_roundtrip r : rule_of_config (config_of_rule r) = r.
Proof. by destruct r as [? [] ?]. Qed.

Section restart.
Context `{HO : HashOrder}.

Lemma list_users_elem am u : auth_ok am → u ∈ list_users am ↔ users am !! username u = Some u.
Proof.
  intros [Hk _]. unfold list_users. rewrite list_elem_of_In, in_map_iff. split.
  - intros ([k v] & E & H%list_elem_of_In%hash_iter_lookup). cbn in E. subst v. by rewrite (Hk _ _ H).
  - intros H%hash_iter_lookup%list_elem_of_In. by exists (username u, u).
Qed.
Lemma list_users_names am : auth_ok am → NoDup (map username (list_users am)).
Proof.
  intros [Hk _]. unfold list_users. rewrite map_map.
  assert (E : map (λ x : string * User, username x.2) (hash_iter (users am)) = map fst (hash_iter (users am))).
  { apply map_ext_in. intros [k v] H%list_elem_of_In%hash_iter_lookup. by apply Hk in H. }
  rewrite E. pose proof (NoDup_fst_map_to_list (users am)) as H.
  rewrite (Permutation_map fst (hash_iter_perm (users am))). exact H.
Qed.

Lemma reloaded_users unix am realm name :
  auth_ok am →
  option_Forall2 same_account
    (users (fold_left (λ am u, add_user u am)
       (imap (λ i, user_of_config (unix i)) (map config_of_user (list_users am))) (AuthManager_new realm)) !! name)
    (users am !! name).
Proof.
  intros Hok. set (l := imap _ _).
  assert (Hl : ∀ v, v ∈ l ↔ ∃ i u, list_users am !! i = Some u ∧ v = user_of_config (unix i) (config_of_user u)).
  { intros v. unfold l. rewrite list_elem_of_lookup. split.
    - intros [i Hi]. rewrite list_lookup_imap, list_lookup_fmap in Hi.
      destruct (list_users am !! i) as [u|] eqn:E; [|done]. cbn in Hi. simplify_eq. eauto.
    - intros (i & u & Hi & ->). exists i. rewrite list_lookup_imap, list_lookup_fmap, Hi. done. }
  destruct (users am !! name) as [u|] eqn:Eu.
  - assert (En : username u = name) by (by apply (auth_keyed am Hok)).
    assert (Hin : u ∈ list_users am) by (apply list_users_elem; [done|by rewrite En]).
    apply list_elem_of_lookup in Hin as [i Hi].
    pose proof (fold_users_elem l (AuthManager_new realm) (user_of_config (unix i) (config_of_user u))) as H.
    cbn [user_of_config username config_of_user uc_username] in H. rewrite En in H. rewrite H.
    + constructor. apply user_config_roundtrip.
    + apply Hl. eauto.
    + intros v (j & u' & Hj & ->)%Hl. cbn. intros E.
      assert (i = j) as <-; [|congruence].
      eapply (NoDup_lookup (map username (list_users am))); [by apply list_users_names| |];
        rewrite list_lookup_fmap; [by rewrite Hi|rewrite Hj; cbn; congruence].
  - rewrite fold_users_other; [cbn; rewrite lookup_empty; constructor|].
    intros (v & E & (i & u & Hi & ->)%list_elem_of_In%Hl)%list_elem_of_In%in_map_iff. cbn in E.
    apply list_elem_of_lookup_2 in Hi. apply list_users_elem in Hi; [|done]. congruence.
Qed.

Lemma reloaded_rules unix am keys realm :
  auth_ok am →
  acl_rules (fill_auth unix (mkAuthConfig (map config_of_user (list_users am)) keys
    (map config_of_rule (list_acl_rules am))) (AuthManager_new realm)) = acl_rules am.
Proof.
  intros [_ Hs]. rewrite fill_auth_rules. cbn [cfg_acl_rules].
  assert (E : map rule_of_config (map config_of_rule (list_acl_rules am)) = acl_rules am).
  { rewrite map_map. unfold list_acl_rules. etransitivity; [|apply map_id]. apply map_ext, rule_config_roundtrip. }
  rewrite fold_rules_sorted; rewrite E; [done|exact Hs].
Qed.
End restart.

(** ** What start-up promises *)

Section promise.
Context `{HO : HashOrder} `{PK : Pki}.

(** A running listener is the one a line of the configuration asks for. *)
Inductive serves (tls : option TlsServerConfig) (dtls : option (list DtlsCertificate)) (l : ListenConfig)
    : Listener → Prop :=
| serves_udp a : protocol l = "udp" → parse_socket_addr (address l) = Some a → serves tls dtls l (RunUdp a)
| serves_tcp a : protocol l = "tcp" → parse_socket_addr (address l) = Some a → serves tls dtls l (RunTcp a)
| serves_tls a t : protocol l = "tls" → parse_socket_addr (address l) = Some a → tls = Some t →
    serves tls dtls l (RunTls a t)
| serves_dtls a d : protocol l = "dtls" → parse_socket_addr (address l) = Some a → dtls = Some d →
    serves tls dtls l (RunDtls a d).

Definition known_protocol (l : ListenConfig) : Prop := protocol l ∈ ["udp"; "tcp"; "tls"; "dtls"].
#[global] Instance known_protocol_dec l : Decision (known_protocol l) := _.

Definition wants (proto : string) (c : Config) : Prop :=
  ∃ l, l ∈ listening (Config.server c) ∧ protocol l = proto.

(** The TLS certificate, loaded when a listener asks for it. *)
Inductive tls_loaded (env : StartEnv) (c : Config) (cc : CertificateConfig) (w : TlsWorld)
    : option TlsServerConfig → TlsWorld → Prop :=
| tl_none : ¬ wants "tls" c → tls_loaded env c cc w None w
| tl_some t w1 : wants "tls" c → load_certificate_config (se_tls env) (se_acme env) cc w = (Ok t, w1) →
    tls_loaded env c cc w (Some t) w1.

(** What loading the certificates comes to: only what a listener asks for is
    loaded, TLS first, and the first failure is the result. *)
Inductive certificates_outcome (env : StartEnv) (c : Config) (w : TlsWorld)
    : result (option TlsServerConfig * option (list DtlsCertificate)) string → TlsWorld → Prop :=
| co_none : ¬ wants "tls" c → ¬ wants "dtls" c → certificates_outcome env c w (Ok (None, None)) w
| co_missing : wants "tls" c ∨ wants "dtls" c → certificates c = None →
    certificates_outcome env c w (Err missing_certificates) w
| co_tls_fails cc e w' : wants "tls" c → certificates c = Some cc →
    load_certificate_config (se_tls env) (se_acme env) cc w = (Err e, w') →
    certificates_outcome env c w (Err e) w'
| co_tls cc t w' : wants "tls" c → ¬ wants "dtls" c → certificates c = Some cc →
    load_certificate_config (se_tls env) (se_acme env) cc w = (Ok t, w') →
    certificates_outcome env c w (Ok (Some t, None)) w'
| co_dtls_fails cc tls e w1 w' : wants "dtls" c → certificates c = Some cc → tls_loaded env c cc w tls w1 →
    load_dtls_certificate_config (se_tls env) (se_acme env) cc w1 = (Err e, w') →
    certificates_outcome env c w (Err e) w'
| co_dtls cc tls d w1 w' : wants "dtls" c → certificates c = Some cc → tls_loaded env c cc w tls w1 →
    load_dtls_certificate_config (se_tls env) (se_acme env) cc w1 = (Ok d, w') →
    certificates_outcome env c w (Ok (tls, Some d)) w'.

Lemma has_listener_wants p c : has_listener p c = true ↔ wants p c.
Proof.
  unfold has_listener, wants. rewrite existsb_exists. split; intros (l & Hl & Hp); exists l.
  - by rewrite list_elem_of_In, <- str_eqb_eq.
  - by rewrite <- list_elem_of_In, str_eqb_eq.
Qed.
Lemma has_listener_not_wants p c : has_listener p c = false ↔ ¬ wants p c.
Proof. by rewrite <- has_listener_wants, not_true_iff_false. Qed.

Lemma load_certificates_outcome env c w :
  certificates_outcome env c w (load_certificates env c w).1 (load_certificates env c w).2.
Proof.
  unfold load_certificates.
  destruct (has_listener "tls" c) eqn:Ht, (has_listener "dtls" c) eqn:Hd;
    rewrite ?has_listener_wants, ?has_listener_not_wants in Ht; rewrite ?has_listener_wants, ?has_listener_not_wants in Hd;
    cbn [orb negb]; [| | |by constructor];
    unfold io_bind, io_lift, io_ret; destruct (certificates c) as [cc|] eqn:Ec; cbn [ok_or fst snd];
    try (apply co_missing; tauto).
  - destruct (load_certificate_config _ _ cc w) as [[t|e] w1] eqn:Et; [|by eapply co_tls_fails].
    destruct (load_dtls_certificate_config _ _ cc w1) as [[d|e] w2] eqn:Ed;
      [eapply co_dtls|eapply co_dtls_fails]; eauto using tl_some.
  - destruct (load_certificate_config _ _ cc w) as [[t|e] w1] eqn:Et; [by eapply co_tls|by eapply co_tls_fails].
  - destruct (load_dtls_certificate_config _ _ cc w) as [[d|e] w2] eqn:Ed;
      [eapply co_dtls|eapply co_dtls_fails]; eauto using tl_none.
Qed.

(** Loaded certificates are there for the listeners that ask for them. *)
Lemma certificates_outcome_some env c w tls dtls w' :
  certificates_outcome env c w (Ok (tls, dtls)) w' →
  (wants "tls" c → is_Some tls) ∧ (wants "dtls" c → is_Some dtls).
Proof.
  inversion 1 as [| | |cc t ? ? ? ?| |cc tls' d w1 ? Hw ? Hl]; subst; [done|by split; [eexists|]|].
  split; [|by eexists]. inversion Hl; subst; [done|by eexists].
Qed.
End promise.

(** ** Lemmas: the run *)

Section run.
Context `{HO : HashOrder} `{PK : Pki} `{TO : Toml}.

(** What a run that comes up has. *)
Lemma main_Ok env w run w' :
  main env w = Ret (Ok run, w') →
  ∃ tls dtls listeners, let c := startup_config env (tw_fs w) in
    load_certificates env c w = (Ok (tls, dtls), w') ∧
    start_listeners tls dtls (listening (Config.server c)) = Ret listeners ∧
    run_auth run = fill_auth (se_unix env) (auth c) (AuthManager_new (cfg_realm (Config.server c))) ∧
    run_server run = set_auth_manager (run_auth run) (build_server (se_now env) c) ∧
    run_listeners run = listeners ∧ run_admin run = start_admin env c.
Proof.
  unfold main. destruct (load_certificates _ _ _) as [[[tls dtls]|e] w1] eqn:E; [|done].
  destruct (start_listeners _ _ _) as [ls|] eqn:El; simpl_bind; [|done]. intros [= <- <-].
  by exists tls, dtls, ls.
Qed.

Lemma build_server_ok now c am :
  0 ≤ start_port (Config.server c) ≤ end_port (Config.server c) → end_port (Config.server c) ≤ 65535 →
  end_port (Config.server c) - start_port (Config.server c) < 65535 →
  srv_ok (set_auth_manager am (build_server now c)).
Proof.
  intros H1 H2 H3. split.
  - by apply new_table_ok.
  - apply channels_ok_new.
  - intros k1 a1 k2 a2 E. exfalso. by apply (lookup_empty_Some (M:=gmap SocketAddr) k1 a1).
  - intros k id [b E]. exfalso. by apply (lookup_empty_Some (M:=gmap (SocketAddr * Z)) (k, id) b).
Qed.

(** Every configured listener of a known protocol has exactly one running one,
    in the order of the file, when the configurations they need are there. *)
Lemma start_listeners_Ret tls dtls ls :
  Forall (λ l, is_Some (parse_socket_addr (address l))) ls →
  (∀ l, l ∈ ls → protocol l = "tls" → is_Some tls) → (∀ l, l ∈ ls → protocol l = "dtls" → is_Some dtls) →
  ∃ out, start_listeners tls dtls ls = Ret out ∧ Forall2 (serves tls dtls) (filter known_protocol ls) out.
Proof.
  induction 1 as [|l ls [a Ha] _ IH]; intros Ht Hd; cbn [start_listeners].
  { exists []. by split. }
  destruct IH as (out & E & H2); [intros l' ?; apply Ht; by right|intros l' ?; apply Hd; by right|].
  unfold ListenConfig_addr. rewrite Ha. simpl_bind. rewrite E. simpl_bind. eexists. split; [done|].
  specialize (Ht l ltac:(by left)). specialize (Hd l ltac:(by left)). unfold listener_of, str_eqb.
  rewrite filter_cons. unfold known_protocol at 1. case_decide as Hk.
  - rewrite !elem_of_cons in Hk. repeat case_bool_decide.
    + constructor; [by constructor|done].
    + destruct Ht as [t ->]; [done|]. constructor; [by constructor|done].
    + destruct Hd as [d ->]; [done|]. constructor; [by constructor|done].
    + constructor; [by constructor|done].
    + exfalso. set_solver.
  - repeat case_bool_decide; [set_solver..|done].
Qed.

Lemma start_listeners_Panic tls dtls ls :
  ¬ Forall (λ l, is_Some (parse_socket_addr (address l))) ls → start_listeners tls dtls ls = Panic.
Proof.
  induction ls as [|l ls IH]; intros H; [by destruct H|]. cbn [start_listeners]. unfold ListenConfig_addr.
  destruct (parse_socket_addr (address l)) as [a|] eqn:E; [|done]. simpl_bind. rewrite IH; [done|].
  intros Hl. apply H. constructor; [by rewrite E|done].
Qed.
End run.

(** ** Properties *)

Lemma startup_ports `{TO : Toml} env fs :
  0 ≤ start_port (Config.server (startup_config env fs)) ≤ 65535 ∧
  0 ≤ end_port (Config.server (startup_config env fs)) ≤ 65535.
Proof.
  assert (Hr : in_range (startup_config env fs)).
  { unfold startup_config. destruct (Config_load _ _ _) as [c|] eqn:E; [by eapply loaded_in_range|apply default_in_range]. }
  destruct Hr as ((Hs & He & _) & _). unfold in_width in *. lia.
Qed.

(** C12. A server that comes up is consistent and stays so: with a first port not
    above the last and not the whole range 0-65535 (that they are ports is what
    reading the configuration checks), the server [main] builds satisfies the invariant and shares its
    user and rule tables with the admin interface, the tables are well formed,
    and every state it reaches afterwards satisfies the invariant. *)
Theorem startup_consistent `{CR : Crypto} `{HO : HashOrder} `{PK : Pki} `{TO : Toml} env w run w' :
  let sc := Config.server (startup_config env (tw_fs w)) in
  start_port sc ≤ end_port sc → end_port sc - start_port sc < 65535 →
  main env w = Ret (Ok run, w') →
  auth_ok (run_auth run) ∧ auth_manager (run_server run) = Some (run_auth run) ∧ srv_ok (run_server run) ∧
  ∀ out s, reachable (run_server run) out s → srv_ok s.
Proof.
  intros sc H1 H3 (tls & dtls & ls & _ & _ & Ha & Hs & _)%main_Ok. rewrite Hs.
  pose proof (startup_ports env (tw_fs w)) as [Hp Hq]. fold sc in Hp, Hq.
  assert (Hok : srv_ok (set_auth_manager (run_auth run) (build_server (se_now env) (startup_config env (tw_fs w)))))
    by (apply build_server_ok; fold sc; lia).
  split_and!; [|done|done|].
  - rewrite Ha. apply fill_auth_ok, auth_ok_new.
  - intros out s. by apply reachable_keeps.
Qed.

(** C39. Start-up comes to exactly one of three ends.  The certificates the
    listeners of the configuration ask for are loaded, TLS before DTLS: when
    the section is missing or a load fails, the run stops with that error.
    Otherwise it panics when a listen address does not parse; and otherwise it
    comes up with exactly one listener per configured one of a known protocol,
    in the order of the file, each of the kind and at the address the file
    says, the TLS and DTLS ones with the certificates loaded for them. *)
Theorem startup_outcomes `{HO : HashOrder} `{PK : Pki} `{TO : Toml} env w :
  let c := startup_config env (tw_fs w) in
  let ls := listening (Config.server c) in
  ∃ r w', certificates_outcome env c w r w' ∧
    match r with
    | Err e => main env w = Ret (Err e, w')
    | Ok (tls, dtls) =>
      (¬ Forall (λ l, is_Some (parse_socket_addr (address l))) ls → main env w = Panic) ∧
      (Forall (λ l, is_Some (parse_socket_addr (address l))) ls →
       ∃ run, main env w = Ret (Ok run, w') ∧
         Forall2 (serves tls dtls) (filter known_protocol ls) (run_listeners run))
    end.
Proof.
  intros c ls. destruct (load_certificates env c w) as [r w'] eqn:E. exists r, w'.
  pose proof (load_certificates_outcome env c w) as Ho. rewrite E in Ho. split; [exact Ho|].
  unfold main. fold c. rewrite E. destruct r as [[tls dtls]|e]; [|done]. fold ls. split; intros H.
  - by rewrite start_listeners_Panic.
  - destruct (certificates_outcome_some env c w tls dtls w' Ho) as [Ht Hd].
    destruct (start_listeners_Ret tls dtls ls H) as (out & -> & H2);
      [intros l ? ?; apply Ht; by exists l|intros l ? ?; apply Hd; by exists l|].
    simpl_bind. eexists. by split.
Qed.

Lemma saved_config `{HO : HashOrder} `{TL : TomlLaws} env st path w :
  app_config_path st = Some path → adm_write env = Written →
  is_Some (to_string_pretty (config_to_save env path w)) →
  Config_load true path (w_fs (save_config env st w).2) = Some (absent_defaults (config_to_save env path w)).
Proof.
  intros Hp Hw [t Ht]. unfold save_config. rewrite Hp, Hw.
  destruct (Config_save Written _ path (w_fs w)) as [ok fs] eqn:E. cbn [snd w_fs].
  apply load_saved with (fs := w_fs w). unfold Config_save in *. rewrite Ht in *. cbn in *. by simplify_eq.
Qed.

(** C21. Changes made through the admin interface survive a restart: when an
    authorised change has been saved, the next start from that file comes up
    with the same rules in the same order and the same accounts (their time of
    creation apart), and so with the same password for every user, provided
    the file lists no API keys. *)
Theorem admin_changes_survive_restart `{CR : Crypto} `{HO : HashOrder} `{PK : Pki} `{TL : TomlLaws}
    env st req w r w' senv watchers run tw path :
  auth_ok (w_auth w) → is_write (req_call req) = true → check_auth (req_jar req) (app_admin st) = true →
  acl_permits st (request_ip st (req_peer req) (req_forwarded req) (req_real_ip req)) = true →
  serve env st req w = Ret (r, w') →
  app_config_path st = Some path → adm_write env = Written →
  is_Some (to_string_pretty (config_to_save env path (mkWorld (w_auth w') (w_fs w)))) →
  cfg_api_keys (auth (config_to_save env path (mkWorld (w_auth w') (w_fs w)))) = ∅ →
  config_path senv = path → se_readable senv = true →
  main senv (mkTlsWorld (w_fs w') watchers) = Ret (Ok run, tw) →
  acl_rules (run_auth run) = acl_rules (w_auth w') ∧
  (∀ name, option_Forall2 same_account (users (run_auth run) !! name) (users (w_auth w') !! name)) ∧
  ∀ unix s fs name, turn_password unix s (mkWorld (run_auth run) fs) name = turn_password unix s w' name.
Proof.
  intros Hok Hwr Hc Ha Hs Hp Hw Hser Hkeys Hpath Hread (tls & dtls & ls & _ & _ & Hauth & _)%main_Ok.
  assert (Hok' : auth_ok (w_auth w')).
  { destruct (serve_world _ _ _ _ _ _ Hs) as [->|(_ & _ & _ & ->)]; [done|]. rewrite save_config_auth.
    cbn [set_auth w_auth]. destruct (req_call req); cbn [call_effect]; auto with miu. }
  assert (Hfs : w_fs w' = w_fs (save_config env st (mkWorld (w_auth w') (w_fs w))).2).
  { revert Hs. unfold serve, admin_acl_middleware. rewrite Ha.
    assert (is_public (req_call req) = false) as -> by (by destruct (req_call req)).
    intros ->%run_handler_world. rewrite Hwr, Hc. cbn [andb]. by rewrite save_config_auth. }
  pose proof (saved_config env st path _ Hp Hw Hser) as Hload. rewrite <- Hfs in Hload.
  unfold startup_config in Hauth. cbn [tw_fs] in Hauth. rewrite Hread, Hpath, Hload in Hauth.
  set (c := config_to_save env path _) in *.
  assert (Hcu : auth (absent_defaults c) = mkAuthConfig (map config_of_user (list_users (w_auth w'))) ∅
    (map config_of_rule (list_acl_rules (w_auth w')))).
  { cbn [absent_defaults auth]. rewrite <- Hkeys. done. }
  rewrite Hcu in Hauth. set (realm := cfg_realm _) in *.
  assert (Husers : ∀ name, option_Forall2 same_account (users (run_auth run) !! name) (users (w_auth w') !! name)).
  { intros name. rewrite Hauth, fill_auth_user by (intros k; cbn [cfg_api_keys]; by rewrite lookup_empty).
    by apply reloaded_users. }
  split_and!; [rewrite Hauth; by apply reloaded_rules|done|].
  intros unix s fs name. rewrite !turn_password_lookup. cbn [w_auth].
  destruct (Husers name) as [u v (_ & -> & _ & -> & _)|]; done.
Qed.

(** A user listed under an API key authenticates with the empty password:
    whatever password the users section gives that name, start-up replaces the
    account by one whose password is empty and which never expires. *)
Theorem api_key_user_empty_password `{HO : HashOrder} `{PK : Pki} `{TO : Toml} env w run w' key name :
  main env w = Ret (Ok run, w') →
  cfg_api_keys (auth (startup_config env (tw_fs w))) !! key = Some name →
  users (run_auth run) !! name = Some (api_key_user name) ∧
  (∀ unix, get_password_for_user unix (run_server run) name = Some "") ∧
  (∀ k, authenticate_api_key (run_auth run) k = None).
Proof.
  intros (tls & dtls & ls & _ & _ & Ha & Hs & _)%main_Ok Hk.
  assert (Hu : users (run_auth run) !! name = Some (api_key_user name)) by (rewrite Ha; by eapply fill_auth_api).
  split_and!; [done| |].
  - intros unix. rewrite Hs. unfold get_password_for_user, get_user_password. cbn. by rewrite Hu.
  - intros k. unfold authenticate_api_key. rewrite Ha.
    assert (Hu2 : ∀ l am, api_keys (fold_left (λ am u, add_user u am) l am) = api_keys am)
      by (induction l; intros am; [done|by cbn; rewrite IHl]).
    assert (Hr2 : ∀ l am, api_keys (fold_left (λ am r, add_acl_rule (rule_of_config r) am) l am) = api_keys am)
      by (induction l; intros am; [done|by cbn; rewrite IHl]).
    unfold fill_auth. by rewrite Hr2, fold_names_users, !Hu2.
Qed.

(** Everybody has a password: [main] gives the server the fixed global
    password, and a name that is in no table authenticates with it.  In every
    state that differs from the started server in its nonces alone, a message
    with a live nonce, an unknown user name and the MAC under the key of that
    name and the password [password] is accepted. *)
Theorem unknown_user_default_password `{CR : Crypto} `{CL : !CryptoLaws} `{HO : HashOrder} `{PK : Pki} `{TO : Toml}
    env w run w' menv msg client nonces na ua mi entry :
  main env w = Ret (Ok run, w') →
  let s := set_nonces nonces (run_server run) in
  let name := from_utf8_lossy (value ua) in
  users (run_auth run) !! name = None → check_acl (run_auth run) (ip_string (sa_ip client)) = true →
  get_attribute msg NONCE = Some na → get_attribute msg USERNAME = Some ua →
  get_attribute msg MESSAGE_INTEGRITY = Some mi →
  nonces !! from_utf8_lossy (value na) = Some entry → as_secs (elapsed (env_now menv) (nonce_created_at entry)) ≤ 600 →
  take 20 (value mi) = hmac_sha1 (compute_message_integrity_key name (srv_realm s) "password")
    (integrity_input (StunMessage.header msg) (attrs_before_integrity (attributes msg))) →
  verify_turn_auth menv msg client s = Ret (Ok name, s).
Proof.
  intros (tls & dtls & ls & _ & _ & Ha & Hs & _)%main_Ok s name Hu Hacl Hna Hua Hmi Hn Ht Hmac.
  apply verify_turn_auth_ok; [unfold s; by rewrite Hs|]. split; [|done].
  assert (Ham : auth_manager s = Some (run_auth run)) by (unfold s; by rewrite Hs).
  split; [unfold acl_allows; by rewrite Ham|]. exists na, ua, entry, "password", mi.
  assert (Hpw : get_password_for_user (env_unix menv) s name = Some "password").
  { unfold get_password_for_user. rewrite Ham. unfold get_user_password. rewrite Hu. simpl_bind.
    assert (E : srv_password s = "password") by (unfold s; by rewrite Hs). by rewrite E. }
  by split_and!.
Qed.

(** Saving over a configuration that does not load replaces it: the file
    then has the current users and rules, and for everything else the
    defaults, so that the next start has no admin interface, no certificates
    and the default realm, ports and listeners. *)
Theorem unloadable_config_overwritten `{HO : HashOrder} `{TL : TomlLaws} env st path w :
  app_config_path st = Some path → adm_write env = Written →
  Config_load (adm_readable env) path (w_fs w) = None →
  is_Some (to_string_pretty (config_to_save env path w)) →
  ∃ c, Config_load true path (w_fs (save_config env st w).2) = Some c ∧
    Config.server c = Config.server Config_default ∧ http c = None ∧ certificates c = None ∧
    cfg_users (auth c) = map config_of_user (list_users (w_auth w)).
Proof.
  intros Hp Hw Hl Hs. exists (absent_defaults (config_to_save env path w)).
  split; [by apply saved_config|]. unfold config_to_save. rewrite Hl. by destruct (w_fs w !! path).
Qed.

(** ** Witnesses *)

Definition file_config (keys : gmap string string) (us : list UserConfig) : Config :=
  mkConfig (mkServerConfig "realm" "203.0.113.5" None 50000 50009 [mkListen "udp" "0.0.0.0:3478"] None None None
      30 true default_server_name true true)
    (Some HttpConfig_default) None (mkAuthConfig us keys [mkRuleConfig "0.0.0.0/0" "Allow" (Some 0)])
    LogConfig_default.
Definition alice_config : UserConfig := mkUserConfig "alice" "pw" "fixed" None (Some 10) None None None.
(** Listeners of every kind and one of an unknown protocol, with a local certificate. *)
Definition listeners_config : Config :=
  mkConfig (mkServerConfig "realm" "203.0.113.5" None 50000 50009
      [mkListen "tls" "0.0.0.0:5349"; mkListen "udp" "0.0.0.0:3478"; mkListen "quic" "0.0.0.0:1";
       mkListen "dtls" "0.0.0.0:5349"; mkListen "tcp" "0.0.0.0:3478"]
      None None None 30 true default_server_name true true)
    None (Some (mkCertConfig "local" (Some "cert.pem") (Some "key.pem") [] None None None None None None None None
                  None None None)) (mkAuthConfig [] ∅ []) LogConfig_default.
Definition started_toml : Toml :=
  toy_toml [("plain", file_config ∅ [alice_config]); ("keys", file_config {["key1" := "alice"]} [alice_config]);
            ("listeners", listeners_config); ("saved", file_config ∅ []); ("default", set_auth_config (mkAuthConfig [] ∅ []) Config_default)].
Lemma started_toml_laws : @TomlLaws started_toml.
Proof.
  apply toy_tables_laws.
  - apply (bool_decide_unpack _). vm_compute. exact I.
  - by repeat constructor.
Qed.

Definition start_env : StartEnv :=
  mkStartEnv None true 0 (λ _, 1000) (mkTlsEnv 0 (Ok tt) Written Written (Err "refused"))
    (mkAcmeEnv (λ _, Ok tt) (λ _ _, Ok []) Written (λ _, Err "no order") (λ _, Ok tt)).
Definition file_world (text : string) : TlsWorld := mkTlsWorld {["miuturn.toml" := str_bytes text]} ∅.
Definition started (text : string) : Running :=
  match @main map_order toy_pki started_toml start_env (file_world text) with
  | Ret (Ok run, _) => run
  | _ => mkRunning (build_server 0 Config_default) (AuthManager_new "") [] None
  end.

Lemma started_auth_ok : auth_ok (run_auth (started "plain")).
Proof.
  assert (E : @main map_order toy_pki started_toml start_env (file_world "plain") =
    Ret (Ok (started "plain"), file_world "plain")) by (vm_compute; reflexivity).
  apply main_Ok in E as (tls & dtls & ls & _ & _ & -> & _). apply fill_auth_ok, auth_ok_new.
Qed.

Lemma startup_consistent_witness :
  @main map_order toy_pki started_toml start_env (file_world "plain") = Ret (Ok (started "plain"), file_world "plain") ∧
  srv_ok (run_server (started "plain")) ∧ run_listeners (started "plain") = [RunUdp (SaV4 (mkIpv4 0 0 0 0) 3478)].
Proof.
  assert (E : @main map_order toy_pki started_toml start_env (file_world "plain") =
    Ret (Ok (started "plain"), file_world "plain")) by (vm_compute; reflexivity).
  split; [exact E|]. split; [|vm_compute; reflexivity].
  apply (@startup_consistent toy_crypto map_order toy_pki started_toml start_env (file_world "plain") _ (file_world "plain"));
    [vm_compute; discriminate|vm_compute; reflexivity|exact E].
Defined.

Lemma startup_outcomes_witness :
  let w := mkTlsWorld {["miuturn.toml" := str_bytes "listeners"; "cert.pem" := str_bytes "chain";
                        "key.pem" := str_bytes "key"]} ∅ in
  ∃ r w' run,
    @certificates_outcome toy_pki start_env listeners_config w r w' ∧
    @main map_order toy_pki started_toml start_env w = Ret (Ok run, w') ∧
    List.length (run_listeners run) = 4%nat.
Proof.
  intros w. destruct (@startup_outcomes map_order toy_pki started_toml start_env w) as (r & w' & Hc & H).
  assert (E : @startup_config started_toml start_env (tw_fs w) = listeners_config) by (vm_compute; reflexivity).
  rewrite E in Hc, H. exists r, w'. destruct r as [[tls dtls]|e].
  - destruct H as [_ H]. destruct H as (run & Hm & Hl).
    + repeat constructor; vm_compute; eexists; reflexivity.
    + exists run. split_and!; [exact Hc|exact Hm|]. by apply Forall2_length in Hl as <-.
  - exfalso. vm_compute in H. discriminate H.
Defined.

Lemma api_key_user_empty_password_witness :
  get_password_for_user 0 (run_server (started "plain")) "alice" = Some "pw" ∧
  get_password_for_user 0 (run_server (started "keys")) "alice" = Some "".
Proof.
  split; [vm_compute; reflexivity|].
  apply (@api_key_user_empty_password map_order toy_pki started_toml start_env (file_world "keys") _ (file_world "keys") "key1" "alice");
    vm_compute; reflexivity.
Defined.

Definition stranger_attrs : list Attribute :=
  [mkAttr USERNAME (str_bytes "mallory"); mkAttr REALM (str_bytes "realm"); mkAttr NONCE (str_bytes "n")].
Definition stranger_request : Message :=
  match @add_response_message_integrity toy_crypto (request Allocate stranger_attrs)
          (@compute_message_integrity_key toy_crypto "mallory" "realm" "password") with
  | Ret r => r
  | Panic => request Allocate []
  end.

Lemma unknown_user_default_password_witness :
  let s := set_nonces {["n" := mkNonce "n" 0]} (run_server (started "plain")) in
  @verify_turn_auth toy_crypto ServerSpec.sample_env stranger_request local_peer s = Ret (Ok "mallory", s).
Proof.
  intros s.
  apply (@unknown_user_default_password toy_crypto toy_laws map_order toy_pki started_toml start_env (file_world "plain")
    (started "plain") (file_world "plain") ServerSpec.sample_env stranger_request local_peer {["n" := mkNonce "n" 0]}
    (mkAttr NONCE (str_bytes "n")) (mkAttr USERNAME (str_bytes "mallory"))
    (mkAttr MESSAGE_INTEGRITY (@hmac_sha1 toy_crypto (@compute_message_integrity_key toy_crypto "mallory" "realm" "password")
       (integrity_input (StunMessage.header (request Allocate [])) stranger_attrs))) (mkNonce "n" 0));
    try (vm_compute; reflexivity); vm_compute; discriminate.
Defined.

Lemma unloadable_config_overwritten_witness :
  let st := create_admin_routes None None false None 3600 None (Some "miuturn.toml") "" [] [] false in
  let w := mkWorld (AuthManager_new "realm") {["miuturn.toml" := str_bytes "[http"]} in
  ∃ c, @Config_load started_toml true "miuturn.toml" (w_fs (@save_config map_order started_toml AdminSpec.sample_env st w).2)
         = Some c ∧ cfg_realm (Config.server c) = "miuturn" ∧ http c = None.
Proof.
  intros st w.
  destruct (@unloadable_config_overwritten map_order started_toml started_toml_laws AdminSpec.sample_env st "miuturn.toml" w)
    as (c & E & Hs & Hh & _); [reflexivity|reflexivity|vm_compute; reflexivity| |].
  - vm_compute. eexists. reflexivity.
  - exists c. split; [exact E|]. rewrite Hs. split; [reflexivity|exact Hh].
Defined.

Lemma admin_changes_survive_restart_witness :
  let st := create_admin_routes None None false None 3600 None (Some "miuturn.toml") "" [] [] false in
  let w := mkWorld (run_auth (started "plain")) {["miuturn.toml" := str_bytes "plain"]} in
  let req := mkRequest local_peer None None ∅ (DeleteUser {["username" := "alice"]}) in
  ∃ r w' run tw,
    @serve toy_crypto map_order started_toml AdminSpec.sample_env st req w = Ret (r, w') ∧
    @main map_order toy_pki started_toml start_env (mkTlsWorld (w_fs w') ∅) = Ret (Ok run, tw) ∧
    acl_rules (run_auth run) = acl_rules (w_auth w') ∧
    turn_password 0 AdminSpec.sample_server (mkWorld (run_auth run) ∅) "alice" = turn_password 0 AdminSpec.sample_server w' "alice".
Proof.
  intros st w req.
  destruct (@serve toy_crypto map_order started_toml AdminSpec.sample_env st req w) as [[r w']|] eqn:E;
    [|exfalso; vm_compute in E; discriminate].
  destruct (@main map_order toy_pki started_toml start_env (mkTlsWorld (w_fs w') ∅)) as [[[run|e] tw]|] eqn:Em.
  - exists r, w', run, tw. split; [reflexivity|]. split; [exact Em|].
    assert (Ea : w_auth w' = remove_user "alice" (w_auth w)).
    { vm_compute in E. injection E as <- <-. vm_compute. reflexivity. }
    destruct (@admin_changes_survive_restart toy_crypto map_order toy_pki started_toml started_toml_laws
      AdminSpec.sample_env st req w r w' start_env ∅ run tw "miuturn.toml") as (H1 & _ & H2); try reflexivity.
    + apply started_auth_ok.
    + exact E.
    + rewrite Ea. vm_compute. eexists. reflexivity.
    + exact Em.
    + split; [exact H1|apply H2].
  - exfalso. vm_compute in E. injection E as <- <-. vm_compute in Em. discriminate.
  - exfalso. vm_compute in E. injection E as <- <-. vm_compute in Em. discriminate.
Defined.
