(* ===== verification/AdminRace.v ===== *)
(** * Concurrent changes through the admin interface (src/health.rs, [save_config])

    Admin runs a handler in one step.  In the program two changes run on two
    threads: each table operation takes its lock by itself, [save_config] lists
    the users, lists the rules, loads the file and writes it without a lock over
    them, and [std::fs::write] truncates the file before it fills it.  Here a
    change is a [job], the sequence of these steps; [run_job] runs one with
    nothing in between and is shown to be the handler's effect.  Writes that fail
    are in Admin; here they succeed. *)

From S2P Require Import Prelude RustStd RustText Serde Config Crypto Auth Admin AdminSpec.
Local Open Scope Z_scope.

Section admin_race.
Context `{HO : HashOrder} `{TO : Toml}.

(** ** One change *)

(** The table operations still to do; then the save, with what it has collected. *)
Inductive job :=
| Change (ops : list (AuthManager → AuthManager))
| ListUsers
| ListRules (us : list UserConfig)
| LoadBase (us : list UserConfig) (rs : list AclRuleConfig)
| Truncate (text : string)
| Fill (text : string)
| Finished.

(** The table operations of a call, in the order of its handler. *)
Definition call_ops (env : AdminEnv) (c : Call) : list (AuthManager → AuthManager) :=
  match c with
  | PutUser r =>
    [remove_user (uu_username r);
     add_user (mkUser (uu_username r) (default "" (uu_password r)) (user_type_of (uu_user_type r)) (adm_unix env)
       (uu_expires_at r) (default 10 (uu_max_allocations r)) (uu_bandwidth_limit r)
       (uu_ip_whitelist r) (uu_max_allocation_duration_secs r))]
  | PutAcl r =>
    [remove_acl_rule (ua_original_ip_range r) (ua_original_priority r);
     add_acl_rule (mkRule (ua_ip_range r) (action_of (ua_action r)) (ua_priority r))]
  | _ => [call_effect env c]
  end.

(** The file with what [write_all] puts at its start. *)
Definition fill_file (text : string) (old : list Z) : list Z :=
  str_bytes text ++ drop (length (str_bytes text)) old.

Definition base_config (env : AdminEnv) (path : string) (fs : FileSystem) : Config :=
  match fs !! path with
  | Some _ => match Config_load (adm_readable env) path fs with Some c => c | None => Config_default end
  | None => Config_default
  end.

(** The next step of a job; a job whose save cannot be serialised ends there. *)
Definition job_step (env : AdminEnv) (st : AppState) (j : job) (w : World) : job * World :=
  match app_config_path st, j with
  | _, Change (f :: ops) => (Change ops, set_auth (f (w_auth w)) w)
  | Some path, Change [] => (ListUsers, w)
  | Some path, ListUsers => (ListRules (map config_of_user (list_users (w_auth w))), w)
  | Some path, ListRules us => (LoadBase us (map config_of_rule (list_acl_rules (w_auth w))), w)
  | Some path, LoadBase us rs =>
    let base := base_config env path (w_fs w) in
    (match to_string_pretty (set_auth_config (mkAuthConfig us (cfg_api_keys (auth base)) rs) base) with
     | Some text => Truncate text
     | None => Finished
     end, w)
  | Some path, Truncate text => (Fill text, mkWorld (w_auth w) (<[path := []]> (w_fs w)))
  | Some path, Fill text =>
    (Finished, mkWorld (w_auth w) (<[path := fill_file text (default [] (w_fs w !! path))]> (w_fs w)))
  | _, _ => (Finished, w)
  end.

Fixpoint run_job (fuel : nat) (env : AdminEnv) (st : AppState) (j : job) (w : World) : job * World :=
  match fuel with
  | O => (j, w)
  | S fuel => let '(j, w) := job_step env st j w in run_job fuel env st j w
  end.

(** ** Many changes *)

(** A schedule: which job takes how many steps next. *)
Definition run_turn (env : AdminEnv) (st : AppState) (turn : nat * nat) (x : list job * World) : list job * World :=
  match x.1 !! turn.1 with
  | Some j => let '(j, w) := run_job turn.2 env st j x.2 in (<[turn.1 := j]> x.1, w)
  | None => x
  end.
Definition run_schedule (env : AdminEnv) (st : AppState) (schedule : list (nat * nat)) (x : list job * World)
    : list job * World :=
  foldl (λ x turn, run_turn env st turn x) x schedule.

(** ** Lemmas *)

Lemma call_ops_effect env c am : foldl (λ am f, f am) am (call_ops env c) = call_effect env c am.
Proof. by destruct c. Qed.

Lemma run_ops fuel env st ops w :
  run_job (length ops + fuel) env st (Change ops) w =
  run_job fuel env st (Change []) (set_auth (foldl (λ am f, f am) (w_auth w) ops) w).
Proof.
  revert w. induction ops as [|f ops IH]; intros w; [by destruct w|]. cbn [length Nat.add run_job].
  unfold job_step at 1. destruct (app_config_path st); rewrite IH; reflexivity.
Qed.

(** The turns of two jobs. *)
Section turns.
Context (env : AdminEnv) (st : AppState).

Lemma run_turn_0 n j j' k w w' :
  run_job n env st j w = (j', w') → run_turn env st (0%nat, n) ([j; k], w) = ([j'; k], w').
Proof. intros H. unfold run_turn. cbn -[run_job]. by rewrite H. Qed.
Lemma run_turn_1 n j j' k w w' :
  run_job n env st j w = (j', w') → run_turn env st (1%nat, n) ([k; j], w) = ([k; j'], w').
Proof. intros H. unfold run_turn. cbn -[run_job]. by rewrite H. Qed.

(** Up to the write, the write, and its two halves. *)
Context (path : string).

Lemma prepare f w text :
  app_config_path st = Some path →
  to_string_pretty (config_to_save env path (mkWorld (f (w_auth w)) (w_fs w))) = Some text →
  run_job 5 env st (Change [f]) w = (Truncate text, mkWorld (f (w_auth w)) (w_fs w)).
Proof.
  intros Hp Ht. unfold config_to_save in Ht. cbn [w_auth w_fs] in Ht. fold (base_config env path (w_fs w)) in Ht.
  cbn [run_job]. unfold job_step. rewrite Hp. unfold set_auth. cbn [w_auth w_fs]. by rewrite Ht.
Qed.

Lemma truncates text w :
  app_config_path st = Some path →
  run_job 1 env st (Truncate text) w = (Fill text, mkWorld (w_auth w) (<[path := []]> (w_fs w))).
Proof. intros Hp. cbn [run_job]. unfold job_step. by rewrite Hp. Qed.

Lemma fills text w :
  app_config_path st = Some path →
  run_job 1 env st (Fill text) w =
  (Finished, mkWorld (w_auth w) (<[path := fill_file text (default [] (w_fs w !! path))]> (w_fs w))).
Proof. intros Hp. cbn [run_job]. unfold job_step. by rewrite Hp. Qed.

Lemma writes text w :
  app_config_path st = Some path →
  run_job 2 env st (Truncate text) w = (Finished, mkWorld (w_auth w) (<[path := str_bytes text]> (w_fs w))).
Proof.
  intros Hp. cbn [run_job]. unfold job_step. rewrite Hp. cbn [w_auth w_fs]. rewrite lookup_insert_eq, insert_insert_eq.
  cbn. unfold fill_file. by rewrite drop_nil, app_nil_r.
Qed.

Lemma prepare_truncate f w text :
  app_config_path st = Some path →
  to_string_pretty (config_to_save env path (mkWorld (f (w_auth w)) (w_fs w))) = Some text →
  run_job 6 env st (Change [f]) w = (Fill text, mkWorld (f (w_auth w)) (<[path := []]> (w_fs w))).
Proof.
  intros Hp Ht. unfold config_to_save in Ht. cbn [w_auth w_fs] in Ht. fold (base_config env path (w_fs w)) in Ht.
  cbn [run_job]. unfold job_step. rewrite Hp. unfold set_auth. cbn [w_auth w_fs]. by rewrite Ht.
Qed.
End turns.

(** A truncated file is no configuration. *)
Lemma save_after_truncation env path w td :
  (∀ m, toml_parse EmptyString = Some m → m = ∅) →
  to_string_pretty (set_auth_config (mkAuthConfig (map config_of_user (list_users (w_auth w))) ∅
    (map config_of_rule (list_acl_rules (w_auth w)))) Config_default) = Some td →
  to_string_pretty (config_to_save env path (mkWorld (w_auth w) (<[path := []]> (w_fs w)))) = Some td.
Proof.
  intros He Hd. unfold config_to_save. cbn [w_auth w_fs]. rewrite lookup_insert_eq.
  assert (Config_load (adm_readable env) path (<[path := []]> (w_fs w)) = None) as ->; [|exact Hd].
  unfold Config_load. destruct (negb _); [done|]. rewrite lookup_insert_eq. cbn.
  unfold from_toml. destruct (toml_parse EmptyString) as [m|] eqn:E; [|done]. cbn.
  rewrite (He m eq_refl). by rewrite get_config_by_name.
Qed.

(** ** Properties *)

(** A change that nothing interleaves with is the handler's: after its table
    operations and the six steps of its save, the tables and the files are those
    of [save_config] on the changed tables. *)
Theorem change_alone_is_handler env st c w :
  adm_write env = Written →
  run_job (length (call_ops env c) + 6) env st (Change (call_ops env c)) w =
  (Finished, (save_config env st (set_auth (call_effect env c (w_auth w)) w)).2).
Proof.
  intros Hw. rewrite run_ops, call_ops_effect. set (w1 := set_auth _ w). unfold save_config. rewrite Hw.
  cbn [run_job]. unfold job_step. destruct (app_config_path st) as [path|]; [|done]. unfold Config_save, config_to_save.
  fold (base_config env path (w_fs w1)).
  destruct (to_string_pretty _) as [text|]; [|by destruct w1]. cbn.
  rewrite lookup_insert_eq. cbn. unfold fill_file. rewrite drop_nil, app_nil_r. by rewrite insert_insert_eq.
Qed.

(** An update removes the account before it adds the new one: for a request that
    authenticates in between, the user is an unknown name, whose password is the
    global one. *)
Theorem update_opens_window env st r w :
  ∃ j w', run_job 1 env st (Change (call_ops env (PutUser r))) w = (j, w') ∧
    (∀ unix s, turn_password unix s w' (uu_username r) = global_password s) ∧
    ∀ unix s name, name ≠ uu_username r → turn_password unix s w' name = turn_password unix s w name.
Proof.
  eexists _, _. split; [cbn [run_job call_ops]; unfold job_step; by destruct (app_config_path st)|].
  split; intros unix s; [|intros name Hne]; rewrite !turn_password_lookup; cbn [set_auth w_auth remove_user users].
  - by rewrite lookup_delete_eq.
  - by rewrite lookup_delete_ne.
Qed.

(** Two changes whose writes overlap leave the file of neither: both truncate,
    the later configuration is written first and the earlier one over its start.
    When the earlier text is as long, the file is the one before the second
    change, which was answered as saved; otherwise a rest of the later text
    follows it. *)
Theorem interleaved_saves_tear_file env st path w f g ta tb :
  app_config_path st = Some path →
  to_string_pretty (config_to_save env path (mkWorld (f (w_auth w)) (w_fs w))) = Some ta →
  to_string_pretty (config_to_save env path (mkWorld (g (f (w_auth w))) (w_fs w))) = Some tb →
  let '(js, w') := run_schedule env st [(0, 5); (1, 5); (0, 1); (1, 2); (0, 1)]%nat ([Change [f]; Change [g]], w) in
  js = [Finished; Finished] ∧ w_auth w' = g (f (w_auth w)) ∧
  w_fs w' !! path = Some (str_bytes ta ++ drop (length (str_bytes ta)) (str_bytes tb)).
Proof.
  intros Hp Ha Hb. unfold run_schedule. cbn [foldl].
  rewrite (run_turn_0 _ _ 5 _ _ _ _ _ (prepare env st path f w ta Hp Ha)), (run_turn_1 _ _ 5 _ _ _ _ _ (prepare env st path g (mkWorld (f (w_auth w)) (w_fs w)) tb Hp Hb)).
  rewrite (run_turn_0 _ _ 1 _ _ _ _ _ (truncates env st path ta _ Hp)), (run_turn_1 _ _ 2 _ _ _ _ _ (writes env st path tb _ Hp)).
  rewrite (run_turn_0 _ _ 1 _ _ _ _ _ (fills env st path ta _ Hp)). split; [done|]. split; [done|].
  cbn [w_fs]. by rewrite !lookup_insert_eq.
Qed.

(** A change that loads the file while another has truncated it finds an empty
    document, which is no configuration: it takes the defaults for the server,
    HTTP and certificate sections and writes them over what the file had. *)
Theorem interleaved_saves_reset_config env st path w f g ta td :
  (∀ m, toml_parse EmptyString = Some m → m = ∅) →
  app_config_path st = Some path →
  to_string_pretty (config_to_save env path (mkWorld (f (w_auth w)) (w_fs w))) = Some ta →
  let users := map config_of_user (list_users (g (f (w_auth w)))) in
  let rules := map config_of_rule (list_acl_rules (g (f (w_auth w)))) in
  to_string_pretty (set_auth_config (mkAuthConfig users ∅ rules) Config_default) = Some td →
  let '(js, w') := run_schedule env st [(0, 6); (1, 5); (0, 1); (1, 2)]%nat ([Change [f]; Change [g]], w) in
  js = [Finished; Finished] ∧ w_fs w' !! path = Some (str_bytes td).
Proof.
  intros He Hp Ha users rules Hd. unfold run_schedule. cbn [foldl].
  rewrite (run_turn_0 _ _ 6 _ _ _ _ _ (prepare_truncate env st path f w ta Hp Ha)).
  pose proof (save_after_truncation env path (mkWorld (g (f (w_auth w))) (w_fs w)) td He Hd) as Hb.
  rewrite (run_turn_1 _ _ 5 _ _ _ _ _ (prepare env st path g (mkWorld (f (w_auth w)) (<[path := []]> (w_fs w))) td Hp Hb)).
  rewrite (run_turn_0 _ _ 1 _ _ _ _ _ (fills env st path ta _ Hp)), (run_turn_1 _ _ 2 _ _ _ _ _ (writes env st path td _ Hp)).
  split; [done|]. cbn [w_fs]. by rewrite lookup_insert_eq.
Qed.
End admin_race.

(** ** Witnesses *)

Definition file_app : AppState :=
  create_admin_routes None None false None 3600 None (Some "miuturn.toml") "" [] [] false.
Definition custom_config : Config :=
  mkConfig (mkServerConfig "example.org" "203.0.113.5" None 50000 50009 [mkListen "udp" "0.0.0.0:3478"] None None None
      30 true default_server_name true true)
    (Some HttpConfig_default) None (mkAuthConfig [] ∅ []) LogConfig_default.
Definition with_rules (c : Config) (ranges : list string) : Config :=
  set_auth_config (mkAuthConfig [] ∅ (map (λ r, mkRuleConfig r "Deny" (Some 0)) ranges)) c.
Definition race_toml : Toml :=
  toy_toml [("custom"%string, custom_config); ("after one"%string, with_rules custom_config ["10.0.0.0/8"%string]);
            ("two"%string, with_rules custom_config ["10.0.0.0/8"; "172.16.0.0/12"]%string);
            ("reset"%string, with_rules Config_default ["10.0.0.0/8"; "172.16.0.0/12"]%string)].
Definition race_world : World := mkWorld (AuthManager_new "r") {["miuturn.toml"%string := str_bytes "custom"]}.
Definition deny (range : string) : AuthManager → AuthManager := add_acl_rule (mkRule range Deny 0).

Lemma change_alone_is_handler_witness :
  @run_job map_order race_toml 7 sample_env file_app (Change [deny "10.0.0.0/8"]) race_world =
  (Finished, (@save_config map_order race_toml sample_env file_app
                (set_auth (deny "10.0.0.0/8" (w_auth race_world)) race_world)).2).
Proof.
  exact (@change_alone_is_handler map_order race_toml sample_env file_app
    (PostAcl (mkAddAcl "10.0.0.0/8" "Deny" 0)) race_world eq_refl).
Defined.

(** Both rules are in force, the file has the first: the second is lost. *)
Lemma interleaved_saves_tear_file_witness :
  let '(js, w') := @run_schedule map_order race_toml sample_env file_app
    [(0, 5); (1, 5); (0, 1); (1, 2); (0, 1)]%nat ([Change [deny "10.0.0.0/8"]; Change [deny "172.16.0.0/12"]], race_world) in
  js = [Finished; Finished] ∧ length (acl_rules (w_auth w')) = 2%nat ∧
  w_fs w' !! "miuturn.toml"%string = Some (str_bytes "after one").
Proof.
  pose proof (@interleaved_saves_tear_file map_order race_toml sample_env file_app "miuturn.toml" race_world
    (deny "10.0.0.0/8") (deny "172.16.0.0/12") "after one" "two" eq_refl) as H.
  assert (Ha : @to_string_pretty race_toml (@config_to_save map_order race_toml sample_env "miuturn.toml"
    (mkWorld (deny "10.0.0.0/8" (w_auth race_world)) (w_fs race_world))) = Some "after one"%string)
    by (vm_compute; reflexivity).
  assert (Hb : @to_string_pretty race_toml (@config_to_save map_order race_toml sample_env "miuturn.toml"
    (mkWorld (deny "172.16.0.0/12" (deny "10.0.0.0/8" (w_auth race_world))) (w_fs race_world))) = Some "two"%string)
    by (vm_compute; reflexivity).
  specialize (H Ha Hb). destruct (run_schedule _ _ _ _) as [js w']. destruct H as (Hj & Hw & Hf).
  split; [exact Hj|]. split; [rewrite Hw; vm_compute; reflexivity|exact Hf].
Defined.

(** The realm, the ports and the HTTP section of the file are gone. *)
Lemma interleaved_saves_reset_config_witness :
  let '(js, w') := @run_schedule map_order race_toml sample_env file_app
    [(0, 6); (1, 5); (0, 1); (1, 2)]%nat ([Change [deny "10.0.0.0/8"]; Change [deny "172.16.0.0/12"]], race_world) in
  @Config_load race_toml true "miuturn.toml" (w_fs w') =
  Some (with_rules Config_default ["10.0.0.0/8"; "172.16.0.0/12"]%string).
Proof.
  pose proof (@interleaved_saves_reset_config map_order race_toml sample_env file_app "miuturn.toml" race_world
    (deny "10.0.0.0/8") (deny "172.16.0.0/12") "after one" "reset") as H.
  assert (He : ∀ m, @toml_parse race_toml EmptyString = Some m → m = ∅) by (intros m; vm_compute; discriminate).
  assert (Ha : @to_string_pretty race_toml (@config_to_save map_order race_toml sample_env "miuturn.toml"
    (mkWorld (deny "10.0.0.0/8" (w_auth race_world)) (w_fs race_world))) = Some "after one"%string)
    by (vm_compute; reflexivity).
  specialize (H He eq_refl Ha). cbv zeta in H.
  assert (Hd : @to_string_pretty race_toml (set_auth_config (mkAuthConfig
      (map config_of_user (@list_users map_order (deny "172.16.0.0/12" (deny "10.0.0.0/8" (w_auth race_world))))) ∅
      (map config_of_rule (list_acl_rules (deny "172.16.0.0/12" (deny "10.0.0.0/8" (w_auth race_world)))))) Config_default)
    = Some "reset"%string) by (vm_compute; reflexivity).
  specialize (H Hd). destruct (run_schedule _ _ _ _) as [js w']. destruct H as [_ Hf].
  unfold Config_load. rewrite Hf. vm_compute. reflexivity.
Defined.
