(* ===== verification/UnitTests.v ===== *)
(** * The unit tests of the allocation module (src/allocation.rs, [mod tests])

    The crate's own tests, translated line by line and run on the model.  A
    test is a program over the environment it runs in (the random state of
    [port_rand], the clock, the process id and the counter of the test port
    ranges) that panics when an assertion fails; locals that a test mutates
    through a shared reference are threaded.  Sleeping advances the clock, and
    every reading of the clock is later than the last.  Binds succeed. *)

From S2P Require Import Prelude RustStd RustText Errors Ports PortRace Channels Bandwidth Alloc.
From stdpp Require Import sorting.
Local Open Scope Z_scope.

(** ** Tests *)

Record TestEnv := mkTestEnv { rand_seed : Z; clock : Z; pid : Z; range_idx : Z }.

Definition test (A : Type) : Type := TestEnv → outcome (A * TestEnv).
#[global] Instance test_ret : MRet test := λ A a e, Ret (a, e).
#[global] Instance test_bind : MBind test := λ A B f m e, '(a, e) ← m e; f a e.

(** A computation of the model inside a test. *)
Definition calls {A} (m : outcome A) : test A := λ e, a ← m; Ret (a, e).
Definition panics {A} : test A := calls Panic.
Definition assert (b : bool) : test unit := if b then mret tt else panics.
Definition assert_eq {A} `{EqDecision A} (x y : A) : test unit := assert (bool_decide (x = y)).
Definition assert_ne {A} `{EqDecision A} (x y : A) : test unit := assert (negb (bool_decide (x = y))).
Definition unwrap {A} (o : option A) : test A := match o with Some a => mret a | None => panics end.
Definition unwrap_ok {A E} (r : result A E) : test A := match r with Ok a => mret a | Err _ => panics end.
Definition unwrap_err {A E} (r : result A E) : test E := match r with Ok _ => panics | Err e => mret e end.
Definition is_some {A} (o : option A) : bool := match o with Some _ => true | None => false end.
Definition is_none {A} (o : option A) : bool := negb (is_some o).
Definition is_err {A E} (r : result A E) : bool := negb (is_ok r).

Definition instant_now : test Z := λ e,
  Ret (clock e, mkTestEnv (rand_seed e) (clock e + 1) (pid e) (range_idx e)).
(** [SystemTime::now()] in seconds: the clock of the tests starts on a day of
    2025. *)
Definition unix_now : test Z := t ← instant_now; mret (1750000000 + as_secs t).
Definition sleep (millis : Z) : test unit := λ e,
  Ret (tt, mkTestEnv (rand_seed e) (clock e + millis * 1000000) (pid e) (range_idx e)).
Definition rand : test Z := λ e,
  let r := port_rand (rand_seed e) (clock e) 0x7ffc8000 in
  Ret (r, mkTestEnv r (clock e) (pid e) (range_idx e)).

(** [for _ in 0..n], and [(0..n).map(..).collect()]: the body threads a state. *)
Fixpoint repeated {S A} (n : nat) (body : S → test (A * S)) (s : S) : test (list A * S) :=
  match n with
  | O => mret ([], s)
  | S n =>
    '(a, s) ← body s;
    '(l, s) ← repeated n body s;
    mret (a :: l, s)
  end.

(** [Vec::dedup] and [slice::windows(2)]. *)
Fixpoint dedup_ports (l : list Z) : list Z :=
  match l with
  | x :: (y :: _) as l => if x =? y then dedup_ports l else x :: dedup_ports l
  | l => l
  end.
Definition windows2 (l : list Z) : list (Z * Z) := zip l (drop 1 l).
Definition sorted (l : list Z) : list Z := merge_sort Z.le l.

(** ["..".parse().unwrap()] *)
Definition addr (s : string) : test SocketAddr := unwrap (parse_socket_addr s).

(** ** What the tests call *)

Definition allocate (pa : PortAllocator) : test (option Z * PortAllocator) :=
  r1 ← rand; r2 ← rand; calls (PortAllocator_allocate r1 r2 [] pa).
Definition allocate_some (pa : PortAllocator) : test (Z * PortAllocator) :=
  '(p, pa) ← allocate pa; p ← unwrap p; mret (p, pa).
Definition release (port : Z) (pa : PortAllocator) : PortAllocator := (PortAllocator_release [] port pa).2.
Definition release_all (ports : list Z) (pa : PortAllocator) : PortAllocator :=
  fold_left (λ pa p, release p pa) ports pa.

Definition Table : Type := AllocationTable PortAllocator.

Definition create_env : test CreateEnv :=
  r1 ← rand; r2 ← rand; nanos ← instant_now; t0 ← instant_now; t1 ← instant_now;
  mret (mkCreateEnv (λ _, mkAttempt r1 r2 [] (Ok tt) []) nanos t0 t1).
Definition create (t : Table) (client : SocketAddr) (life : option Z) : test (result Allocation Error * Table) :=
  env ← create_env; calls (create_allocation env client life t).
Definition create_unwrap (t : Table) (client : SocketAddr) (life : option Z) : test (Allocation * Table) :=
  '(r, t) ← create t client life; a ← unwrap_ok r; mret (a, t).
Definition allocation_expired (a : Allocation) : test bool := now ← instant_now; mret (Allocation_is_expired now a).

Definition bind (id : Z) (peer relayed : SocketAddr) (ch : ChannelTable) : test (result unit Error * ChannelTable) :=
  now ← instant_now; mret (ChannelTable_bind now id peer relayed ch).
Definition bind_unwrap (id : Z) (peer relayed : SocketAddr) (ch : ChannelTable) : test ChannelTable :=
  '(r, ch) ← bind id peer relayed ch; _ ← unwrap_ok r; mret ch.

Definition remove `{HashOrder} (relayed : SocketAddr) (t : Table) (ch : ChannelTable) : Table * ChannelTable :=
  let '(_, ch', t) := remove_allocation [] relayed (Some ch) t in
  (t, match ch' with Some ch => ch | None => ch end).

(** ** The test port ranges *)

Definition alloc_test_port_range : test (Z * Z) := λ e,
  let RANGE_SIZE := 64 in
  let BASE_PORT := 40000 in
  let WINDOW := 9000 in
  let SLOT_COUNT := WINDOW / RANGE_SIZE in
  let idx := range_idx e in
  let slot := as_u16 (as_u16 (as_u16 (pid e) * 131) + idx) mod SLOT_COUNT in
  let min := BASE_PORT + slot * RANGE_SIZE in
  Ret ((min, min + RANGE_SIZE - 1), mkTestEnv (rand_seed e) (clock e) (pid e) (as_u16 (idx + 1))).

(** The table most tests start from. *)
Definition test_table (max_conc : option Z) : test Table :=
  '(min_port, max_port) ← alloc_test_port_range;
  now ← instant_now;
  mret (with_port_range now (mkIpv4 127 0 0 1) "test" min_port max_port max_conc None).

(** ** The port allocator *)

Definition test_port_allocator : test unit :=
  let allocator := PortAllocator_new 49152 50000 in
  '(ports, allocator) ← repeated 10 allocate_some allocator;
  _ ← assert_eq (PortAllocator_allocated_count allocator) 10;
  let released_port := nth 5 ports 0 in
  let allocator := release released_port allocator in
  _ ← assert_eq (PortAllocator_allocated_count allocator) 9;
  '(new_port, allocator) ← allocate_some allocator;
  _ ← assert ((49152 <=? new_port) && (new_port <=? 50000));
  _ ← assert_eq (PortAllocator_allocated_count allocator) 10;
  _ ← assert (PortAllocator_is_allocated allocator (nth 0 ports 0));
  assert (PortAllocator_is_allocated allocator new_port).

Definition test_port_allocator_randomized : test unit :=
  let allocator := PortAllocator_new 49152 49352 in
  '(ports, _) ← repeated 50 allocate_some allocator;
  let ascending_count := length (filter (λ w, w.1 < w.2 ∧ as_u16 (w.2 - w.1) < 3) (windows2 ports)) in
  assert (bool_decide (ascending_count < length ports)%nat).

Definition test_port_allocator_exhaustive_no_duplicates : test unit :=
  let allocator := PortAllocator_new 50000 50031 in
  '(ports, allocator) ← repeated 32 allocate_some allocator;
  let ports := dedup_ports (sorted ports) in
  _ ← assert_eq (length ports) 32%nat;
  p0 ← unwrap (ports !! 0%nat); _ ← assert_eq p0 50000;
  p31 ← unwrap (ports !! 31%nat); _ ← assert_eq p31 50031;
  '(more, _) ← allocate allocator;
  assert (is_none more).

Definition test_port_allocator_respects_range : test unit :=
  let allocator := PortAllocator_new 40000 40009 in
  '(ports, _) ← repeated 10 allocate_some allocator;
  assert (forallb (λ p, (40000 <=? p) && (p <=? 40009)) ports).

Definition test_port_allocator_release_reuse_varies : test unit :=
  let allocator := PortAllocator_new 45000 45200 in
  '(ports, allocator) ← repeated 20 allocate_some allocator;
  let allocator := release_all (take 10 ports) allocator in
  '(new_ports, allocator) ← repeated 10 allocate_some allocator;
  assert_eq (PortAllocator_allocated_count allocator) 20.

(** The threads of the concurrent test as threads of PortRace: each scheduling
    turn runs one step of a thread drawn at random, or starts its next of 50
    calls; [fuel] turns. *)
Record Joined := mkJoined { race : Race; calls_left : list nat; result_ports : list Z; alloc_errors : Z }.

#[global] Instance pc_eq_dec : EqDecision pc.
Proof. solve_decision. Defined.

Definition collect (a : option answer) (j : Joined) (r : Race) (left : list nat) : Joined :=
  match a with
  | Some (Allocated (Some port)) => mkJoined r left (result_ports j ++ [port]) (alloc_errors j)
  | Some (Allocated None) => mkJoined r left (result_ports j) (alloc_errors j + 1)
  | _ => mkJoined r left (result_ports j) (alloc_errors j)
  end.

Definition thread_turn (i : nat) (j : Joined) : test Joined :=
  match threads (race j) !! i, calls_left j !! i with
  | Some Idle, Some (S n) =>
    r1 ← rand; r2 ← rand;
    '(a, r) ← unwrap (race_exec (race j) (PortRace.Allocate i r1 r2));
    mret (collect a j r (<[i := n]> (calls_left j)))
  | Some Idle, _ => mret j
  | _, _ =>
    '(a, r) ← unwrap (race_exec (race j) (Run i false));
    mret (collect a j r (calls_left j))
  end.

Fixpoint join_threads (fuel : nat) (j : Joined) : test Joined :=
  if bool_decide (calls_left j = [0; 0; 0; 0]%nat ∧ threads (race j) = [Idle; Idle; Idle; Idle]) then mret j else
  match fuel with
  | O => panics
  | S fuel => r ← rand; j ← thread_turn (Z.to_nat (r mod 4)) j; join_threads fuel j
  end.

Definition test_port_allocator_concurrent_no_duplicates : test unit :=
  let allocator := PortAllocator_new 50000 50199 in
  j ← join_threads 2000 (mkJoined (mkRace allocator ∅ [Idle; Idle; Idle; Idle]) [50; 50; 50; 50]%nat [] 0);
  let ports := result_ports j in
  _ ← assert_eq (length ports) 200%nat;
  _ ← assert_eq (alloc_errors j) 0;
  assert_eq (length (dedup_ports (sorted ports))) 200%nat.

Definition test_port_allocator_full : test unit :=
  let allocator := PortAllocator_new 60000 60005 in
  '(ports, allocator) ← repeated 6 allocate_some allocator;
  _ ← assert_eq (PortAllocator_allocated_count allocator) 6;
  '(more, allocator) ← allocate allocator;
  _ ← assert (is_none more);
  let allocator := release_all ports allocator in
  '(again, _) ← allocate allocator;
  assert (is_some again).

(** ** Allocations and channels *)

Definition test_allocation_table_create : test unit :=
  table ← test_table None;
  client ← addr "192.168.1.1:12345";
  '(alloc, _) ← create_unwrap table client (Some 600);
  expired ← allocation_expired alloc;
  assert (negb expired).

Definition test_allocation_expired : test unit :=
  table ← test_table None;
  client ← addr "192.168.1.1:12345";
  '(alloc, _) ← create_unwrap table client (Some 0);
  _ ← sleep 10;
  expired ← allocation_expired alloc;
  assert expired.

Definition test_channel_binding : test unit :=
  let table := ChannelTable_new in
  client ← addr "192.168.1.1:12345";
  relayed ← addr "10.0.0.1:49152";
  table ← bind_unwrap 0x4000 client relayed table;
  ch ← unwrap (get_by_channel table relayed 0x4000);
  assert_eq (cb_peer_addr ch) client.

Definition test_channel_binding_same_channel_allowed_across_allocations : test unit :=
  let table := ChannelTable_new in
  peer1 ← addr "192.168.1.1:12345";
  peer2 ← addr "192.168.1.2:23456";
  relayed1 ← addr "10.0.0.1:49152";
  relayed2 ← addr "10.0.0.1:49153";
  table ← bind_unwrap 0x4002 peer1 relayed1 table;
  table ← bind_unwrap 0x4002 peer2 relayed2 table;
  ch1 ← unwrap (get_by_channel table relayed1 0x4002);
  _ ← assert_eq (cb_peer_addr ch1) peer1;
  ch2 ← unwrap (get_by_channel table relayed2 0x4002);
  assert_eq (cb_peer_addr ch2) peer2.

Definition test_channel_binding_refresh_same_peer_succeeds : test unit :=
  let table := ChannelTable_new in
  peer ← addr "192.168.1.1:12345";
  relayed ← addr "10.0.0.1:49152";
  table ← bind_unwrap 0x4000 peer relayed table;
  ch1 ← unwrap (get_by_channel table relayed 0x4000);
  _ ← sleep 10;
  table ← bind_unwrap 0x4000 peer relayed table;
  ch2 ← unwrap (get_by_channel table relayed 0x4000);
  _ ← assert_eq (cb_peer_addr ch2) peer;
  assert (cb_created_at ch1 <? cb_created_at ch2).

Definition test_channel_binding_different_peer_fails : test unit :=
  let table := ChannelTable_new in
  peer1 ← addr "192.168.1.1:12345";
  peer2 ← addr "192.168.1.2:23456";
  relayed ← addr "10.0.0.1:49152";
  table ← bind_unwrap 0x4000 peer1 relayed table;
  '(r, _) ← bind 0x4000 peer2 relayed table;
  assert (is_err r).

Definition test_max_concurrent_allocations_limit : test unit :=
  table ← test_table (Some 2);
  client1 ← addr "192.168.1.1:12345";
  client2 ← addr "192.168.1.2:12345";
  client3 ← addr "192.168.1.3:12345";
  '(_, table) ← create_unwrap table client1 (Some 600);
  '(_, table) ← create_unwrap table client2 (Some 600);
  '(result, _) ← create table client3 (Some 600);
  _ ← assert (is_err result);
  e ← unwrap_err result;
  assert (match e with Errors.AllocationQuotaReached => true | _ => false end).

Definition test_allocation_advertises_external_ip_when_bind_ip_differs : test unit :=
  '(min_port, max_port) ← alloc_test_port_range;
  now ← instant_now;
  let table := with_port_range_and_bind_addr now (mkIpv4 203 0 113 10) (mkIpv4 127 0 0 1) "test"
                 min_port max_port None None in
  client ← addr "192.168.1.10:12345";
  '(allocation, _) ← create_unwrap table client (Some 600);
  assert_eq (sa_ip (relayed_addr allocation)) (IpV4 (mkIpv4 203 0 113 10)).

Section tables.
Context `{HO : HashOrder}.

Definition test_port_reuse_after_removal : test unit :=
  table ← test_table None;
  let channel_table := ChannelTable_new in
  client1 ← addr "192.168.1.1:12345";
  '(alloc1, table) ← create_unwrap table client1 (Some 600);
  let port1 := sa_port (relayed_addr alloc1) in
  _ ← assert (PortAllocator_is_allocated (port_allocator table) port1);
  let relayed_addr := relayed_addr alloc1 in
  let '(table, _) := remove relayed_addr table channel_table in
  _ ← assert (negb (PortAllocator_is_allocated (port_allocator table) port1));
  let '(allocated, available) := port_stats table in
  _ ← assert_eq allocated 0;
  assert (0 <? available).

Definition test_channel_bindings_cleaned_on_allocation_removal : test unit :=
  table ← test_table None;
  let channel_table := ChannelTable_new in
  client ← addr "192.168.1.1:12345";
  peer ← addr "10.0.0.2:5000";
  '(alloc1, table) ← create_unwrap table client (Some 600);
  let relayed_addr := relayed_addr alloc1 in
  channel_table ← bind_unwrap 0x4000 peer relayed_addr channel_table;
  _ ← assert (is_some (get_by_channel channel_table relayed_addr 0x4000));
  _ ← assert_eq (ChannelTable_len channel_table) 1;
  let '(table, channel_table) := remove relayed_addr table channel_table in
  _ ← assert (is_none (get_by_channel channel_table relayed_addr 0x4000));
  assert_eq (ChannelTable_len channel_table) 0.

Definition test_port_reuse_channel_bind_no_conflict : test unit :=
  table ← test_table None;
  let channel_table := ChannelTable_new in
  client ← addr "192.168.1.1:12345";
  old_peer ← addr "10.0.0.2:5000";
  new_peer ← addr "10.0.0.3:6000";
  '(alloc1, table) ← create_unwrap table client (Some 600);
  let relayed1 := relayed_addr alloc1 in
  channel_table ← bind_unwrap 0x4005 old_peer relayed1 channel_table;
  let '(table, channel_table) := remove relayed1 table channel_table in
  _ ← sleep 100;
  '(alloc2, table) ← create_unwrap table client (Some 600);
  let relayed2 := relayed_addr alloc2 in
  '(result, channel_table) ← bind 0x4005 new_peer relayed2 channel_table;
  _ ← assert (is_ok result);
  binding ← unwrap (get_by_channel channel_table relayed2 0x4005);
  assert_eq (cb_peer_addr binding) new_peer.

Definition test_cleanup_expired_also_cleans_channels : test unit :=
  table ← test_table None;
  let channel_table := ChannelTable_new in
  client1 ← addr "192.168.1.1:12345";
  client2 ← addr "192.168.1.1:12346";
  peer ← addr "10.0.0.2:5000";
  '(alloc_expired, table) ← create_unwrap table client1 (Some 0);
  '(alloc_active, table) ← create_unwrap table client2 (Some 600);
  let relayed_expired := relayed_addr alloc_expired in
  let relayed_active := relayed_addr alloc_active in
  channel_table ← bind_unwrap 0x4000 peer relayed_expired channel_table;
  channel_table ← bind_unwrap 0x4001 peer relayed_active channel_table;
  _ ← assert_eq (ChannelTable_len channel_table) 2;
  _ ← sleep 10;
  now ← instant_now;
  let '(removed, ch, table) := cleanup_expired now [] (Some channel_table) table in
  channel_table ← unwrap ch;
  _ ← assert_eq removed 1;
  _ ← assert (is_none (get_by_channel channel_table relayed_expired 0x4000));
  _ ← assert (is_some (get_by_channel channel_table relayed_active 0x4001));
  assert_eq (ChannelTable_len channel_table) 1.

Definition test_realloc_same_client_removes_old : test unit :=
  table ← test_table None;
  let channel_table := ChannelTable_new in
  client ← addr "192.168.1.1:12345";
  '(alloc1, table) ← create_unwrap table client (Some 600);
  let '(table, channel_table) := match find_allocation_by_client table client with
                                 | Some old_relayed => remove old_relayed table channel_table
                                 | None => (table, channel_table)
                                 end in
  _ ← sleep 100;
  '(alloc2, table) ← create_unwrap table client (Some 600);
  let relayed2 := relayed_addr alloc2 in
  let found := find_allocation_by_client table client in
  _ ← assert_eq found (Some relayed2);
  _ ← assert (is_some (get_allocation table relayed2));
  assert_eq (active_allocations (stats table)) 1.

Definition test_channel_table_remove_for_relayed_selective : test unit :=
  let table := ChannelTable_new in
  relayed_a ← addr "10.0.0.1:49152";
  relayed_b ← addr "10.0.0.1:49153";
  peer1 ← addr "10.0.0.2:5000";
  peer2 ← addr "10.0.0.3:5001";
  table ← bind_unwrap 0x4000 peer1 relayed_a table;
  table ← bind_unwrap 0x4001 peer2 relayed_a table;
  table ← bind_unwrap 0x4000 peer1 relayed_b table;
  _ ← assert_eq (ChannelTable_len table) 3;
  let '(removed, table) := remove_for_relayed relayed_a table in
  _ ← assert_eq removed 2;
  _ ← assert_eq (ChannelTable_len table) 1;
  _ ← assert (is_some (get_by_channel table relayed_b 0x4000));
  _ ← assert (is_none (get_by_channel table relayed_a 0x4000));
  assert (is_none (get_by_channel table relayed_a 0x4001)).

Definition test_normalize_peer_addr_for_client_rewrites_only_bind_ip : test unit :=
  relay_bind_addr ← addr "127.0.0.1:49152";
  relayed_addr ← addr "146.56.243.54:49152";
  local_peer ← addr "127.0.0.1:63746";
  external_peer ← addr "129.211.168.132:63746";
  expected ← addr "146.56.243.54:63746";
  _ ← assert_eq (normalize_peer_addr_for_client local_peer relay_bind_addr relayed_addr) expected;
  assert_eq (normalize_peer_addr_for_client external_peer relay_bind_addr relayed_addr) external_peer.

Definition allocation_tests : list (test unit) :=
  [test_port_allocator; test_port_allocator_randomized; test_port_allocator_exhaustive_no_duplicates;
   test_port_allocator_respects_range; test_port_allocator_release_reuse_varies;
   test_port_allocator_concurrent_no_duplicates; test_port_allocator_full;
   test_allocation_table_create; test_allocation_expired; test_channel_binding;
   test_channel_binding_same_channel_allowed_across_allocations;
   test_channel_binding_refresh_same_peer_succeeds; test_channel_binding_different_peer_fails;
   test_max_concurrent_allocations_limit; test_allocation_advertises_external_ip_when_bind_ip_differs;
   test_port_reuse_after_removal; test_channel_bindings_cleaned_on_allocation_removal;
   test_port_reuse_channel_bind_no_conflict; test_cleanup_expired_also_cleans_channels;
   test_realloc_same_client_removes_old; test_channel_table_remove_for_relayed_selective;
   test_normalize_peer_addr_for_client_rewrites_only_bind_ip].
End tables.

(** ** Running them *)

(** A test passes in an environment when it does not panic there. *)
Definition passes (e : TestEnv) (t : test unit) : bool :=
  match t e with Ret _ => true | Panic => false end.

(** Random states at both ends and in the middle, on different clocks. *)
Definition environments : list TestEnv :=
  [mkTestEnv 0 1000000007 1 0; mkTestEnv U64_MAX 5000000000 4242 7; mkTestEnv 88172645463325252 0 65535 65535].

Lemma allocation_tests_pass :
  forallb (λ e, forallb (passes e) (allocation_tests (HO := map_order))) environments = true.
Proof. vm_compute. reflexivity. Qed.
