(* ===== verification/UnitTestsCore.v ===== *)
(** * The unit tests of the smaller modules (src/auth.rs, bandwidth.rs, message.rs, metrics.rs, short_term.rs)

    Translated like those of UnitTests.  The MAC and hex of the credential
    tests are the toy instance of Crypto; a [clone] of a value whose state is
    behind an [Arc] is the same state.  The tests of Debug output are left out. *)

From S2P Require Import Prelude RustStd RustText StunMessage Errors Bandwidth Auth Crypto ShortTerm Metrics UnitTests.
From Stdlib Require Import Ascii.
Local Open Scope Z_scope.

(** ** src/auth.rs *)

Definition authenticates (am : AuthManager) (name pw : string) : test (option User) :=
  now ← unix_now; mret (authenticate now am name pw).

Definition test_auth_manager : test unit :=
  let manager := AuthManager_new "test" in
  let user := mkUser "test" "password" Fixed 0 None 5 None None None in
  let manager := add_user user manager in
  auth_result ← authenticates manager "test" "password";
  assert (is_some auth_result).

Definition test_acl : test unit :=
  let manager := AuthManager_new "test" in
  let allow_rule := mkRule "192.168.1.0/24" Allow 1 in
  let deny_rule := mkRule "10.0.0.0/8" Deny 2 in
  let manager := add_acl_rule deny_rule manager in
  let manager := add_acl_rule allow_rule manager in
  _ ← assert (check_acl manager "192.168.1.100");
  assert (negb (check_acl manager "10.0.0.1")).

Definition test_user_with_bandwidth_limit : test unit :=
  let manager := AuthManager_new "test" in
  let user := mkUser "limited" "pass" Fixed 0 None 5 (Some 1048576) None None in
  let manager := add_user user manager in
  auth_result ← authenticates manager "limited" "pass";
  _ ← assert (is_some auth_result);
  u ← unwrap auth_result;
  assert_eq (bandwidth_limit u) (Some 1048576).

Definition test_user_with_ip_whitelist : test unit :=
  let manager := AuthManager_new "test" in
  let user := mkUser "iprestricted" "pass" Fixed 0 None 5 None
                (Some ["192.168.1.0/24"%string; "10.0.0.1"%string]) None in
  let manager := add_user user manager in
  auth_result ← authenticates manager "iprestricted" "pass";
  _ ← assert (is_some auth_result);
  user ← unwrap auth_result;
  list ← unwrap (ip_whitelist user);
  _ ← assert_eq (List.length list) 2%nat;
  assert (existsb (str_eqb "192.168.1.0/24") list).

Definition test_user_with_max_allocation_duration : test unit :=
  let manager := AuthManager_new "test" in
  let user := mkUser "durationlimited" "pass" Fixed 0 None 5 None None (Some 600) in
  let manager := add_user user manager in
  auth_result ← authenticates manager "durationlimited" "pass";
  _ ← assert (is_some auth_result);
  u ← unwrap auth_result;
  assert_eq (user_max_allocation_duration_secs u) (Some 600).

Definition test_user_with_all_fields : test unit :=
  let manager := AuthManager_new "test" in
  let user := mkUser "fulluser" "pass" Temporary 1234567890 (Some 9999999999) 10 (Some 5242880)
                (Some ["192.168.0.0/16"%string]) (Some 3600) in
  let manager := add_user user manager in
  auth_result ← authenticates manager "fulluser" "pass";
  _ ← assert (is_some auth_result);
  user ← unwrap auth_result;
  _ ← assert_eq (user_type user) Temporary;
  _ ← assert_eq (max_allocations user) 10;
  _ ← assert_eq (bandwidth_limit user) (Some 5242880);
  _ ← assert_eq (user_max_allocation_duration_secs user) (Some 3600);
  assert (is_some (ip_whitelist user)).

Definition auth_tests : list (test unit) :=
  [test_auth_manager; test_acl; test_user_with_bandwidth_limit; test_user_with_ip_whitelist;
   test_user_with_max_allocation_duration; test_user_with_all_fields].

(** ** src/bandwidth.rs *)

Definition consume (size : Z) (l : BandwidthLimiter) : test (option Z * BandwidthLimiter) :=
  now ← instant_now; mret (try_consume now size [] l).
Definition user_relay (size : Z) (t : UserBandwidthTracker) : test (option Z * UserBandwidthTracker) :=
  now ← instant_now; mret (UserBandwidthTracker_try_relay now size [] t).
Definition allocation_relay (size : Z) (t : AllocationBandwidthTracker)
    : test (option Z * AllocationBandwidthTracker) :=
  now ← instant_now; mret (AllocationBandwidthTracker_try_relay now size [] t).
Definition manager_relay (addr : string) (size : Z) (m : BandwidthManager) : test (bool * BandwidthManager) :=
  now ← instant_now; mret (BandwidthManager_try_relay now addr size [] [] m).
Definition manager_register (addr : string) (limit : option Z) (m : BandwidthManager) : test BandwidthManager :=
  now ← instant_now; mret (register_allocation now addr limit m).
Definition new_limiter (rate burst : Z) : test BandwidthLimiter :=
  now ← instant_now; mret (BandwidthLimiter_new now rate burst).
Definition new_manager (limit : option Z) : test BandwidthManager :=
  now ← instant_now; mret (BandwidthManager_new now limit).

Definition test_bandwidth_limiter_basic : test unit :=
  limiter ← new_limiter 1000 5000;
  '(result, limiter) ← consume 3000 limiter;
  _ ← assert (is_some result);
  '(result, limiter) ← consume 2000 limiter;
  _ ← assert (is_some result);
  '(result, limiter) ← consume 100 limiter;
  assert (is_none result).

Definition test_bandwidth_limiter_rate_limiting : test unit :=
  limiter ← new_limiter 1000 1000;
  '(result, limiter) ← consume 1000 limiter;
  _ ← assert (is_some result);
  '(result, limiter) ← consume 100 limiter;
  _ ← assert (is_none result);
  _ ← sleep 100;
  '(result, limiter) ← consume 100 limiter;
  assert (is_some result).

Definition test_bandwidth_limiter_reset : test unit :=
  limiter ← new_limiter 1000 1000;
  '(_, limiter) ← consume 1000 limiter;
  '(result, limiter) ← consume 100 limiter;
  _ ← assert (is_none result);
  let limiter := BandwidthLimiter_reset limiter in
  '(result, limiter) ← consume 1000 limiter;
  assert (is_some result).

Definition test_bandwidth_limiter_unlimited : test unit :=
  limiter ← new_limiter (U64_MAX / 4) (U64_MAX / 4);
  '(_, _) ← repeated 1000 (λ limiter, '(r, limiter) ← consume 1000000 limiter;
                                      _ ← assert (is_some r); mret (tt, limiter)) limiter;
  mret tt.

Definition test_user_bandwidth_tracker : test unit :=
  now ← instant_now;
  let tracker := UserBandwidthTracker_new now "user1" (Some 100) in
  '(r, tracker) ← user_relay 500 tracker; _ ← assert (is_some r);
  '(r, tracker) ← user_relay 500 tracker; _ ← assert (is_some r);
  '(r, tracker) ← user_relay 100 tracker; _ ← assert (is_none r);
  assert_eq (ub_total_bytes tracker) 1000.

Definition test_user_bandwidth_tracker_unlimited : test unit :=
  now ← instant_now;
  let tracker := UserBandwidthTracker_new now "user1" None in
  '(_, tracker) ← repeated 100 (λ tracker, '(r, tracker) ← user_relay 1000000 tracker;
                                           _ ← assert (is_some r); mret (tt, tracker)) tracker;
  assert_eq (ub_total_bytes tracker) 100000000.

Definition test_allocation_bandwidth_tracker : test unit :=
  now ← instant_now;
  let tracker := with_relayed_addr "10.0.0.1:49152" (AllocationBandwidthTracker_new now (Some 100)) in
  '(r, tracker) ← allocation_relay 500 tracker; _ ← assert (is_some r);
  '(r, tracker) ← allocation_relay 500 tracker; _ ← assert (is_some r);
  '(r, tracker) ← allocation_relay 100 tracker; assert (is_none r).

Definition test_bandwidth_manager : test unit :=
  manager ← new_manager (Some 10000);
  manager ← manager_register "10.0.0.1:49152" (Some 5000) manager;
  manager ← manager_register "10.0.0.1:49153" (Some 5000) manager;
  '(ok, manager) ← manager_relay "10.0.0.1:49152" 50000 manager; _ ← assert ok;
  '(ok, manager) ← manager_relay "10.0.0.1:49153" 50000 manager; _ ← assert ok;
  '(ok, manager) ← manager_relay "10.0.0.1:49152" 100 manager; _ ← assert (negb ok);
  _ ← assert_eq (tracked_count manager) 2;
  assert_eq (total_bytes_relayed manager) 100000.

Definition test_bandwidth_manager_unregister : test unit :=
  manager ← new_manager (Some 10000);
  manager ← manager_register "10.0.0.1:49152" (Some 5000) manager;
  _ ← assert_eq (tracked_count manager) 1;
  let manager := unregister_allocation "10.0.0.1:49152" manager in
  assert_eq (tracked_count manager) 0.

Definition test_bandwidth_manager_no_tracker : test unit :=
  manager ← new_manager (Some 10000);
  '(ok, manager) ← manager_relay "10.0.0.1:49152" 10000 manager; _ ← assert ok;
  '(ok, manager) ← manager_relay "10.0.0.1:49152" 10000 manager; assert ok.

Definition test_bandwidth_manager_global_only : test unit :=
  manager ← new_manager (Some 5000);
  manager ← manager_register "10.0.0.1:49152" None manager;
  '(ok, manager) ← manager_relay "10.0.0.1:49152" 50000 manager; _ ← assert ok;
  '(ok, manager) ← manager_relay "10.0.0.1:49152" 100 manager; assert (negb ok).

Definition bandwidth_tests : list (test unit) :=
  [test_bandwidth_limiter_basic; test_bandwidth_limiter_rate_limiting; test_bandwidth_limiter_reset;
   test_bandwidth_limiter_unlimited; test_user_bandwidth_tracker; test_user_bandwidth_tracker_unlimited;
   test_allocation_bandwidth_tracker; test_bandwidth_manager; test_bandwidth_manager_unregister;
   test_bandwidth_manager_no_tracker; test_bandwidth_manager_global_only].

(** ** src/message.rs *)

Definition test_message_header_roundtrip : test unit :=
  let header := mkHeader Allocate Success 0 0x2112A442 [0; 1; 2; 3; 4; 5; 6; 7; 8; 9; 10; 11] in
  let encoded := MessageHeader_encode header in
  let parsed := MessageHeader_parse encoded in
  _ ← assert (is_some parsed);
  p ← unwrap parsed;
  assert_eq (method p) Allocate.

Definition test_attribute_encode_decode : test unit :=
  let attr := mkAttr REALM (str_bytes "test") in
  let encoded := Attribute_encode attr in
  decoded ← unwrap (Attribute_decode encoded);
  _ ← assert_eq (attr_type decoded) (attr_type attr);
  assert_eq (value decoded) (value attr).

Definition test_xor_address_v4 : test unit :=
  addr ← addr "192.168.1.1:12345";
  let magic := 0x2112A442 in
  let tid := replicate 12 0 in
  let encoded := encode_xor_address addr magic tid in
  decoded ← unwrap (decode_xor_address encoded magic tid);
  assert_eq (sa_port addr) (sa_port decoded).

Definition test_message_roundtrip : test unit :=
  let msg := mkMsg (mkHeader Allocate Success 0 0x2112A442 [0; 1; 2; 3; 4; 5; 6; 7; 8; 9; 10; 11])
               [mkAttr REALM (str_bytes "test")] in
  let encoded := Message_encode msg in
  let parsed := Message_parse encoded in
  _ ← assert (is_some parsed);
  p ← unwrap parsed;
  assert_eq (method (header p)) Allocate.

Definition test_fast_binding_response : test unit :=
  addr ← addr "192.168.1.1:12345";
  let tid := replicate 12 0 in
  let response := create_binding_response_fast tid addr in
  _ ← assert_eq (List.length response) 32%nat;
  let parsed := Message_parse response in
  _ ← assert (is_some parsed);
  msg ← unwrap parsed;
  _ ← assert_eq (method (header msg)) Binding;
  assert_eq (event_type (header msg)) Success.

(** [attributes.iter().find(..)] and the four bytes of an error code. *)
Definition find_attribute (m : Message) (ty : Z) : test Attribute :=
  unwrap (find_first (λ a, attr_type a =? ty) (attributes m)).
Definition be32_of (l : list Z) : test Z :=
  b0 ← unwrap (l !! 0%nat); b1 ← unwrap (l !! 1%nat); b2 ← unwrap (l !! 2%nat); b3 ← unwrap (l !! 3%nat);
  mret (be32 b0 b1 b2 b3).

Definition test_error_code_encoding_rfc5389 : test unit :=
  let header := mkHeader Allocate Request 0 0x2112A442 (replicate 12 0) in
  let msg := create_error_response header Unauthorized in
  err_attr ← find_attribute msg ERROR_CODE;
  let val := value err_attr in
  _ ← assert_eq (List.length val) (4 + String.length "Unauthorized")%nat;
  code ← be32_of val;
  _ ← assert_eq code 0x00000401;
  _ ← assert_eq (drop 4 val) (str_bytes "Unauthorized");
  let msg_custom := create_error_response_with_reason header InsufficientCapacity (Some "relay bind failed"%string) in
  attr_custom ← find_attribute msg_custom ERROR_CODE;
  _ ← assert_eq (drop 4 (value attr_custom)) (str_bytes "relay bind failed");
  let msg300 := create_error_response header TryAlternate in
  attr300 ← find_attribute msg300 ERROR_CODE;
  code300 ← be32_of (value attr300);
  assert_eq code300 0x00000300.

Definition message_tests : list (test unit) :=
  [test_message_header_roundtrip; test_attribute_encode_decode; test_xor_address_v4; test_message_roundtrip;
   test_fast_binding_response; test_error_code_encoding_rfc5389].

(** ** src/metrics.rs *)

Definition new_metrics : test MetricsInner := now ← instant_now; mret (Metrics_new now).
Definition snapshot (m : MetricsInner) : test MetricsSnapshot := now ← instant_now; mret (Metrics_snapshot now m).
Definition exported (m : MetricsInner) : test string := now ← instant_now; mret (export_prometheus now m).
Definition from_millis (n : Z) : Z := n * 1000000.

Definition test_metrics_collection : test unit :=
  metrics ← new_metrics;
  let metrics := record_allocation metrics in
  let metrics := record_request true (from_millis 10) false metrics in
  let metrics := record_bytes_relayed 1024 metrics in
  snap ← snapshot metrics;
  _ ← assert_eq (s_total_allocations snap) 1;
  _ ← assert_eq (s_active_allocations snap) 1;
  _ ← assert_eq (s_total_requests snap) 1;
  _ ← assert_eq (s_successful_requests snap) 1;
  assert_eq (s_total_bytes_relayed snap) 1024.

Definition test_prometheus_export : test unit :=
  metrics ← new_metrics;
  let metrics := record_allocation metrics in
  output ← exported metrics;
  _ ← assert (contains_str output "turn_total_allocations 1");
  assert (contains_str output "# TYPE turn_total_allocations counter").

Definition test_metrics_record_allocation_dropped : test unit :=
  metrics ← new_metrics;
  let metrics := record_allocation metrics in
  snap ← snapshot metrics; _ ← assert_eq (s_active_allocations snap) 1;
  let metrics := record_allocation_dropped metrics in
  snap ← snapshot metrics; _ ← assert_eq (s_active_allocations snap) 0;
  let metrics := record_allocation_dropped metrics in
  snap ← snapshot metrics; assert_eq (s_active_allocations snap) 0.

Definition test_metrics_request_tracking : test unit :=
  metrics ← new_metrics;
  let metrics := record_request true (from_millis 100) false metrics in
  let metrics := record_request false (from_millis 50) false metrics in
  let metrics := record_request false (from_millis 50) true metrics in
  snap ← snapshot metrics;
  _ ← assert_eq (s_total_requests snap) 3;
  _ ← assert_eq (s_successful_requests snap) 1;
  _ ← assert_eq (s_failed_requests snap) 2;
  assert_eq (s_auth_failures snap) 1.

Definition test_metrics_channel_tracking : test unit :=
  metrics ← new_metrics;
  let metrics := record_channel_bind metrics in
  let metrics := record_channel_bind metrics in
  snap ← snapshot metrics; _ ← assert_eq (s_active_channels snap) 2;
  let metrics := record_channel_unbind metrics in
  snap ← snapshot metrics; _ ← assert_eq (s_active_channels snap) 1;
  let metrics := record_channel_unbind metrics in
  let metrics := record_channel_unbind metrics in
  snap ← snapshot metrics; assert_eq (s_active_channels snap) 0.

Definition test_metrics_bytes_relayed : test unit :=
  metrics ← new_metrics;
  let metrics := record_bytes_relayed 1024 metrics in
  let metrics := record_bytes_relayed 2048 metrics in
  let metrics := record_bytes_relayed 512 metrics in
  snap ← snapshot metrics;
  _ ← assert_eq (s_total_bytes_relayed snap) 3584;
  assert_eq (s_total_messages snap) 3.

Definition test_prometheus_export_all_metrics : test unit :=
  metrics ← new_metrics;
  let metrics := record_allocation metrics in
  let metrics := record_request true (from_millis 10) false metrics in
  let metrics := record_bytes_relayed 100 metrics in
  let metrics := record_channel_bind metrics in
  output ← exported metrics;
  assert (forallb (contains_str output)
    ["# HELP turn_total_allocations"; "# TYPE turn_total_allocations counter";
     "# HELP turn_active_allocations"; "# TYPE turn_active_allocations gauge";
     "# HELP turn_total_bytes_relayed"; "# TYPE turn_total_bytes_relayed counter";
     "# HELP turn_total_messages"; "# TYPE turn_total_messages counter";
     "# HELP turn_total_requests"; "# HELP turn_auth_failures"; "# HELP turn_total_channel_binds";
     "# HELP turn_active_channels"; "# HELP turn_request_duration_ms"; "# HELP turn_uptime_seconds"]%string).

Definition test_metrics_clone : test unit :=
  metrics ← new_metrics;
  let metrics := record_allocation metrics in
  let metrics := record_allocation metrics in
  snap1 ← snapshot metrics; snap2 ← snapshot metrics;
  _ ← assert_eq (s_total_allocations snap1) 2;
  assert_eq (s_total_allocations snap2) 2.

Definition test_metrics_default : test unit :=
  metrics ← new_metrics;
  snap ← snapshot metrics;
  _ ← assert_eq (s_total_allocations snap) 0;
  _ ← assert_eq (s_active_allocations snap) 0;
  _ ← assert_eq (s_total_bytes_relayed snap) 0;
  _ ← assert_eq (s_total_messages snap) 0;
  assert_eq (s_total_requests snap) 0.

Definition metrics_tests : list (test unit) :=
  [test_metrics_collection; test_prometheus_export; test_metrics_record_allocation_dropped;
   test_metrics_request_tracking; test_metrics_channel_tracking; test_metrics_bytes_relayed;
   test_prometheus_export_all_metrics; test_metrics_clone; test_metrics_default].

(** ** src/short_term.rs *)

Section creds.
Context `{CR : Crypto}.

Definition generates (m : ShortTermCredentialManager) (user_id : string) : test (string * string * Z) :=
  now ← unix_now; mret (generate now m user_id None).
Definition verifies (m : ShortTermCredentialManager) (name pw : string) : test bool :=
  now ← unix_now; mret (verify now m name pw).
Definition expired_name (name : string) : test bool :=
  now ← unix_now; mret (ShortTerm.is_expired now name).

Definition test_short_term_credential_generation : test unit :=
  let manager := ShortTermCredentialManager_new "my_secret_key" in
  '(username, password, expires) ← generates manager "user123";
  _ ← assert (contains_str username "user123");
  _ ← assert (negb (str_eqb password ""));
  _ ← assert (0 <? expires);
  ok ← verifies manager username password;
  assert ok.

Definition test_short_term_credential_verification : test unit :=
  let manager := ShortTermCredentialManager_new "secret" in
  '(username, password, _) ← generates manager "testuser";
  ok ← verifies manager username "wrong_password"; _ ← assert (negb ok);
  ok ← verifies manager username password; assert ok.

Definition test_expired_credentials : test unit :=
  let expired_username := "1000000000:expired_user"%string in
  expired ← expired_name expired_username;
  assert expired.

Definition test_parse_username : test unit :=
  let manager := ShortTermCredentialManager_new "secret" in
  '(username, _, _) ← generates manager "myuser";
  match parse_username username with
  | Some (timestamp, user_id) =>
    _ ← assert_eq user_id "myuser"%string;
    assert (0 <? timestamp)
  | None => panics
  end.

Definition test_username_format_timestamp_userid : test unit :=
  let manager := ShortTermCredentialManager_new "secret" in
  '(username, _, expires) ← generates manager "testuser";
  let parts := split_on ":"%char username in
  _ ← assert_eq (List.length parts) 2%nat;
  p1 ← unwrap (parts !! 1%nat); _ ← assert_eq p1 "testuser"%string;
  p0 ← unwrap (parts !! 0%nat);
  timestamp ← unwrap (parse_uint U64_MAX p0);
  assert_eq timestamp expires.

Definition test_verify_with_different_secrets : test unit :=
  let manager1 := ShortTermCredentialManager_new "secret1" in
  let manager2 := ShortTermCredentialManager_new "secret2" in
  '(username, password, _) ← generates manager1 "user";
  ok ← verifies manager1 username password; _ ← assert ok;
  ok ← verifies manager2 username password; assert (negb ok).

Definition test_invalid_username_format : test unit :=
  let manager := ShortTermCredentialManager_new "secret" in
  ok ← verifies manager "invalidusername" "password"; _ ← assert (negb ok);
  ok ← verifies manager "a:b:c" "password"; _ ← assert (negb ok);
  ok ← verifies manager "12345:" "password"; assert (negb ok).

Definition test_is_expired_with_future_timestamp : test unit :=
  let future_username := "9999999999:future_user"%string in
  expired ← expired_name future_username;
  assert (negb expired).

Definition test_with_lifetime : test unit :=
  let manager := with_lifetime 7200 (ShortTermCredentialManager_new "secret") in
  '(_, _, expires) ← generates manager "user";
  now ← unix_now;
  _ ← assert (now <? expires);
  assert (expires <=? now + 7200 + 1).

Definition test_compute_password : test unit :=
  let manager := ShortTermCredentialManager_new "mykey" in
  let password1 := compute_password manager "1234567890:user1" in
  let password2 := compute_password manager "1234567890:user1" in
  _ ← assert_eq password1 password2;
  let password3 := compute_password manager "1234567890:user2" in
  assert_ne password1 password3.

Definition test_manager_clone : test unit :=
  let manager1 := ShortTermCredentialManager_new "secret" in
  let manager2 := manager1 in
  '(username, password, _) ← generates manager1 "user";
  ok ← verifies manager1 username password; _ ← assert ok;
  ok ← verifies manager2 username password; assert ok.

Definition test_different_user_different_credentials : test unit :=
  let manager := ShortTermCredentialManager_new "secret" in
  '(user1_name, user1_pass, _) ← generates manager "user1";
  '(user2_name, user2_pass, _) ← generates manager "user2";
  _ ← assert_ne user1_name user2_name;
  _ ← assert_ne user1_pass user2_pass;
  ok ← verifies manager user1_name user1_pass; _ ← assert ok;
  ok ← verifies manager user2_name user2_pass; assert ok.

Definition short_term_tests : list (test unit) :=
  [test_short_term_credential_generation; test_short_term_credential_verification; test_expired_credentials;
   test_parse_username; test_username_format_timestamp_userid; test_verify_with_different_secrets;
   test_invalid_username_format; test_is_expired_with_future_timestamp; test_with_lifetime;
   test_compute_password; test_manager_clone; test_different_user_different_credentials].
End creds.

(** ** Running them *)

Definition core_tests : list (test unit) :=
  auth_tests ++ bandwidth_tests ++ message_tests ++ metrics_tests ++ short_term_tests (CR := toy_crypto).

Lemma core_tests_pass : forallb (λ e, forallb (passes e) core_tests) environments = true.
Proof. vm_compute. reflexivity. Qed.
