(* ===== verification/UnitTestsServer.v ===== *)
(** * The unit tests of the server (src/server.rs, [mod tests])

    Translated like those of UnitTests, over the toy instance of Crypto.  A
    message handler reads its clocks, random bytes and draws from the
    environment of the test. *)

From S2P Require Import Prelude RustStd RustText StunMessage Errors Ports Channels Bandwidth Auth Alloc.
From S2P Require Import Framing Crypto Server ServerSpec System Listeners UnitTests.
Local Open Scope Z_scope.

(** ** What the tests call *)

Definition random_bytes (n : nat) : test (list Z) :=
  '(l, _) ← repeated n (λ u, r ← rand; mret (as_u8 r, u)) tt; mret l.

Definition message_env : test MsgEnv :=
  now ← instant_now; unix ← unix_now; random ← random_bytes 16; env ← create_env;
  mret (mkEnv now unix random env [] (Ok 0)).

Section server.
Context `{CR : Crypto} `{HO : HashOrder}.

Definition process (msg : Message) (s : TurnServer) (client : SocketAddr) : test (option (list Z) * TurnServer) :=
  env ← message_env;
  '(r, _, s) ← calls (process_message env msg client s);
  mret (r, s).
(** [process_message(..).await.unwrap()], parsed. *)
Definition process_parsed (msg : Message) (s : TurnServer) (client : SocketAddr) : test (Message * TurnServer) :=
  '(r, s) ← process msg s client;
  response ← unwrap r;
  parsed ← unwrap (Message_parse response);
  mret (parsed, s).

Definition server_new : test TurnServer :=
  now ← instant_now; mret (TurnServer_new now (mkIpv4 0 0 0 0) "test").

(** ** Requests *)

Definition build_allocate_request (transaction_id : list Z) : Message :=
  mkMsg (mkHeader Allocate Request 0 0x2112A442 transaction_id)
    [mkAttr REQUESTED_TRANSPORT [0x11; 0x00; 0x00; 0x00]].

Definition build_binding_request (transaction_id : list Z) : Message :=
  mkMsg (mkHeader Binding Request 0 0x2112A442 transaction_id) [].

Definition build_authenticated_allocate_request (transaction_id : list Z) (username realm nonce password : string)
    : test Message :=
  let msg := build_allocate_request transaction_id in
  let msg := add_attribute msg (mkAttr USERNAME (str_bytes username)) in
  let msg := add_attribute msg (mkAttr REALM (str_bytes realm)) in
  let msg := add_attribute msg (mkAttr NONCE (str_bytes nonce)) in
  let key := compute_message_integrity_key username realm password in
  calls (add_response_message_integrity msg key).

Definition build_authenticated_create_permission_request (transaction_id : list Z) (peer_addr : SocketAddr)
    (username realm nonce password : string) : test Message :=
  let msg := mkMsg (mkHeader CreatePermission Request 0 0x2112A442 transaction_id) [] in
  let msg := add_attribute msg (mkAttr USERNAME (str_bytes username)) in
  let msg := add_attribute msg (mkAttr REALM (str_bytes realm)) in
  let msg := add_attribute msg (mkAttr NONCE (str_bytes nonce)) in
  let msg := add_attribute msg (mkAttr PEER_ADDRESS (encode_xor_address peer_addr 0x2112A442 transaction_id)) in
  let key := compute_message_integrity_key username realm password in
  calls (add_response_message_integrity msg key).

Definition build_authenticated_channel_bind_request (transaction_id : list Z) (peer_addr : SocketAddr)
    (channel_num : Z) (username realm nonce password : string) : test Message :=
  let msg := mkMsg (mkHeader ChannelBind Request 0 0x2112A442 transaction_id) [] in
  let msg := add_attribute msg (mkAttr USERNAME (str_bytes username)) in
  let msg := add_attribute msg (mkAttr REALM (str_bytes realm)) in
  let msg := add_attribute msg (mkAttr NONCE (str_bytes nonce)) in
  let msg := add_attribute msg (mkAttr PEER_ADDRESS (encode_xor_address peer_addr 0x2112A442 transaction_id)) in
  let msg := add_attribute msg (mkAttr CHANNEL_NUMBER
                                  [as_u8 (Z.shiftr channel_num 8); as_u8 (Z.land channel_num 0xFF)]) in
  let key := compute_message_integrity_key username realm password in
  calls (add_response_message_integrity msg key).

Definition build_authenticated_refresh_request (transaction_id : list Z) (lifetime : Z)
    (username realm nonce password : string) : test Message :=
  let msg := mkMsg (mkHeader Refresh Request 0 0x2112A442 transaction_id) [] in
  let msg := add_attribute msg (mkAttr USERNAME (str_bytes username)) in
  let msg := add_attribute msg (mkAttr REALM (str_bytes realm)) in
  let msg := add_attribute msg (mkAttr NONCE (str_bytes nonce)) in
  let msg := add_attribute msg (mkAttr LIFETIME (put_u32 lifetime)) in
  let key := compute_message_integrity_key username realm password in
  calls (add_response_message_integrity msg key).

(** ** Construction and framing *)

Definition test_create_server : test unit :=
  server ← server_new;
  _ ← assert_eq (relay_addr server) (mkIpv4 0 0 0 0);
  _ ← assert_eq (relay_bind_addr server) (mkIpv4 0 0 0 0);
  _ ← assert (stun_enabled server);
  assert (turn_enabled server).

Definition test_enabled_protocol_label : test unit :=
  _ ← assert_eq (enabled_protocol_label true true) "STUN/TURN"%string;
  _ ← assert_eq (enabled_protocol_label true false) "STUN"%string;
  _ ← assert_eq (enabled_protocol_label false true) "TURN"%string;
  assert_eq (enabled_protocol_label false false) "disabled STUN/TURN"%string.

Definition test_tls_handshake_eof_is_not_reported_as_hard_error : test unit :=
  _ ← assert (is_tls_handshake_eof UnexpectedEof "tls handshake eof");
  _ ← assert (is_tls_handshake_eof ConnectionReset "connection reset");
  assert (negb (is_tls_handshake_eof OtherKind "invalid certificate")).

Definition test_extract_stream_frame_keeps_partial_stun_message_buffered : test unit :=
  let encoded := Message_encode (build_binding_request (seqZ 0 12)) in
  let buf := take (length encoded - 1) encoded in
  let frame := extract_stream_frame buf in
  _ ← assert (is_none frame);
  let buf := match frame with Some (_, rest) => rest | None => buf end in
  assert_eq (length buf) (length encoded - 1)%nat.

Definition test_extract_stream_frame_reads_back_to_back_stun_messages : test unit :=
  let first := Message_encode (build_binding_request (seqZ 0 12)) in
  let second := Message_encode (build_allocate_request (rev (seqZ 0 12))) in
  let buf := first ++ second in
  '(frame, buf) ← unwrap (extract_stream_frame buf); _ ← assert_eq frame first;
  '(frame, buf) ← unwrap (extract_stream_frame buf); _ ← assert_eq frame second;
  assert_eq buf [].

Definition test_extract_stream_frame_consumes_channel_data_padding : test unit :=
  let buf := [0x40; 0x00; 0x00; 0x03; 1; 2; 3; 0] in
  '(frame, buf) ← unwrap (extract_stream_frame buf);
  _ ← assert_eq frame [0x40; 0x00; 0x00; 0x03; 1; 2; 3; 0];
  assert_eq buf [].

Definition test_missing_stream_channel_padding : test unit :=
  _ ← assert_eq (missing_stream_channel_padding [0x40; 0x00; 0x00; 0x03; 1; 2; 3]) 1;
  _ ← assert_eq (missing_stream_channel_padding [0x40; 0x00; 0x00; 0x03; 1; 2; 3; 0]) 0;
  assert_eq (missing_stream_channel_padding [0x00; 0x01; 0x00; 0x00]) 0.

Definition test_write_stream_frame_pads_channel_data : test unit :=
  out ← calls (write_stream_frame [0x40; 0x00; 0x00; 0x03; 1; 2; 3]);
  let written := length out in
  _ ← assert_eq written 8%nat;
  assert_eq out [0x40; 0x00; 0x00; 0x03; 1; 2; 3; 0].

(** ** Requests and responses *)

Definition test_stun_disabled_drops_binding_request : test unit :=
  server ← server_new;
  let server := set_protocol_enabled false true server in
  client_addr ← addr "127.0.0.1:50000";
  let msg := build_binding_request (seqZ 0 12) in
  '(response, _) ← process msg server client_addr;
  assert (is_none response).

Definition test_turn_disabled_drops_allocate_request : test unit :=
  server ← server_new;
  let server := set_protocol_enabled true false server in
  client_addr ← addr "127.0.0.1:50000";
  let msg := build_allocate_request (seqZ 0 12) in
  '(response, _) ← process msg server client_addr;
  assert (is_none response).

Definition test_stats : test unit :=
  server ← server_new;
  let '(total_allocations, _, _, _) := TurnServer_stats server in
  assert_eq total_allocations 0.

Definition test_server_with_limits : test unit :=
  now ← instant_now;
  let server := TurnServer_with_limits now (mkIpv4 127 0 0 1) "test-realm" (Some 100) (Some 600) in
  _ ← assert_eq (relay_addr server) (mkIpv4 127 0 0 1);
  assert_eq (relay_bind_addr server) (mkIpv4 127 0 0 1).

(** [chunks(2)] of an even number of bytes. *)
Fixpoint chunks2 (l : list Z) : list (list Z) :=
  match l with a :: b :: l => [a; b] :: chunks2 l | [a] => [[a]] | [] => [] end.

Definition test_nonce_generation : test unit :=
  random ← random_bytes 16; let nonce1 := generate_nonce random in
  random ← random_bytes 16; let nonce2 := generate_nonce random in
  _ ← assert_ne nonce1 nonce2;
  _ ← assert_eq (String.length nonce1) 32%nat;
  let unique_bytes := length (remove_dups (chunks2 (str_bytes nonce1))) in
  assert (bool_decide (4 < unique_bytes)%nat).

Definition test_message_integrity_key : test unit :=
  let key := compute_message_integrity_key "user" "realm" "pass" in
  assert_eq (length key) 16%nat.

(** What the authenticated tests begin with: the server, and the nonce of the
    challenge an unauthenticated Allocate is answered with. *)
Definition password_server (realm password : string) : test TurnServer :=
  now ← instant_now; mret (with_password now (mkIpv4 127 0 0 1) realm password).
Definition obtain_nonce (server : TurnServer) (client_addr : SocketAddr) : test (Message * string * TurnServer) :=
  let unauth_msg := build_allocate_request (seqZ 0 12) in
  '(nonce_msg, server) ← process_parsed unauth_msg server client_addr;
  attr ← unwrap (get_attribute nonce_msg NONCE);
  nonce ← unwrap (from_utf8 (value attr));
  mret (nonce_msg, nonce, server).

(** [for attempt in ..]: the body breaks with a value or goes on. *)
Fixpoint for_attempts {A} (attempts : list Z) (body : Z → TurnServer → test (option A * TurnServer))
    (server : TurnServer) : test (option A * TurnServer) :=
  match attempts with
  | [] => mret (None, server)
  | attempt :: attempts =>
    '(r, server) ← body attempt server;
    match r with Some a => mret (Some a, server) | None => for_attempts attempts body server end
  end.

(** One attempt: the parsed answer to an authenticated Allocate. *)
Definition attempt_allocate (username realm nonce password : string) (client_addr : SocketAddr)
    (attempt : Z) (server : TurnServer) : test (Message * TurnServer) :=
  let tid := replicate 11 0 ++ [attempt] in
  auth_msg ← build_authenticated_allocate_request tid username realm nonce password;
  process_parsed auth_msg server client_addr.

Definition test_authenticated_allocate_success_contains_required_attributes : test unit :=
  let realm := "test-realm"%string in
  let username := "admin"%string in
  let password := "password"%string in
  server ← password_server realm password;
  client_addr ← addr "127.0.0.1:50000";
  '(nonce_msg, nonce, server) ← obtain_nonce server client_addr;
  _ ← assert_eq (event_type (header nonce_msg)) StunMessage.Error;
  '(success_msg, server) ← for_attempts [0; 1; 2; 3; 4] (λ attempt server,
    '(parsed, server) ← attempt_allocate username realm nonce password client_addr attempt server;
    if bool_decide (event_type (header parsed) = Success) then mret (Some parsed, server) else
    err_attr ← unwrap (get_attribute parsed ERROR_CODE);
    b0 ← unwrap (value err_attr !! 0%nat); b1 ← unwrap (value err_attr !! 1%nat);
    b2 ← unwrap (value err_attr !! 2%nat); b3 ← unwrap (value err_attr !! 3%nat);
    let raw := be32 b0 b1 b2 b3 in
    let code := Z.land (Z.shiftr raw 8) 0x7 * 100 + Z.land raw 0xff in
    _ ← assert ((code =? 486) || (code =? 508));
    mret (None, server)) server;
  success_msg ← unwrap success_msg;
  _ ← assert_eq (method (header success_msg)) Allocate;
  _ ← assert_eq (event_type (header success_msg)) Success;
  _ ← assert (is_some (get_attribute success_msg MESSAGE_INTEGRITY));
  _ ← assert (is_some (get_attribute success_msg XOR_RELAYED_ADDRESS));
  _ ← assert (is_some (get_attribute success_msg XOR_MAPPED_ADDRESS));
  assert (is_some (get_attribute success_msg LIFETIME)).

(** The loop of the next two tests: until the first success, with the relayed
    address its response carries. *)
Definition allocate_relayed (username realm nonce password : string) (client_addr : SocketAddr)
    (server : TurnServer) : test (SocketAddr * TurnServer) :=
  '(relayed_addr, server) ← for_attempts [0; 1; 2; 3; 4] (λ attempt server,
    '(parsed, server) ← attempt_allocate username realm nonce password client_addr attempt server;
    if bool_decide (event_type (header parsed) = Success) then
      mret (Some (attr ← get_attribute parsed XOR_RELAYED_ADDRESS;
                  decode_xor_address (value attr) 0x2112A442 (transaction_id (header parsed))), server)
    else mret (None, server)) server;
  relayed_addr ← unwrap (r ← relayed_addr; r);
  mret (relayed_addr, server).

Definition test_authenticated_create_permission_success_contains_message_integrity : test unit :=
  let realm := "test-realm"%string in
  let username := "admin"%string in
  let password := "password"%string in
  server ← password_server realm password;
  client_addr ← addr "127.0.0.1:50001";
  '(_, nonce, server) ← obtain_nonce server client_addr;
  '(relayed_addr, server) ← allocate_relayed username realm nonce password client_addr server;
  cp_msg ← build_authenticated_create_permission_request (rev (seqZ 0 12)) relayed_addr
             username realm nonce password;
  '(cp_parsed, _) ← process_parsed cp_msg server client_addr;
  _ ← assert_eq (event_type (header cp_parsed)) Success;
  assert (is_some (get_attribute cp_parsed MESSAGE_INTEGRITY)).

Definition test_authenticated_channel_bind_success_contains_message_integrity : test unit :=
  let realm := "test-realm"%string in
  let username := "admin"%string in
  let password := "password"%string in
  server ← password_server realm password;
  client_addr ← addr "127.0.0.1:50002";
  '(_, nonce, server) ← obtain_nonce server client_addr;
  '(_relayed_addr, server) ← allocate_relayed username realm nonce password client_addr server;
  peer_addr ← addr "127.0.0.1:9999";
  cb_msg ← build_authenticated_channel_bind_request (rev (seqZ 0 12)) peer_addr 0x4000
             username realm nonce password;
  '(cb_parsed, _) ← process_parsed cb_msg server client_addr;
  _ ← assert_eq (event_type (header cb_parsed)) Success;
  assert (is_some (get_attribute cb_parsed MESSAGE_INTEGRITY)).

(** The loop of the last two tests: the fifth failure panics. *)
Definition allocate_or_panic (username realm nonce password : string) (client_addr : SocketAddr)
    (server : TurnServer) : test TurnServer :=
  '(_, server) ← for_attempts [0; 1; 2; 3; 4] (λ attempt server,
    '(parsed, server) ← attempt_allocate username realm nonce password client_addr attempt server;
    if bool_decide (event_type (header parsed) = Success) then mret (Some tt, server) else
    _ ← assert (negb (attempt =? 4));
    mret (None, server)) server;
  mret server.

Definition test_authenticated_refresh_success_contains_message_integrity : test unit :=
  let realm := "test-realm"%string in
  let username := "admin"%string in
  let password := "password"%string in
  server ← password_server realm password;
  client_addr ← addr "127.0.0.1:50003";
  '(_, nonce, server) ← obtain_nonce server client_addr;
  server ← allocate_or_panic username realm nonce password client_addr server;
  refresh_msg ← build_authenticated_refresh_request (rev (seqZ 0 12)) 600 username realm nonce password;
  '(refresh_parsed, _) ← process_parsed refresh_msg server client_addr;
  _ ← assert_eq (event_type (header refresh_parsed)) Success;
  _ ← assert (is_some (get_attribute refresh_parsed MESSAGE_INTEGRITY));
  assert (is_some (get_attribute refresh_parsed LIFETIME)).

Definition test_refresh_lifetime_zero_immediately_removes_allocation : test unit :=
  let realm := "test-realm"%string in
  let username := "admin"%string in
  let password := "password"%string in
  server ← password_server realm password;
  client_addr ← addr "127.0.0.1:50010";
  '(_, nonce, server) ← obtain_nonce server client_addr;
  server ← allocate_or_panic username realm nonce password client_addr server;
  _ ← assert (is_some (find_allocation_by_client (allocation_table server) client_addr));
  relayed ← unwrap (find_allocation_by_client (allocation_table server) client_addr);
  peer ← addr "10.0.0.2:5000";
  channels ← bind_unwrap 0x4000 peer relayed (channel_table server);
  let server := set_channel_table channels server in
  _ ← assert_eq (ChannelTable_len (channel_table server)) 1;
  refresh_msg ← build_authenticated_refresh_request (rev (seqZ 0 12)) 0 username realm nonce password;
  '(refresh_parsed, server) ← process_parsed refresh_msg server client_addr;
  _ ← assert_eq (event_type (header refresh_parsed)) Success;
  _ ← assert (is_none (find_allocation_by_client (allocation_table server) client_addr));
  _ ← assert_eq (active_allocations (stats (allocation_table server))) 0;
  assert_eq (ChannelTable_len (channel_table server)) 0.

Definition server_tests : list (test unit) :=
  [test_create_server; test_enabled_protocol_label; test_tls_handshake_eof_is_not_reported_as_hard_error;
   test_extract_stream_frame_keeps_partial_stun_message_buffered;
   test_extract_stream_frame_reads_back_to_back_stun_messages;
   test_extract_stream_frame_consumes_channel_data_padding; test_missing_stream_channel_padding;
   test_write_stream_frame_pads_channel_data; test_stun_disabled_drops_binding_request;
   test_turn_disabled_drops_allocate_request; test_stats; test_server_with_limits; test_nonce_generation;
   test_message_integrity_key; test_authenticated_allocate_success_contains_required_attributes;
   test_authenticated_create_permission_success_contains_message_integrity;
   test_authenticated_channel_bind_success_contains_message_integrity;
   test_authenticated_refresh_success_contains_message_integrity;
   test_refresh_lifetime_zero_immediately_removes_allocation].
End server.

(** ** Running them *)

Lemma server_tests_pass :
  forallb (λ e, forallb (passes e) (server_tests (CR := toy_crypto) (HO := map_order))) environments = true.
Proof. vm_compute. reflexivity. Qed.
