(* ===== verification/UnitTestsAdmin.v ===== *)
(** * The unit tests of the configuration and of what surrounds the server (src/config.rs, health.rs, oauth.rs, sds.rs, tls.rs)

    Translated like those of UnitTests, over the toy instances of Crypto, Jwt
    (with the real base64), Toml (with what the tests' documents denote) and Pki.
    Left out: the test that searches printed TOML text, and those that draw P-256
    keys or compare two generated certificates, which test the crates behind
    these parameters. *)

From S2P Require Import Prelude RustStd RustText Serde StunMessage Ports Channels Bandwidth Auth Alloc Crypto ShortTerm Config Admin.
From S2P Require Import OAuth Sds Tls UnitTests.
From Stdlib Require Import Ascii.
Local Open Scope Z_scope.

(** ** src/config.rs *)

(** The documents of the tests, with single quotes for the double ones. *)
Definition document (s : string) : string := replace_char "'"%char (ascii_of_nat 34) s.

Definition turn_rest_text : string := document "
[server]
realm = 'test-realm'
external_ip = '192.168.1.1'
relay_bind_ip = '0.0.0.0'
start_port = 49152
end_port = 65535
max_concurrent_allocations = 100
max_allocation_duration_secs = 600
stun_enabled = false
turn_enabled = true

[[server.listening]]
protocol = 'udp'
address = '0.0.0.0:3478'

[[server.listening]]
protocol = 'tcp'
address = '0.0.0.0:3478'

[http]
address = '0.0.0.0:8080'
turn_rest_enabled = true
turn_rest_secret = 'my-secret-key'
turn_rest_default_lifetime = 7200

[auth]
users = []

[auth.api_keys]
key1 = 'user1'

[[auth.acl_rules]]
ip_range = '0.0.0.0/0'
action = 'Allow'
priority = 0
".

Definition letsencrypt_text : string := document "
[server]
realm = 'test-realm'
external_ip = '192.168.1.1'
start_port = 49152
end_port = 65535

[[server.listening]]
protocol = 'tls'
address = '0.0.0.0:5349'

[certificates]
source = 'letsencrypt'
environment = 'staging'
domains = ['turn.example.com']
email = 'admin@example.com'
http01_address = '0.0.0.0:80'
cache_dir = './cert-cache'
renew_before_days = 30

[auth]
users = []
".

Definition sds_text : string := document "
[server]
realm = 'test-realm'
external_ip = '192.168.1.1'
start_port = 49152
end_port = 65535

[[server.listening]]
protocol = 'dtls'
address = '0.0.0.0:5349'

[certificates]
source = 'sds'
sds_address = 'http://127.0.0.1:18000'
sds_api = 'ads'
sds_resource_name = 'turn-cert'
sds_node_id = 'miuturn'
sds_cluster = 'turn'
sds_timeout_secs = 5
cache_dir = './cert-cache'

[auth]
users = []
".

Definition full_user_text : string := document "
[server]
realm = 'test-realm'
external_ip = '192.168.1.1'
start_port = 49152
end_port = 65535

[[server.listening]]
protocol = 'udp'
address = '0.0.0.0:3478'

[http]
address = '0.0.0.0:8080'

[[auth.users]]
username = 'fulluser'
password = 'secret'
user_type = 'fixed'
max_allocations = 5
bandwidth_limit = 1048576
max_allocation_duration_secs = 600
ip_whitelist = ['192.168.1.0/24', '10.0.0.1']

[auth.api_keys]

[[auth.acl_rules]]
ip_range = '0.0.0.0/0'
action = 'Allow'
priority = 0
".

Definition no_whitelist_text : string := document "
username = 'nowhitelist'
password = 'pass'
user_type = 'fixed'
ip_whitelist = []
".

(** What each of them denotes, for the TOML the tests run with. *)
Definition strings (l : list string) : Value := VArray (VString <$> l).
Definition rule_value (range : string) : Value :=
  VTable {["ip_range"%string := VString range; "action"%string := VString "Allow"; "priority"%string := VInt 0]}.
Definition listen_value (protocol address : string) : Value :=
  VTable {["protocol"%string := VString protocol; "address"%string := VString address]}.
Definition basic_server (protocol address : string) : Serde.Table :=
  {["realm"%string := VString "test-realm"; "external_ip"%string := VString "192.168.1.1";
    "start_port"%string := VInt 49152; "end_port"%string := VInt 65535;
    "listening"%string := VArray [listen_value protocol address]]}.

Definition turn_rest_table : Serde.Table :=
  {["server"%string := VTable
      (<["relay_bind_ip"%string := VString "0.0.0.0"]> (<["max_concurrent_allocations"%string := VInt 100]>
      (<["max_allocation_duration_secs"%string := VInt 600]> (<["stun_enabled"%string := VBool false]>
      (<["turn_enabled"%string := VBool true]>
      (<["listening"%string := VArray [listen_value "udp" "0.0.0.0:3478"; listen_value "tcp" "0.0.0.0:3478"]]>
        (basic_server "udp" "0.0.0.0:3478")))))));
    "http"%string := VTable {["address"%string := VString "0.0.0.0:8080"; "turn_rest_enabled"%string := VBool true;
      "turn_rest_secret"%string := VString "my-secret-key"; "turn_rest_default_lifetime"%string := VInt 7200]};
    "auth"%string := VTable {["users"%string := VArray []; "api_keys"%string := VTable {["key1"%string := VString "user1"]};
      "acl_rules"%string := VArray [rule_value "0.0.0.0/0"]]}]}.

Definition letsencrypt_table : Serde.Table :=
  {["server"%string := VTable (basic_server "tls" "0.0.0.0:5349");
    "certificates"%string := VTable {["source"%string := VString "letsencrypt"; "environment"%string := VString "staging";
      "domains"%string := strings ["turn.example.com"%string]; "email"%string := VString "admin@example.com";
      "http01_address"%string := VString "0.0.0.0:80"; "cache_dir"%string := VString "./cert-cache";
      "renew_before_days"%string := VInt 30]};
    "auth"%string := VTable {["users"%string := VArray []]}]}.

Definition sds_table : Serde.Table :=
  {["server"%string := VTable (basic_server "dtls" "0.0.0.0:5349");
    "certificates"%string := VTable {["source"%string := VString "sds";
      "sds_address"%string := VString "http://127.0.0.1:18000"; "sds_api"%string := VString "ads";
      "sds_resource_name"%string := VString "turn-cert"; "sds_node_id"%string := VString "miuturn";
      "sds_cluster"%string := VString "turn"; "sds_timeout_secs"%string := VInt 5;
      "cache_dir"%string := VString "./cert-cache"]};
    "auth"%string := VTable {["users"%string := VArray []]}]}.

Definition full_user_table : Serde.Table :=
  {["server"%string := VTable (basic_server "udp" "0.0.0.0:3478");
    "http"%string := VTable {["address"%string := VString "0.0.0.0:8080"]};
    "auth"%string := VTable {["users"%string := VArray [VTable {["username"%string := VString "fulluser";
        "password"%string := VString "secret"; "user_type"%string := VString "fixed"; "max_allocations"%string := VInt 5;
        "bandwidth_limit"%string := VInt 1048576; "max_allocation_duration_secs"%string := VInt 600;
        "ip_whitelist"%string := strings ["192.168.1.0/24"%string; "10.0.0.1"%string]]}];
      "api_keys"%string := VTable ∅; "acl_rules"%string := VArray [rule_value "0.0.0.0/0"]]}]}.

Definition no_whitelist_table : Serde.Table :=
  {["username"%string := VString "nowhitelist"; "password"%string := VString "pass";
    "user_type"%string := VString "fixed"; "ip_whitelist"%string := VArray []]}.

Definition test_toml : Toml :=
  toy_tables ([(turn_rest_text, turn_rest_table); (letsencrypt_text, letsencrypt_table); (sds_text, sds_table);
               (full_user_text, full_user_table); (no_whitelist_text, no_whitelist_table)]
              ++ config_tables [("defaults"%string, Config_default)]).

Section config.
Context `{TM : Toml}.

Definition test_config_default : test unit :=
  let config := Config_default in
  _ ← assert_eq (cfg_realm (server config)) "miuturn"%string;
  _ ← assert_eq (external_ip (server config)) "0.0.0.0"%string;
  _ ← assert_eq (relay_bind_ip (server config)) None;
  _ ← assert_eq (start_port (server config)) 49152;
  _ ← assert_eq (end_port (server config)) 65535;
  _ ← assert (is_none (cfg_max_concurrent_allocations (server config)));
  _ ← assert (cfg_stun_enabled (server config));
  assert (cfg_turn_enabled (server config)).

Definition test_http_config_default : test unit :=
  let http := HttpConfig_default in
  _ ← assert_eq (http_address http) "0.0.0.0:8080"%string;
  _ ← assert_eq (turn_rest_enabled http) (Some false);
  _ ← assert_eq (turn_rest_default_lifetime http) (Some 3600);
  assert (is_none (turn_rest_secret http)).

Definition test_config_toml_roundtrip : test unit :=
  let config := Config_default in
  serialized ← unwrap (to_string_pretty config);
  deserialized ← unwrap (from_toml serialized);
  _ ← assert_eq (cfg_realm (server deserialized)) (cfg_realm (server config));
  assert_eq (external_ip (server deserialized)) (external_ip (server config)).

Definition test_listen_config_addr : test unit :=
  let config := mkListen "udp" "192.168.1.1:3478" in
  addr ← calls (ListenConfig_addr config);
  assert_eq (sa_port addr) 3478.

Definition test_user_config : test unit :=
  let user := mkUserConfig "testuser" "testpass" "fixed" (Some 9999999999) (Some 5) (Some 1000000) None (Some 600) in
  _ ← assert_eq (uc_username user) "testuser"%string;
  _ ← assert_eq (uc_user_type user) "fixed"%string;
  assert (is_some (uc_expires_at user)).

Definition test_acl_rule_config : test unit :=
  let rule := mkRuleConfig "10.0.0.0/8" "Allow" (Some 10) in
  _ ← assert_eq (rc_ip_range rule) "10.0.0.0/8"%string;
  _ ← assert_eq (rc_action rule) "Allow"%string;
  assert_eq (rc_priority rule) (Some 10).

Definition test_user_config_with_minimal_fields : test unit :=
  let user := mkUserConfig "minimal" "pass" "temporary" None None None None None in
  _ ← assert_eq (uc_username user) "minimal"%string;
  _ ← assert (is_none (uc_bandwidth_limit user));
  _ ← assert (is_none (uc_ip_whitelist user));
  assert (is_none (uc_max_allocation_duration_secs user)).

Definition test_config_with_turn_rest : test unit :=
  config ← unwrap (from_toml turn_rest_text);
  _ ← assert_eq (cfg_realm (server config)) "test-realm"%string;
  _ ← assert_eq (external_ip (server config)) "192.168.1.1"%string;
  _ ← assert_eq (relay_bind_ip (server config)) (Some "0.0.0.0"%string);
  _ ← assert (negb (cfg_stun_enabled (server config)));
  _ ← assert (cfg_turn_enabled (server config));
  http ← unwrap (http config);
  _ ← assert_eq (turn_rest_enabled http) (Some true);
  _ ← assert_eq (turn_rest_secret http) (Some "my-secret-key"%string);
  _ ← assert_eq (turn_rest_default_lifetime http) (Some 7200);
  assert_eq (cfg_api_keys (auth config) !! "key1"%string) (Some "user1"%string).

Definition test_certificate_config_letsencrypt : test unit :=
  config ← unwrap (from_toml letsencrypt_text);
  certs ← unwrap (certificates config);
  _ ← assert_eq (source certs) "letsencrypt"%string;
  _ ← assert_eq (environment certs) (Some "staging"%string);
  _ ← assert_eq (domains certs) ["turn.example.com"%string];
  assert_eq (renew_before_days certs) (Some 30).

Definition test_certificate_config_sds : test unit :=
  config ← unwrap (from_toml sds_text);
  certs ← unwrap (certificates config);
  _ ← assert_eq (source certs) "sds"%string;
  _ ← assert_eq (sds_address certs) (Some "http://127.0.0.1:18000"%string);
  _ ← assert_eq (sds_api certs) (Some "ads"%string);
  _ ← assert_eq (Config.sds_resource_name certs) (Some "turn-cert"%string);
  _ ← assert_eq (sds_node_id certs) (Some "miuturn"%string);
  _ ← assert_eq (sds_cluster certs) (Some "turn"%string);
  assert_eq (sds_timeout_secs certs) (Some 5).

Definition test_config_toml_with_full_user_config : test unit :=
  config ← unwrap (from_toml full_user_text);
  _ ← assert_eq (Z.of_nat (length (cfg_users (auth config)))) 1;
  user ← unwrap (cfg_users (auth config) !! 0%nat);
  _ ← assert_eq (uc_username user) "fulluser"%string;
  _ ← assert_eq (uc_bandwidth_limit user) (Some 1048576);
  _ ← assert_eq (uc_max_allocation_duration_secs user) (Some 600);
  whitelist ← unwrap (uc_ip_whitelist user);
  _ ← assert_eq (Z.of_nat (length whitelist)) 2;
  assert (bool_decide ("192.168.1.0/24"%string ∈ whitelist)).

Definition test_user_config_empty_ip_whitelist : test unit :=
  user ← unwrap (m ← toml_parse no_whitelist_text; get_user (VTable m));
  whitelist ← unwrap (uc_ip_whitelist user);
  assert_eq (Z.of_nat (length whitelist)) 0.

Definition config_tests : list (test unit) :=
  [test_config_default; test_http_config_default; test_config_toml_roundtrip; test_config_with_turn_rest;
   test_listen_config_addr; test_certificate_config_letsencrypt; test_certificate_config_sds; test_user_config;
   test_acl_rule_config; test_config_toml_with_full_user_config; test_user_config_with_minimal_fields;
   test_user_config_empty_ip_whitelist].
End config.

(** ** src/health.rs *)

(** [json[i]], [json[name]], [as_array] and [as_str] of serde_json. *)
Definition json_index (v : json) (i : nat) : json :=
  match v with JArr l => default JNull (l !! i) | _ => JNull end.
Definition json_field (v : json) (name : string) : json :=
  match v with
  | JObj fields => match find_first (λ f, str_eqb f.1 name) fields with Some (_, x) => x | None => JNull end
  | _ => JNull
  end.
Definition as_array (v : json) : option (list json) := match v with JArr l => Some l | _ => None end.
Definition as_str (v : json) : option string := match v with JStr s => Some s | _ => None end.
Definition json_body (r : Response) : test json := match body r with BJson v => mret v | _ => panics end.

Section health.
Context `{CR : Crypto}.

Definition test_turn_rest_state_disabled : test unit :=
  let state := mkTurnRest false None in
  _ ← assert (negb (rest_enabled state));
  assert (is_none (credential_manager state)).

Definition test_turn_rest_state_enabled_with_manager : test unit :=
  let manager := ShortTermCredentialManager_new "test-secret" in
  let state := mkTurnRest true (Some manager) in
  _ ← assert (rest_enabled state);
  assert (is_some (credential_manager state)).

Definition test_admin_state_empty_credentials : test unit :=
  let state := mkAdmin None None in
  _ ← assert (is_none (adm_username state));
  assert (is_none (adm_password state)).

Definition test_admin_state_with_credentials : test unit :=
  let state := mkAdmin (Some "admin"%string) (Some "secret"%string) in
  _ ← assert_eq (adm_username state) (Some "admin"%string);
  assert_eq (adm_password state) (Some "secret"%string).

Definition test_check_auth_no_admin : test unit :=
  let jar : CookieJar := ∅ in
  let admin_state := mkAdmin None None in
  assert (check_auth jar admin_state).

Definition test_check_auth_with_cookie : test unit :=
  let jar : CookieJar := <[SESSION_COOKIE := SESSION_VALUE]> ∅ in
  let admin_state := mkAdmin (Some "admin"%string) (Some "secret"%string) in
  assert (check_auth jar admin_state).

Definition test_check_auth_no_cookie : test unit :=
  let jar : CookieJar := ∅ in
  let admin_state := mkAdmin (Some "admin"%string) (Some "secret"%string) in
  assert (negb (check_auth jar admin_state)).

Definition admin_env : test AdminEnv :=
  unix ← unix_now; now ← instant_now; mret (mkAdminEnv unix now (0, 0, 0, 0) true Written).

Definition test_ice_servers_handler_success : test unit :=
  let manager := ShortTermCredentialManager_new "test-secret" in
  let state := mkApp (mkAdmin None None) (mkTurnRest true (Some manager)) None None "192.168.1.1"
                 [mkListen "udp" "0.0.0.0:3478"; mkListen "tcp" "0.0.0.0:3478"] ["127.0.0.1"%string] false in
  let query := mkIceQuery "testuser" (Some 7200) in
  env ← admin_env;
  response ← calls (ice_servers_handler env state query);
  json ← json_body response;
  urls ← unwrap (as_array (json_field (json_index json 0) "urls"));
  _ ← assert (existsb (λ u, bool_decide (as_str u = Some "turn:192.168.1.1:3478"%string)) urls);
  _ ← assert (existsb (λ u, bool_decide (as_str u = Some "turn:192.168.1.1:3478?transport=tcp"%string)) urls);
  name ← unwrap (as_str (json_field (json_index json 0) "username"));
  _ ← assert (contains_str name "testuser");
  assert (is_some (as_str (json_field (json_index json 0) "credential"))).

Definition test_ice_servers_handler_disabled : test unit :=
  let state := mkApp (mkAdmin None None) (mkTurnRest false None) None None "192.168.1.1" []
                 ["127.0.0.1"%string] false in
  let query := mkIceQuery "testuser" None in
  env ← admin_env;
  response ← calls (ice_servers_handler env state query);
  json ← json_body response;
  l ← unwrap (as_array json);
  assert_eq (length l) 0%nat.

Definition health_tests : list (test unit) :=
  [test_turn_rest_state_disabled; test_turn_rest_state_enabled_with_manager; test_admin_state_empty_credentials;
   test_admin_state_with_credentials; test_check_auth_no_admin; test_check_auth_with_cookie;
   test_check_auth_no_cookie; test_ice_servers_handler_success; test_ice_servers_handler_disabled].
End health.

(** ** src/oauth.rs *)

Section oauth.
Context `{JW : Jwt}.

(** The two JSON texts the tests sign: [claims_text] prints them as the
    literals of the source. *)
Definition header_text : string := claims_text [("alg", CStr "HS256"); ("typ", CStr "JWT")]%string.
Definition payload_text (user_id : string) (exp : Z) : string :=
  claims_text [("sub", CStr user_id); ("exp", CNum exp)]%string.

Definition create_test_token (user_id secret : string) (exp : Z) : string :=
  let header := base64_standard_encode (str_bytes header_text) in
  let payload := base64_standard_encode (str_bytes (payload_text user_id exp)) in
  let signature_input := (header +:+ "." +:+ payload) in
  let sig := compute_hmac_sha256 signature_input secret in
  let signature := base64_standard_encode sig in
  (header +:+ "." +:+ payload +:+ "." +:+ signature).

Definition validates (v : OAuthValidator) (token : string) : test (option string) :=
  now ← unix_now; calls (validate_token now v token).

Definition test_oauth_config_default : test unit :=
  let config := OAuthConfig_default in
  assert (negb (enabled config)).

Definition test_oauth_config_enabled : test unit :=
  let config := OAuthConfig_new "secret" in
  _ ← assert (enabled config);
  assert_eq (jwt_secret config) "secret"%string.

Definition test_oauth_validator_disabled : test unit :=
  let config := OAuthConfig_default in
  let validator := mkValidator config in
  _ ← assert (negb (is_enabled validator));
  r ← validates validator "any";
  assert (is_none r).

Definition test_oauth_validator_valid_token : test unit :=
  let secret := "my-secret-key"%string in
  let validator := mkValidator (OAuthConfig_new secret) in
  now ← unix_now;
  let future_exp := now + 3600 in
  let token := create_test_token "user123" secret future_exp in
  result ← validates validator token;
  assert_eq result (Some "user123"%string).

Definition test_oauth_validator_expired_token : test unit :=
  let secret := "my-secret-key"%string in
  let validator := mkValidator (OAuthConfig_new secret) in
  let past_exp := 1000000000 in
  let token := create_test_token "user123" secret past_exp in
  r ← validates validator token;
  assert (is_none r).

Definition test_oauth_validator_invalid_signature : test unit :=
  let secret := "my-secret-key"%string in
  let validator := mkValidator (OAuthConfig_new secret) in
  now ← unix_now;
  let future_exp := now + 3600 in
  let token := create_test_token "user123" "wrong-secret" future_exp in
  r ← validates validator token;
  assert (is_none r).

Definition test_oauth_validator_malformed_token : test unit :=
  let validator := mkValidator (OAuthConfig_new "secret") in
  r ← validates validator ""; _ ← assert (is_none r);
  r ← validates validator "abc"; _ ← assert (is_none r);
  r ← validates validator "a.b"; _ ← assert (is_none r);
  r ← validates validator "a.b.c.d"; assert (is_none r).

Definition test_oauth_validator_with_issuer : test unit :=
  let secret := "my-secret-key"%string in
  let cfg := with_issuer "https://auth.example.com" (OAuthConfig_new secret) in
  let validator := mkValidator cfg in
  assert (str_eqb (issuer (config validator)) "https://auth.example.com").

Definition test_extract_bearer_token : test unit :=
  _ ← assert_eq (extract_bearer_token "Bearer abc123") (Some "abc123"%string);
  _ ← assert_eq (extract_bearer_token "Bearer ") (Some ""%string);
  _ ← assert_eq (extract_bearer_token "Basic abc123") None;
  assert_eq (extract_bearer_token "abc123") None.

Definition test_base64_decode : test unit :=
  decoded ← unwrap (base64_decode "aGVsbG8");
  assert_eq decoded (str_bytes "hello").

Definition test_compute_hmac_sha256 : test unit :=
  let sig := compute_hmac_sha256 "message" "key" in
  _ ← assert (negb (bool_decide (sig = [])));
  let sig2 := compute_hmac_sha256 "message" "key" in
  _ ← assert_eq sig sig2;
  let sig3 := compute_hmac_sha256 "message" "key2" in
  assert_ne sig sig3.

Definition test_get_user_info : test unit :=
  let secret := "my-secret-key"%string in
  let validator := mkValidator (OAuthConfig_new secret) in
  now ← unix_now;
  let future_exp := now + 3600 in
  let token := create_test_token "user456" secret future_exp in
  user_info ← calls (get_user_info validator token);
  _ ← assert (is_some user_info);
  info ← unwrap user_info;
  _ ← assert_eq (user_id info) "user456"%string;
  assert_eq (info_expires_at info) (Some future_exp).

Definition test_create_and_validate_token : test unit :=
  let secret := "test-secret-key-12345"%string in
  let validator := mkValidator (OAuthConfig_new secret) in
  let header := base64_standard_encode (str_bytes header_text) in
  now ← unix_now;
  let future_exp := now + 3600 in
  let payload := base64_standard_encode (str_bytes (payload_text "testuser" future_exp)) in
  let signature_input := (header +:+ "." +:+ payload) in
  let sig := compute_hmac_sha256 signature_input secret in
  let signature := base64_standard_encode sig in
  let token := (header +:+ "." +:+ payload +:+ "." +:+ signature) in
  result ← validates validator token;
  assert_eq result (Some "testuser"%string).

Definition oauth_tests : list (test unit) :=
  [test_oauth_config_default; test_oauth_config_enabled; test_oauth_validator_disabled;
   test_oauth_validator_valid_token; test_oauth_validator_expired_token; test_oauth_validator_invalid_signature;
   test_oauth_validator_malformed_token; test_oauth_validator_with_issuer; test_extract_bearer_token;
   test_base64_decode; test_compute_hmac_sha256; test_get_user_info; test_create_and_validate_token].
End oauth.

(** ** src/sds.rs *)

Definition test_normalize_endpoint_adds_http_scheme : test unit :=
  _ ← assert_eq (normalize_endpoint "127.0.0.1:18000") "http://127.0.0.1:18000"%string;
  assert_eq (normalize_endpoint "https://sds.example.com") "https://sds.example.com"%string.

Definition test_extract_tls_certificate_inline_string : test unit :=
  let secret := mkSecret "turn-cert" (Some (mkTlsCertificate
                  (Some (mkDataSource (Some (InlineString "CERT"))))
                  (Some (mkDataSource (Some (InlineString "KEY")))))) in
  '(cert, key) ← unwrap_ok (extract_certificate_from_secret ∅ secret);
  _ ← assert_eq cert "CERT"%string;
  assert_eq key "KEY"%string.

Definition test_configured_or_hostname_prefers_non_empty_config : test unit :=
  _ ← assert_eq (configured_or_hostname None None (Some "node-a"%string)) "node-a"%string;
  assert_eq (configured_or_hostname None None (Some "  node-b  "%string)) "node-b"%string.

Definition sds_tests : list (test unit) :=
  [test_normalize_endpoint_adds_http_scheme; test_extract_tls_certificate_inline_string;
   test_configured_or_hostname_prefers_non_empty_config].

(** ** src/tls.rs *)

Section tls.
Context `{PK : Pki}.

Definition nonempty {A} (l : list A) : bool := match l with [] => false | _ => true end.

Definition test_generate_self_signed_cert : test unit :=
  config ← unwrap_ok (generate_self_signed "test.example.com");
  _ ← assert (nonempty (cert_der config));
  _ ← assert_eq (length (cert_chain_der config)) 1%nat;
  assert (nonempty (key_der config)).

Definition test_generate_localhost_cert : test unit :=
  config ← unwrap_ok (generate_self_signed "localhost");
  _ ← assert (nonempty (cert_der config));
  assert (nonempty (key_der config)).

Definition test_tls_config_into_server_config : test unit :=
  config ← unwrap_ok (generate_self_signed "localhost");
  let server_config := into_server_config config in
  assert (is_ok server_config).

Definition test_default_test_tls_config : test unit :=
  let config := default_test_tls_config in
  _ ← assert (is_ok config);
  config ← unwrap_ok config;
  _ ← assert (nonempty (cert_der config));
  assert (nonempty (key_der config)).

(** No file of the paths exists; the environment is not consulted. *)
Definition test_dtls_certificate_config_falls_back_to_self_signed : test unit :=
  let config := mkCertConfig "local" (Some "/path/that/does/not/exist/cert.pem"%string)
                  (Some "/path/that/does/not/exist/key.pem"%string) ["localhost"%string]
                  None None None None None None None None None None None in
  unix ← unix_now;
  let te := mkTlsEnv unix (Ok tt) Written Written (Err "refused"%string) in
  let ae := mkAcmeEnv (λ _, Ok tt) (λ _ _, Ok []) Written (λ _, Err "no order"%string) (λ _, Ok tt) in
  let '(r, _) := load_dtls_certificate_config te ae config (mkTlsWorld ∅ ∅) in
  dtls_config ← unwrap_ok r;
  assert_eq (length dtls_config) 1%nat.

Definition test_sanitize_filename : test unit :=
  _ ← assert_eq (sanitize_filename "turn.example.com") "turn.example.com"%string;
  _ ← assert_eq (sanitize_filename "*.example.com") "_.example.com"%string;
  assert_eq (sanitize_filename "bad/name") "bad_name"%string.

Definition tls_tests : list (test unit) :=
  [test_generate_self_signed_cert; test_generate_localhost_cert; test_tls_config_into_server_config;
   test_default_test_tls_config; test_dtls_certificate_config_falls_back_to_self_signed; test_sanitize_filename].
End tls.

(** ** Running them *)

Definition admin_tests : list (test unit) :=
  config_tests (TM := test_toml) ++ health_tests (CR := toy_crypto) ++ oauth_tests (JW := toy_jwt) ++
  sds_tests ++ tls_tests (PK := toy_pki).

Lemma admin_tests_pass : forallb (λ e, forallb (passes e) admin_tests) environments = true.
Proof. vm_compute. reflexivity. Qed.
